(** * RTSP control channel of the AirPlay receiver firmware

    A shallow embedding of [main/rtsp/rtsp_crypto.c] (the encrypted frame
    reader and writer) and [main/rtsp/rtsp_message.c] (the request parser
    and the response builder), with the properties of the control-channel
    specification stated and proved over it.

    Conventions.
    - A byte ([uint8_t], [char]) is a [Z] in [0, 255]; wider unsigned
      integers are [Z] with their wrap-around written out ([u8], [u16],
      [u64]).  [size_t] has 32 bits on the target: a length of a list
      is left as it is (no buffer is longer than the address space), a
      converted [int] is reduced modulo 2^32, and a difference that can
      go below zero wraps around ([size_sub]).
    - The socket, the allocator and [errno] live in an explicit [world]
      that every operation threads through.
    - A loop of the C code is a function with fuel which answers [None]
      when the fuel is exhausted; the entry points supply fuel that is
      shown to suffice. *)

From Stdlib Require Import String Ascii.
From Stdlib Require Import ZArith List Bool Lia.
Import ListNotations.
Local Open Scope Z_scope.

(** ** Machine integers and byte buffers *)

Abbreviation byte := Z (only parsing).

Definition u8 (z : Z) : Z := z mod 256.
Definition u16 (z : Z) : Z := z mod 65536.
Definition u64 (z : Z) : Z := z mod 18446744073709551616.

(** [(int)x] for a 32-bit [int]. *)
Definition to_int (z : Z) : Z := (z + 2147483648) mod 4294967296 - 2147483648.

Definition len {A : Type} (l : list A) : Z := Z.of_nat (length l).

(** [memcpy(buf + off, src, |src|)] on a buffer modelled as a list. *)
Definition write_at (buf : list byte) (off : Z) (src : list byte) : list byte :=
  firstn (Z.to_nat off) buf ++ src ++ skipn (Z.to_nat off + length src) buf.

(** The [n] bytes of an integer in little-endian order: what [memcpy]
    reads from an integer object on the little-endian targets of the
    firmware. *)
Definition le_bytes (n : nat) (z : Z) : list byte :=
  map (fun i => Z.land (Z.shiftr z (8 * Z.of_nat i)) 255) (seq 0 n).

(** ** The world: socket, allocator, errno *)

Inductive errno_t :=
| EAGAIN | EWOULDBLOCK | ECONNRESET | EBADMSG | ENOMEM | EIO.

Definition would_block (e : errno_t) : bool :=
  match e with EAGAIN | EWOULDBLOCK => true | _ => false end.

(** What the next [recv] on the socket meets: some bytes that have
    arrived (at least one), a failure with an errno, or the end of the
    stream.  With nothing scripted the non-blocking socket has no data. *)
Inductive rx_event :=
| RxBytes (b : byte) (bs : list byte)
| RxFail (e : errno_t)
| RxClosed.

(** What the next [send] meets: the kernel takes at most [k] bytes, or the
    call fails.  With nothing scripted the socket takes all it is given. *)
Inductive tx_event :=
| TxAccept (k : positive)
| TxFail.

(** Calls into the allocator and into the AEAD primitive, in the order
    they happen. *)
Inductive event :=
| EvMalloc (size : Z) (ok : bool)
| EvFree
| EvEncrypt (key nonce ad msg : list byte)
| EvDecrypt (key nonce ad ct : list byte).

Record world := mkWorld {
  rx : list rx_event;
  tx : list tx_event;
  wire : list byte;          (* bytes the peer has been sent *)
  heap : list bool;          (* whether the next mallocs succeed *)
  errno : option errno_t;
  trace : list event
}.

Definition set_rx (w : world) (r : list rx_event) : world :=
  mkWorld r (tx w) (wire w) (heap w) (errno w) (trace w).
Definition set_errno (w : world) (e : errno_t) : world :=
  mkWorld (rx w) (tx w) (wire w) (heap w) (Some e) (trace w).
Definition log (w : world) (e : event) : world :=
  mkWorld (rx w) (tx w) (wire w) (heap w) (errno w) (trace w ++ [e]).

Inductive recv_result :=
| RecvOk (bs : list byte)     (* r = |bs|; r = 0 is an orderly close *)
| RecvFail (e : errno_t).     (* r = -1 with errno = e *)

(** [recv(socket, dst, n, 0)] on a non-blocking socket. *)
Definition recv (w : world) (n : Z) : recv_result * world :=
  match rx w with
  | [] => (RecvFail EAGAIN, set_errno w EAGAIN)
  | RxBytes b bs :: rest =>
      let avail := b :: bs in
      (RecvOk (firstn (Z.to_nat n) avail),
       set_rx w match skipn (Z.to_nat n) avail with
                | [] => rest
                | b' :: bs' => RxBytes b' bs' :: rest
                end)
  | RxFail e :: rest => (RecvFail e, set_errno (set_rx w rest) e)
  | RxClosed :: rest => (RecvOk [], set_rx w rest)
  end.

(** [send(socket, src, |src|, 0)]: the return value and the world after. *)
Definition send (w : world) (src : list byte) : Z * world :=
  match tx w with
  | [] =>
      (len src,
       mkWorld (rx w) [] (wire w ++ src) (heap w) (errno w) (trace w))
  | TxAccept k :: rest =>
      let n := Nat.min (Pos.to_nat k) (length src) in
      (Z.of_nat n,
       mkWorld (rx w) rest (wire w ++ firstn n src) (heap w) (errno w)
               (trace w))
  | TxFail :: rest =>
      (-1, mkWorld (rx w) rest (wire w) (heap w) (Some EIO) (trace w))
  end.

(** [malloc(size)]: whether a block was obtained. *)
Definition malloc (w : world) (size : Z) : bool * world :=
  match heap w with
  | [] => (true, log w (EvMalloc size true))
  | ok :: rest =>
      (ok, mkWorld (rx w) (tx w) (wire w) rest (errno w)
                   (trace w ++ [EvMalloc size ok]))
  end.

Definition free (w : world) : world := log w EvFree.

(** Blocks obtained and not yet released, read off a trace. *)
Fixpoint live_blocks (t : list event) : Z :=
  match t with
  | [] => 0
  | EvMalloc _ true :: t' => 1 + live_blocks t'
  | EvFree :: t' => live_blocks t' - 1
  | _ :: t' => live_blocks t'
  end.

(** [send_all] of both translation units: keep sending until every byte
    is taken or a [send] fails. *)
Fixpoint send_all_loop (fuel : nat) (w : world) (data : list byte) (sent : Z)
  : option (Z * world) :=
  if sent <? len data then
    match fuel with
    | O => None
    | S fuel' =>
        let '(r, w') := send w (skipn (Z.to_nat sent) data) in
        if r <=? 0 then Some (-1, w')
        else send_all_loop fuel' w' data (sent + r)
    end
  else Some (0, w).

Definition send_all (w : world) (data : list byte) : option (Z * world) :=
  send_all_loop (length data) w data 0.

(** ** Connection state *)

Record hap_session_t := mkSession {
  encrypt_key : list byte;
  decrypt_key : list byte;
  encrypt_nonce : Z;         (* uint64_t *)
  decrypt_nonce : Z          (* uint64_t *)
}.

Record crypto_rx_t := mkRx {
  len_buf : list byte;               (* uint8_t len_buf[2] *)
  len_received : Z;                  (* uint8_t *)
  block_len : Z;                     (* uint16_t *)
  encrypted : option (list byte);    (* NULL, or the block malloc gave *)
  encrypted_len : Z;                 (* size_t *)
  encrypted_received : Z             (* size_t *)
}.

Record rtsp_conn_t := mkConn {
  hap_session : option hap_session_t;   (* NULL before pairing *)
  encrypted_mode : bool;
  crypto_rx : crypto_rx_t
}.

Definition set_crypto_rx (c : rtsp_conn_t) (r : crypto_rx_t) : rtsp_conn_t :=
  mkConn (hap_session c) (encrypted_mode c) r.
Definition set_session (c : rtsp_conn_t) (s : hap_session_t) : rtsp_conn_t :=
  mkConn (Some s) (encrypted_mode c) (crypto_rx c).

(** The partial-read state of a connection that has just been accepted
    (the connection record is created zeroed). *)
Definition rx_zero : crypto_rx_t := mkRx [0; 0] 0 0 None 0 0.

(** [counter++] on a [uint64_t]. *)
Definition incr64 (c : Z) : Z := u64 (c + 1).

(** [uint8_t nonce[12] = {0}; memcpy(nonce + 4, &counter, 8);] *)
Definition make_nonce (counter : Z) : list byte :=
  write_at (repeat 0 12) 4 (le_bytes 8 counter).

(** The return statements of [rtsp_crypto_read_block], in source order. *)
Inductive exit_t :=
| ExitGuard          (* no session or not in encrypted mode *)
| ExitLenAgain       (* would-block while reading the length header *)
| ExitLenError       (* recv failed while reading the length header *)
| ExitLenClosed      (* peer closed while reading the length header *)
| ExitBadLength      (* declared length rejected *)
| ExitNoMem          (* malloc failed *)
| ExitEncAgain       (* would-block while reading the ciphertext *)
| ExitEncError       (* recv failed while reading the ciphertext *)
| ExitEncClosed      (* peer closed while reading the ciphertext *)
| ExitDecryptFail    (* authentication failed *)
| ExitTooLarge       (* decrypted length above buffer_size *)
| ExitOk (n : Z).    (* (int)plaintext_len *)

Definition ret_of (e : exit_t) : Z :=
  match e with
  | ExitLenAgain | ExitEncAgain => 0
  | ExitOk n => n
  | _ => -1
  end.

Definition is_again (e : exit_t) : bool :=
  match e with ExitLenAgain | ExitEncAgain => true | _ => false end.

Inductive loop_out :=
| LoopExit (e : exit_t) (w : world) (st : crypto_rx_t)
| LoopDone (w : world) (st : crypto_rx_t).

(** ** rtsp_crypto.c *)

Definition set_len (st : crypto_rx_t) (lb : list byte) (n : Z) : crypto_rx_t :=
  mkRx lb n (block_len st) (encrypted st) (encrypted_len st)
       (encrypted_received st).

Definition set_enc (st : crypto_rx_t) (buf : option (list byte)) (n : Z)
  : crypto_rx_t :=
  mkRx (len_buf st) (len_received st) (block_len st) buf (encrypted_len st) n.

(** [encrypted = NULL] and the four counters set to zero: the assignments
    that follow every [free] in [rtsp_crypto_read_block]. *)
Definition rx_reset (st : crypto_rx_t) : crypto_rx_t :=
  mkRx (len_buf st) 0 0 None 0 0.

(** [free(p)]: nothing happens for a null pointer. *)
Definition free_ptr (w : world) (p : option (list byte)) : world :=
  match p with Some _ => free w | None => w end.

(** [(uint16_t)len_buf[0] | ((uint16_t)len_buf[1] << 8)] stored in a
    [uint16_t]. *)
Definition decode_len (lb : list byte) : Z :=
  u16 (Z.lor (u16 (nth 0 lb 0)) (Z.shiftl (u16 (nth 1 lb 0)) 8)).

(** [len_buf[0] = block_len & 0xFF; len_buf[1] = (block_len >> 8) & 0xFF;] *)
Definition encode_len (block_len : Z) : list byte :=
  [u8 (Z.land block_len 255); u8 (Z.land (Z.shiftr block_len 8) 255)].

Section Crypto.

(** The configured ceiling of [rtsp_crypto.h] and the two libsodium
    calls ([crypto_aead_chacha20poly1305_ietf_encrypt] and [_decrypt],
    as functions of key, nonce, associated data and input) are taken as
    parameters: neither is part of the sources modelled here. *)
Variable RTSP_ENCRYPTED_BLOCK_MAX : Z.
Variable aead_encrypt : list byte -> list byte -> list byte -> list byte -> list byte.
Variable aead_decrypt :
  list byte -> list byte -> list byte -> list byte -> option (list byte).

(** Lines 34-49: fill the two-byte length header. *)
Fixpoint read_len_loop (fuel : nat) (w : world) (st : crypto_rx_t)
  : option loop_out :=
  if len_received st <? 2 then
    match fuel with
    | O => None
    | S fuel' =>
        match recv w (2 - len_received st) with
        | (RecvFail e, w') =>
            if would_block e then Some (LoopExit ExitLenAgain w' st)
            else Some (LoopExit ExitLenError w' st)
        | (RecvOk [], w') => Some (LoopExit ExitLenClosed w' st)
        | (RecvOk bs, w') =>
            read_len_loop fuel' w'
              (set_len st (write_at (len_buf st) (len_received st) bs)
                          (u8 (len_received st + u8 (len bs))))
        end
    end
  else Some (LoopDone w st).

(** Lines 51-77: decode and check the declared length, then allocate. *)
Definition begin_block (w : world) (st : crypto_rx_t) (buffer_size : Z)
  : loop_out :=
  match encrypted st with
  | Some _ => LoopDone w st
  | None =>
      let n := decode_len (len_buf st) in
      if (n =? 0) || (n >? RTSP_ENCRYPTED_BLOCK_MAX) || (n >? buffer_size)
      then
        LoopExit ExitBadLength (set_errno w EBADMSG)
          (mkRx (len_buf st) 0 0 None (encrypted_len st)
                (encrypted_received st))
      else
        let '(ok, w1) := malloc w (n + 16) in
        if ok then
          LoopDone w1
            (mkRx (len_buf st) (len_received st) n
                  (Some (repeat 0 (Z.to_nat (n + 16)))) (n + 16) 0)
        else
          LoopExit ExitNoMem (set_errno w1 ENOMEM)
            (mkRx (len_buf st) 0 0 None 0 0)
  end.

(** Lines 79-108: fill the ciphertext buffer. *)
Fixpoint read_enc_loop (fuel : nat) (w : world) (st : crypto_rx_t)
  : option loop_out :=
  if encrypted_received st <? encrypted_len st then
    match fuel with
    | O => None
    | S fuel' =>
        match recv w (encrypted_len st - encrypted_received st) with
        | (RecvFail e, w') =>
            if would_block e then Some (LoopExit ExitEncAgain w' st)
            else
              Some (LoopExit ExitEncError (free_ptr w' (encrypted st))
                             (rx_reset st))
        | (RecvOk [], w') =>
            Some (LoopExit ExitEncClosed
                    (set_errno (free_ptr w' (encrypted st)) ECONNRESET)
                    (rx_reset st))
        | (RecvOk bs, w') =>
            read_enc_loop fuel' w'
              (set_enc st
                 (option_map
                    (fun buf => write_at buf (encrypted_received st) bs)
                    (encrypted st))
                 (encrypted_received st + len bs))
        end
    end
  else Some (LoopDone w st).

(** Lines 110-145: decrypt, release the buffer, advance the counter.
    The second component is what the AEAD call stored in the caller's
    [buffer]: the plaintext, or, when authentication fails, zeros in the
    place of the plaintext (libsodium clears the output on failure:
    [memset(m, 0, clen - 16)]). *)
Definition decrypt_block (w : world) (sess : hap_session_t)
           (st : crypto_rx_t) (buffer_size : Z)
  : exit_t * list byte * world * hap_session_t * crypto_rx_t :=
  let nonce := make_nonce (decrypt_nonce sess) in
  let ct := match encrypted st with
            | Some buf => firstn (Z.to_nat (encrypted_len st)) buf
            | None => []
            end in
  let ad := firstn 2 (len_buf st) in
  let w1 := log w (EvDecrypt (decrypt_key sess) nonce ad ct) in
  match aead_decrypt (decrypt_key sess) nonce ad ct with
  | None =>
      (ExitDecryptFail, repeat 0 (Z.to_nat (encrypted_len st - 16)),
       set_errno (free_ptr w1 (encrypted st)) EBADMSG, sess, rx_reset st)
  | Some plaintext =>
      let w2 := free_ptr w1 (encrypted st) in
      let sess' := mkSession (encrypt_key sess) (decrypt_key sess)
                             (encrypt_nonce sess)
                             (incr64 (decrypt_nonce sess)) in
      if len plaintext >? buffer_size then
        (ExitTooLarge, plaintext, set_errno w2 EBADMSG, sess', rx_reset st)
      else
        (ExitOk (to_int (len plaintext)), plaintext, w2, sess', rx_reset st)
  end.

(** The result of a call: the return statement taken, the bytes stored
    in [buffer], the world and the connection afterwards.  (A null
    [conn] takes the first return and has no state to model.) *)
Definition rtsp_crypto_read_block (w : world) (conn : rtsp_conn_t)
           (buffer_size : Z)
  : option (exit_t * list byte * world * rtsp_conn_t) :=
  match hap_session conn, encrypted_mode conn with
  | Some sess, true =>
      match read_len_loop 2 w (crypto_rx conn) with
      | None => None
      | Some (LoopExit e w1 st1) => Some (e, [], w1, set_crypto_rx conn st1)
      | Some (LoopDone w1 st1) =>
          match begin_block w1 st1 buffer_size with
          | LoopExit e w2 st2 => Some (e, [], w2, set_crypto_rx conn st2)
          | LoopDone w2 st2 =>
              match read_enc_loop
                      (Z.to_nat (encrypted_len st2 - encrypted_received st2))
                      w2 st2 with
              | None => None
              | Some (LoopExit e w3 st3) =>
                  Some (e, [], w3, set_crypto_rx conn st3)
              | Some (LoopDone w3 st3) =>
                  let '(e, out, w4, sess', st4) :=
                    decrypt_block w3 sess st3 buffer_size in
                  Some (e, out, w4, mkConn (Some sess') true st4)
              end
          end
      end
  | _, _ => Some (ExitGuard, [], w, conn)
  end.

(** Lines 155-198: the chunking loop of the writer. *)
Fixpoint write_frame_loop (fuel : nat) (w : world) (sess : hap_session_t)
         (data : list byte) (offset : Z)
  : option (Z * world * hap_session_t) :=
  if offset <? len data then
    match fuel with
    | O => None
    | S fuel' =>
        let block_len :=
          u16 (if len data - offset >? RTSP_ENCRYPTED_BLOCK_MAX
               then RTSP_ENCRYPTED_BLOCK_MAX
               else u16 (len data - offset)) in
        let lb := encode_len block_len in
        let nonce := make_nonce (encrypt_nonce sess) in
        let encrypted_len := block_len + 16 in
        let '(ok, w1) := malloc w encrypted_len in
        if negb ok then Some (-1, w1, sess)
        else
          let chunk :=
            firstn (Z.to_nat block_len) (skipn (Z.to_nat offset) data) in
          let ct := aead_encrypt (encrypt_key sess) nonce lb chunk in
          let w2 := log w1 (EvEncrypt (encrypt_key sess) nonce lb chunk) in
          if negb (len ct =? encrypted_len) then Some (-1, free w2, sess)
          else
            match send_all w2 lb with
            | None => None
            | Some (r1, w3) =>
                if negb (r1 =? 0) then Some (-1, free w3, sess)
                else
                  match send_all w3 ct with
                  | None => None
                  | Some (r2, w4) =>
                      if negb (r2 =? 0) then Some (-1, free w4, sess)
                      else
                        write_frame_loop fuel' (free w4)
                          (mkSession (encrypt_key sess) (decrypt_key sess)
                                     (incr64 (encrypt_nonce sess))
                                     (decrypt_nonce sess))
                          data (offset + block_len)
                  end
            end
    end
  else Some (0, w, sess).

Definition rtsp_crypto_write_frame (w : world) (conn : rtsp_conn_t)
           (data : list byte)
  : option (Z * world * rtsp_conn_t) :=
  match hap_session conn, encrypted_mode conn with
  | Some sess, true =>
      match write_frame_loop (length data) w sess data 0 with
      | None => None
      | Some (r, w', sess') => Some (r, w', set_session conn sess')
      end
  | _, _ => Some (-1, w, conn)
  end.

(** The caller's side of the reader: the connection task calls again
    whenever the reader answered 0 (no progress yet). *)
Fixpoint read_until_done (calls : nat) (w : world) (conn : rtsp_conn_t)
         (buffer_size : Z)
  : option (exit_t * list byte * world * rtsp_conn_t) :=
  match calls with
  | O => None
  | S calls' =>
      match rtsp_crypto_read_block w conn buffer_size with
      | None => None
      | Some (e, out, w', conn') =>
          if is_again e then read_until_done calls' w' conn' buffer_size
          else Some (e, out, w', conn')
      end
  end.

End Crypto.

(** The last part of a call of the reader, once the buffer is full. *)
Definition finish_block
           (aead_decrypt : list byte -> list byte -> list byte -> list byte
                           -> option (list byte))
           (w : world) (sess : hap_session_t) (st : crypto_rx_t)
           (buffer_size : Z)
  : option (exit_t * list byte * world * rtsp_conn_t) :=
  let '(e, out, w4, sess', st4) :=
    decrypt_block aead_decrypt w sess st buffer_size in
  Some (e, out, w4, mkConn (Some sess') true st4).

(** ** The C library, as far as [rtsp_message.c] uses it

    A [char *] is the list of the bytes from the pointer on; a C string
    ends at its first zero byte or where the list ends. *)

Definition bytes_of_string (s : string) : list byte :=
  map (fun a => Z.of_N (N_of_ascii a)) (list_ascii_of_string s).

Definition CR : byte := 13.
Definition LF : byte := 10.
Definition crlf : list byte := [CR; LF].

Fixpoint strlen (s : list byte) : nat :=
  match s with
  | [] => O
  | c :: s' => if c =? 0 then O else S (strlen s')
  end.

(** Whether [s] starts with the (zero-free) bytes of [pat]. *)
Fixpoint starts_with (pat s : list byte) : bool :=
  match pat, s with
  | [], _ => true
  | _ :: _, [] => false
  | p :: pat', c :: s' => (p =? c) && starts_with pat' s'
  end.

(** [strstr(s, pat)] for a non-empty, zero-free [pat]: the offset of the
    first occurrence. *)
Fixpoint strstr (s pat : list byte) : option nat :=
  if starts_with pat s then Some O
  else match s with
       | [] => None
       | c :: s' => if c =? 0 then None else option_map S (strstr s' pat)
       end.

Definition tolower (c : byte) : byte :=
  if (65 <=? c) && (c <=? 90) then c + 32 else c.

(** [strncasecmp(a, b, n) == 0] *)
Fixpoint strncasecmp_eq (a b : list byte) (n : nat) : bool :=
  match n with
  | O => true
  | S n' =>
      let ca := hd 0 a in
      let cb := hd 0 b in
      if tolower ca =? tolower cb then
        if ca =? 0 then true else strncasecmp_eq (tl a) (tl b) n'
      else false
  end.

Definition isspace (c : byte) : bool := (c =? 32) || ((9 <=? c) && (c <=? 13)).
Definition isdigit (c : byte) : bool := (48 <=? c) && (c <=? 57).

Fixpoint skip_space (s : list byte) : list byte :=
  match s with
  | c :: s' => if isspace c then skip_space s' else s
  | [] => []
  end.

Fixpoint digits_value (acc : Z) (s : list byte) : Z :=
  match s with
  | c :: s' => if isdigit c then digits_value (10 * acc + (c - 48)) s' else acc
  | [] => acc
  end.

(** [atoi(s)]: optional white space, an optional sign, then the leading
    decimal digits; 0 when there are none.  (A value that does not fit an
    [int] is outside what C defines and is not modelled.) *)
Definition atoi (s : list byte) : Z :=
  match skip_space s with
  | c :: s' =>
      if c =? 45 then - digits_value 0 s'
      else if c =? 43 then digits_value 0 s'
      else digits_value 0 (c :: s')
  | [] => 0
  end.

(** One [%s] conversion with a field width: the token and what follows. *)
Fixpoint scan_token (width : nat) (s : list byte) : list byte * list byte :=
  match width, s with
  | S width', c :: s' =>
      if (c =? 0) || isspace c then ([], s)
      else let '(t, r) := scan_token width' s' in (c :: t, r)
  | _, _ => ([], s)
  end.

(** [sscanf(s, "%31s %255s", method, path)]: the return value and the
    two tokens (an unassigned one is left as it was, empty). *)
Definition sscanf_method_path (s : list byte) : Z * list byte * list byte :=
  match scan_token 31 (skip_space s) with
  | ([], _) => (-1, [], [])
  | (m, r) =>
      match scan_token 255 (skip_space r) with
      | ([], _) => (1, m, [])
      | (p, _) => (2, m, p)
      end
  end.

(** The decimal digits of a non-negative number, most significant first;
    the fuel bounds the number of digits. *)
Fixpoint print_digits (fuel : nat) (n : Z) : list byte :=
  match fuel with
  | O => []
  | S fuel' =>
      (if n <? 10 then [] else print_digits fuel' (n / 10)) ++ [48 + n mod 10]
  end.

(** [%d] and [%zu] of [snprintf]: an [int] or a 32-bit [size_t] has at
    most ten decimal digits. *)
Definition print_int (z : Z) : list byte :=
  if z <? 0 then 45 :: print_digits 10 (- z) else print_digits 10 z.

(** ** rtsp_message.c *)

Fixpoint skip_blanks (s : list byte) : list byte :=
  match s with
  | c :: s' => if (c =? 32) || (c =? 9) then skip_blanks s' else s
  | [] => []
  end.

(** The loop of [find_header_ci], from line pointer [p]. *)
Fixpoint find_header_loop (fuel : nat) (p key : list byte)
  : option (option (list byte)) :=
  if hd 0 p =? 0 then Some None
  else
    match fuel with
    | O => None
    | S fuel' =>
        let key_len := strlen key in
        let line_end :=
          match strstr p crlf with Some k => k | None => strlen p end in
        if (key_len <=? line_end)%nat && strncasecmp_eq p key key_len then
          Some (Some (skip_blanks (skipn key_len p)))
        else if nth line_end p 0 =? 0 then Some None
        else find_header_loop fuel' (skipn (line_end + 2) p) key
    end.

(** [find_header_ci(headers, key)]: the value pointer, or [None] for
    NULL.  (Both arguments are non-null at every call site.) *)
Definition find_header_ci (headers key : list byte)
  : option (option (list byte)) :=
  if (strlen key =? 0)%nat then Some None
  else find_header_loop (S (strlen headers)) headers key.

Fixpoint copy_while (cap : nat) (src : list byte) : list byte :=
  match cap, src with
  | S cap', c :: src' =>
      if (c =? 0) || (c =? CR) || (c =? LF) then []
      else c :: copy_while cap' src'
  | _, _ => []
  end.

Fixpoint trim_right (s : list byte) : list byte :=
  match s with
  | [] => []
  | c :: s' =>
      match trim_right s' with
      | [] => if (c =? 32) || (c =? 9) then [] else [c]
      | t => c :: t
      end
  end.

(** [copy_header_value_token(dst, dst_cap, src)] for non-null [dst] and
    [src]: the string left in [dst]. *)
Definition copy_header_value_token (dst_cap : nat) (src : list byte)
  : list byte :=
  match dst_cap with
  | O => []
  | S cap => trim_right (copy_while cap src)
  end.

Fixpoint find_header_end_from (i : nat) (data : list byte) : option nat :=
  match data with
  | [] => None
  | _ :: data' =>
      if starts_with [CR; LF; CR; LF] data then Some i
      else find_header_end_from (S i) data'
  end.

(** [rtsp_find_header_end(data, len)] with [len] the length of [data]:
    the offset of the first CR LF CR LF. *)
Definition rtsp_find_header_end (data : list byte) : option nat :=
  find_header_end_from O data.

Definition rtsp_parse_cseq (request : list byte) : Z :=
  match strstr request (bytes_of_string "CSeq:") with
  | Some k => atoi (skipn (k + 5) request)
  | None => 1
  end.

Definition rtsp_parse_content_length (request : list byte) : Z :=
  let cl :=
    match strstr request (bytes_of_string "Content-Length:") with
    | Some k => Some k
    | None => strstr request (bytes_of_string "content-length:")
    end in
  match cl with
  | Some k => atoi (skipn (k + 15) request)
  | None => 0
  end.

(** [a - b] on two [size_t] values (32 bits on the target): a difference
    below zero wraps around. *)
Definition size_sub (a b : Z) : Z :=
  if a <? b then a - b + 4294967296 else a - b.

(** [rtsp_get_body(request, request_len, &body_len)]: the offset of the
    body in [request] ([None] for NULL) and [body_len], which line 107
    computes in [size_t]: [request_len - (body - request)]. *)
Definition rtsp_get_body (request : list byte) (request_len : Z)
  : option nat * Z :=
  match strstr request (crlf ++ crlf) with
  | Some k => (Some (k + 4)%nat, size_sub request_len (Z.of_nat (k + 4)))
  | None => (None, 0)
  end.

Record rtsp_request_t := mkRequest {
  method : list byte;          (* char method[32] *)
  path : list byte;            (* char path[256] *)
  cseq : Z;
  content_length : Z;          (* size_t *)
  content_type : list byte;
  body : option nat;           (* where in the input the body starts *)
  body_len : Z
}.

(** The bytes a body view covers. *)
Definition body_bytes (data : list byte) (req : rtsp_request_t) : list byte :=
  match body req with
  | Some off => firstn (Z.to_nat (body_len req)) (skipn off data)
  | None => []
  end.

Section Message.

(** [sizeof(req->content_type)], declared in [rtsp_message.h]. *)
Variable CONTENT_TYPE_CAP : nat.

(** [rtsp_request_parse(data, len, req)] for non-null [data] and [req].
    [buffer] is the memory at [data]: it may go on after the [data_len]
    bytes of the request, and what follows the list is a zero byte.
    [rtsp_find_header_end] stays within [data_len]; the [sscanf] of line
    164 and the [strstr] of [rtsp_get_body] are string functions and run
    to the first zero byte, wherever it stands.  [Some None] is the
    return value -1, [Some (Some req)] the return value 0 with the
    request filled in, and [None] means that a header scan ran out of
    fuel.  [size_t] has 32 bits on the target. *)
Definition rtsp_request_parse_at (buffer : list byte) (data_len : Z)
  : option (option rtsp_request_t) :=
  if data_len =? 0 then Some None
  else
    match rtsp_find_header_end (firstn (Z.to_nat data_len) buffer) with
    | None => Some None
    | Some header_bytes =>
        let '(n, m, p) := sscanf_method_path buffer in
        if n <? 1 then Some None
        else
          let copy_len := if (1024 <=? header_bytes)%nat then 1023%nat
                          else header_bytes in
          let header_str := firstn copy_len buffer in
          match find_header_ci header_str (bytes_of_string "CSeq:"),
                find_header_ci header_str (bytes_of_string "Content-Length:"),
                find_header_ci header_str (bytes_of_string "Content-Type:")
          with
          | Some cs, Some cl, Some ct =>
              let '(b, bl) := rtsp_get_body buffer data_len in
              Some (Some (mkRequest m p
                      (match cs with Some v => atoi v | None => 1 end)
                      (match cl with
                       | Some v => atoi v mod 4294967296
                       | None => 0
                       end)
                      (match ct with
                       | Some v => copy_header_value_token CONTENT_TYPE_CAP v
                       | None => []
                       end)
                      b bl))
          | _, _, _ => None
          end
    end.

(** The call on a request that fills its buffer: [data] holds the [len]
    bytes and the terminating zero follows them. *)
Definition rtsp_request_parse (data : list byte)
  : option (option rtsp_request_t) :=
  rtsp_request_parse_at data (len data).

End Message.

Definition SERVER_LINE : list byte :=
  bytes_of_string "Server: AirTunes/377.40.00" ++ crlf.

(** The text [snprintf] formats in each of the four branches of
    [rtsp_send_response]. *)
Definition response_head (status_code : Z) (status_text : list byte) (cseq : Z)
           (extra_headers : option (list byte)) (content_length : option Z)
  : list byte :=
  bytes_of_string "RTSP/1.0 " ++ print_int status_code ++ [32]
    ++ firstn (strlen status_text) status_text ++ crlf
    ++ bytes_of_string "CSeq: " ++ print_int cseq ++ crlf
    ++ SERVER_LINE
    ++ match extra_headers with
       | Some h => firstn (strlen h) h
       | None => []
       end
    ++ match content_length with
       | Some n => bytes_of_string "Content-Length: " ++ print_int n ++ crlf
       | None => []
       end
    ++ crlf.

Section Response.

Variable RTSP_ENCRYPTED_BLOCK_MAX : Z.
Variable aead_encrypt : list byte -> list byte -> list byte -> list byte -> list byte.

(** [rtsp_send_response]: the return value, the world and the
    connection afterwards.  [None] stands for a run the model does not
    follow: a loop out of fuel, or a formatted head longer than the
    1024-byte [header] array, which the [memcpy] of [header_len] bytes
    would read past.  (With a null [body] and a non-zero [body_len] the
    tail of the response is never written; the model puts zeros there.) *)
Definition rtsp_send_response (w : world) (conn : option rtsp_conn_t)
           (status_code : Z) (status_text : list byte) (cseq : Z)
           (extra_headers : option (list byte)) (body : option (list byte))
           (body_len : Z)
  : option (Z * world * option rtsp_conn_t) :=
  let has_body := match body with Some _ => 0 <? body_len | None => false end in
  let text :=
    response_head status_code status_text cseq extra_headers
                  (if has_body then Some body_len else None) in
  let header_len := len text in
  if 1024 <? header_len then None
  else
    let header := if header_len =? 1024 then firstn 1023 text ++ [0]
                  else text in
    let total_len := header_len + body_len in
    let '(ok, w1) := malloc w total_len in
    if negb ok then Some (-1, w1, conn)
    else
      let response :=
        header ++ match body with
                  | Some b => if has_body then firstn (Z.to_nat body_len) b
                              else []
                  | None => repeat 0 (Z.to_nat body_len)
                  end in
      match conn with
      | Some c =>
          if encrypted_mode c then
            match rtsp_crypto_write_frame RTSP_ENCRYPTED_BLOCK_MAX
                    aead_encrypt w1 c response with
            | None => None
            | Some (r, w2, c') => Some (r, free w2, Some c')
            end
          else
            match send_all w1 response with
            | None => None
            | Some (r, w2) =>
                Some ((if r <? 0 then -1 else 0), free w2, conn)
            end
      | None =>
          match send_all w1 response with
          | None => None
          | Some (r, w2) => Some ((if r <? 0 then -1 else 0), free w2, conn)
          end
      end.

Definition rtsp_send_ok (w : world) (conn : option rtsp_conn_t) (cseq : Z)
  : option (Z * world * option rtsp_conn_t) :=
  rtsp_send_response w conn 200 (bytes_of_string "OK") cseq None None 0.

End Response.


(** ** rtsp_message.c: the transport header and the HTTP-style response *)

(** [rtsp_parse_transport(request, &control_port, &timing_port)] for
    non-null out-pointers: the two ports.  A key counts only when its
    first occurrence after "Transport:" lies before the end of that
    line; the value is [(uint16_t)atoi(...)]. *)
Definition rtsp_parse_transport (request : list byte) : Z * Z :=
  match strstr request (bytes_of_string "Transport:") with
  | None => (0, 0)
  | Some t =>
      let transport := skipn t request in
      let line_end :=
        match strstr transport crlf with
        | Some k => k
        | None => strlen transport
        end in
      let control_port :=
        match strstr transport (bytes_of_string "control_port=") with
        | Some cp =>
            if (cp <? line_end)%nat
            then u16 (atoi (skipn (cp + 13) transport)) else 0
        | None => 0
        end in
      let timing_port :=
        match strstr transport (bytes_of_string "timing_port=") with
        | Some tp =>
            if (tp <? line_end)%nat
            then u16 (atoi (skipn (tp + 12) transport)) else 0
        | None => 0
        end in
      (control_port, timing_port)
  end.

(** The text [snprintf] formats in [rtsp_send_http_response]. *)
Definition http_response_head (status_code : Z) (status_text : list byte)
           (content_type : list byte) (body_len : Z) : list byte :=
  bytes_of_string "HTTP/1.1 " ++ print_int status_code ++ [32]
    ++ firstn (strlen status_text) status_text ++ crlf
    ++ bytes_of_string "Content-Type: "
    ++ firstn (strlen content_type) content_type ++ crlf
    ++ bytes_of_string "Content-Length: " ++ print_int body_len ++ crlf
    ++ SERVER_LINE
    ++ bytes_of_string "CSeq: 1" ++ crlf
    ++ crlf.

Section HttpResponse.

Variable RTSP_ENCRYPTED_BLOCK_MAX : Z.
Variable aead_encrypt : list byte -> list byte -> list byte -> list byte -> list byte.

(** [rtsp_send_http_response], with the conventions of
    [rtsp_send_response]; the [header] array has 512 bytes here. *)
Definition rtsp_send_http_response (w : world) (conn : option rtsp_conn_t)
           (status_code : Z) (status_text : list byte)
           (content_type : list byte) (body : option (list byte))
           (body_len : Z)
  : option (Z * world * option rtsp_conn_t) :=
  let text := http_response_head status_code status_text content_type body_len in
  let header_len := len text in
  if 512 <? header_len then None
  else
    let header := if header_len =? 512 then firstn 511 text ++ [0]
                  else text in
    let total_len := header_len + body_len in
    let '(ok, w1) := malloc w total_len in
    if negb ok then Some (-1, w1, conn)
    else
      let response :=
        header ++ match body with
                  | Some b => if 0 <? body_len then firstn (Z.to_nat body_len) b
                              else []
                  | None => repeat 0 (Z.to_nat body_len)
                  end in
      match conn with
      | Some c =>
          if encrypted_mode c then
            match rtsp_crypto_write_frame RTSP_ENCRYPTED_BLOCK_MAX
                    aead_encrypt w1 c response with
            | None => None
            | Some (r, w2, c') => Some (r, free w2, Some c')
            end
          else
            match send_all w1 response with
            | None => None
            | Some (r, w2) =>
                Some ((if r <? 0 then -1 else 0), free w2, conn)
            end
      | None =>
          match send_all w1 response with
          | None => None
          | Some (r, w2) => Some ((if r <? 0 then -1 else 0), free w2, conn)
          end
      end.

End HttpResponse.

(** ** Vocabulary of the statements *)

(** A world in which no [send] fails and no [malloc] fails. *)
Definition reliable (w : world) : Prop :=
  Forall (fun e => e <> TxFail) (tx w) /\ Forall (fun b => b = true) (heap w).

Section FrameVocabulary.

Variable RTSP_ENCRYPTED_BLOCK_MAX : Z.
Variable aead_encrypt : list byte -> list byte -> list byte -> list byte -> list byte.

(** The payload cut into consecutive pieces of the maximum block size,
    the last one possibly shorter. *)
Fixpoint chunks_fuel (fuel : nat) (data : list byte) : list (list byte) :=
  match fuel, data with
  | S fuel', _ :: _ =>
      firstn (Z.to_nat RTSP_ENCRYPTED_BLOCK_MAX) data
        :: chunks_fuel fuel' (skipn (Z.to_nat RTSP_ENCRYPTED_BLOCK_MAX) data)
  | _, _ => []
  end.

Definition chunks (data : list byte) : list (list byte) :=
  chunks_fuel (length data) data.

(** One frame on the wire: the little-endian length of the chunk, then
    the ciphertext and tag computed under the given counter with the
    length bytes as associated data. *)
Definition frame (key : list byte) (counter : Z) (chunk : list byte)
  : list byte :=
  encode_len (len chunk)
    ++ aead_encrypt key (make_nonce counter) (encode_len (len chunk)) chunk.

(** Allocator and AEAD calls of one frame that was written. *)
Definition frame_events (key : list byte) (counter : Z) (chunk : list byte)
  : list event :=
  [EvMalloc (len chunk + 16) true;
   EvEncrypt key (make_nonce counter) (encode_len (len chunk)) chunk;
   EvFree].

(** Consecutive frames under consecutive counters. *)
Fixpoint wire_frames (key : list byte) (counter : Z) (cs : list (list byte))
  : list byte :=
  match cs with
  | [] => []
  | c :: cs' => frame key counter c ++ wire_frames key (incr64 counter) cs'
  end.

Fixpoint trace_frames (key : list byte) (counter : Z) (cs : list (list byte))
  : list event :=
  match cs with
  | [] => []
  | c :: cs' =>
      frame_events key counter c ++ trace_frames key (incr64 counter) cs'
  end.

(** The frame of a chunk as the protocol words it, in plain numbers: two
    bytes that hold the length of the chunk, low byte first, then the
    output of the AEAD for the chunk under the nonce of the counter
    value, with those two bytes as associated data. *)
Definition framed (key : list byte) (counter : Z) (chunk : list byte)
  : list byte :=
  [len chunk mod 256; len chunk / 256]
    ++ aead_encrypt key (make_nonce counter)
                    [len chunk mod 256; len chunk / 256] chunk.

(** The frames of consecutive chunks, the counter one higher for each
    (in 64 bits). *)
Fixpoint framed_run (key : list byte) (counter : Z) (cs : list (list byte))
  : list byte :=
  match cs with
  | [] => []
  | c :: cs' =>
      framed key counter c
        ++ framed_run key ((counter + 1) mod 18446744073709551616) cs'
  end.

(** A counter value after [k] frames. *)
Definition counter_after (k : nat) (counter : Z) : Z :=
  Nat.iter k (fun c => (c + 1) mod 18446744073709551616) counter.

End FrameVocabulary.

(** The partial-read state between two calls of the reader, for a
    connection whose calls pass [buffer_size]: without a buffer the
    counters of the ciphertext phase are zero; with one, the header is
    complete, its length is the accepted one and the buffer is not yet
    full. *)
Definition rx_wf (block_max buffer_size : Z) (st : crypto_rx_t) : Prop :=
  length (len_buf st) = 2%nat /\
  0 <= len_received st <= 2 /\
  match encrypted st with
  | None =>
      block_len st = 0 /\ encrypted_len st = 0 /\ encrypted_received st = 0
  | Some buf =>
      len_received st = 2 /\
      block_len st = decode_len (len_buf st) /\
      1 <= block_len st /\ block_len st <= block_max /\
      block_len st <= buffer_size /\
      encrypted_len st = block_len st + 16 /\
      len buf = encrypted_len st /\
      0 <= encrypted_received st < encrypted_len st
  end.

(** No field of the partial-read state holds anything of a frame. *)
Definition rx_idle (st : crypto_rx_t) : Prop :=
  len_received st = 0 /\ block_len st = 0 /\ encrypted st = None /\
  encrypted_len st = 0 /\ encrypted_received st = 0.

(** The socket script of a frame that arrives whole. *)
Definition arrives_whole (f : list byte) : list rx_event :=
  match f with
  | [] => []
  | b :: bs => [RxBytes b bs]
  end.

(** The socket script of a frame that arrives one byte at a time, the
    socket having nothing more to give after each byte but the last. *)
Fixpoint arrives_bytewise (f : list byte) : list rx_event :=
  match f with
  | [] => []
  | [b] => [RxBytes b []]
  | b :: f' => RxBytes b [] :: RxFail EAGAIN :: arrives_bytewise f'
  end.

(** A stand-in for the AEAD, used to run the model on concrete inputs:
    the message is masked with the first key byte and followed by a
    16-byte tag that depends on key, nonce, associated data and message. *)
Definition sum_bytes (l : list byte) : Z := fold_right Z.add 0 l.

Definition toy_mask (key : list byte) (m : list byte) : list byte :=
  map (fun b => Z.lxor b (hd 0 key)) m.

Definition toy_tag (key nonce ad m : list byte) : list byte :=
  repeat ((sum_bytes key + sum_bytes nonce + sum_bytes ad + sum_bytes m) mod 256)
         16.

Definition toy_encrypt (key nonce ad m : list byte) : list byte :=
  toy_mask key m ++ toy_tag key nonce ad m.

Definition list_eqb (a b : list byte) : bool :=
  if list_eq_dec Z.eq_dec a b then true else false.

Definition toy_decrypt (key nonce ad ct : list byte) : option (list byte) :=
  if (length ct <? 16)%nat then None
  else
    let n := (length ct - 16)%nat in
    let m := toy_mask key (firstn n ct) in
    if list_eqb (skipn n ct) (toy_tag key nonce ad m) then Some m else None.


(** The socket reads of the reader touch neither the allocator, nor the
    AEAD, nor the outbound side. *)
Definition quiet (w w' : world) : Prop :=
  tx w' = tx w /\ wire w' = wire w /\ heap w' = heap w /\ trace w' = trace w.

(** The fields that the header loop leaves alone. *)
Definition same_block_fields (st st' : crypto_rx_t) : Prop :=
  block_len st' = block_len st /\ encrypted st' = encrypted st /\
  encrypted_len st' = encrypted_len st /\
  encrypted_received st' = encrypted_received st.

(** libsodium's contract on the length of a ciphertext. *)
Definition aead_length_law
           (aead_encrypt : list byte -> list byte -> list byte -> list byte
                           -> list byte) : Prop :=
  forall key nonce ad m, len (aead_encrypt key nonce ad m) = len m + 16.

(** libsodium's contract on decryption: a plaintext is 16 bytes shorter
    than the ciphertext it came from. *)
Definition aead_open_length_law
           (aead_decrypt : list byte -> list byte -> list byte -> list byte
                           -> option (list byte)) : Prop :=
  forall key nonce ad ct m,
    aead_decrypt key nonce ad ct = Some m -> len ct = len m + 16.

(** Decryption undoes encryption under the same key, nonce and
    associated data. *)
Definition aead_inverse_law
           (aead_encrypt : list byte -> list byte -> list byte -> list byte
                           -> list byte)
           (aead_decrypt : list byte -> list byte -> list byte -> list byte
                           -> option (list byte)) : Prop :=
  forall key nonce ad m,
    aead_decrypt key nonce ad (aead_encrypt key nonce ad m) = Some m.

(** The session after the inbound counter has been advanced. *)
Definition bump_decrypt (sess : hap_session_t) : hap_session_t :=
  mkSession (encrypt_key sess) (decrypt_key sess) (encrypt_nonce sess)
            (incr64 (decrypt_nonce sess)).

(** The two events of a decryption: the AEAD call, with the key of the
    session, the nonce made from its inbound counter and the length
    header as associated data, and the release of the buffer. *)
Definition decrypt_events (sess : hap_session_t) (lb ct : list byte)
  : list event :=
  [EvDecrypt (decrypt_key sess) (make_nonce (decrypt_nonce sess)) lb ct; EvFree].

(** What a call of the reader has done, by the return it took: [st] and
    [sess] before, [st'] and [sess'] after, [evs] the allocator and AEAD
    events of the call, [out] the bytes stored in the caller's buffer. *)
Definition call_post
           (block_max : Z)
           (aead_decrypt : list byte -> list byte -> list byte -> list byte
                           -> option (list byte))
           (buffer_size : Z) (sess sess' : hap_session_t)
           (st st' : crypto_rx_t) (evs : list event) (e : exit_t)
           (out : list byte) : Prop :=
  let n := decode_len (len_buf st') in
  let alloc := match encrypted st with
               | Some _ => []
               | None => [EvMalloc (n + 16) true]
               end in
  let opened ct :=
    aead_decrypt (decrypt_key sess) (make_nonce (decrypt_nonce sess))
                 (len_buf st') ct in
  match e with
  | ExitGuard => False
  | ExitLenAgain | ExitLenError | ExitLenClosed =>
      evs = [] /\ sess' = sess /\ out = [] /\ encrypted st = None /\
      same_block_fields st st' /\ len_received st <= len_received st' < 2
  | ExitBadLength =>
      evs = [] /\ sess' = sess /\ out = [] /\ encrypted st = None /\
      rx_idle st' /\ (n = 0 \/ block_max < n \/ buffer_size < n)
  | ExitNoMem =>
      evs = [EvMalloc (n + 16) false] /\ sess' = sess /\ out = [] /\
      encrypted st = None /\ rx_idle st'
  | ExitEncAgain =>
      evs = alloc /\ sess' = sess /\ out = [] /\ encrypted st' <> None
  | ExitEncError | ExitEncClosed =>
      evs = alloc ++ [EvFree] /\ sess' = sess /\ out = [] /\ rx_idle st'
  | ExitDecryptFail =>
      exists ct,
        evs = alloc ++ decrypt_events sess (len_buf st') ct /\
        opened ct = None /\ len ct = n + 16 /\
        sess' = sess /\ out = repeat 0 (Z.to_nat n) /\ rx_idle st'
  | ExitTooLarge =>
      exists ct m,
        evs = alloc ++ decrypt_events sess (len_buf st') ct /\
        opened ct = Some m /\ len ct = n + 16 /\ n <= buffer_size /\
        buffer_size < len m /\
        sess' = bump_decrypt sess /\ out = m /\ rx_idle st'
  | ExitOk r =>
      exists ct m,
        evs = alloc ++ decrypt_events sess (len_buf st') ct /\
        opened ct = Some m /\ len ct = n + 16 /\ n <= buffer_size /\
        1 <= n <= block_max /\
        r = to_int (len m) /\ len m <= buffer_size /\
        sess' = bump_decrypt sess /\ out = m /\ rx_idle st'
  end.

(** Two worlds that differ at most in [errno]. *)
Definition same_but_errno (w w' : world) : Prop :=
  rx w' = rx w /\ tx w' = tx w /\ wire w' = wire w /\ heap w' = heap w /\
  trace w' = trace w.

(** The state of a reader that holds the whole frame [lb ++ ct]. *)
Definition rx_full (lb ct : list byte) : crypto_rx_t :=
  mkRx lb 2 (decode_len lb) (Some ct) (decode_len lb + 16) (decode_len lb + 16).

(** A frame as the reader takes it: two length bytes declaring a length
    the reader accepts, then that many bytes and 16 more. *)
Definition frame_shaped (block_max buffer_size : Z) (f : list byte) : Prop :=
  let n := decode_len (firstn 2 f) in
  1 <= n <= block_max /\ n <= buffer_size /\ len f = 2 + n + 16.

(** Whether the state holds a ciphertext buffer: 1 if so, else 0. *)
Definition held (st : crypto_rx_t) : Z :=
  match encrypted st with Some _ => 1 | None => 0 end.

(** The returns of the reader that report a fatal error after the header
    loop: the ones that reset the state. *)
Definition resets_state (e : exit_t) : bool :=
  match e with
  | ExitBadLength | ExitNoMem | ExitEncError | ExitEncClosed
  | ExitDecryptFail | ExitTooLarge => true
  | _ => false
  end.

(** Concrete inputs on which the model is run. *)
Definition toy_key : list byte := map Z.of_nat (seq 1 32).

Definition toy_session (counter : Z) : hap_session_t :=
  mkSession toy_key toy_key counter counter.

Definition toy_conn (counter : Z) : rtsp_conn_t :=
  mkConn (Some (toy_session counter)) true rx_zero.

Definition quiet_world : world := mkWorld [] [] [] [] None [].

Definition hello : list byte := [72; 69; 76; 76; 79].

(** A connection the response builder sends on in the clear. *)
Definition plain_mode (conn : option rtsp_conn_t) : Prop :=
  match conn with
  | Some c => encrypted_mode c = false
  | None => True
  end.

(** The bytes of a bare 200 response. *)
Definition ok_response (cseq : Z) : list byte :=
  bytes_of_string "RTSP/1.0 200 OK" ++ crlf
    ++ bytes_of_string "CSeq: " ++ print_int cseq ++ crlf
    ++ bytes_of_string "Server: AirTunes/377.40.00" ++ crlf
    ++ crlf.

(** The request of the parsing example. *)
Definition setup_request : list byte :=
  bytes_of_string "SETUP /stream RTSP/1.0" ++ crlf
    ++ bytes_of_string "CSeq: 3" ++ crlf
    ++ bytes_of_string "Content-Length: 5" ++ crlf
    ++ crlf
    ++ bytes_of_string "HELLO".

(** A request with one header line. *)
Definition request_with (header_line : string) : list byte :=
  bytes_of_string "OPTIONS * RTSP/1.0" ++ crlf
    ++ bytes_of_string header_line ++ crlf
    ++ crlf.

(** The connection task taking [n] blocks in a row: [n] calls of the
    reader, each of which has to deliver a block; the plaintexts in the
    order they were delivered. *)
Fixpoint read_blocks
         (block_max : Z)
         (aead_decrypt : list byte -> list byte -> list byte -> list byte
                         -> option (list byte))
         (n : nat) (w : world) (conn : rtsp_conn_t) (buffer_size : Z)
  : option (list (list byte) * world * rtsp_conn_t) :=
  match n with
  | O => Some ([], w, conn)
  | S n' =>
      match rtsp_crypto_read_block block_max aead_decrypt w conn buffer_size with
      | Some (ExitOk _, out, w', conn') =>
          match read_blocks block_max aead_decrypt n' w' conn' buffer_size with
          | Some (outs, w'', conn'') => Some (out :: outs, w'', conn'')
          | None => None
          end
      | _ => None
      end
  end.

(** A text without zero byte, and whether a byte occurs in a pattern. *)
Definition zero_free (a : list byte) : bool :=
  forallb (fun c => negb (c =? 0)) a.

Definition occurs (x : byte) (pat : list byte) : bool :=
  existsb (Z.eqb x) pat.

(** The socket script of a byte stream that arrives in the given pieces,
    the socket having nothing more to give after each piece but the
    last. *)
Fixpoint arrives_in (parts : list (list byte)) : list rx_event :=
  match parts with
  | [] => []
  | [p] => arrives_whole p
  | p :: ps => arrives_whole p ++ RxFail EAGAIN :: arrives_in ps
  end.

(** The partial-read state of a reader that was idle, with [lb] in its
    length buffer, and has since taken the first [k] bytes of the frame
    [f]. *)
Definition pending (lb f : list byte) (k : nat) : crypto_rx_t :=
  match k with
  | O => mkRx lb 0 0 None 0 0
  | S O => mkRx (write_at lb 0 (firstn 1 f)) 1 0 None 0 0
  | _ =>
      let n := decode_len (firstn 2 f) in
      let got := firstn (k - 2) (skipn 2 f) in
      mkRx (firstn 2 f) 2 n
           (Some (write_at (repeat 0 (Z.to_nat (n + 16))) 0 got))
           (n + 16) (len got)
  end.

(** * Properties *)

(** ** Lists and machine integers *)

Lemma len_nonneg {A : Type} (l : list A) : 0 <= len l.
Proof. unfold len; lia. Qed.

Lemma len_app {A : Type} (l1 l2 : list A) : len (l1 ++ l2) = len l1 + len l2.
Proof. unfold len; rewrite length_app; lia. Qed.

Lemma len_cons {A : Type} (x : A) (l : list A) : len (x :: l) = 1 + len l.
Proof. unfold len; simpl length; lia. Qed.

Lemma len_nil_iff {A : Type} (l : list A) : len l = 0 <-> l = [].
Proof.
  unfold len; split; intros H.
  - destruct l; [reflexivity | simpl in H; lia].
  - subst; reflexivity.
Qed.

Lemma firstn_add_skipn {A : Type} (a b : nat) (l : list A) :
  firstn a l ++ firstn b (skipn a l) = firstn (a + b) l.
Proof.
  revert l; induction a as [| a IH]; intros l; simpl.
  - reflexivity.
  - destruct l as [| x l]; simpl.
    + rewrite firstn_nil; reflexivity.
    + rewrite IH; reflexivity.
Qed.

Lemma skipn_add {A : Type} (a b : nat) (l : list A) :
  skipn b (skipn a l) = skipn (a + b) l.
Proof. rewrite skipn_skipn; f_equal; lia. Qed.

Lemma write_at_full (buf src : list byte) :
  length buf = length src -> write_at buf 0 src = src.
Proof.
  intros H; unfold write_at; simpl.
  rewrite <- H, skipn_all, app_nil_r; reflexivity.
Qed.

Lemma write_at_length (buf : list byte) (off : Z) (src : list byte) :
  0 <= off -> off + len src <= len buf ->
  length (write_at buf off src) = length buf.
Proof.
  unfold write_at, len; intros H0 H1.
  rewrite !length_app, length_firstn, length_skipn; lia.
Qed.

(** Two adjacent writes are one write of the concatenation. *)
Lemma write_at_write_at (buf : list byte) (off : Z) (s1 s2 : list byte) :
  0 <= off -> off + len s1 + len s2 <= len buf ->
  write_at (write_at buf off s1) (off + len s1) s2
  = write_at buf off (s1 ++ s2).
Proof.
  unfold write_at, len; intros H0 H1.
  replace (Z.to_nat (off + Z.of_nat (length s1)))
    with (Z.to_nat off + length s1)%nat by lia.
  set (o := Z.to_nat off) in *.
  assert (Ho : (o + length s1 + length s2 <= length buf)%nat) by lia.
  clearbody o; clear H0 H1.
  rewrite firstn_app, length_firstn.
  replace (Nat.min o (length buf)) with o by lia.
  rewrite firstn_firstn.
  replace (Nat.min (o + length s1) o) with o by lia.
  replace (o + length s1 - o)%nat with (length s1) by lia.
  rewrite firstn_app, firstn_all.
  replace (length s1 - length s1)%nat with O by lia.
  rewrite firstn_0, app_nil_r.
  rewrite <- !app_assoc; f_equal; f_equal; f_equal.
  rewrite length_app.
  rewrite skipn_app, length_firstn.
  replace (Nat.min o (length buf)) with o by lia.
  replace (skipn (o + length s1 + length s2) (firstn o buf)) with (@nil byte)
    by (symmetry; apply skipn_all2; rewrite length_firstn; lia).
  simpl.
  replace (o + length s1 + length s2 - o)%nat
    with (length s1 + length s2)%nat by lia.
  rewrite skipn_app.
  replace (skipn (length s1 + length s2) s1) with (@nil byte)
    by (symmetry; apply skipn_all2; lia).
  simpl.
  replace (length s1 + length s2 - length s1)%nat with (length s2) by lia.
  rewrite skipn_skipn; f_equal; lia.
Qed.

Lemma u8_small (z : Z) : 0 <= z < 256 -> u8 z = z.
Proof. intros H; unfold u8; apply Z.mod_small; lia. Qed.

Lemma u16_small (z : Z) : 0 <= z < 65536 -> u16 z = z.
Proof. intros H; unfold u16; apply Z.mod_small; lia. Qed.

Lemma to_int_small (z : Z) : -2147483648 <= z < 2147483648 -> to_int z = z.
Proof. intros H; unfold to_int; rewrite Z.mod_small; lia. Qed.

Lemma land_255 (z : Z) : Z.land z 255 = z mod 256.
Proof. change 255 with (Z.ones 8); rewrite Z.land_ones by lia; reflexivity. Qed.

(** The length header the writer builds decodes to the length it
    encodes. *)
Lemma decode_encode_len (n : Z) : 0 <= n < 65536 -> decode_len (encode_len n) = n.
Proof.
  intros H; unfold decode_len, encode_len; simpl nth.
  rewrite !land_255, Z.shiftr_div_pow2 by lia.
  unfold u8, u16.
  rewrite !Z.mod_mod by lia.
  change (2 ^ 8) with 256.
  assert (H1 : 0 <= n mod 256 < 256) by (apply Z.mod_pos_bound; lia).
  assert (H2 : 0 <= n / 256 < 256)
    by (split; [apply Z.div_pos; lia | apply Z.div_lt_upper_bound; lia]).
  rewrite (Z.mod_small (n / 256) 256) by lia.
  rewrite (Z.mod_small (n mod 256) 65536) by lia.
  rewrite (Z.mod_small (n / 256) 65536) by lia.
  rewrite Z.shiftl_mul_pow2 by lia; change (2 ^ 8) with 256.
  assert (Hd : Z.land (n mod 256) (n / 256 * 256) = 0).
  { apply Z.bits_inj'; intros i Hi.
    rewrite Z.land_spec, Z.bits_0.
    destruct (Z.ltb_spec i 8).
    - change 256 with (2 ^ 8) at 3.
      rewrite Z.mul_pow2_bits_low by lia; apply andb_false_r.
    - change 256 with (2 ^ 8) at 1.
      rewrite Z.mod_pow2_bits_high by lia; reflexivity. }
  rewrite <- Z.lxor_lor, <- Z.add_nocarry_lxor by exact Hd.
  rewrite Z.mod_small by lia.
  rewrite (Z.div_mod n 256) at 3 by lia; lia.
Qed.

Lemma encode_len_length (n : Z) : length (encode_len n) = 2%nat.
Proof. reflexivity. Qed.

(** ** The socket writer *)

Lemma send_spec (w : world) (src : list byte) :
  src <> [] ->
  forall r w', send w src = (r, w') ->
  rx w' = rx w /\ heap w' = heap w /\ trace w' = trace w /\
  (exists t, tx w = t ++ tx w') /\
  ((r = -1 /\ wire w' = wire w /\ ~ reliable w) \/
   (1 <= r <= len src /\ wire w' = wire w ++ firstn (Z.to_nat r) src)).
Proof.
  intros Hne r w' H; unfold send in H.
  assert (Hl : 1 <= len src).
  { unfold len; destruct src; [congruence | simpl; lia]. }
  destruct (tx w) as [| [k |] rest] eqn:Htx; inversion H; subst; clear H; simpl.
  - repeat split; try reflexivity.
    + exists []; reflexivity.
    + right; split; [lia |].
      unfold len; rewrite Nat2Z.id, firstn_all; reflexivity.
  - repeat split; try reflexivity.
    + exists [TxAccept k]; reflexivity.
    + right; rewrite Nat2Z.id; split; [unfold len in *; lia | reflexivity].
  - repeat split; try reflexivity.
    + exists [TxFail]; reflexivity.
    + left; repeat split; try reflexivity.
      intros [Hr _]; rewrite Htx in Hr; inversion Hr; congruence.
Qed.

Lemma reliable_send (w : world) (src : list byte) :
  reliable w -> reliable (snd (send w src)).
Proof.
  intros [Ht Hh]; unfold send.
  destruct (tx w) as [| [k |] rest] eqn:Htx; simpl; split; simpl; auto;
    inversion Ht; auto.
Qed.

(** [send_all] always returns: with 0 once every byte is on the wire, or
    with -1 after a failed [send], having put a proper prefix on the
    wire.  In a reliable world it returns 0. *)
Lemma send_all_loop_spec (fuel : nat) :
  forall (w : world) (data : list byte) (sent : Z),
    0 <= sent -> len data - sent <= Z.of_nat fuel ->
    exists r w' k,
      send_all_loop fuel w data sent = Some (r, w') /\
      rx w' = rx w /\ heap w' = heap w /\ trace w' = trace w /\
      sent <= k /\
      wire w' = wire w ++ firstn (Z.to_nat (k - sent)) (skipn (Z.to_nat sent) data) /\
      ((r = 0 /\ (sent <= len data -> k = len data) /\ (reliable w -> reliable w')) \/
       (r = -1 /\ k < len data /\ ~ reliable w)).
Proof.
  induction fuel as [| fuel IH]; intros w data sent Hs Hf; simpl.
  - destruct (Z.ltb_spec sent (len data)); [lia |].
    exists 0, w, sent; repeat split; try reflexivity; try lia.
    + rewrite Z.sub_diag; simpl; rewrite app_nil_r; reflexivity.
    + left; split; [reflexivity | split; [lia | auto]].
  - destruct (Z.ltb_spec sent (len data)) as [Hlt | Hge].
    + destruct (send w (skipn (Z.to_nat sent) data)) as [r w1] eqn:Hsend.
      assert (Hne : skipn (Z.to_nat sent) data <> []).
      { intros E; apply (f_equal (@length byte)) in E.
        rewrite length_skipn in E; unfold len in Hlt; simpl in E; lia. }
      assert (Hls : len (skipn (Z.to_nat sent) data) = len data - sent).
      { unfold len in *; rewrite length_skipn; lia. }
      destruct (send_spec w _ Hne r w1 Hsend)
        as (Hrx & Hhp & Htr & _ & [(Hr & Hw & Hnr) | (Hr & Hw)]).
      * subst r; simpl.
        exists (-1), w1, sent.
        split; [reflexivity |].
        repeat (split; [first [assumption | lia] |]).
        split; [rewrite Z.sub_diag, Hw; simpl; rewrite app_nil_r; reflexivity |].
        right; split; [reflexivity | split; [lia | assumption]].
      * destruct (Z.leb_spec r 0); [lia |].
        destruct (IH w1 data (sent + r)) as (r' & w' & k & Hrun & Hrx' & Hhp' & Htr' & Hk & Hw' & Hres);
          [lia | lia |].
        exists r', w', k; repeat split; try congruence; try lia.
        -- rewrite Hw', Hw, <- app_assoc; f_equal.
           replace (Z.to_nat (sent + r)) with (Z.to_nat sent + Z.to_nat r)%nat by lia.
           rewrite <- skipn_add, firstn_add_skipn; f_equal; lia.
        -- destruct Hres as [(H0 & Hk' & Hrel) | (H1 & Hk' & Hnr)].
           ++ left; split; [assumption | split; [lia |]].
              intros Hw0; apply Hrel.
              replace w1 with (snd (send w (skipn (Z.to_nat sent) data)))
                by (rewrite Hsend; reflexivity).
              apply reliable_send; exact Hw0.
           ++ right; split; [assumption | split; [lia |]].
              intros Hw0; apply Hnr.
              replace w1 with (snd (send w (skipn (Z.to_nat sent) data)))
                by (rewrite Hsend; reflexivity).
              apply reliable_send; exact Hw0.
    + exists 0, w, sent; repeat split; try reflexivity; try lia.
      * rewrite Z.sub_diag; simpl; rewrite app_nil_r; reflexivity.
      * left; split; [reflexivity | split; [lia | auto]].
Qed.

Lemma send_all_spec (w : world) (data : list byte) :
  exists r w' k,
    send_all w data = Some (r, w') /\
    rx w' = rx w /\ heap w' = heap w /\ trace w' = trace w /\
    wire w' = wire w ++ firstn k data /\
    ((r = 0 /\ k = length data /\ (reliable w -> reliable w')) \/
     (r = -1 /\ (k < length data)%nat /\ ~ reliable w)).
Proof.
  destruct (send_all_loop_spec (length data) w data 0)
    as (r & w' & k & Hrun & Hrx & Hhp & Htr & Hk & Hw & Hres);
    [lia | unfold len; lia |].
  exists r, w', (Z.to_nat k); repeat split; auto.
  - rewrite Hw, Z.sub_0_r; reflexivity.
  - pose proof (len_nonneg data) as Hn.
    destruct Hres as [(H0 & Hk' & Hrel) | (H1 & Hk' & Hnr)].
    + left; split; [assumption | split; [| assumption]].
      rewrite Hk' by lia; unfold len; lia.
    + right; split; [assumption | split; [unfold len in *; lia | assumption]].
Qed.

(** ** The encrypted frame writer *)

Lemma malloc_spec (w : world) (size : Z) :
  forall ok w', malloc w size = (ok, w') ->
  rx w' = rx w /\ tx w' = tx w /\ wire w' = wire w /\
  trace w' = trace w ++ [EvMalloc size ok] /\
  (reliable w -> ok = true /\ reliable w') /\
  (exists h, heap w = h ++ heap w').
Proof.
  intros ok w' H; unfold malloc in H.
  destruct (heap w) as [| b rest] eqn:Hh; inversion H; subst; clear H; simpl;
    repeat (split; [reflexivity |]).
  - split.
    + intros [Ht Hp]; split; [reflexivity | split; simpl; [exact Ht |]].
      rewrite Hh; constructor.
    + exists []; symmetry; exact Hh.
  - split.
    + intros [Ht Hp]; rewrite Hh in Hp; inversion Hp; subst.
      split; [reflexivity | split; simpl; assumption].
    + exists [ok]; reflexivity.
Qed.

Lemma reliable_log (w : world) (e : event) : reliable w -> reliable (log w e).
Proof. intros H; exact H. Qed.

Lemma iter_incr64_succ (k : nat) (n : Z) :
  Nat.iter k incr64 (incr64 n) = Nat.iter (S k) incr64 n.
Proof. symmetry; apply Nat.iter_succ_r. Qed.

(** After [k] increments a 64-bit counter holds [n + k] modulo 2^64. *)
Lemma iter_incr64 (k : nat) (n : Z) :
  0 <= n < 18446744073709551616 ->
  Nat.iter k incr64 n = (n + Z.of_nat k) mod 18446744073709551616.
Proof.
  intros Hn; induction k as [| k IH].
  - simpl; rewrite Z.add_0_r, Z.mod_small; lia.
  - rewrite Nat.iter_succ, IH; unfold incr64, u64.
    rewrite Zplus_mod_idemp_l; f_equal; lia.
Qed.

Section WriterProperties.

Variable RTSP_ENCRYPTED_BLOCK_MAX : Z.
Variable aead_encrypt :
  list byte -> list byte -> list byte -> list byte -> list byte.

(** The ceiling fits the [uint16_t] that holds a block length. *)
Hypothesis block_max_range : 0 < RTSP_ENCRYPTED_BLOCK_MAX <= 65535.

Local Abbreviation MAX := RTSP_ENCRYPTED_BLOCK_MAX (only parsing).

Lemma block_len_chunk (data : list byte) (offset : Z) :
  0 <= offset < len data ->
  let rest := skipn (Z.to_nat offset) data in
  let c := firstn (Z.to_nat MAX) rest in
  u16 (if len data - offset >? MAX then MAX else u16 (len data - offset))
  = len c /\
  firstn (Z.to_nat (len c)) rest = c /\
  skipn (Z.to_nat (offset + len c)) data = skipn (Z.to_nat MAX) rest /\
  1 <= len c <= MAX /\ offset + len c <= len data /\ rest <> [].
Proof.
  intros Ho rest c.
  assert (Hrest : len rest = len data - offset).
  { unfold rest, len in *; rewrite length_skipn; lia. }
  assert (Hc : len c = Z.min MAX (len rest)).
  { unfold c, len; rewrite length_firstn; lia. }
  split; [| split; [| split; [| split; [| split]]]].
  - rewrite Hc, Hrest.
    destruct (Z.gtb_spec (len data - offset) MAX).
    + rewrite u16_small by lia; lia.
    + rewrite (u16_small (len data - offset)) by lia.
      rewrite u16_small by lia; lia.
  - unfold c at 2.
    destruct (Z.le_ge_cases MAX (len rest)).
    + rewrite Hc, Z.min_l by lia; reflexivity.
    + rewrite Hc, Z.min_r by lia.
      unfold len; rewrite Nat2Z.id, firstn_all.
      symmetry; apply firstn_all2; unfold len in *; lia.
  - replace (Z.to_nat (offset + len c))
      with (Z.to_nat offset + Z.to_nat (len c))%nat by (unfold len; lia).
    rewrite <- skipn_add; fold rest.
    destruct (Z.le_ge_cases MAX (len rest)).
    + rewrite Hc, Z.min_l by lia; reflexivity.
    + rewrite Hc, Z.min_r by lia.
      unfold len; rewrite Nat2Z.id, skipn_all.
      symmetry; apply skipn_all2; unfold len in *; lia.
  - lia.
  - lia.
  - intros E; rewrite E in Hrest; unfold len in *; simpl in Hrest; lia.
Qed.

(** What one run of the chunking loop does, whatever the socket and the
    allocator do: [k] whole frames were written under consecutive
    counters and the counter was advanced [k] times; the run returns 0
    with every chunk written, or -1 with a proper prefix of the next
    frame on the wire (possibly nothing) and the counter not advanced
    for that frame. *)
Lemma write_frame_loop_spec (fuel : nat) :
  forall (w : world) (sess : hap_session_t) (data : list byte) (offset : Z),
    0 <= offset -> len data - offset <= Z.of_nat fuel ->
    let cs := chunks_fuel MAX fuel (skipn (Z.to_nat offset) data) in
    let key := encrypt_key sess in
    let n0 := encrypt_nonce sess in
    exists r w' sess' k part tail,
      write_frame_loop MAX aead_encrypt fuel w sess data offset
      = Some (r, w', sess') /\
      rx w' = rx w /\
      encrypt_key sess' = key /\
      decrypt_key sess' = decrypt_key sess /\
      decrypt_nonce sess' = decrypt_nonce sess /\
      encrypt_nonce sess' = Nat.iter k incr64 n0 /\
      wire w' = wire w ++ wire_frames aead_encrypt key n0 (firstn k cs) ++ part /\
      trace w' = trace w ++ trace_frames key n0 (firstn k cs) ++ tail /\
      ((r = 0 /\ k = length cs /\ part = [] /\ tail = [] /\
        (reliable w -> reliable w')) \/
       (r = -1 /\ (k < length cs)%nat /\
        (exists j,
            (j < length (frame aead_encrypt key (Nat.iter k incr64 n0)
                               (nth k cs [])))%nat /\
            part = firstn j (frame aead_encrypt key (Nat.iter k incr64 n0)
                                   (nth k cs []))) /\
        (tail = [EvMalloc (len (nth k cs []) + 16) false] \/
         tail = frame_events key (Nat.iter k incr64 n0) (nth k cs [])) /\
        (reliable w -> ~ aead_length_law aead_encrypt))) /\
      (forall i, (i < k)%nat ->
                 len (frame aead_encrypt key (Nat.iter i incr64 n0)
                            (nth i cs []))
                 = 2 + len (nth i cs []) + 16).
Proof.
  induction fuel as [| fuel IH]; intros w sess data offset Ho Hf cs key n0.
  - simpl. destruct (Z.ltb_spec offset (len data)); [lia |].
    exists 0, w, sess, O, [], []; simpl.
    repeat (split; [first [reflexivity | rewrite app_nil_r; reflexivity] |]).
    split; [| intros i Hi; lia].
    left; repeat (split; [reflexivity |]); auto.
  - cbn [write_frame_loop].
    destruct (Z.ltb_spec offset (len data)) as [Hlt | Hge].
    2:{ exists 0, w, sess, O, [], []; simpl.
        repeat (split; [first [reflexivity | rewrite app_nil_r; reflexivity] |]).
        split; [| intros i Hi; lia].
        left; split; [reflexivity | split].
        - unfold cs. rewrite skipn_all2 by (unfold len in *; lia).
          reflexivity.
        - repeat (split; [reflexivity |]); auto. }
    destruct (block_len_chunk data offset (conj Ho Hlt))
      as (HB & Hfirst & Hskip & Hrange & Hle & Hne).
    set (rest := skipn (Z.to_nat offset) data) in *.
    set (c := firstn (Z.to_nat MAX) rest) in *.
    assert (Hcs : cs = c :: chunks_fuel MAX fuel (skipn (Z.to_nat MAX) rest)).
    { unfold cs; fold rest. destruct rest; [congruence | reflexivity]. }
    rewrite HB, Hfirst.
    destruct (malloc w (len c + 16)) as [ok w1] eqn:Hm.
    destruct (malloc_spec _ _ _ _ Hm) as (Mrx & Mtx & Mwire & Mtr & Mrel & _).
    destruct ok; simpl negb; cbv iota.
    2:{ exists (-1), w1, sess, O, [], [EvMalloc (len c + 16) false].
        rewrite Hcs; simpl.
        repeat (split; [first [reflexivity | assumption
                              | rewrite app_nil_r; assumption] |]).
        split; [| intros i Hi; lia].
        right; split; [reflexivity | split; [simpl; lia | split; [| split]]].
        - exists O; split; [simpl; lia | reflexivity].
        - left; reflexivity.
        - intros Hr; destruct (Mrel Hr); discriminate. }
    set (ct := aead_encrypt (encrypt_key sess) (make_nonce (encrypt_nonce sess))
                            (encode_len (len c)) c).
    set (w2 := log w1 (EvEncrypt (encrypt_key sess)
                                 (make_nonce (encrypt_nonce sess))
                                 (encode_len (len c)) c)).
    assert (Hfr : frame aead_encrypt key n0 c = encode_len (len c) ++ ct)
      by reflexivity.
    assert (Hev : forall wx, trace wx = trace w2 ->
                  trace (free wx) = trace w ++ frame_events key n0 c).
    { intros wx E; unfold free, log; simpl; rewrite E; unfold w2, log; simpl.
      rewrite Mtr, <- !app_assoc; reflexivity. }
    assert (W2rx : rx w2 = rx w) by exact Mrx.
    assert (W2wire : wire w2 = wire w) by exact Mwire.
    destruct (Z.eqb_spec (len ct) (len c + 16)) as [Hct | Hct]; simpl negb;
      cbv iota.
    2:{ exists (-1), (free w2), sess, O, [], (frame_events key n0 c).
        rewrite Hcs; simpl firstn; simpl nth; simpl Nat.iter;
          simpl wire_frames; simpl trace_frames.
        split; [reflexivity |].
        split; [exact Mrx |].
        repeat (split; [reflexivity |]).
        split; [simpl; rewrite app_nil_r; exact Mwire |].
        split; [apply Hev; reflexivity |].
        split; [| intros i Hi; lia].
        right; split; [reflexivity | split; [simpl; lia | split; [| split]]].
        - exists O; split; [simpl; lia | reflexivity].
        - right; reflexivity.
        - intros _ Hlaw; apply Hct; apply Hlaw. }
    destruct (send_all_spec w2 (encode_len (len c)))
      as (r1 & w3 & k1 & Hs1 & S1rx & S1hp & S1tr & S1w & S1res).
    rewrite Hs1.
    destruct S1res as [(-> & Hk1 & S1rel) | (-> & Hk1 & S1nr)]; simpl negb;
      cbv iota.
    2:{ exists (-1), (free w3), sess, O, (firstn k1 (encode_len (len c))),
               (frame_events key n0 c).
        rewrite Hcs; simpl firstn; simpl nth; simpl Nat.iter;
          simpl wire_frames; simpl trace_frames.
        split; [reflexivity |].
        split; [simpl; congruence |].
        repeat (split; [reflexivity |]).
        split; [simpl; rewrite S1w; simpl; congruence |].
        split; [apply Hev; exact S1tr |].
        split; [| intros i Hi; lia].
        right; split; [reflexivity | split; [simpl; lia | split; [| split]]].
        - exists k1; split.
          + rewrite Hfr, length_app; lia.
          + rewrite Hfr, firstn_app.
            replace (k1 - length (encode_len (len c)))%nat with O by lia.
            rewrite firstn_0, app_nil_r; reflexivity.
        - right; reflexivity.
        - intros Hr _; apply S1nr; unfold w2; apply reliable_log.
          apply Mrel; exact Hr. }
    destruct (send_all_spec w3 ct)
      as (r2 & w4 & k2 & Hs2 & S2rx & S2hp & S2tr & S2w & S2res).
    rewrite Hs2.
    destruct S2res as [(-> & Hk2 & S2rel) | (-> & Hk2 & S2nr)]; simpl negb;
      cbv iota.
    2:{ exists (-1), (free w4), sess, O, (encode_len (len c) ++ firstn k2 ct),
               (frame_events key n0 c).
        rewrite Hcs; simpl firstn; simpl nth; simpl Nat.iter;
          simpl wire_frames; simpl trace_frames.
        split; [reflexivity |].
        split; [simpl; congruence |].
        repeat (split; [reflexivity |]).
        split.
        { simpl; rewrite S2w, S1w, Hk1, firstn_all; simpl.
          rewrite Mwire, <- app_assoc; reflexivity. }
        split; [apply Hev; congruence |].
        split; [| intros i Hi; lia].
        right; split; [reflexivity | split; [simpl; lia | split; [| split]]].
        - exists (length (encode_len (len c)) + k2)%nat; split.
          + rewrite Hfr, length_app; lia.
          + rewrite Hfr, firstn_app.
            rewrite (firstn_all2 (encode_len (len c))) by lia.
            f_equal; f_equal; lia.
        - right; reflexivity.
        - intros Hr _; apply S2nr, S1rel; unfold w2; apply reliable_log.
          apply Mrel; exact Hr. }
    (* the frame went out: the loop goes on with the next chunk *)
    set (sess1 := mkSession (encrypt_key sess) (decrypt_key sess)
                            (incr64 (encrypt_nonce sess)) (decrypt_nonce sess)).
    destruct (IH (free w4) sess1 data (offset + len c))
      as (r & w' & sess' & k & part & tail & Hrun & Rrx & Rek & Rdk & Rdn
          & Ren & Rw & Rtr & Rres & Rtag); [lia | lia |].
    rewrite Hskip in *.
    set (cs' := chunks_fuel MAX fuel (skipn (Z.to_nat MAX) rest)) in *.
    unfold sess1 in *.
    cbn [encrypt_key decrypt_key encrypt_nonce decrypt_nonce] in *.
    change (wire (free w4)) with (wire w4) in Rw.
    change (rx (free w4)) with (rx w4) in Rrx.
    exists r, w', sess', (S k), part, tail.
    rewrite Hcs; fold cs'.
    split; [exact Hrun |].
    split; [congruence |].
    split; [exact Rek |].
    split; [exact Rdk |].
    split; [exact Rdn |].
    split; [rewrite Ren; apply iter_incr64_succ |].
    split.
    { rewrite Rw; cbn [firstn wire_frames].
      rewrite S2w, S1w, Hk1, Hk2, !firstn_all, W2wire, Hfr.
      rewrite <- !app_assoc; reflexivity. }
    split.
    { rewrite Rtr; cbn [firstn trace_frames].
      rewrite (Hev w4) by congruence.
      rewrite <- !app_assoc; reflexivity. }
    split.
    2:{ intros i Hi; destruct i as [| i].
        - change (len (frame aead_encrypt key n0 c) = 2 + len c + 16).
          rewrite Hfr, len_app, Hct.
          change (len (encode_len (len c))) with 2; lia.
        - rewrite <- iter_incr64_succ; cbn [nth]; apply Rtag; lia. }
    destruct Rres as [(-> & Rk & -> & -> & Rrel)
                     | (-> & Rk & Rpart & Rtail & Rnr)].
    + left; split; [reflexivity | split; [simpl; lia |]].
      repeat (split; [reflexivity |]).
      intros Hr; apply Rrel; unfold free; apply reliable_log.
      apply S2rel, S1rel; unfold w2; apply reliable_log, Mrel, Hr.
    + right; split; [reflexivity | split; [simpl; lia |]].
      rewrite <- iter_incr64_succ; simpl nth.
      split; [exact Rpart | split; [exact Rtail |]].
      intros Hr; apply Rnr; unfold free; apply reliable_log.
      apply S2rel, S1rel; unfold w2; apply reliable_log, Mrel, Hr.
Qed.

(** The writer as a whole: the loop started at offset 0. *)
Lemma write_frame_outcome
      (w : world) (conn : rtsp_conn_t) (sess : hap_session_t)
      (data : list byte) :
  hap_session conn = Some sess ->
  encrypted_mode conn = true ->
  let cs := chunks MAX data in
  let key := encrypt_key sess in
  let n0 := encrypt_nonce sess in
  exists r w' sess' k part,
    rtsp_crypto_write_frame MAX aead_encrypt w conn data
    = Some (r, w', set_session conn sess') /\
    encrypt_nonce sess' = Nat.iter k incr64 n0 /\
    wire w' = wire w ++ wire_frames aead_encrypt key n0 (firstn k cs) ++ part /\
    ((r = 0 /\ k = length cs /\ part = []) \/
     (r = -1 /\ (k < length cs)%nat /\
      exists j,
        (j < length (frame aead_encrypt key (Nat.iter k incr64 n0)
                           (nth k cs [])))%nat /\
        part = firstn j (frame aead_encrypt key (Nat.iter k incr64 n0)
                               (nth k cs [])))) /\
    (reliable w -> aead_length_law aead_encrypt -> r = 0).
Proof.
  intros Hs Hm cs key n0.
  destruct (write_frame_loop_spec (length data) w sess data 0)
    as (r & w' & sess' & k & part & tail & Hrun & _ & _ & _ & _ & Hn & Hw
        & _ & Hres & _); [lia | unfold len; lia |].
  change (skipn (Z.to_nat 0) data) with data in *.
  fold (chunks MAX data) in *; fold cs in Hw, Hres.
  exists r, w', sess', k, part.
  unfold rtsp_crypto_write_frame; rewrite Hs, Hm, Hrun.
  split; [reflexivity | split; [exact Hn | split; [exact Hw |]]].
  destruct Hres as [(-> & Hk & -> & _ & _) | (-> & Hk & Hp & _ & Hnr)].
  - split; [left; auto | auto].
  - split; [right; auto |].
    intros Hr Hlaw; exfalso; exact (Hnr Hr Hlaw).
Qed.

(** The same, with the size of every frame that was written whole. *)
Lemma write_frame_outcome_tags
      (w : world) (conn : rtsp_conn_t) (sess : hap_session_t)
      (data : list byte) :
  hap_session conn = Some sess ->
  encrypted_mode conn = true ->
  let cs := chunks MAX data in
  let key := encrypt_key sess in
  let n0 := encrypt_nonce sess in
  exists r w' sess' k part,
    rtsp_crypto_write_frame MAX aead_encrypt w conn data
    = Some (r, w', set_session conn sess') /\
    encrypt_nonce sess' = Nat.iter k incr64 n0 /\
    wire w' = wire w ++ wire_frames aead_encrypt key n0 (firstn k cs) ++ part /\
    ((r = 0 /\ k = length cs /\ part = []) \/
     (r = -1 /\ (k < length cs)%nat /\
      exists j,
        (j < length (frame aead_encrypt key (Nat.iter k incr64 n0)
                           (nth k cs [])))%nat /\
        part = firstn j (frame aead_encrypt key (Nat.iter k incr64 n0)
                               (nth k cs [])))) /\
    (reliable w -> aead_length_law aead_encrypt -> r = 0) /\
    (forall i, (i < k)%nat ->
               len (frame aead_encrypt key (Nat.iter i incr64 n0)
                          (nth i cs []))
               = 2 + len (nth i cs []) + 16).
Proof.
  intros Hs Hm cs key n0.
  destruct (write_frame_loop_spec (length data) w sess data 0)
    as (r & w' & sess' & k & part & tail & Hrun & _ & _ & _ & _ & Hn & Hw
        & _ & Hres & Htag); [lia | unfold len; lia |].
  change (skipn (Z.to_nat 0) data) with data in *.
  fold (chunks MAX data) in *; fold cs in Hw, Hres, Htag.
  exists r, w', sess', k, part.
  unfold rtsp_crypto_write_frame; rewrite Hs, Hm, Hrun.
  split; [reflexivity | split; [exact Hn | split; [exact Hw |]]].
  destruct Hres as [(-> & Hk & -> & _ & _) | (-> & Hk & Hp & _ & Hnr)].
  - split; [left; auto | split; [auto | exact Htag]].
  - split; [right; auto |].
    split; [| exact Htag].
    intros Hr Hlaw; exfalso; exact (Hnr Hr Hlaw).
Qed.

End WriterProperties.

Section ChunkProperties.

Variable RTSP_ENCRYPTED_BLOCK_MAX : Z.
Hypothesis block_max_pos : 0 < RTSP_ENCRYPTED_BLOCK_MAX.

Local Abbreviation MAX := RTSP_ENCRYPTED_BLOCK_MAX (only parsing).

(** The chunks are consecutive pieces of the payload, each of 1 to
    [MAX] bytes, and there are ceil(L / MAX) of them. *)
Lemma chunks_fuel_spec (fuel : nat) :
  forall data : list byte,
    (length data <= fuel)%nat ->
    concat (chunks_fuel MAX fuel data) = data /\
    Forall (fun c => 1 <= len c <= MAX) (chunks_fuel MAX fuel data) /\
    Z.of_nat (length (chunks_fuel MAX fuel data))
    = (len data + MAX - 1) / MAX.
Proof.
  induction fuel as [| fuel IH]; intros data Hl.
  - destruct data; [| simpl in Hl; lia].
    simpl; repeat split; [constructor |].
    unfold len; simpl. symmetry; apply Z.div_small; lia.
  - destruct data as [| x data'].
    + simpl; repeat split; [constructor |].
      unfold len; simpl. symmetry; apply Z.div_small; lia.
    + set (data := x :: data') in *.
      assert (Hd : 1 <= len data) by (unfold len, data; simpl; lia).
      change (chunks_fuel MAX (S fuel) data)
        with (firstn (Z.to_nat MAX) data
                :: chunks_fuel MAX fuel (skipn (Z.to_nat MAX) data)).
      assert (Hc : len (firstn (Z.to_nat MAX) data) = Z.min MAX (len data)).
      { unfold len; rewrite length_firstn; lia. }
      assert (Hs : len (skipn (Z.to_nat MAX) data)
                   = len data - Z.min MAX (len data)).
      { unfold len; rewrite length_skipn; lia. }
      destruct (IH (skipn (Z.to_nat MAX) data)) as (Hcat & Hall & Hnum).
      { rewrite length_skipn. unfold len in Hd. lia. }
      split; [| split].
      * simpl concat; rewrite Hcat; apply firstn_skipn.
      * constructor; [lia | exact Hall].
      * simpl length; rewrite Nat2Z.inj_succ, Hnum, Hs.
        destruct (Z.le_gt_cases (len data) MAX).
        -- rewrite Z.min_r by lia.
           replace (len data - len data + MAX - 1) with (MAX - 1) by lia.
           rewrite Z.div_small by lia.
           replace (len data + MAX - 1) with (len data - 1 + 1 * MAX) by lia.
           rewrite Z.div_add, Z.div_small by lia; reflexivity.
        -- rewrite Z.min_l by lia.
           replace (len data + MAX - 1)
             with (len data - MAX + MAX - 1 + 1 * MAX) by lia.
           rewrite Z.div_add by lia; lia.
Qed.

End ChunkProperties.

Section WriterTheorems.

Variable RTSP_ENCRYPTED_BLOCK_MAX : Z.
Variable aead_encrypt :
  list byte -> list byte -> list byte -> list byte -> list byte.
Hypothesis block_max_range : 0 < RTSP_ENCRYPTED_BLOCK_MAX <= 65535.

Local Abbreviation MAX := RTSP_ENCRYPTED_BLOCK_MAX (only parsing).

(** The two length bytes the writer builds, in plain numbers. *)
Lemma encode_len_bytes (n : Z) :
  0 <= n <= 65535 -> encode_len n = [n mod 256; n / 256].
Proof.
  intros Hn; unfold encode_len, u8.
  rewrite !land_255, Z.shiftr_div_pow2 by lia; change (2 ^ 8) with 256.
  rewrite !Z.mod_mod by lia.
  rewrite (Z.mod_small (n / 256)); [reflexivity |].
  split; [apply Z.div_pos; lia | apply Z.div_lt_upper_bound; lia].
Qed.

Lemma frame_framed (key : list byte) (counter : Z) (c : list byte) :
  len c <= MAX ->
  frame aead_encrypt key counter c = framed aead_encrypt key counter c.
Proof.
  intros Hc; unfold frame, framed.
  rewrite encode_len_bytes by (unfold len in *; lia); reflexivity.
Qed.

Lemma wire_frames_framed_run (key : list byte) (cs : list (list byte)) :
  forall counter,
    Forall (fun c => 1 <= len c <= MAX) cs ->
    wire_frames aead_encrypt key counter cs
    = framed_run aead_encrypt key counter cs.
Proof.
  induction cs as [| c cs IH]; intros counter Hall; [reflexivity |].
  inversion Hall as [| ? ? Hc Hcs]; subst.
  cbn [wire_frames framed_run].
  rewrite frame_framed by lia.
  rewrite IH by exact Hcs. reflexivity.
Qed.

Lemma Forall_firstn_chunks {A : Type} (P : A -> Prop) (k : nat) (l : list A) :
  Forall P l -> Forall P (firstn k l).
Proof.
  intros H; revert k; induction H as [| x l Hx Hl IH]; intros [| k];
    cbn [firstn]; constructor; auto.
Qed.

Lemma counter_after_incr64 (k : nat) (n : Z) :
  counter_after k n = Nat.iter k incr64 n.
Proof. reflexivity. Qed.

(** C6.  A payload of L > 0 bytes is cut into ceil(L / MAX) consecutive
    chunks of at most MAX bytes.  Whatever the socket and the allocator
    do, the writer returns, having put on the wire, in order, the frames
    of the first [k] chunks, each under the next value of the outbound
    counter, which ends [k] steps ahead.  It returns 0 with every chunk
    written, or -1 with only a proper prefix (possibly empty) of the
    frame of chunk [k] sent after them, the counter not advanced for
    that chunk and no later chunk sent.  When no send and no allocation
    fails and the AEAD output has the length libsodium promises, it
    returns 0.

    The frames and the counter in plain numbers: the frame of a chunk
    of [n] bytes is the two bytes [n mod 256] and [n / 256], then the
    AEAD output for the chunk with those two bytes as associated data;
    every frame that was written whole has 2 + n + 16 bytes; one step
    of the counter is [+ 1] in 64 bits, so that after [k] frames the
    counter is the initial value plus [k] (modulo 2^64). *)
Theorem write_frame_chunked
        (w : world) (conn : rtsp_conn_t) (sess : hap_session_t)
        (data : list byte) :
  hap_session conn = Some sess ->
  encrypted_mode conn = true ->
  0 < len data ->
  let cs := chunks MAX data in
  let key := encrypt_key sess in
  let n0 := encrypt_nonce sess in
  concat cs = data /\
  Forall (fun c => 1 <= len c <= MAX) cs /\
  Z.of_nat (length cs) = (len data + MAX - 1) / MAX /\
  exists r w' sess' k part,
    rtsp_crypto_write_frame MAX aead_encrypt w conn data
    = Some (r, w', set_session conn sess') /\
    encrypt_nonce sess' = Nat.iter k incr64 n0 /\
    wire w' = wire w ++ wire_frames aead_encrypt key n0 (firstn k cs) ++ part /\
    ((r = 0 /\ k = length cs /\ part = []) \/
     (r = -1 /\ (k < length cs)%nat /\
      exists j,
        (j < length (frame aead_encrypt key (Nat.iter k incr64 n0)
                           (nth k cs [])))%nat /\
        part = firstn j (frame aead_encrypt key (Nat.iter k incr64 n0)
                               (nth k cs [])))) /\
    (reliable w -> aead_length_law aead_encrypt -> r = 0) /\
    (* the same wire, byte for byte *)
    wire w' = wire w ++ framed_run aead_encrypt key n0 (firstn k cs) ++ part /\
    (forall i, (i < k)%nat ->
               len (framed aead_encrypt key (counter_after i n0) (nth i cs []))
               = 2 + len (nth i cs []) + 16) /\
    (r = -1 ->
     exists j,
       (j < length (framed aead_encrypt key (encrypt_nonce sess')
                           (nth k cs [])))%nat /\
       part = firstn j (framed aead_encrypt key (encrypt_nonce sess')
                               (nth k cs []))) /\
    (* the same counter, in numbers *)
    encrypt_nonce sess' = counter_after k n0 /\
    (0 <= n0 < 18446744073709551616 ->
     encrypt_nonce sess' = (n0 + Z.of_nat k) mod 18446744073709551616) /\
    (0 <= n0 -> n0 + Z.of_nat k < 18446744073709551616 ->
     encrypt_nonce sess' = n0 + Z.of_nat k).
Proof.
  intros Hs Hm Hl cs key n0.
  destruct (chunks_fuel_spec MAX ltac:(lia) (length data) data (le_n _))
    as (Hcat & Hall & Hnum).
  split; [exact Hcat | split; [exact Hall | split; [exact Hnum |]]].
  destruct (write_frame_outcome_tags MAX aead_encrypt block_max_range w conn
              sess data Hs Hm)
    as (r & w' & sess' & k & part & Hrun & Hn & Hw & Hres & Hok & Htag).
  fold cs key n0 in Hn, Hw, Hres, Htag.
  fold (chunks MAX data) in Hall; fold cs in Hall.
  assert (Hnth : forall i, (i < length cs)%nat -> len (nth i cs []) <= MAX).
  { intros i Hi.
    pose proof (proj1 (Forall_forall _ cs) Hall (nth i cs [])
                      (nth_In cs [] Hi)) as Hc.
    cbv beta in Hc; lia. }
  exists r, w', sess', k, part.
  split; [exact Hrun |]. split; [exact Hn |]. split; [exact Hw |].
  split; [exact Hres |]. split; [exact Hok |].
  split.
  { rewrite Hw, wire_frames_framed_run
      by (apply Forall_firstn_chunks; exact Hall); reflexivity. }
  split.
  { intros i Hi. rewrite counter_after_incr64, <- frame_framed.
    - apply Htag; exact Hi.
    - apply Hnth.
      destruct Hres as [(_ & -> & _) | (_ & Hk & _)]; lia. }
  split.
  { intros Hr.
    destruct Hres as [(-> & _) | (_ & Hk & j & Hj & Hp)]; [discriminate |].
    rewrite Hn, <- frame_framed by (apply Hnth; exact Hk).
    exists j; split; assumption. }
  split; [rewrite counter_after_incr64; exact Hn |].
  split.
  { intros Hr; rewrite Hn; apply iter_incr64; exact Hr. }
  intros Hlo Hhi; rewrite Hn, iter_incr64 by lia.
  apply Z.mod_small; lia.
Qed.

End WriterTheorems.

(** ** The encrypted frame reader: one call, from any state *)

(** Reduce the projections of updated records, and nothing else. *)
Ltac rx_simpl :=
  cbn [set_len set_enc rx_reset set_crypto_rx set_session
       len_buf len_received block_len encrypted encrypted_len
       encrypted_received hap_session encrypted_mode crypto_rx
       encrypt_key decrypt_key encrypt_nonce decrypt_nonce].

Ltac rx_simpl_all :=
  cbn [set_len set_enc rx_reset set_crypto_rx set_session
       len_buf len_received block_len encrypted encrypted_len
       encrypted_received hap_session encrypted_mode crypto_rx
       encrypt_key decrypt_key encrypt_nonce decrypt_nonce
       rx tx wire heap errno trace set_rx set_errno log free] in *.

Ltac rx_simpl_in H :=
  cbn [set_len set_enc rx_reset set_crypto_rx set_session
       len_buf len_received block_len encrypted encrypted_len
       encrypted_received hap_session encrypted_mode crypto_rx
       encrypt_key decrypt_key encrypt_nonce decrypt_nonce] in H.

Lemma quiet_refl (w : world) : quiet w w.
Proof. repeat split. Qed.

Lemma quiet_trans (w1 w2 w3 : world) : quiet w1 w2 -> quiet w2 w3 -> quiet w1 w3.
Proof.
  intros (A1 & A2 & A3 & A4) (B1 & B2 & B3 & B4).
  repeat split; congruence.
Qed.

Lemma recv_spec (w : world) (n : Z) :
  forall res w', recv w n = (res, w') ->
  quiet w w' /\
  match res with
  | RecvOk bs => len bs <= Z.max 0 n
  | RecvFail e => True
  end.
Proof.
  intros res w' H; unfold recv in H.
  destruct (rx w) as [| [b bs | e |] rest]; inversion H; subst; clear H;
    (split; [repeat split |]); auto.
  - unfold len; rewrite length_firstn; lia.
  - unfold len; simpl; lia.
Qed.

Lemma live_blocks_app (t1 t2 : list event) :
  live_blocks (t1 ++ t2) = live_blocks t1 + live_blocks t2.
Proof.
  induction t1 as [| e t1 IH]; [simpl; lia |].
  destruct e as [sz [|] | | |]; cbn [live_blocks app]; lia.
Qed.

(** The header loop ends in one of its three early returns, with the
    header still incomplete, or falls through with both bytes in. *)
Lemma read_len_loop_cases (fuel : nat) :
  forall (w : world) (st : crypto_rx_t),
    0 <= len_received st <= 2 ->
    2 - len_received st <= Z.of_nat fuel ->
    length (len_buf st) = 2%nat ->
    exists out,
      read_len_loop fuel w st = Some out /\
      match out with
      | LoopDone w' st' =>
          len_received st' = 2 /\ length (len_buf st') = 2%nat /\
          same_block_fields st st' /\ quiet w w' /\
          (len_received st = 2 -> w' = w /\ st' = st)
      | LoopExit e w' st' =>
          (e = ExitLenAgain \/ e = ExitLenError \/ e = ExitLenClosed) /\
          len_received st <= len_received st' < 2 /\
          length (len_buf st') = 2%nat /\
          same_block_fields st st' /\ quiet w w'
      end.
Proof.
  induction fuel as [| fuel IH]; intros w st Hr Hf Hl.
  - simpl. destruct (Z.ltb_spec (len_received st) 2); [lia |].
    eexists; split; [reflexivity |].
    repeat split; auto; lia.
  - cbn [read_len_loop].
    destruct (Z.ltb_spec (len_received st) 2) as [Hlt | Hge].
    2:{ eexists; split; [reflexivity |]. repeat split; auto; lia. }
    destruct (recv w (2 - len_received st)) as [res w1] eqn:Hrecv.
    destruct (recv_spec _ _ _ _ Hrecv) as (Hq & Hres).
    destruct res as [[| b bs] | e].
    + eexists; split; [reflexivity |].
      split; [auto |]. repeat split; auto; try lia; apply Hq.
    + set (got := b :: bs) in *.
      assert (Hg : 1 <= len got <= 2 - len_received st).
      { unfold got, len in *; simpl length in *; lia. }
      assert (Hn : u8 (len_received st + u8 (len got))
                   = len_received st + len got).
      { rewrite (u8_small (len got)) by lia. apply u8_small; lia. }
      destruct (IH w1 (set_len st (write_at (len_buf st) (len_received st) got)
                                  (u8 (len_received st + u8 (len got)))))
        as (out & Hrun & Hout).
      * rx_simpl; rewrite Hn; lia.
      * rx_simpl; rewrite Hn; lia.
      * rx_simpl; apply eq_trans with (length (len_buf st)); [| exact Hl].
        apply write_at_length; unfold len in *; lia.
      * exists out; split; [exact Hrun |].
        destruct out as [e w' st' | w' st']; rx_simpl_in Hout;
          rewrite Hn in Hout.
        -- destruct Hout as (He & Hlr & Hlb & Hsame & Hq').
           repeat split; auto; try lia; try apply Hsame;
             try (eapply quiet_trans; eauto).
        -- destruct Hout as (Hlr & Hlb & Hsame & Hq' & _).
           repeat split; auto; try lia; try apply Hsame;
             try (eapply quiet_trans; eauto).
    + destruct (would_block e); eexists; (split; [reflexivity |]);
        (split; [auto |]); repeat split; auto; try lia; apply Hq.
Qed.

(** The ciphertext loop ends with the buffer full, or in its would-block
    return with the bytes received so far kept, or in one of its two
    fatal returns with the buffer released and the state reset. *)
Lemma read_enc_loop_cases (fuel : nat) :
  forall (w : world) (st : crypto_rx_t) (buf : list byte),
    encrypted st = Some buf ->
    0 <= encrypted_received st <= encrypted_len st ->
    encrypted_len st - encrypted_received st <= Z.of_nat fuel ->
    len buf = encrypted_len st ->
    exists out,
      read_enc_loop fuel w st = Some out /\
      match out with
      | LoopDone w' st' =>
          (exists buf', encrypted st' = Some buf' /\
                        len buf' = encrypted_len st) /\
          encrypted_received st' = encrypted_len st /\
          encrypted_len st' = encrypted_len st /\
          len_buf st' = len_buf st /\ len_received st' = len_received st /\
          block_len st' = block_len st /\ quiet w w'
      | LoopExit e w' st' =>
          (e = ExitEncAgain /\
           (exists buf', encrypted st' = Some buf' /\
                         len buf' = encrypted_len st) /\
           encrypted_received st <= encrypted_received st' < encrypted_len st /\
           encrypted_len st' = encrypted_len st /\
           len_buf st' = len_buf st /\ len_received st' = len_received st /\
           block_len st' = block_len st /\ quiet w w') \/
          ((e = ExitEncError \/ e = ExitEncClosed) /\
           st' = rx_reset st /\
           trace w' = trace w ++ [EvFree] /\ heap w' = heap w /\
           tx w' = tx w /\ wire w' = wire w)
      end.
Proof.
  induction fuel as [| fuel IH]; intros w st buf He Hr Hf Hb.
  - simpl. destruct (Z.ltb_spec (encrypted_received st) (encrypted_len st));
      [lia |].
    eexists; split; [reflexivity |].
    split; [exists buf; auto |].
    repeat split; auto; lia.
  - cbn [read_enc_loop].
    destruct (Z.ltb_spec (encrypted_received st) (encrypted_len st))
      as [Hlt | Hge].
    2:{ eexists; split; [reflexivity |].
        split; [exists buf; auto |]. repeat split; auto; lia. }
    destruct (recv w (encrypted_len st - encrypted_received st))
      as [res w1] eqn:Hrecv.
    destruct (recv_spec _ _ _ _ Hrecv) as (Hq & Hres).
    destruct res as [[| b bs] | e].
    + eexists; split; [reflexivity |].
      right; split; [auto |].
      rewrite He; destruct Hq as (Q1 & Q2 & Q3 & Q4).
      repeat split; simpl; congruence.
    + set (got := b :: bs) in *.
      assert (Hg : 1 <= len got <= encrypted_len st - encrypted_received st).
      { unfold got, len in *; simpl length in *; lia. }
      rewrite He; cbn [option_map].
      set (buf1 := write_at buf (encrypted_received st) got).
      assert (Hb1 : len buf1 = encrypted_len st).
      { unfold len, buf1; rewrite write_at_length;
          [exact Hb | lia | unfold len in *; lia]. }
      destruct (IH w1 (set_enc st (Some buf1) (encrypted_received st + len got))
                   buf1)
        as (out & Hrun & Hout); rx_simpl; try reflexivity; try lia; try assumption.
      exists out; split; [exact Hrun |].
      destruct out as [e w' st' | w' st']; rx_simpl_in Hout.
      * destruct Hout as [(E & Hbuf & Hrec & Hlen & Hlb & Hlr & Hbl & Hq')
                         | (E & Hst & Htr & Hhp & Htx & Hwi)].
        -- left; repeat split; auto; try lia; try apply Hq';
             try (eapply quiet_trans; eauto).
        -- right; destruct Hq as (Q1 & Q2 & Q3 & Q4).
           repeat split; auto; congruence.
      * destruct Hout as (Hbuf & Hrec & Hlen & Hlb & Hlr & Hbl & Hq').
        repeat split; auto; eapply quiet_trans; eauto.
    + destruct (would_block e); eexists; (split; [reflexivity |]).
      * left; split; [reflexivity |].
        split; [exists buf; auto |]. repeat split; auto; try lia; apply Hq.
      * right; split; [auto |].
        rewrite He; destruct Hq as (Q1 & Q2 & Q3 & Q4).
        repeat split; simpl; congruence.
Qed.

Section ReaderProperties.

Variable RTSP_ENCRYPTED_BLOCK_MAX : Z.
Variable aead_decrypt :
  list byte -> list byte -> list byte -> list byte -> option (list byte).

Local Abbreviation MAX := RTSP_ENCRYPTED_BLOCK_MAX (only parsing).

Lemma rx_idle_wf (buffer_size : Z) (st : crypto_rx_t) :
  length (len_buf st) = 2%nat -> rx_idle st -> rx_wf MAX buffer_size st.
Proof.
  intros Hl (H1 & H2 & H3 & H4 & H5); unfold rx_wf.
  rewrite H3, H1; repeat split; auto; lia.
Qed.

(** A state that is well formed for one buffer size is well formed for
    every larger one. *)
Lemma rx_wf_mono (b b' : Z) (st : crypto_rx_t) :
  b <= b' -> rx_wf MAX b st -> rx_wf MAX b' st.
Proof.
  intros Hb (H1 & H2 & H3); unfold rx_wf.
  split; [exact H1 | split; [exact H2 |]].
  destruct (encrypted st); [| exact H3].
  destruct H3 as (A1 & A2 & A3 & A4 & A5 & A6); repeat split; auto; lia.
Qed.

(** The check of the declared length and the allocation. *)
Lemma begin_block_cases (w1 : world) (st1 : crypto_rx_t) (buffer_size : Z) :
  rx_wf MAX buffer_size st1 ->
  len_received st1 = 2 ->
  let n := decode_len (len_buf st1) in
  match begin_block MAX w1 st1 buffer_size with
  | LoopExit e w2 st2 =>
      encrypted st1 = None /\ rx_idle st2 /\ len_buf st2 = len_buf st1 /\
      tx w2 = tx w1 /\ wire w2 = wire w1 /\
      ((e = ExitBadLength /\ trace w2 = trace w1 /\ heap w2 = heap w1 /\
        (n = 0 \/ MAX < n \/ buffer_size < n)) \/
       (e = ExitNoMem /\ trace w2 = trace w1 ++ [EvMalloc (n + 16) false]))
  | LoopDone w2 st2 =>
      rx_wf MAX buffer_size st2 /\
      (exists buf, encrypted st2 = Some buf) /\
      len_buf st2 = len_buf st1 /\ block_len st2 = n /\
      tx w2 = tx w1 /\ wire w2 = wire w1 /\ rx w2 = rx w1 /\
      trace w2 = trace w1 ++ match encrypted st1 with
                             | Some _ => []
                             | None => [EvMalloc (n + 16) true]
                             end
  end.
Proof.
  intros Hwf Hlr n; unfold begin_block.
  destruct Hwf as (Hlb & Hrange & Hwf).
  destruct (encrypted st1) as [buf |] eqn:He.
  - split; [unfold rx_wf; rewrite He; auto |].
    split; [exists buf; exact He |].
    destruct Hwf as (_ & Hbl & _).
    repeat split; auto. symmetry; apply app_nil_r.
  - fold n. destruct Hwf as (Hbl & Hel & Her).
    destruct ((n =? 0) || (n >? MAX) || (n >? buffer_size)) eqn:Hbad.
    + split; [reflexivity |].
      split; [unfold rx_idle; simpl; auto |].
      repeat (split; [reflexivity |]).
      left; repeat (split; [reflexivity |]).
      apply orb_true_iff in Hbad; destruct Hbad as [Hbad | Hbad];
        [apply orb_true_iff in Hbad; destruct Hbad as [Hbad | Hbad] |].
      * left; apply Z.eqb_eq; exact Hbad.
      * right; left; apply Z.gtb_lt in Hbad; lia.
      * right; right; apply Z.gtb_lt in Hbad; lia.
    + apply orb_false_iff in Hbad; destruct Hbad as [Hbad H3].
      apply orb_false_iff in Hbad; destruct Hbad as [H1 H2].
      apply Z.eqb_neq in H1.
      assert (H2' : n <= MAX)
        by (destruct (Z.gtb_spec n MAX); [discriminate | lia]).
      assert (H3' : n <= buffer_size)
        by (destruct (Z.gtb_spec n buffer_size); [discriminate | lia]).
      assert (H0 : 0 <= n).
      { unfold n, decode_len, u16; apply Z.mod_pos_bound; lia. }
      destruct (malloc w1 (n + 16)) as [ok w2] eqn:Hm.
      destruct (malloc_spec _ _ _ _ Hm) as (Mrx & Mtx & Mwire & Mtr & _ & _).
      destruct ok.
      * split.
        { unfold rx_wf; simpl.
          repeat split; auto; try lia.
          unfold len; rewrite repeat_length; lia. }
        split; [eexists; reflexivity |].
        repeat split; auto.
      * split; [reflexivity |].
        split; [unfold rx_idle; simpl; auto |].
        repeat (split; [first [reflexivity | assumption] |]).
        right; split; [reflexivity | exact Mtr].
Qed.

(** One call of the reader from a well-formed state, whatever the
    socket and the allocator do: the call returns, the state it leaves
    is well formed, and what it did is told by the return it took. *)
Lemma read_block_call (w : world) (conn : rtsp_conn_t) (sess : hap_session_t)
      (buffer_size : Z) :
  hap_session conn = Some sess ->
  encrypted_mode conn = true ->
  rx_wf MAX buffer_size (crypto_rx conn) ->
  exists e out w' sess' st' evs,
    rtsp_crypto_read_block MAX aead_decrypt w conn buffer_size
    = Some (e, out, w', mkConn (Some sess') true st') /\
    trace w' = trace w ++ evs /\ tx w' = tx w /\ wire w' = wire w /\
    rx_wf MAX buffer_size st' /\
    call_post MAX aead_decrypt buffer_size sess sess' (crypto_rx conn) st'
              evs e out.
Proof.
  intros Hs Hm Hwf.
  unfold rtsp_crypto_read_block; rewrite Hs, Hm.
  set (st := crypto_rx conn) in *.
  pose proof Hwf as (Hlb & Hrange & Hwf').
  destruct (read_len_loop_cases 2 w st) as (o1 & Hrun1 & Ho1);
    [lia | change (Z.of_nat 2) with 2; lia | exact Hlb |].
  rewrite Hrun1. destruct o1 as [e w1 st1 | w1 st1].
  - (* a return of the header loop *)
    destruct Ho1 as (He & Hlr & Hlb1 & Hsame & Hq).
    assert (Hnone : encrypted st = None).
    { destruct (encrypted st); [destruct Hwf' as (E & _); lia | reflexivity]. }
    rewrite Hnone in Hwf'.
    exists e, [], w1, sess, st1, [].
    unfold set_crypto_rx; rewrite Hs, Hm.
    destruct Hq as (Q1 & Q2 & Q3 & Q4).
    pose proof Hsame as (S1 & S2 & S3 & S4).
    split; [reflexivity |].
    split; [rewrite app_nil_r; exact Q4 |].
    split; [exact Q1 | split; [exact Q2 |]].
    split.
    { unfold rx_wf; rewrite S2, Hnone, S1, S3, S4.
      repeat split; auto; lia. }
    destruct He as [-> | [-> | ->]]; cbn; repeat split; auto; lia.
  - (* the header is complete *)
    destruct Ho1 as (Hlr1 & Hlb1 & Hsame & Hq & Hid).
    destruct Hq as (Q1 & Q2 & Q3 & Q4).
    pose proof Hsame as (S1 & S2 & S3 & S4).
    assert (Hwf1 : rx_wf MAX buffer_size st1).
    { destruct (encrypted st) as [buf |] eqn:He.
      - destruct Hwf' as (E & _). destruct (Hid E) as (_ & ->). exact Hwf.
      - unfold rx_wf; rewrite S2, S1, S3, S4.
        repeat split; auto; lia. }
    pose proof (begin_block_cases w1 st1 buffer_size Hwf1 Hlr1) as Hbb.
    cbv zeta in Hbb.
    destruct (begin_block MAX w1 st1 buffer_size) as [e w2 st2 | w2 st2].
    + (* the length is rejected, or the allocation fails *)
      destruct Hbb as (Hnone & Hidle & Hlb2 & B1 & B2 & Hcase).
      rewrite S2 in Hnone.
      unfold set_crypto_rx; rewrite Hs, Hm.
      destruct Hcase as [(-> & Htr & Hhp & Hbad) | (-> & Htr)].
      * exists ExitBadLength, [], w2, sess, st2, [].
        split; [reflexivity |].
        split; [rewrite app_nil_r; congruence |].
        split; [congruence | split; [congruence |]].
        split; [apply rx_idle_wf; [congruence | exact Hidle] |].
        cbn; rewrite Hlb2; repeat split; auto; apply Hidle.
      * exists ExitNoMem, [], w2, sess, st2,
               [EvMalloc (decode_len (len_buf st1) + 16) false].
        split; [reflexivity |].
        split; [congruence |].
        split; [congruence | split; [congruence |]].
        split; [apply rx_idle_wf; [congruence | exact Hidle] |].
        cbn; rewrite Hlb2; repeat split; auto; apply Hidle.
    + (* a buffer is there: fill it *)
      destruct Hbb as (Hwf2 & (buf & Hbuf) & Hlb2 & Hbl2 & B1 & B2 & B3 & Btr).
      rewrite S2 in Btr.
      pose proof Hwf2 as (Hl2 & Hr2 & Hwf2').
      rewrite Hbuf in Hwf2'.
      destruct Hwf2' as (W1 & W2 & W3 & W4 & W5 & W6 & W7 & W8).
      destruct (read_enc_loop_cases
                  (Z.to_nat (encrypted_len st2 - encrypted_received st2))
                  w2 st2 buf Hbuf)
        as (o3 & Hrun3 & Ho3); [lia | lia | exact W7 |].
      rewrite Hrun3.
      set (n := decode_len (len_buf st1)) in *.
      set (alloc := match encrypted st with
                    | Some _ => []
                    | None => [EvMalloc (n + 16) true]
                    end) in *.
      destruct o3 as [e w3 st3 | w3 st3].
      * unfold set_crypto_rx; rewrite Hs, Hm.
        destruct Ho3 as [(-> & (buf' & Hbuf' & Hlen') & Hrec & Hel & Hlb3 & Hlr3
                          & Hbl3 & (R1 & R2 & R3 & R4))
                        | (He & -> & Htr & Hhp & Htx & Hwi)].
        -- exists ExitEncAgain, [], w3, sess, st3, alloc.
           split; [reflexivity |].
           split; [congruence |].
           split; [congruence | split; [congruence |]].
           split.
           { unfold rx_wf; rewrite Hbuf', Hlb3, Hlr3, Hbl3, Hel.
             repeat split; auto; lia. }
           cbn; rewrite Hlb3, Hlb2; fold n; fold alloc.
           repeat split; auto; congruence.
        -- exists e, [], w3, sess, (rx_reset st2), (alloc ++ [EvFree]).
           split; [reflexivity |].
           split; [rewrite Htr, Btr, Q4, <- app_assoc; reflexivity |].
           split; [congruence | split; [congruence |]].
           assert (Hidle : rx_idle (rx_reset st2))
             by (unfold rx_idle; simpl; auto).
           split; [apply rx_idle_wf; [exact Hl2 | exact Hidle] |].
           destruct He as [-> | ->]; cbn; rewrite Hlb2; fold n; fold alloc;
             repeat split; auto.
      * (* the buffer is full: decrypt *)
        destruct Ho3 as ((buf' & Hbuf' & Hlen') & Hrec & Hel & Hlb3 & Hlr3
                         & Hbl3 & (R1 & R2 & R3 & R4)).
        unfold decrypt_block; rewrite Hbuf'.
        assert (Hct : firstn (Z.to_nat (encrypted_len st3)) buf' = buf').
        { apply firstn_all2; unfold len in *; lia. }
        assert (Had : firstn 2 (len_buf st3) = len_buf st1).
        { rewrite Hlb3, Hlb2; apply firstn_all2; lia. }
        rewrite Hct, Had.
        assert (Hidle : rx_idle (rx_reset st3))
          by (unfold rx_idle; simpl; auto).
        assert (Hwf3 : rx_wf MAX buffer_size (rx_reset st3)).
        { apply rx_idle_wf; [simpl; congruence | exact Hidle]. }
        assert (Hlen : len buf' = n + 16) by lia.
        assert (Htrace : trace w3 ++ decrypt_events sess (len_buf st1) buf'
                         = trace w ++ alloc ++ decrypt_events sess (len_buf st1) buf').
        { rewrite R4, Btr, Q4, <- app_assoc; reflexivity. }
        destruct (aead_decrypt (decrypt_key sess)
                               (make_nonce (decrypt_nonce sess))
                               (len_buf st1) buf') as [m |] eqn:Hdec.
        -- destruct (Z.gtb_spec (len m) buffer_size) as [Hbig | Hfit].
           ++ exists ExitTooLarge, m,
                (set_errno (free_ptr
                   (log w3 (EvDecrypt (decrypt_key sess)
                                      (make_nonce (decrypt_nonce sess))
                                      (len_buf st1) buf')) (Some buf')) EBADMSG),
                (bump_decrypt sess), (rx_reset st3),
                (alloc ++ decrypt_events sess (len_buf st1) buf').
              split; [reflexivity |].
              split; [cbn; rewrite <- app_assoc; exact Htrace |].
              split; [cbn; congruence | split; [cbn; congruence |]].
              split; [exact Hwf3 |].
              cbn; rewrite Hlb3, Hlb2; fold n; fold alloc.
              exists buf', m; repeat split; auto; lia.
           ++ exists (ExitOk (to_int (len m))), m,
                (free_ptr
                   (log w3 (EvDecrypt (decrypt_key sess)
                                      (make_nonce (decrypt_nonce sess))
                                      (len_buf st1) buf')) (Some buf')),
                (bump_decrypt sess), (rx_reset st3),
                (alloc ++ decrypt_events sess (len_buf st1) buf').
              split; [reflexivity |].
              split; [cbn; rewrite <- app_assoc; exact Htrace |].
              split; [cbn; congruence | split; [cbn; congruence |]].
              split; [exact Hwf3 |].
              cbn; rewrite Hlb3, Hlb2; fold n; fold alloc.
              exists buf', m; repeat split; auto; lia.
        -- exists ExitDecryptFail,
             (repeat 0 (Z.to_nat (encrypted_len st3 - 16))),
             (set_errno (free_ptr
                (log w3 (EvDecrypt (decrypt_key sess)
                                   (make_nonce (decrypt_nonce sess))
                                   (len_buf st1) buf')) (Some buf')) EBADMSG),
             sess, (rx_reset st3),
             (alloc ++ decrypt_events sess (len_buf st1) buf').
           destruct sess as [ek dk en dn]; cbn in *.
           split; [reflexivity |].
           split; [rewrite <- app_assoc; exact Htrace |].
           split; [congruence | split; [congruence |]].
           split; [exact Hwf3 |].
           rewrite Hlb3, Hlb2; fold n; fold alloc.
           exists buf'; repeat split; auto; try lia.
           do 2 f_equal; lia.
Qed.

End ReaderProperties.

(** ** The encrypted frame reader: a frame that arrives *)

Lemma recv_bytes_all (w : world) (b : byte) (bs : list byte)
      (rest : list rx_event) (n : Z) :
  rx w = RxBytes b bs :: rest -> len (b :: bs) <= n ->
  recv w n = (RecvOk (b :: bs), set_rx w rest).
Proof.
  intros H Hn; unfold recv; rewrite H.
  rewrite firstn_all2, skipn_all2 by (unfold len in Hn; lia).
  reflexivity.
Qed.

Lemma recv_again (w : world) (rest : list rx_event) (n : Z) :
  rx w = RxFail EAGAIN :: rest ->
  recv w n = (RecvFail EAGAIN, set_errno (set_rx w rest) EAGAIN).
Proof. intros H; unfold recv; rewrite H; reflexivity. Qed.

Lemma same_but_errno_refl (w : world) : same_but_errno w w.
Proof. repeat split. Qed.

Lemma write_at_two (lb : list byte) (h0 h1 : byte) :
  length lb = 2%nat ->
  write_at lb 0 [h0; h1] = [h0; h1] /\
  write_at (write_at lb 0 [h0]) 1 [h1] = [h0; h1].
Proof.
  destruct lb as [| x [| y [| z lb]]]; simpl; intros H; try discriminate.
  split; reflexivity.
Qed.

(** The header loop when both length bytes are there at once. *)
Lemma read_len_loop_whole (w : world) (st : crypto_rx_t) (h0 h1 : byte)
      (body : list byte) (rest : list rx_event) :
  len_received st = 0 -> length (len_buf st) = 2%nat ->
  rx w = RxBytes h0 (h1 :: body) :: rest ->
  read_len_loop 2 w st
  = Some (LoopDone (set_rx w (arrives_whole body ++ rest))
                   (set_len st [h0; h1] 2)).
Proof.
  intros Hlr Hlb Hrx.
  cbn [read_len_loop]; rewrite Hlr; cbn [Z.ltb Z.compare].
  unfold recv; rewrite Hrx.
  change (Z.to_nat (2 - 0)) with 2%nat; cbn [firstn skipn].
  rx_simpl.
  destruct (write_at_two (len_buf st) h0 h1 Hlb) as (-> & _).
  change (u8 (0 + u8 (len [h0; h1]))) with 2; cbn [Z.ltb Z.compare].
  destruct body; reflexivity.
Qed.

(** The header loop when one length byte arrives and nothing more. *)
Lemma read_len_loop_first (w : world) (st : crypto_rx_t) (h0 : byte)
      (rest : list rx_event) :
  len_received st = 0 ->
  rx w = RxBytes h0 [] :: RxFail EAGAIN :: rest ->
  read_len_loop 2 w st
  = Some (LoopExit ExitLenAgain (set_errno (set_rx w rest) EAGAIN)
                   (set_len st (write_at (len_buf st) 0 [h0]) 1)).
Proof.
  intros Hlr Hrx.
  cbn [read_len_loop]; rewrite Hlr; cbn [Z.ltb Z.compare].
  unfold recv at 1; rewrite Hrx.
  change (Z.to_nat (2 - 0)) with 2%nat; cbn [firstn skipn].
  rx_simpl.
  change (u8 (0 + u8 (len [h0]))) with 1; cbn [Z.ltb Z.compare].
  reflexivity.
Qed.

(** The header loop when the second length byte arrives. *)
Lemma read_len_loop_second (w : world) (st : crypto_rx_t) (h1 : byte)
      (rest : list rx_event) :
  len_received st = 1 ->
  rx w = RxBytes h1 [] :: rest ->
  read_len_loop 2 w st
  = Some (LoopDone (set_rx w rest)
                   (set_len st (write_at (len_buf st) 1 [h1]) 2)).
Proof.
  intros Hlr Hrx.
  cbn [read_len_loop]; rewrite Hlr; cbn [Z.ltb Z.compare].
  unfold recv at 1; rewrite Hrx.
  change (Z.to_nat (2 - 1)) with 1%nat; cbn [firstn skipn].
  rx_simpl.
  change (u8 (1 + u8 (len [h1]))) with 2; cbn [Z.ltb Z.compare].
  reflexivity.
Qed.

(** The ciphertext loop when the bytes that arrive fill the buffer. *)
Lemma read_enc_loop_fill (fuel : nat) (w : world) (st : crypto_rx_t)
      (buf : list byte) (b : byte) (bs : list byte) (rest : list rx_event) :
  encrypted st = Some buf ->
  encrypted_received st + len (b :: bs) = encrypted_len st ->
  rx w = RxBytes b bs :: rest ->
  read_enc_loop (S fuel) w st
  = Some (LoopDone (set_rx w rest)
            (set_enc st (Some (write_at buf (encrypted_received st) (b :: bs)))
                     (encrypted_len st))).
Proof.
  intros He Hn Hrx.
  assert (Hp : 1 <= len (b :: bs)) by (unfold len; simpl; lia).
  cbn [read_enc_loop].
  destruct (Z.ltb_spec (encrypted_received st) (encrypted_len st)); [| lia].
  rewrite (recv_bytes_all w b bs rest) by (auto; lia).
  rewrite He; cbn [option_map]; rewrite Hn.
  destruct fuel; cbn [read_enc_loop]; rx_simpl; rewrite Z.ltb_irrefl;
    reflexivity.
Qed.

(** The ciphertext loop when some bytes arrive, not enough to fill the
    buffer, and nothing more. *)
Lemma read_enc_loop_partial (fuel : nat) (w : world) (st : crypto_rx_t)
      (buf : list byte) (b : byte) (bs : list byte) (rest : list rx_event) :
  encrypted st = Some buf ->
  encrypted_received st + len (b :: bs) < encrypted_len st ->
  rx w = RxBytes b bs :: RxFail EAGAIN :: rest ->
  read_enc_loop (S (S fuel)) w st
  = Some (LoopExit ExitEncAgain (set_errno (set_rx w rest) EAGAIN)
            (set_enc st (Some (write_at buf (encrypted_received st) (b :: bs)))
                     (encrypted_received st + len (b :: bs)))).
Proof.
  intros He Hn Hrx.
  assert (Hp : 1 <= len (b :: bs)) by (unfold len; simpl; lia).
  cbn [read_enc_loop].
  destruct (Z.ltb_spec (encrypted_received st) (encrypted_len st)); [| lia].
  rewrite (recv_bytes_all w b bs (RxFail EAGAIN :: rest)) by (auto; lia).
  rewrite He; cbn [option_map]; rx_simpl.
  destruct (Z.ltb_spec (encrypted_received st + len (b :: bs)) (encrypted_len st));
    [| lia].
  rewrite (recv_again (set_rx w (RxFail EAGAIN :: rest)) rest) by reflexivity.
  reflexivity.
Qed.

Lemma read_enc_loop_again (fuel : nat) (w : world) (st : crypto_rx_t)
      (rest : list rx_event) :
  encrypted_received st < encrypted_len st ->
  rx w = RxFail EAGAIN :: rest ->
  read_enc_loop (S fuel) w st
  = Some (LoopExit ExitEncAgain (set_errno (set_rx w rest) EAGAIN) st).
Proof.
  intros Hn Hrx; cbn [read_enc_loop].
  destruct (Z.ltb_spec (encrypted_received st) (encrypted_len st)); [| lia].
  rewrite (recv_again w rest) by exact Hrx; reflexivity.
Qed.

Lemma read_len_loop_done (fuel : nat) (w : world) (st : crypto_rx_t) :
  len_received st = 2 -> read_len_loop fuel w st = Some (LoopDone w st).
Proof. intros H; destruct fuel; simpl; rewrite H; reflexivity. Qed.

Lemma malloc_ok (w : world) (size : Z) :
  hd true (heap w) = true ->
  exists w',
    malloc w size = (true, w') /\
    rx w' = rx w /\ tx w' = tx w /\ wire w' = wire w /\
    heap w' = tl (heap w) /\ trace w' = trace w ++ [EvMalloc size true].
Proof.
  intros H; unfold malloc.
  destruct (heap w) as [| ok rest] eqn:Hh.
  - eexists; split; [reflexivity |]. simpl; rewrite Hh; repeat split.
  - simpl in H; subst ok.
    eexists; split; [reflexivity |]. repeat split.
Qed.

Lemma decode_len_range (lb : list byte) : 0 <= decode_len lb < 65536.
Proof. unfold decode_len, u16; apply Z.mod_pos_bound; lia. Qed.

Section RunProperties.

Variable RTSP_ENCRYPTED_BLOCK_MAX : Z.
Variable aead_decrypt :
  list byte -> list byte -> list byte -> list byte -> option (list byte).

Local Abbreviation MAX := RTSP_ENCRYPTED_BLOCK_MAX (only parsing).
Local Abbreviation read_block :=
  (rtsp_crypto_read_block RTSP_ENCRYPTED_BLOCK_MAX aead_decrypt)
  (only parsing).
Local Abbreviation finish := (finish_block aead_decrypt) (only parsing).

(** The end of a call is never a would-block return. *)
Lemma finish_block_not_again (w : world) (sess : hap_session_t)
      (st : crypto_rx_t) (buffer_size : Z) :
  exists e out w' conn',
    finish w sess st buffer_size = Some (e, out, w', conn') /\
    is_again e = false.
Proof.
  unfold finish_block, decrypt_block.
  destruct (aead_decrypt _ _ _ _) as [m |];
    [destruct (len m >? buffer_size) |]; do 4 eexists; split; reflexivity.
Qed.

Lemma read_until_done_finish (k : nat) (w w1 : world) (conn : rtsp_conn_t)
      (sess : hap_session_t) (st : crypto_rx_t) (buffer_size : Z) :
  read_block w conn buffer_size = finish w1 sess st buffer_size ->
  read_until_done MAX aead_decrypt (S k) w conn buffer_size
  = finish w1 sess st buffer_size.
Proof.
  intros H; cbn [read_until_done]; rewrite H.
  destruct (finish_block_not_again w1 sess st buffer_size)
    as (e & out & w' & conn' & -> & ->); reflexivity.
Qed.

(** A whole frame is there: one call takes it to the decryption. *)
Lemma call_whole (w : world) (sess : hap_session_t) (lb : list byte)
      (h0 h1 : byte) (body : list byte) (rest : list rx_event)
      (buffer_size : Z) :
  length lb = 2%nat ->
  frame_shaped MAX buffer_size (h0 :: h1 :: body) ->
  rx w = RxBytes h0 (h1 :: body) :: rest ->
  hd true (heap w) = true ->
  exists w1,
    read_block w (mkConn (Some sess) true (mkRx lb 0 0 None 0 0)) buffer_size
    = finish w1 sess (rx_full [h0; h1] body) buffer_size /\
    rx w1 = rest /\ tx w1 = tx w /\ wire w1 = wire w /\
    heap w1 = tl (heap w) /\
    trace w1 = trace w ++ [EvMalloc (decode_len [h0; h1] + 16) true].
Proof.
  intros Hlb (Hn & Hb & Hlen) Hrx Hheap.
  cbn [firstn] in Hn, Hb, Hlen.
  set (n := decode_len [h0; h1]) in *.
  assert (Hbody : len body = n + 16).
  { unfold len in *; simpl length in Hlen; lia. }
  unfold rtsp_crypto_read_block; rx_simpl.
  rewrite (read_len_loop_whole w _ h0 h1 body rest) by (auto; reflexivity).
  unfold begin_block; rx_simpl; fold n.
  destruct (Z.eqb_spec n 0); [lia |].
  destruct (Z.gtb_spec n MAX); [lia |].
  destruct (Z.gtb_spec n buffer_size); [lia |].
  cbn [orb].
  destruct body as [| b0 body']; [unfold len in Hbody; simpl in Hbody; lia |].
  set (body := b0 :: body') in *.
  set (w0 := set_rx w (arrives_whole body ++ rest)).
  destruct (malloc_ok w0 (n + 16) Hheap)
    as (w2 & -> & Rx2 & Tx2 & Wi2 & Hp2 & Tr2).
  change (rx w0) with (RxBytes b0 body' :: rest) in Rx2.
  change (tx w0) with (tx w) in Tx2.
  change (wire w0) with (wire w) in Wi2.
  change (heap w0) with (heap w) in Hp2.
  change (trace w0) with (trace w) in Tr2.
  rx_simpl.
  replace (Z.to_nat (n + 16 - 0)) with (S (Z.to_nat (n + 15))) by lia.
  rewrite (read_enc_loop_fill _ w2 _ (repeat 0 (Z.to_nat (n + 16))) b0 body' rest);
    [| reflexivity | rx_simpl; fold body; lia | exact Rx2].
  rx_simpl; fold body.
  rewrite write_at_full by (rewrite repeat_length; unfold len in Hbody; lia).
  exists (set_rx w2 rest); split; [reflexivity |].
  repeat split; assumption.
Qed.

(** The first length byte arrives alone. *)
Lemma call_first_byte (w : world) (sess : hap_session_t) (lb : list byte)
      (h0 : byte) (rest : list rx_event) (buffer_size : Z) :
  rx w = RxBytes h0 [] :: RxFail EAGAIN :: rest ->
  read_block w (mkConn (Some sess) true (mkRx lb 0 0 None 0 0)) buffer_size
  = Some (ExitLenAgain, [], set_errno (set_rx w rest) EAGAIN,
          mkConn (Some sess) true (mkRx (write_at lb 0 [h0]) 1 0 None 0 0)).
Proof.
  intros Hrx; unfold rtsp_crypto_read_block; rx_simpl.
  rewrite (read_len_loop_first w _ h0 rest) by (auto; reflexivity).
  reflexivity.
Qed.

(** The second length byte arrives alone: the length is accepted, the
    buffer allocated, and the call ends for want of ciphertext. *)
Lemma call_second_byte (w : world) (sess : hap_session_t) (lb : list byte)
      (h0 h1 : byte) (rest : list rx_event) (buffer_size : Z) :
  let n := decode_len [h0; h1] in
  length lb = 2%nat ->
  1 <= n <= MAX -> n <= buffer_size ->
  rx w = RxBytes h1 [] :: RxFail EAGAIN :: rest ->
  hd true (heap w) = true ->
  exists w1,
    read_block w (mkConn (Some sess) true
                         (mkRx (write_at lb 0 [h0]) 1 0 None 0 0))
               buffer_size
    = Some (ExitEncAgain, [], w1,
            mkConn (Some sess) true
                   (mkRx [h0; h1] 2 n (Some (repeat 0 (Z.to_nat (n + 16))))
                         (n + 16) 0)) /\
    rx w1 = rest /\ tx w1 = tx w /\ wire w1 = wire w /\
    heap w1 = tl (heap w) /\
    trace w1 = trace w ++ [EvMalloc (n + 16) true].
Proof.
  intros n Hlb Hn Hb Hrx Hheap.
  unfold rtsp_crypto_read_block; rx_simpl.
  rewrite (read_len_loop_second w _ h1 (RxFail EAGAIN :: rest))
    by (auto; reflexivity).
  rx_simpl.
  destruct (write_at_two lb h0 h1 Hlb) as (_ & ->).
  unfold begin_block; rx_simpl; fold n.
  destruct (Z.eqb_spec n 0); [lia |].
  destruct (Z.gtb_spec n MAX); [lia |].
  destruct (Z.gtb_spec n buffer_size); [lia |].
  cbn [orb].
  set (w0 := set_rx w (RxFail EAGAIN :: rest)).
  destruct (malloc_ok w0 (n + 16) Hheap)
    as (w2 & -> & Rx2 & Tx2 & Wi2 & Hp2 & Tr2).
  change (rx w0) with (RxFail EAGAIN :: rest) in Rx2.
  change (tx w0) with (tx w) in Tx2.
  change (wire w0) with (wire w) in Wi2.
  change (heap w0) with (heap w) in Hp2.
  change (trace w0) with (trace w) in Tr2.
  rx_simpl.
  replace (Z.to_nat (n + 16 - 0)) with (S (Z.to_nat (n + 15))) by lia.
  rewrite (read_enc_loop_again _ w2 _ rest); [| rx_simpl; lia | exact Rx2].
  exists (set_errno (set_rx w2 rest) EAGAIN); split; [reflexivity |].
  repeat split; assumption.
Qed.

(** A ciphertext byte arrives alone and does not fill the buffer. *)
Lemma call_enc_byte (w : world) (sess : hap_session_t) (lb : list byte)
      (bl L r : Z) (buf : list byte) (b : byte) (rest : list rx_event)
      (buffer_size : Z) :
  0 <= r -> r + 1 < L ->
  rx w = RxBytes b [] :: RxFail EAGAIN :: rest ->
  read_block w (mkConn (Some sess) true (mkRx lb 2 bl (Some buf) L r))
             buffer_size
  = Some (ExitEncAgain, [], set_errno (set_rx w rest) EAGAIN,
          mkConn (Some sess) true
                 (mkRx lb 2 bl (Some (write_at buf r [b])) L (r + 1))).
Proof.
  intros Hr Hl Hrx; unfold rtsp_crypto_read_block; rx_simpl.
  rewrite read_len_loop_done by reflexivity.
  unfold begin_block; rx_simpl.
  replace (Z.to_nat (L - r)) with (S (S (Z.to_nat (L - r - 2)))) by lia.
  rewrite (read_enc_loop_partial _ w _ buf b [] rest);
    [reflexivity | reflexivity | rx_simpl; change (len [b]) with 1; lia
     | exact Hrx].
Qed.

(** The last ciphertext byte arrives: the call goes on to decrypt. *)
Lemma call_enc_last (w : world) (sess : hap_session_t) (lb : list byte)
      (bl L r : Z) (buf : list byte) (b : byte) (rest : list rx_event)
      (buffer_size : Z) :
  0 <= r -> r + 1 = L ->
  rx w = RxBytes b [] :: rest ->
  read_block w (mkConn (Some sess) true (mkRx lb 2 bl (Some buf) L r))
             buffer_size
  = finish (set_rx w rest) sess
           (mkRx lb 2 bl (Some (write_at buf r [b])) L L) buffer_size.
Proof.
  intros Hr Hl Hrx; unfold rtsp_crypto_read_block; rx_simpl.
  rewrite read_len_loop_done by reflexivity.
  unfold begin_block; rx_simpl.
  replace (Z.to_nat (L - r)) with (S (Z.to_nat (L - r - 1))) by lia.
  rewrite (read_enc_loop_fill _ w _ buf b [] rest);
    [reflexivity | reflexivity | rx_simpl; change (len [b]) with 1; lia
     | exact Hrx].
Qed.

End RunProperties.

Section Resumption.

Variable RTSP_ENCRYPTED_BLOCK_MAX : Z.
Variable aead_decrypt :
  list byte -> list byte -> list byte -> list byte -> option (list byte).

Local Abbreviation MAX := RTSP_ENCRYPTED_BLOCK_MAX (only parsing).
Local Abbreviation read_block :=
  (rtsp_crypto_read_block RTSP_ENCRYPTED_BLOCK_MAX aead_decrypt)
  (only parsing).
Local Abbreviation finish := (finish_block aead_decrypt) (only parsing).
Local Abbreviation drive :=
  (read_until_done RTSP_ENCRYPTED_BLOCK_MAX aead_decrypt) (only parsing).

Lemma read_until_done_again (k : nat) (w w' : world) (conn conn' : rtsp_conn_t)
      (e : exit_t) (out : list byte) (buffer_size : Z) :
  read_block w conn buffer_size = Some (e, out, w', conn') ->
  is_again e = true ->
  drive (S k) w conn buffer_size = drive k w' conn' buffer_size.
Proof. intros H He; cbn [read_until_done]; rewrite H, He; reflexivity. Qed.

Lemma read_until_done_stop (k : nat) (w w' : world) (conn conn' : rtsp_conn_t)
      (e : exit_t) (out : list byte) (buffer_size : Z) :
  read_block w conn buffer_size = Some (e, out, w', conn') ->
  is_again e = false ->
  drive (S k) w conn buffer_size = Some (e, out, w', conn').
Proof. intros H He; cbn [read_until_done]; rewrite H, He; reflexivity. Qed.

(** The ciphertext phase, one byte per call: after as many calls as
    there are bytes left, the reader decrypts the buffer it would have
    filled in one go. *)
Lemma bytewise_enc (rem : list byte) :
  rem <> [] ->
  forall (w : world) (sess : hap_session_t) (lb : list byte) (bl L r : Z)
         (buf : list byte) (buffer_size : Z),
    0 <= r -> r + len rem = L -> len buf = L ->
    rx w = arrives_bytewise rem ->
    exists w1,
      drive (length rem) w
            (mkConn (Some sess) true (mkRx lb 2 bl (Some buf) L r))
            buffer_size
      = finish w1 sess (mkRx lb 2 bl (Some (write_at buf r rem)) L L)
               buffer_size /\
      same_but_errno (set_rx w []) w1.
Proof.
  induction rem as [| b rem IH]; [congruence |]; intros _.
  intros w sess lb bl L r buf buffer_size Hr HL Hbuf Hrx.
  destruct rem as [| b2 rem'].
  - exists (set_rx w []); split; [| apply same_but_errno_refl].
    apply read_until_done_finish.
    apply call_enc_last; [exact Hr | exact HL | exact Hrx].
  - set (rem := b2 :: rem') in *.
    assert (Hrem : 1 <= len rem) by (unfold len, rem; simpl; lia).
    assert (HL' : r + 1 + len rem = L) by (rewrite len_cons in HL; lia).
    change (arrives_bytewise (b :: rem))
      with (RxBytes b [] :: RxFail EAGAIN :: arrives_bytewise rem) in Hrx.
    change (length (b :: rem)) with (S (length rem)).
    rewrite (read_until_done_again _ w _ _ _ _ _ _
               (call_enc_byte MAX aead_decrypt w sess lb bl L r buf b
                  (arrives_bytewise rem) buffer_size Hr ltac:(lia) Hrx)
               eq_refl).
    destruct (IH ltac:(discriminate)
                 (set_errno (set_rx w (arrives_bytewise rem)) EAGAIN)
                 sess lb bl L (r + 1) (write_at buf r [b]) buffer_size)
      as (w1 & Hrun & Hsame); [lia | exact HL' | | reflexivity |].
    { unfold len; rewrite write_at_length; [exact Hbuf | lia |].
      change (len [b]) with 1; lia. }
    exists w1; split; [| exact Hsame].
    rewrite Hrun.
    change (r + 1) with (r + len [b]).
    rewrite write_at_write_at; [reflexivity | lia |].
    change (len [b]) with 1; lia.
Qed.

(** What the decryption of a full buffer gives, in worlds that differ
    at most in [errno]. *)
Lemma finish_block_agree (w1 w2 : world) (sess : hap_session_t)
      (lb ct : list byte) (buffer_size : Z) :
  same_but_errno w1 w2 ->
  length lb = 2%nat -> len ct = decode_len lb + 16 ->
  exists e out wa wb conn',
    finish w1 sess (rx_full lb ct) buffer_size = Some (e, out, wa, conn') /\
    finish w2 sess (rx_full lb ct) buffer_size = Some (e, out, wb, conn') /\
    same_but_errno wa wb /\ is_again e = false /\
    rx wa = rx w1 /\
    trace wa = trace w1 ++ decrypt_events sess lb ct /\
    match aead_decrypt (decrypt_key sess) (make_nonce (decrypt_nonce sess))
                       lb ct with
    | Some m =>
        out = m /\
        conn' = mkConn (Some (bump_decrypt sess)) true (mkRx lb 0 0 None 0 0) /\
        e = (if len m >? buffer_size then ExitTooLarge
             else ExitOk (to_int (len m)))
    | None =>
        out = repeat 0 (Z.to_nat (decode_len lb)) /\ e = ExitDecryptFail /\
        conn' = mkConn (Some sess) true (mkRx lb 0 0 None 0 0)
    end.
Proof.
  intros (S1 & S2 & S3 & S4 & S5) Hlb Hct.
  unfold finish_block, decrypt_block, rx_full; rx_simpl.
  rewrite (firstn_all2 (n := 2) lb) by lia.
  rewrite (firstn_all2 ct) by (unfold len in Hct; lia).
  replace (decode_len lb + 16 - 16) with (decode_len lb) by lia.
  destruct (aead_decrypt _ _ _ _) as [m |];
    [destruct (len m >? buffer_size) |];
    do 5 eexists;
    (split; [reflexivity |]); (split; [reflexivity |]);
    (split; [repeat split; cbn; congruence |]);
    (split; [reflexivity |]);
    (split; [reflexivity |]);
    (split; [cbn; rewrite <- app_assoc; reflexivity |]);
    repeat split.
Qed.

End Resumption.

Lemma malloc_fail (w : world) (size : Z) :
  hd true (heap w) = false ->
  exists w',
    malloc w size = (false, w') /\
    rx w' = rx w /\ tx w' = tx w /\ wire w' = wire w /\
    heap w' = tl (heap w) /\ trace w' = trace w ++ [EvMalloc size false].
Proof.
  intros H; unfold malloc.
  destruct (heap w) as [| ok rest] eqn:Hh; simpl in H; [discriminate |].
  subst ok. eexists; split; [reflexivity |]. repeat split.
Qed.

Section ResumptionTheorems.

Variable RTSP_ENCRYPTED_BLOCK_MAX : Z.
Variable aead_decrypt :
  list byte -> list byte -> list byte -> list byte -> option (list byte).

Local Abbreviation MAX := RTSP_ENCRYPTED_BLOCK_MAX (only parsing).
Local Abbreviation read_block :=
  (rtsp_crypto_read_block RTSP_ENCRYPTED_BLOCK_MAX aead_decrypt)
  (only parsing).
Local Abbreviation drive :=
  (read_until_done RTSP_ENCRYPTED_BLOCK_MAX aead_decrypt) (only parsing).

(** The header arrives, the length is accepted, the allocation fails. *)
Lemma call_header_nomem (w : world) (sess : hap_session_t)
      (lb0 : list byte) (lr : Z) (h0 h1 : byte) (w1 : world)
      (buffer_size : Z) :
  let n := decode_len [h0; h1] in
  1 <= n <= MAX -> n <= buffer_size ->
  read_len_loop 2 w (mkRx lb0 lr 0 None 0 0)
  = Some (LoopDone w1 (mkRx [h0; h1] 2 0 None 0 0)) ->
  hd true (heap w1) = false ->
  exists w2,
    read_block w (mkConn (Some sess) true (mkRx lb0 lr 0 None 0 0))
               buffer_size
    = Some (ExitNoMem, [], w2,
            mkConn (Some sess) true (mkRx [h0; h1] 0 0 None 0 0)) /\
    tx w2 = tx w1 /\ wire w2 = wire w1 /\ heap w2 = tl (heap w1) /\
    trace w2 = trace w1 ++ [EvMalloc (n + 16) false].
Proof.
  intros n Hn Hb Hloop Hheap.
  unfold rtsp_crypto_read_block; rx_simpl; rewrite Hloop.
  unfold begin_block; rx_simpl; fold n.
  destruct (Z.eqb_spec n 0); [lia |].
  destruct (Z.gtb_spec n MAX); [lia |].
  destruct (Z.gtb_spec n buffer_size); [lia |].
  cbn [orb].
  destruct (malloc_fail w1 (n + 16) Hheap)
    as (w2 & -> & Rx2 & Tx2 & Wi2 & Hp2 & Tr2).
  exists (set_errno w2 ENOMEM); split; [reflexivity |].
  repeat split; assumption.
Qed.

(** C2.  A frame of the shape the reader accepts, fed to an idle
    reader one byte per call with a would-block after each byte but
    the last, ends after as many calls as the frame has bytes in the
    same return, with the same bytes stored in the caller's buffer and
    the same connection state (inbound counter included) as the one
    call that gets the frame whole; the allocator and AEAD events are
    the same too.  When the allocation succeeds, that common result is
    the one the AEAD gives on the frame: the plaintext and its length
    with the counter advanced by one, or the authentication failure
    with the counter unchanged (and zeros where the plaintext would
    have been stored). *)
Theorem read_block_resumable
        (w : world) (conn : rtsp_conn_t) (sess : hap_session_t)
        (buffer_size : Z) (f : list byte) :
  hap_session conn = Some sess ->
  encrypted_mode conn = true ->
  rx_idle (crypto_rx conn) ->
  length (len_buf (crypto_rx conn)) = 2%nat ->
  frame_shaped MAX buffer_size f ->
  exists e out w1 w2 conn',
    drive (length f) (set_rx w (arrives_bytewise f)) conn buffer_size
    = Some (e, out, w1, conn') /\
    read_block (set_rx w (arrives_whole f)) conn buffer_size
    = Some (e, out, w2, conn') /\
    is_again e = false /\
    trace w1 = trace w2 /\ heap w1 = heap w2 /\
    (hd true (heap w) = true ->
     rx w1 = [] /\ rx w2 = [] /\
     match aead_decrypt (decrypt_key sess) (make_nonce (decrypt_nonce sess))
                        (firstn 2 f) (skipn 2 f) with
     | Some m =>
         out = m /\
         e = (if len m >? buffer_size then ExitTooLarge
              else ExitOk (to_int (len m))) /\
         hap_session conn' = Some (bump_decrypt sess)
     | None =>
         out = repeat 0 (Z.to_nat (decode_len (firstn 2 f))) /\
         e = ExitDecryptFail /\ hap_session conn' = Some sess
     end).
Proof.
  intros Hs Hm (I1 & I2 & I3 & I4 & I5) Hlb Hshape.
  destruct conn as [os md [lb lr bl enc el er]]; rx_simpl_all; subst.
  pose proof Hshape as (Hn & Hb & Hlen).
  destruct f as [| h0 [| h1 body]];
    try (unfold len in Hlen; cbn [length firstn] in Hlen, Hn; lia).
  cbn [firstn skipn] in *.
  set (n := decode_len [h0; h1]) in *.
  assert (Hbody : len body = n + 16) by (rewrite !len_cons in Hlen; lia).
  destruct body as [| b0 body'];
    [unfold len in Hbody; simpl in Hbody; lia |].
  set (body := b0 :: body') in *.
  change (arrives_bytewise (h0 :: h1 :: body))
    with (RxBytes h0 [] :: RxFail EAGAIN
            :: RxBytes h1 [] :: RxFail EAGAIN :: arrives_bytewise body).
  change (length (h0 :: h1 :: body)) with (S (S (length body))).
  (* the first call takes the first length byte *)
  rewrite (read_until_done_again MAX aead_decrypt _ _ _ _ _ _ _ _
             (call_first_byte MAX aead_decrypt
                (set_rx w (RxBytes h0 [] :: RxFail EAGAIN
                             :: RxBytes h1 [] :: RxFail EAGAIN
                             :: arrives_bytewise body))
                sess lb h0
                (RxBytes h1 [] :: RxFail EAGAIN :: arrives_bytewise body)
                buffer_size eq_refl) eq_refl).
  set (wa := set_errno
               (set_rx (set_rx w (RxBytes h0 [] :: RxFail EAGAIN
                                    :: RxBytes h1 [] :: RxFail EAGAIN
                                    :: arrives_bytewise body))
                       (RxBytes h1 [] :: RxFail EAGAIN
                          :: arrives_bytewise body)) EAGAIN).
  destruct (hd true (heap w)) eqn:Hheap.
  - (* the allocation succeeds *)
    destruct (call_second_byte MAX aead_decrypt wa sess lb h0 h1
                (arrives_bytewise body) buffer_size Hlb Hn Hb eq_refl Hheap)
      as (wb & Hcall2 & B1 & B2 & B3 & B4 & B5).
    fold n in Hcall2, B5.
    change (tx wa) with (tx w) in B2.
    change (wire wa) with (wire w) in B3.
    change (heap wa) with (heap w) in B4.
    change (trace wa) with (trace w) in B5.
    rewrite (read_until_done_again MAX aead_decrypt _ _ _ _ _ _ _ _
               Hcall2 eq_refl).
    destruct (bytewise_enc MAX aead_decrypt body ltac:(discriminate)
                wb sess [h0; h1] n (n + 16) 0
                (repeat 0 (Z.to_nat (n + 16))) buffer_size)
      as (wc & Hrun & C1 & C2 & C3 & C4 & C5);
      [lia | lia | unfold len; rewrite repeat_length; lia | exact B1 |].
    rewrite write_at_full in Hrun
      by (rewrite repeat_length; unfold len in Hbody; lia).
    destruct (call_whole MAX aead_decrypt (set_rx w (arrives_whole (h0 :: h1 :: body)))
                sess lb h0 h1 body [] buffer_size Hlb Hshape eq_refl Hheap)
      as (wd & Hwhole & D1 & D2 & D3 & D4 & D5).
    fold n in D5.
    destruct (finish_block_agree aead_decrypt wc wd sess [h0; h1] body
                buffer_size)
      as (e & out & we & wf & conn' & F1 & F2 & (G1 & G2 & G3 & G4 & G5)
          & Hna & Hrxe & _ & Hres); [| reflexivity | exact Hbody |].
    { rx_simpl_all; repeat split; congruence. }
    exists e, out, we, wf, conn'.
    split; [exact (eq_trans Hrun F1) |].
    split; [exact (eq_trans Hwhole F2) |].
    split; [exact Hna |].
    split; [congruence | split; [congruence |]].
    intros _.
    split; [rx_simpl_all; congruence |].
    split; [rx_simpl_all; congruence |].
    destruct (aead_decrypt _ _ _ _) as [m |].
    + destruct Hres as (-> & -> & ->); repeat split.
    + destruct Hres as (-> & -> & ->); repeat split.
  - (* the allocation fails: both runs end in the same fatal return *)
    destruct (call_header_nomem wa sess (write_at lb 0 [h0]) 1 h0 h1
                (set_rx wa (RxFail EAGAIN :: arrives_bytewise body))
                buffer_size Hn Hb)
      as (wb & Hcall2 & B2 & B3 & B4 & B5); [| exact Hheap |].
    { rewrite (read_len_loop_second wa _ h1
                 (RxFail EAGAIN :: arrives_bytewise body))
        by reflexivity.
      rx_simpl. destruct (write_at_two lb h0 h1 Hlb) as (_ & ->).
      reflexivity. }
    destruct (call_header_nomem
                (set_rx w (arrives_whole (h0 :: h1 :: body))) sess lb 0 h0 h1
                (set_rx w (arrives_whole body)) buffer_size Hn Hb)
      as (wd & Hwhole & D2 & D3 & D4 & D5); [| exact Hheap |].
    { rewrite (read_len_loop_whole _ _ h0 h1 body []) by (auto; reflexivity).
      rx_simpl. reflexivity. }
    exists ExitNoMem, [], wb, wd,
      (mkConn (Some sess) true (mkRx [h0; h1] 0 0 None 0 0)).
    split.
    { apply (read_until_done_stop MAX aead_decrypt _ _ _ _ _ _ _ _ Hcall2).
      reflexivity. }
    split; [exact Hwhole |].
    split; [reflexivity |].
    unfold wa in *; rx_simpl_all.
    split; [congruence | split; [congruence |]].
    intros H; discriminate.
Qed.

End ResumptionTheorems.

Lemma incr64_no_wrap (n : Z) :
  0 <= n < 18446744073709551615 -> incr64 n = n + 1.
Proof. intros H; unfold incr64, u64; apply Z.mod_small; lia. Qed.

Section RoundTrip.

Variable RTSP_ENCRYPTED_BLOCK_MAX : Z.
Variable aead_encrypt :
  list byte -> list byte -> list byte -> list byte -> list byte.
Variable aead_decrypt :
  list byte -> list byte -> list byte -> list byte -> option (list byte).

Hypothesis block_max_range : 0 < RTSP_ENCRYPTED_BLOCK_MAX <= 65535.
Hypothesis encrypt_length : aead_length_law aead_encrypt.
Hypothesis decrypt_encrypt : aead_inverse_law aead_encrypt aead_decrypt.

Local Abbreviation MAX := RTSP_ENCRYPTED_BLOCK_MAX (only parsing).

Lemma chunks_single (P : list byte) :
  1 <= len P <= MAX -> chunks MAX P = [P].
Proof.
  intros H; unfold chunks.
  destruct P as [| x P']; [unfold len in H; simpl in H; lia |].
  set (P := x :: P') in *.
  change (chunks_fuel MAX (length P) P)
    with (firstn (Z.to_nat MAX) P
            :: chunks_fuel MAX (length P') (skipn (Z.to_nat MAX) P)).
  rewrite firstn_all2, skipn_all2 by (unfold len in H; lia).
  destruct (length P'); reflexivity.
Qed.

(** C1.  A payload of 1 to MAX bytes written by the frame writer (in a
    world where no send and no allocation fails) goes out as one frame
    and advances the outbound counter by one; an idle reader that holds
    the same key and the same counter value, is given that frame and a
    buffer large enough for the payload, returns the length of the
    payload, stores exactly the payload and advances the inbound
    counter by one.  (The counters are 64-bit: "by one" is [incr64],
    which is [+ 1] below 2^64 - 1.) *)
Theorem frame_roundtrip
        (P key : list byte) (n0 : Z)
        (ww wr : world) (ctx crx : rtsp_conn_t) (stx srx : hap_session_t)
        (buffer_size : Z) :
  1 <= len P <= MAX ->
  len P <= buffer_size ->
  hap_session ctx = Some stx -> encrypted_mode ctx = true ->
  encrypt_key stx = key -> encrypt_nonce stx = n0 ->
  hap_session crx = Some srx -> encrypted_mode crx = true ->
  decrypt_key srx = key -> decrypt_nonce srx = n0 ->
  rx_idle (crypto_rx crx) -> length (len_buf (crypto_rx crx)) = 2%nat ->
  reliable ww -> hd true (heap wr) = true ->
  exists ww' stx' wr' srx' st',
    rtsp_crypto_write_frame MAX aead_encrypt ww ctx P
    = Some (0, ww', set_session ctx stx') /\
    wire ww' = wire ww ++ frame aead_encrypt key n0 P /\
    encrypt_nonce stx' = incr64 n0 /\
    rtsp_crypto_read_block MAX aead_decrypt
      (set_rx wr (arrives_whole (frame aead_encrypt key n0 P))) crx
      buffer_size
    = Some (ExitOk (len P), P, wr', mkConn (Some srx') true st') /\
    ret_of (ExitOk (len P)) = len P /\
    decrypt_nonce srx' = incr64 n0 /\
    rx_idle st' /\ rx wr' = [] /\
    (0 <= n0 < 18446744073709551615 -> incr64 n0 = n0 + 1).
Proof.
  intros HP Hfit Hs Hm Hk Hn Hs' Hm' Hk' Hn' (I1 & I2 & I3 & I4 & I5) Hlb
         Hrel Hheap.
  (* the writer *)
  destruct (write_frame_outcome MAX aead_encrypt block_max_range ww ctx stx P
              Hs Hm)
    as (r & ww' & stx' & k & part & Hw & Hnonce & Hwire & Hres & Hok).
  rewrite (chunks_single P HP), Hk, Hn in *.
  rewrite (Hok Hrel encrypt_length) in *.
  destruct Hres as [(_ & -> & ->) | (Hbad & _)]; [| discriminate].
  cbn [length firstn wire_frames] in Hwire.
  change (Nat.iter 1 incr64 (encrypt_nonce stx))
    with (incr64 (encrypt_nonce stx)) in Hnonce.
  rewrite !app_nil_r in Hwire.
  (* the reader *)
  destruct crx as [os md [lb lr bl enc el er]]; rx_simpl_all; subst.
  set (key := encrypt_key stx) in *.
  set (n0 := encrypt_nonce stx) in *.
  set (ct := aead_encrypt key (make_nonce n0) (encode_len (len P)) P).
  assert (Hfr : frame aead_encrypt key n0 P
                = u8 (Z.land (len P) 255)
                    :: u8 (Z.land (Z.shiftr (len P) 8) 255) :: ct)
    by reflexivity.
  assert (Hdec : decode_len (encode_len (len P)) = len P)
    by (apply decode_encode_len; lia).
  assert (Hct : len ct = len P + 16) by apply encrypt_length.
  rewrite Hfr.
  destruct (call_whole MAX aead_decrypt
              (set_rx wr (arrives_whole (encode_len (len P) ++ ct)))
              srx lb (u8 (Z.land (len P) 255))
              (u8 (Z.land (Z.shiftr (len P) 8) 255)) ct [] buffer_size Hlb)
    as (w1 & Hcall & R1 & R2 & R3 & R4 & R5);
    [| reflexivity | exact Hheap |].
  { unfold frame_shaped; cbn [firstn].
    change [u8 (Z.land (len P) 255); u8 (Z.land (Z.shiftr (len P) 8) 255)]
      with (encode_len (len P)).
    rewrite Hdec, !len_cons; lia. }
  destruct (finish_block_agree aead_decrypt w1 w1 srx (encode_len (len P)) ct
              buffer_size (same_but_errno_refl w1) eq_refl)
    as (e & out & wa & wb & conn' & F1 & _ & _ & _ & Hrx & _ & Hout);
    [rewrite Hdec; exact Hct |].
  rewrite Hk', Hn' in Hout.
  fold key in Hout; fold n0 in Hout.
  unfold ct in Hout at 1; rewrite decrypt_encrypt in Hout.
  destruct Hout as (-> & -> & ->).
  destruct (Z.gtb_spec (len P) buffer_size); [lia |].
  rewrite to_int_small in F1 by lia.
  exists ww', stx', wa, (bump_decrypt srx), (mkRx (encode_len (len P)) 0 0 None 0 0).
  split; [exact Hw |].
  split; [exact Hwire |].
  split; [exact Hnonce |].
  split; [exact (eq_trans Hcall F1) |].
  split; [reflexivity |].
  split; [cbn; rewrite Hn'; reflexivity |].
  split; [repeat split |].
  split; [congruence |].
  apply incr64_no_wrap.
Qed.

End RoundTrip.

(** ** The stand-in AEAD keeps libsodium's contract *)

Lemma toy_mask_involutive (key m : list byte) :
  toy_mask key (toy_mask key m) = m.
Proof.
  unfold toy_mask; rewrite map_map.
  rewrite <- (map_id m) at 2; apply map_ext; intros b.
  rewrite Z.lxor_assoc, Z.lxor_nilpotent, Z.lxor_0_r; reflexivity.
Qed.

Lemma toy_length_law : aead_length_law toy_encrypt.
Proof.
  intros key nonce ad m; unfold toy_encrypt, toy_tag, toy_mask, len.
  rewrite length_app, length_map, repeat_length; lia.
Qed.

Lemma list_eqb_refl (a : list byte) : list_eqb a a = true.
Proof. unfold list_eqb; destruct (list_eq_dec Z.eq_dec a a); congruence. Qed.

Lemma toy_inverse_law : aead_inverse_law toy_encrypt toy_decrypt.
Proof.
  intros key nonce ad m; unfold toy_decrypt.
  assert (Hl : length (toy_encrypt key nonce ad m) = (length m + 16)%nat).
  { unfold toy_encrypt, toy_tag, toy_mask.
    rewrite length_app, length_map, repeat_length; reflexivity. }
  rewrite Hl.
  destruct (Nat.ltb_spec (length m + 16) 16); [lia |].
  replace (length m + 16 - 16)%nat with (length (toy_mask key m))
    by (unfold toy_mask; rewrite length_map; lia).
  unfold toy_encrypt.
  rewrite firstn_app, firstn_all, Nat.sub_diag, firstn_0, app_nil_r.
  rewrite skipn_app, skipn_all, Nat.sub_diag; cbn [skipn app].
  rewrite toy_mask_involutive, list_eqb_refl; reflexivity.
Qed.

Lemma toy_open_length_law : aead_open_length_law toy_decrypt.
Proof.
  intros key nonce ad ct m; unfold toy_decrypt.
  destruct (Nat.ltb_spec (length ct) 16); [discriminate |].
  destruct (list_eqb _ _); [| discriminate].
  intros E; inversion E; subst; clear E.
  unfold toy_mask, len; rewrite length_map, length_firstn; lia.
Qed.

(** ** The encrypted frame reader: rejection, release, nonce *)

Lemma make_nonce_layout (counter : Z) :
  make_nonce counter = [0; 0; 0; 0] ++ le_bytes 8 counter /\
  length (make_nonce counter) = 12%nat.
Proof. split; reflexivity. Qed.

Lemma in_trace_frames (key : list byte) (cs : list (list byte)) :
  forall (n : Z) (key' nonce ad m : list byte),
    In (EvEncrypt key' nonce ad m) (trace_frames key n cs) ->
    exists i,
      (i < length cs)%nat /\ m = nth i cs [] /\ key' = key /\
      nonce = make_nonce (Nat.iter i incr64 n) /\ ad = encode_len (len m).
Proof.
  induction cs as [| c cs IH]; intros n key' nonce ad m Hin; [destruct Hin |].
  cbn [trace_frames frame_events app] in Hin.
  destruct Hin as [E | [E | [E | Hin]]]; try discriminate.
  - inversion E; subst; exists O; repeat split; simpl; lia.
  - destruct (IH _ _ _ _ _ Hin) as (i & Hi & Hm & Hk & Hn & Ha).
    exists (S i); repeat split; auto; [simpl; lia |].
    rewrite Hn, <- iter_incr64_succ; reflexivity.
Qed.

Section ReaderTheorems.

Variable RTSP_ENCRYPTED_BLOCK_MAX : Z.
Variable aead_decrypt :
  list byte -> list byte -> list byte -> list byte -> option (list byte).

Local Abbreviation MAX := RTSP_ENCRYPTED_BLOCK_MAX (only parsing).
Local Abbreviation read_block :=
  (rtsp_crypto_read_block RTSP_ENCRYPTED_BLOCK_MAX aead_decrypt)
  (only parsing).

(** C3.  In a call that completes the length header of a frame (no
    ciphertext buffer exists yet), a declared length that is 0, above
    the ceiling or above the caller's [buffer_size] makes the call
    return -1 with [errno = EBADMSG]; no allocator call has been made
    (the trace and the allocator are as they were before the call), and
    the state left behind holds nothing of the frame, so that the next
    call starts with a new header. *)
Theorem invalid_length_rejected
        (w : world) (conn : rtsp_conn_t) (sess : hap_session_t)
        (buffer_size : Z) (w1 : world) (st1 : crypto_rx_t) :
  hap_session conn = Some sess ->
  encrypted_mode conn = true ->
  rx_wf MAX buffer_size (crypto_rx conn) ->
  encrypted (crypto_rx conn) = None ->
  read_len_loop 2 w (crypto_rx conn) = Some (LoopDone w1 st1) ->
  (decode_len (len_buf st1) = 0 \/
   MAX < decode_len (len_buf st1) \/
   buffer_size < decode_len (len_buf st1)) ->
  exists w' st',
    read_block w conn buffer_size
    = Some (ExitBadLength, [], w', mkConn (Some sess) true st') /\
    ret_of ExitBadLength = -1 /\
    errno w' = Some EBADMSG /\
    trace w' = trace w /\ heap w' = heap w /\
    rx_idle st' /\ len_buf st' = len_buf st1.
Proof.
  intros Hs Hm Hwf Hnone Hloop Hbad.
  pose proof Hwf as (Hlb & Hrange & Hwf').
  rewrite Hnone in Hwf'; destruct Hwf' as (Hbl & Hel & Her).
  destruct (read_len_loop_cases 2 w (crypto_rx conn))
    as (o & Hrun & Ho); [lia | change (Z.of_nat 2) with 2; lia | exact Hlb |].
  rewrite Hloop in Hrun; inversion Hrun; subst o; clear Hrun.
  destruct Ho as (_ & _ & (S1 & S2 & S3 & S4) & (Q1 & Q2 & Q3 & Q4) & _).
  unfold rtsp_crypto_read_block; rewrite Hs, Hm, Hloop.
  unfold begin_block; rewrite S2, Hnone.
  set (n := decode_len (len_buf st1)) in *.
  assert (Hc : (n =? 0) || (n >? MAX) || (n >? buffer_size) = true).
  { destruct Hbad as [H | [H | H]].
    - rewrite H; reflexivity.
    - destruct (Z.gtb_spec n MAX); [| lia].
      rewrite orb_true_r; reflexivity.
    - destruct (Z.gtb_spec n buffer_size); [| lia].
      rewrite orb_true_r; reflexivity. }
  rewrite Hc.
  eexists; eexists; split; [unfold set_crypto_rx; rewrite Hs, Hm; reflexivity |].
  repeat split; cbn; congruence.
Qed.

(** Every fatal return taken after the header loop leaves nothing of the
    frame in the state, and the buffer the state held or the call
    allocated has been released. *)
Lemma fatal_after_header_resets
      (w : world) (conn : rtsp_conn_t) (sess : hap_session_t)
      (buffer_size : Z) :
  hap_session conn = Some sess ->
  encrypted_mode conn = true ->
  rx_wf MAX buffer_size (crypto_rx conn) ->
  exists e out w' conn',
    read_block w conn buffer_size = Some (e, out, w', conn') /\
    (resets_state e = true ->
     ret_of e = -1 /\ rx_idle (crypto_rx conn') /\
     live_blocks (trace w') = live_blocks (trace w) - held (crypto_rx conn)).
Proof.
  intros Hs Hm Hwf.
  destruct (read_block_call MAX aead_decrypt w conn sess buffer_size Hs Hm Hwf)
    as (e & out & w' & sess' & st' & evs & Hrun & Htr & _ & _ & _ & Hpost).
  exists e, out, w', (mkConn (Some sess') true st').
  split; [exact Hrun |].
  intros He; split; [destruct e; try discriminate; reflexivity |].
  rewrite Htr, live_blocks_app; unfold held.
  unfold call_post in Hpost.
  destruct e; try discriminate; cbn [crypto_rx].
  - destruct Hpost as (-> & _ & _ & -> & Hi & _); split; [exact Hi | simpl; lia].
  - destruct Hpost as (-> & _ & _ & -> & Hi); split; [exact Hi | simpl; lia].
  - destruct Hpost as (-> & _ & _ & Hi); split; [exact Hi |].
    destruct (encrypted (crypto_rx conn)); simpl; lia.
  - destruct Hpost as (-> & _ & _ & Hi); split; [exact Hi |].
    destruct (encrypted (crypto_rx conn)); simpl; lia.
  - destruct Hpost as (ct & -> & _ & _ & _ & _ & Hi); split; [exact Hi |].
    destruct (encrypted (crypto_rx conn)); simpl; lia.
  - destruct Hpost as (ct & m & -> & _ & _ & _ & _ & _ & _ & Hi);
      split; [exact Hi |].
    destruct (encrypted (crypto_rx conn)); simpl; lia.
Qed.

(** C10, as amended.  When the state is well formed for the
    [buffer_size] of the call (it is after any run of calls from the
    zeroed state that passed this [buffer_size] or a smaller one, see
    [read_block_call] and [rx_wf_mono]) and a plaintext is 16 bytes
    shorter than its ciphertext, a call never takes the
    "decrypted length too large" return; and whenever the AEAD call it
    made succeeds, the plaintext has the declared block length, between
    1 and [buffer_size], and the call returns that length. *)
Theorem decrypted_length_fits
        (w : world) (conn : rtsp_conn_t) (sess : hap_session_t)
        (buffer_size : Z) :
  aead_open_length_law aead_decrypt ->
  hap_session conn = Some sess ->
  encrypted_mode conn = true ->
  rx_wf MAX buffer_size (crypto_rx conn) ->
  exists e out w' conn' evs,
    read_block w conn buffer_size = Some (e, out, w', conn') /\
    trace w' = trace w ++ evs /\
    rx_wf MAX buffer_size (crypto_rx conn') /\
    e <> ExitTooLarge /\
    forall key nonce ad ct m,
      In (EvDecrypt key nonce ad ct) evs ->
      aead_decrypt key nonce ad ct = Some m ->
      e = ExitOk (len m) /\ out = m /\ ret_of e = len m /\
      len m = decode_len ad /\ 1 <= len m <= buffer_size.
Proof.
  intros Hlaw Hs Hm Hwf.
  destruct (read_block_call MAX aead_decrypt w conn sess buffer_size Hs Hm Hwf)
    as (e & out & w' & sess' & st' & evs & Hrun & Htr & _ & _ & Hwf' & Hpost).
  exists e, out, w', (mkConn (Some sess') true st'), evs.
  split; [exact Hrun | split; [exact Htr | split; [exact Hwf' |]]].
  unfold call_post in Hpost; cbv zeta in Hpost.
  assert (Hdec : forall lb ct key nonce ad ct',
             In (EvDecrypt key nonce ad ct')
                (match encrypted (crypto_rx conn) with
                 | Some _ => []
                 | None => [EvMalloc (decode_len lb + 16) true]
                 end ++ decrypt_events sess lb ct) ->
             key = decrypt_key sess /\
             nonce = make_nonce (decrypt_nonce sess) /\ ad = lb /\ ct' = ct).
  { intros lb ct key nonce ad ct' H.
    destruct (encrypted (crypto_rx conn)); simpl in H;
      intuition (try discriminate; try congruence). }
  destruct e;
    try (destruct Hpost as (-> & _); split; [discriminate |];
         intros key nonce ad ct m H; exfalso;
         destruct (encrypted (crypto_rx conn)); simpl in H;
         intuition discriminate).
  - destruct Hpost.
  - destruct Hpost as (ct & -> & Hnone & _); split; [discriminate |].
    intros key nonce ad ct' m H Hsome.
    destruct (Hdec _ _ _ _ _ _ H) as (-> & -> & -> & ->); congruence.
  - exfalso.
    destruct Hpost as (ct & m & _ & Hsome & Hct & Hn & Hbig & _).
    apply Hlaw in Hsome; lia.
  - destruct Hpost as (ct & m & -> & Hsome & Hct & Hn & Hn1 & -> & Hfit & _
                       & -> & _).
    split; [discriminate |].
    intros key nonce ad ct' m' H Hsome'.
    destruct (Hdec _ _ _ _ _ _ H) as (-> & -> & -> & ->).
    rewrite Hsome in Hsome'; inversion Hsome'; subst m'.
    apply Hlaw in Hsome.
    pose proof (decode_len_range (len_buf st')) as Hr.
    rewrite to_int_small by lia.
    repeat split; try reflexivity; lia.
Qed.

End ReaderTheorems.

Section NonceTheorems.

Variable RTSP_ENCRYPTED_BLOCK_MAX : Z.
Variable aead_encrypt :
  list byte -> list byte -> list byte -> list byte -> list byte.
Variable aead_decrypt :
  list byte -> list byte -> list byte -> list byte -> option (list byte).
Hypothesis block_max_range : 0 < RTSP_ENCRYPTED_BLOCK_MAX <= 65535.

Local Abbreviation MAX := RTSP_ENCRYPTED_BLOCK_MAX (only parsing).

(** C4, as amended.  The nonce of every AEAD call is 12 bytes: four
    zero bytes at offsets 0 to 3, then, at offsets 4 to 11, the eight
    bytes of that direction's 64-bit counter, least significant first.
    In the reader the call is made with the key and the counter of the
    inbound direction and with the two length bytes received as
    associated data, the ciphertext being 16 bytes longer than the
    length they declare.  In the writer the call for chunk [i] is made
    with the outbound key, the counter advanced [i] times and, as
    associated data, the two little-endian bytes of the chunk length,
    the very bytes that start the frame on the wire. *)
Theorem aead_nonce_and_associated_data :
  (forall counter,
      make_nonce counter = [0; 0; 0; 0] ++ le_bytes 8 counter /\
      length (make_nonce counter) = 12%nat) /\
  (forall w conn sess buffer_size e out w' conn' evs key nonce ad ct,
      hap_session conn = Some sess ->
      encrypted_mode conn = true ->
      rx_wf MAX buffer_size (crypto_rx conn) ->
      rtsp_crypto_read_block MAX aead_decrypt w conn buffer_size
      = Some (e, out, w', conn') ->
      trace w' = trace w ++ evs ->
      In (EvDecrypt key nonce ad ct) evs ->
      key = decrypt_key sess /\
      nonce = make_nonce (decrypt_nonce sess) /\
      ad = len_buf (crypto_rx conn') /\ length ad = 2%nat /\
      len ct = decode_len ad + 16) /\
  (forall w conn sess data r w' conn' evs key nonce ad m,
      hap_session conn = Some sess ->
      encrypted_mode conn = true ->
      rtsp_crypto_write_frame MAX aead_encrypt w conn data
      = Some (r, w', conn') ->
      trace w' = trace w ++ evs ->
      In (EvEncrypt key nonce ad m) evs ->
      exists i,
        (i < length (chunks MAX data))%nat /\
        m = nth i (chunks MAX data) [] /\
        key = encrypt_key sess /\
        nonce = make_nonce (Nat.iter i incr64 (encrypt_nonce sess)) /\
        ad = encode_len (len m) /\
        ad = firstn 2 (frame aead_encrypt key
                             (Nat.iter i incr64 (encrypt_nonce sess)) m)).
Proof.
  split; [exact make_nonce_layout | split].
  - intros w conn sess buffer_size e out w' conn' evs key nonce ad ct
           Hs Hm Hwf Hrun Htr Hin.
    destruct (read_block_call MAX aead_decrypt w conn sess buffer_size
                              Hs Hm Hwf)
      as (e0 & out0 & w0 & sess' & st' & evs0 & Hrun0 & Htr0 & _ & _ & Hwf'
          & Hpost).
    rewrite Hrun in Hrun0; inversion Hrun0; subst e0 out0 w0 conn'.
    rewrite Htr in Htr0; apply app_inv_head in Htr0; subst evs0.
    cbn [crypto_rx].
    unfold call_post in Hpost; cbv zeta in Hpost.
    assert (Hdec : forall ct0,
               evs = match encrypted (crypto_rx conn) with
                     | Some _ => []
                     | None => [EvMalloc (decode_len (len_buf st') + 16) true]
                     end ++ decrypt_events sess (len_buf st') ct0 ->
               len ct0 = decode_len (len_buf st') + 16 ->
               key = decrypt_key sess /\
               nonce = make_nonce (decrypt_nonce sess) /\
               ad = len_buf st' /\ length ad = 2%nat /\
               len ct = decode_len ad + 16).
    { intros ct0 E Hl; rewrite E in Hin.
      destruct Hwf' as (Hlb & _).
      destruct (encrypted (crypto_rx conn)); simpl in Hin;
        intuition (try discriminate);
        match goal with H : EvDecrypt _ _ _ _ = _ |- _ =>
          inversion H; subst; auto end. }
    destruct e;
      try (destruct Hpost as (E & _); rewrite E in Hin; exfalso;
           destruct (encrypted (crypto_rx conn)); simpl in Hin;
           intuition discriminate).
    + destruct Hpost.
    + destruct Hpost as (ct0 & E & _ & Hl & _); exact (Hdec ct0 E Hl).
    + destruct Hpost as (ct0 & m & E & _ & Hl & _); exact (Hdec ct0 E Hl).
    + destruct Hpost as (ct0 & m & E & _ & Hl & _); exact (Hdec ct0 E Hl).
  - intros w conn sess data r w' conn' evs key nonce ad m Hs Hm Hrun Htr Hin.
    unfold rtsp_crypto_write_frame in Hrun; rewrite Hs, Hm in Hrun.
    destruct (write_frame_loop_spec MAX aead_encrypt block_max_range
                (length data) w sess data 0)
      as (r0 & w0 & sess' & k & part & tail & Hrun0 & _ & _ & _ & _ & _ & _
          & Htr0 & Hres & _); [lia | unfold len; lia |].
    change (skipn (Z.to_nat 0) data) with data in *.
    fold (chunks MAX data) in *.
    rewrite Hrun0 in Hrun; inversion Hrun; subst r0 w0 conn'; clear Hrun.
    rewrite Htr in Htr0; apply app_inv_head in Htr0; subst evs.
    set (cs := chunks MAX data) in *.
    assert (Hfin : forall i,
               (i < length cs)%nat -> m = nth i cs [] ->
               key = encrypt_key sess ->
               nonce = make_nonce (Nat.iter i incr64 (encrypt_nonce sess)) ->
               ad = encode_len (len m) ->
               exists i,
                 (i < length cs)%nat /\ m = nth i cs [] /\
                 key = encrypt_key sess /\
                 nonce = make_nonce (Nat.iter i incr64 (encrypt_nonce sess)) /\
                 ad = encode_len (len m) /\
                 ad = firstn 2 (frame aead_encrypt key
                                  (Nat.iter i incr64 (encrypt_nonce sess)) m)).
    { intros i Hi Hmi Hk Hn Ha; exists i; repeat split; auto. }
    apply in_app_or in Hin; destruct Hin as [Hin | Hin].
    + destruct (in_trace_frames _ _ _ _ _ _ _ Hin)
        as (i & Hi & Hmi & Hk & Hn & Ha).
      rewrite length_firstn in Hi.
      apply (Hfin i); auto; [lia |].
      rewrite Hmi, nth_firstn.
      destruct (Nat.ltb_spec i k); [reflexivity | lia].
    + destruct Hres as [(_ & _ & _ & -> & _) | (_ & Hk & _ & Htail & _)];
        [destruct Hin |].
      destruct Htail as [-> | ->]; simpl in Hin;
        intuition (try discriminate).
      match goal with H : EvEncrypt _ _ _ _ = _ |- _ =>
        inversion H; subst end.
      apply (Hfin k); auto.
Qed.

End NonceTheorems.

(** ** The C library model: termination of the header scan, case folding,
    decimal printing *)

Lemma nth_strlen (p : list byte) : nth (strlen p) p 0 = 0.
Proof.
  induction p as [| c p IH]; [reflexivity |].
  simpl; destruct (Z.eqb_spec c 0); [assumption | exact IH].
Qed.

Lemma starts_with_strlen (pat : list byte) :
  forall s, Forall (fun c => c <> 0) pat -> starts_with pat s = true ->
            (length pat <= strlen s)%nat.
Proof.
  induction pat as [| p pat IH]; intros s Hnz H; [simpl; lia |].
  destruct s as [| c s]; [discriminate |].
  inversion Hnz; subst.
  simpl in H; apply andb_true_iff in H; destruct H as (E & H).
  apply Z.eqb_eq in E; subst c.
  simpl; destruct (Z.eqb_spec p 0); [contradiction |].
  specialize (IH s H3 H); lia.
Qed.

Lemma strstr_bound (pat : list byte) :
  Forall (fun c => c <> 0) pat ->
  forall s k, strstr s pat = Some k -> (k + length pat <= strlen s)%nat.
Proof.
  intros Hnz; induction s as [| c s IH]; intros k H.
  - simpl in H. destruct (starts_with pat []) eqn:E; [| discriminate].
    inversion H; subst. apply (starts_with_strlen pat [] Hnz E).
  - cbn [strstr] in H. destruct (starts_with pat (c :: s)) eqn:E.
    + inversion H; subst. apply (starts_with_strlen pat _ Hnz E).
    + destruct (Z.eqb_spec c 0); [discriminate |].
      destruct (strstr s pat) as [j |] eqn:Ej; [| discriminate].
      inversion H; subst. specialize (IH j eq_refl).
      simpl; destruct (Z.eqb_spec c 0); [contradiction | lia].
Qed.

Lemma strlen_skipn (j : nat) :
  forall p, (j <= strlen p)%nat -> strlen (skipn j p) = (strlen p - j)%nat.
Proof.
  induction j as [| j IH]; intros p H; [simpl; lia |].
  destruct p as [| c p]; [simpl in H; lia |].
  simpl in H |- *. destruct (Z.eqb_spec c 0); [lia |].
  apply IH; lia.
Qed.

(** The scan of [find_header_ci] ends: the fuel its entry point gives is
    never used up. *)
Lemma find_header_loop_total (fuel : nat) :
  forall p key, (strlen p < fuel)%nat ->
                exists r, find_header_loop fuel p key = Some r.
Proof.
  induction fuel as [| fuel IH]; intros p key H; [lia |].
  cbn [find_header_loop].
  destruct (hd 0 p =? 0); [eexists; reflexivity |].
  destruct (strstr p crlf) as [k |] eqn:Ek.
  - destruct ((strlen key <=? k)%nat && strncasecmp_eq p key (strlen key));
      [eexists; reflexivity |].
    destruct (nth k p 0 =? 0); [eexists; reflexivity |].
    apply IH.
    assert (Hk : (k + 2 <= strlen p)%nat).
    { apply (strstr_bound crlf); [| exact Ek].
      repeat constructor; discriminate. }
    rewrite strlen_skipn by lia. lia.
  - destruct ((strlen key <=? strlen p)%nat
              && strncasecmp_eq p key (strlen key));
      [eexists; reflexivity |].
    rewrite nth_strlen; eexists; reflexivity.
Qed.

Lemma find_header_ci_total (headers key : list byte) :
  exists r, find_header_ci headers key = Some r.
Proof.
  unfold find_header_ci. destruct (strlen key =? 0)%nat; [eexists; reflexivity |].
  apply find_header_loop_total; lia.
Qed.

(** The parser on a request that fills its buffer, written out. *)
Lemma rtsp_request_parse_unfold (cap : nat) (data : list byte) :
  rtsp_request_parse cap data
  =
  if len data =? 0 then Some None
  else
    match rtsp_find_header_end data with
    | None => Some None
    | Some header_bytes =>
        let '(n, m, p) := sscanf_method_path data in
        if n <? 1 then Some None
        else
          let copy_len := if (1024 <=? header_bytes)%nat then 1023%nat
                          else header_bytes in
          let header_str := firstn copy_len data in
          match find_header_ci header_str (bytes_of_string "CSeq:"),
                find_header_ci header_str (bytes_of_string "Content-Length:"),
                find_header_ci header_str (bytes_of_string "Content-Type:")
          with
          | Some cs, Some cl, Some ct =>
              let '(b, bl) := rtsp_get_body data (len data) in
              Some (Some (mkRequest m p
                      (match cs with Some v => atoi v | None => 1 end)
                      (match cl with
                       | Some v => atoi v mod 4294967296
                       | None => 0
                       end)
                      (match ct with
                       | Some v => copy_header_value_token cap v
                       | None => []
                       end)
                      b bl))
          | _, _, _ => None
          end
    end.
Proof.
  unfold rtsp_request_parse, rtsp_request_parse_at.
  replace (firstn (Z.to_nat (len data)) data) with data
    by (unfold len; rewrite Nat2Z.id, firstn_all; reflexivity).
  reflexivity.
Qed.

(** [rtsp_request_parse] returns on every input. *)
Lemma rtsp_request_parse_total (cap : nat) (data : list byte) :
  exists r, rtsp_request_parse cap data = Some r.
Proof.
  rewrite ?rtsp_request_parse_unfold.
  destruct (len data =? 0); [eexists; reflexivity |].
  destruct (rtsp_find_header_end data) as [hb |]; [| eexists; reflexivity].
  destruct (sscanf_method_path data) as [[n m] p].
  destruct (n <? 1); [eexists; reflexivity |].
  cbv zeta.
  set (hs := firstn (if (1024 <=? hb)%nat then 1023%nat else hb) data).
  destruct (find_header_ci_total hs (bytes_of_string "CSeq:")) as (r1 & ->).
  destruct (find_header_ci_total hs (bytes_of_string "Content-Length:"))
    as (r2 & ->).
  destruct (find_header_ci_total hs (bytes_of_string "Content-Type:"))
    as (r3 & ->).
  destruct (rtsp_get_body data (len data)); eexists; reflexivity.
Qed.

Lemma tolower_zero (c : byte) : tolower c = 0 <-> c = 0.
Proof.
  unfold tolower.
  destruct (Z.leb_spec 65 c); destruct (Z.leb_spec c 90); simpl; lia.
Qed.

Lemma strlen_fold (k1 k2 : list byte) :
  map tolower k1 = map tolower k2 -> strlen k1 = strlen k2.
Proof.
  revert k2; induction k1 as [| c1 k1 IH]; intros [| c2 k2] H;
    try discriminate; [reflexivity |].
  simpl in H; inversion H as [[Hc Ht]].
  simpl. pose proof (tolower_zero c1); pose proof (tolower_zero c2).
  destruct (Z.eqb_spec c1 0) as [E1 | N1];
    destruct (Z.eqb_spec c2 0) as [E2 | N2].
  - reflexivity.
  - exfalso; apply N2, H1; rewrite <- Hc; apply H0, E1.
  - exfalso; apply N1, H0; rewrite Hc; apply H1, E2.
  - f_equal; apply IH; exact Ht.
Qed.

Lemma strncasecmp_eq_fold (n : nat) :
  forall p k1 k2, map tolower k1 = map tolower k2 ->
                  strncasecmp_eq p k1 n = strncasecmp_eq p k2 n.
Proof.
  induction n as [| n IH]; intros p k1 k2 H; [reflexivity |].
  cbn [strncasecmp_eq].
  assert (Hh : tolower (hd 0 k1) = tolower (hd 0 k2)).
  { destruct k1, k2; try discriminate; [reflexivity |].
    simpl in H; inversion H; assumption. }
  assert (Ht : map tolower (tl k1) = map tolower (tl k2)).
  { destruct k1, k2; try discriminate; [reflexivity |].
    simpl in H; inversion H; assumption. }
  rewrite Hh, (IH (tl p) (tl k1) (tl k2) Ht); reflexivity.
Qed.

(** Header lookup does not see the case of the letters of the key. *)
Lemma find_header_ci_key_case (headers k1 k2 : list byte) :
  map tolower k1 = map tolower k2 ->
  find_header_ci headers k1 = find_header_ci headers k2.
Proof.
  intros H; unfold find_header_ci.
  rewrite (strlen_fold k1 k2 H).
  destruct (strlen k2 =? 0)%nat; [reflexivity |].
  generalize (S (strlen headers)) as fuel; intros fuel; revert headers.
  induction fuel as [| fuel IH]; intros p; cbn [find_header_loop].
  - reflexivity.
  - rewrite (strlen_fold k1 k2 H), (strncasecmp_eq_fold _ p k1 k2 H).
    destruct (hd 0 p =? 0); [reflexivity |].
    destruct (_ && _); [reflexivity |].
    destruct (nth _ p 0 =? 0); [reflexivity |].
    apply IH.
Qed.

Lemma digits_value_app (a : list byte) :
  forall acc b, forallb isdigit a = true ->
                digits_value acc (a ++ b) = digits_value (digits_value acc a) b.
Proof.
  induction a as [| c a IH]; intros acc b H; [reflexivity |].
  simpl in H; apply andb_true_iff in H; destruct H as (Hc & Ha).
  simpl; rewrite Hc; apply IH; exact Ha.
Qed.

(** What [%d] prints for a number of at most [fuel] digits is a string
    of digits that [atoi] reads back as that number. *)
Lemma print_digits_value (fuel : nat) :
  forall n, 0 <= n < 10 ^ Z.of_nat fuel ->
            forallb isdigit (print_digits fuel n) = true /\
            digits_value 0 (print_digits fuel n) = n.
Proof.
  induction fuel as [| fuel IH]; intros n Hn.
  - simpl in Hn; assert (n = 0) by lia; subst; split; reflexivity.
  - cbn [print_digits].
    assert (Hd : 0 <= n mod 10 < 10) by (apply Z.mod_pos_bound; lia).
    assert (Hdig : isdigit (48 + n mod 10) = true).
    { unfold isdigit; apply andb_true_iff; split; apply Z.leb_le; lia. }
    destruct (Z.ltb_spec n 10) as [Hs | Hb].
    + cbn [app forallb digits_value]; rewrite Hdig.
      rewrite Z.mod_small by lia. split; [reflexivity | lia].
    + assert (Hq : 0 <= n / 10 < 10 ^ Z.of_nat fuel).
      { rewrite Nat2Z.inj_succ, Z.pow_succ_r in Hn by lia.
        split; [apply Z.div_pos; lia | apply Z.div_lt_upper_bound; lia]. }
      destruct (IH _ Hq) as (Hall & Hval).
      split.
      * rewrite forallb_app, Hall; cbn [forallb]; rewrite Hdig; reflexivity.
      * rewrite digits_value_app by exact Hall.
        rewrite Hval; cbn [digits_value]; rewrite Hdig.
        rewrite (Z.div_mod n 10) at 3 by lia; lia.
Qed.

(** ** The response builder *)

Lemma print_digits_length (fuel : nat) (n : Z) :
  (length (print_digits fuel n) <= fuel)%nat.
Proof.
  revert n; induction fuel as [| fuel IH]; intros n; simpl; [lia |].
  rewrite length_app; simpl.
  destruct (n <? 10); simpl; [lia |].
  specialize (IH (n / 10)); lia.
Qed.

Lemma print_int_length (z : Z) : (length (print_int z) <= 11)%nat.
Proof.
  unfold print_int; destruct (z <? 0); cbn [length].
  - pose proof (print_digits_length 10 (- z)); lia.
  - pose proof (print_digits_length 10 z); lia.
Qed.

Lemma print_int_nonempty (z : Z) : (1 <= length (print_int z))%nat.
Proof.
  unfold print_int; destruct (z <? 0); cbn [length]; [lia |].
  cbn [print_digits]; rewrite length_app; cbn [length]; lia.
Qed.

Lemma response_head_ok (cseq : Z) :
  response_head 200 (bytes_of_string "OK") cseq None None = ok_response cseq.
Proof. reflexivity. Qed.

Lemma ok_response_length (cseq : Z) : 56 <= len (ok_response cseq) <= 66.
Proof.
  change (ok_response cseq)
    with ((bytes_of_string "RTSP/1.0 200 OK" ++ crlf ++ bytes_of_string "CSeq: ")
            ++ print_int cseq
            ++ (crlf ++ bytes_of_string "Server: AirTunes/377.40.00" ++ crlf
                     ++ crlf)).
  set (a := bytes_of_string "RTSP/1.0 200 OK" ++ crlf
                 ++ bytes_of_string "CSeq: ").
  set (b := crlf ++ bytes_of_string "Server: AirTunes/377.40.00" ++ crlf
                 ++ crlf).
  rewrite (len_app a), (len_app (print_int cseq)).
  change (len a) with 23; change (len b) with 32.
  pose proof (print_int_length cseq) as H.
  pose proof (print_int_nonempty cseq) as H1.
  unfold len; lia.
Qed.

Section ResponseTheorems.

Variable RTSP_ENCRYPTED_BLOCK_MAX : Z.
Variable aead_encrypt :
  list byte -> list byte -> list byte -> list byte -> list byte.

(** C9.  On a connection in plain mode, [rtsp_send_ok] (status 200,
    text "OK", no extra headers, no body) returns, and never puts on
    the wire anything but the bytes of
    "RTSP/1.0 200 OK\r\nCSeq: <n>\r\nServer: AirTunes/377.40.00\r\n\r\n":
    all of them, and nothing after them, when it returns 0, which it
    does whenever no send and no allocation fails; a proper prefix of
    them when it returns -1. *)
Theorem send_ok_plain (w : world) (conn : option rtsp_conn_t) (cseq : Z) :
  plain_mode conn ->
  exists r w' k,
    rtsp_send_ok RTSP_ENCRYPTED_BLOCK_MAX aead_encrypt w conn cseq
    = Some (r, w', conn) /\
    wire w' = wire w ++ firstn k (ok_response cseq) /\
    ((r = 0 /\ wire w' = wire w ++ ok_response cseq) \/
     (r = -1 /\ (k < length (ok_response cseq))%nat)) /\
    (reliable w -> r = 0).
Proof.
  intros Hplain.
  unfold rtsp_send_ok, rtsp_send_response.
  rewrite response_head_ok.
  pose proof (ok_response_length cseq) as Hlen.
  destruct (Z.ltb_spec 1024 (len (ok_response cseq))); [lia |].
  destruct (Z.eqb_spec (len (ok_response cseq)) 1024); [lia |].
  cbv zeta.
  destruct (malloc w (len (ok_response cseq) + 0)) as [ok w1] eqn:Hm.
  destruct (malloc_spec _ _ _ _ Hm) as (Mrx & Mtx & Mwire & Mtr & Mrel & _).
  destruct ok; cbn [negb].
  2:{ exists (-1), w1, O; split; [reflexivity |].
      split; [simpl; rewrite app_nil_r; exact Mwire |].
      split.
      - right; split; [reflexivity |]. unfold len in Hlen; lia.
      - intros Hr; destruct (Mrel Hr); discriminate. }
  rewrite app_nil_r.
  destruct (send_all_spec w1 (ok_response cseq))
    as (r & w2 & k & Hsend & _ & _ & _ & Hwire & Hres).
  assert (Hout :
            exists r' w' k',
              Some ((if r <? 0 then -1 else 0), free w2, conn)
              = Some (r', w', conn) /\
              wire w' = wire w ++ firstn k' (ok_response cseq) /\
              ((r' = 0 /\ wire w' = wire w ++ ok_response cseq) \/
               (r' = -1 /\ (k' < length (ok_response cseq))%nat)) /\
              (reliable w -> r' = 0)).
  { exists (if r <? 0 then -1 else 0), (free w2), k.
    split; [reflexivity |].
    split; [cbn; rewrite Hwire, Mwire; reflexivity |].
    destruct Hres as [(-> & -> & _) | (-> & Hk & Hnr)]; cbn.
    - split; [| reflexivity].
      left; split; [reflexivity |].
      rewrite Hwire, Mwire, firstn_all; reflexivity.
    - split; [right; split; [reflexivity | exact Hk] |].
      intros Hr; exfalso; apply Hnr, Mrel, Hr. }
  destruct conn as [c |]; [cbn in Hplain; rewrite Hplain |];
    rewrite Hsend; exact Hout.
Qed.

End ResponseTheorems.

(** ** The request parser *)

(** C7, as amended.  The example request has 59 bytes (not 27).  Parsing
    it succeeds with method "SETUP", path "/stream", sequence number 3
    and declared content length 5; the header block ends at offset 50
    and the body view starts at offset 54, right after the blank-line
    terminator, and covers the 5 bytes "HELLO": its length is the total
    length minus the offset of the terminator minus 4.  That length does
    not come from the Content-Length header: with any further bytes
    after "HELLO" in the buffer the declared length is still 5 while the
    body view covers them all. *)
Theorem setup_request_parses (cap : nat) :
  length setup_request = 59%nat /\
  rtsp_find_header_end setup_request = Some 50%nat /\
  (exists req,
      rtsp_request_parse cap setup_request = Some (Some req) /\
      method req = bytes_of_string "SETUP" /\
      path req = bytes_of_string "/stream" /\
      cseq req = 3 /\
      content_length req = 5 /\
      body req = Some (50 + 4)%nat /\
      body_len req = len setup_request - 50 - 4 /\
      body_len req = 5 /\
      body_bytes setup_request req = bytes_of_string "HELLO") /\
  (forall more,
      exists req,
        rtsp_request_parse cap (setup_request ++ more) = Some (Some req) /\
        method req = bytes_of_string "SETUP" /\
        path req = bytes_of_string "/stream" /\
        cseq req = 3 /\
        content_length req = 5 /\
        body req = Some (50 + 4)%nat /\
        body_len req = len (setup_request ++ more) - 50 - 4 /\
        body_bytes (setup_request ++ more) req
        = bytes_of_string "HELLO" ++ more).
Proof.
  split; [reflexivity | split; [reflexivity | split]].
  - eexists; split; [vm_compute; reflexivity |].
    repeat split.
  - intros more.
    rewrite ?rtsp_request_parse_unfold.
    destruct (Z.eqb_spec (len (setup_request ++ more)) 0) as [E | _].
    { rewrite len_app in E; pose proof (len_nonneg more).
      change (len setup_request) with 59 in E; lia. }
    replace (rtsp_find_header_end (setup_request ++ more)) with (Some 50%nat)
      by (vm_compute; reflexivity).
    replace (sscanf_method_path (setup_request ++ more))
      with (2, bytes_of_string "SETUP", bytes_of_string "/stream")
      by (vm_compute; reflexivity).
    cbn [Z.ltb Z.compare Nat.leb].
    replace (firstn 50 (setup_request ++ more)) with (firstn 50 setup_request)
      by (vm_compute; reflexivity).
    replace (rtsp_get_body (setup_request ++ more) (len (setup_request ++ more)))
      with (Some 54%nat, len (setup_request ++ more) - Z.of_nat 54).
    2:{ unfold rtsp_get_body.
        replace (strstr (setup_request ++ more) (crlf ++ crlf))
          with (Some 50%nat) by (vm_compute; reflexivity).
        unfold size_sub.
        destruct (Z.ltb_spec (len (setup_request ++ more))
                             (Z.of_nat (50 + 4))) as [Hlt | _];
          [| reflexivity].
        rewrite len_app in Hlt; pose proof (len_nonneg more).
        change (len setup_request) with 59 in Hlt; lia. }
    replace (find_header_ci (firstn 50 setup_request) (bytes_of_string "CSeq:"))
      with (Some (Some (skipn 30 (firstn 50 setup_request))))
      by (vm_compute; reflexivity).
    replace (find_header_ci (firstn 50 setup_request)
                            (bytes_of_string "Content-Length:"))
      with (Some (Some (skipn 49 (firstn 50 setup_request))))
      by (vm_compute; reflexivity).
    replace (find_header_ci (firstn 50 setup_request)
                            (bytes_of_string "Content-Type:"))
      with (Some (@None (list byte))) by (vm_compute; reflexivity).
    eexists; split; [reflexivity |].
    unfold body_bytes; cbn [method path cseq content_length body body_len].
    repeat split; try (vm_compute; reflexivity); try lia.
    change (skipn 54 (setup_request ++ more))
      with (bytes_of_string "HELLO" ++ more).
    apply firstn_all2.
    rewrite !len_app; change (len setup_request) with 59.
    rewrite length_app; unfold len; simpl length; lia.
Qed.

(** The length stated with the example, 27, is not the length of the
    example; a buffer cut at 27 bytes holds no blank-line terminator and
    the parser rejects it. *)
Lemma setup_request_not_27_bytes :
  length setup_request <> 27%nat /\
  forall cap, rtsp_request_parse cap (firstn 27 setup_request) = Some None.
Proof. split; [discriminate | intros cap; reflexivity]. Qed.

(** C8.  [rtsp_request_parse], which looks headers up with
    [find_header_ci], yields sequence number 7 for each of the three
    spellings; [rtsp_parse_cseq], which searches for the exact bytes
    "CSeq:", yields 7 for "CSeq: 7" only and falls back to 1, its value
    for a missing header, for "cseq: 7" and "CSEQ:7". *)
Theorem cseq_case_sensitivity (cap : nat) :
  (option_map (option_map cseq) (rtsp_request_parse cap (request_with "cseq: 7"))
   = Some (Some 7) /\
   option_map (option_map cseq) (rtsp_request_parse cap (request_with "CSeq: 7"))
   = Some (Some 7) /\
   option_map (option_map cseq) (rtsp_request_parse cap (request_with "CSEQ:7"))
   = Some (Some 7)) /\
  (rtsp_parse_cseq (request_with "CSeq: 7") = 7 /\
   rtsp_parse_cseq (request_with "cseq: 7") = 1 /\
   rtsp_parse_cseq (request_with "CSEQ:7") = 1).
Proof. repeat split; vm_compute; reflexivity. Qed.

(** ** The model run on concrete inputs *)

Lemma toy_block_max : 0 < 1024 <= 65535.
Proof. lia. Defined.

Lemma quiet_world_reliable : reliable quiet_world.
Proof. split; constructor. Defined.

Lemma rx_zero_wf (block_max buffer_size : Z) : rx_wf block_max buffer_size rx_zero.
Proof. unfold rx_wf; simpl; repeat split; lia. Defined.

Lemma rx_zero_idle : rx_idle rx_zero.
Proof. repeat split. Defined.

(** "HELLO" written with counter 0 and read back with counter 0. *)
Lemma frame_roundtrip_witness :
  exists wr' conn',
    rtsp_crypto_read_block 1024 toy_decrypt
      (set_rx quiet_world (arrives_whole (frame toy_encrypt toy_key 0 hello)))
      (toy_conn 0) 64
    = Some (ExitOk 5, hello, wr', conn') /\
    option_map decrypt_nonce (hap_session conn') = Some 1.
Proof.
  destruct (frame_roundtrip 1024 toy_encrypt toy_decrypt toy_block_max
              toy_length_law toy_inverse_law
              hello toy_key 0 quiet_world quiet_world (toy_conn 0) (toy_conn 0)
              (toy_session 0) (toy_session 0) 64)
    as (ww' & stx' & wr' & srx' & st' & _ & _ & _ & Hread & _ & Hn & _);
    try reflexivity;
    try (vm_compute; split; intros H; discriminate H);
    try (vm_compute; intros H; discriminate H);
    try exact rx_zero_idle; try exact quiet_world_reliable.
  exists wr', (mkConn (Some srx') true st'); split; [exact Hread |].
  simpl; rewrite Hn; reflexivity.
Defined.

(** The frame of "HELLO", one byte per call and whole. *)
Lemma read_block_resumable_witness :
  exists w1 w2 conn',
    read_until_done 1024 toy_decrypt 23
      (set_rx quiet_world
              (arrives_bytewise (frame toy_encrypt toy_key 0 hello)))
      (toy_conn 0) 64
    = Some (ExitOk 5, hello, w1, conn') /\
    rtsp_crypto_read_block 1024 toy_decrypt
      (set_rx quiet_world (arrives_whole (frame toy_encrypt toy_key 0 hello)))
      (toy_conn 0) 64
    = Some (ExitOk 5, hello, w2, conn').
Proof.
  destruct (read_block_resumable 1024 toy_decrypt quiet_world (toy_conn 0)
              (toy_session 0) 64 (frame toy_encrypt toy_key 0 hello))
    as (e & out & w1 & w2 & conn' & H1 & H2 & _ & _ & _ & Hres);
    try reflexivity; try exact rx_zero_idle.
  { vm_compute; repeat split; try reflexivity; intros H; discriminate H. }
  destruct (Hres eq_refl) as (_ & _ & Hdec).
  vm_compute in Hdec; destruct Hdec as (-> & -> & _).
  exists w1, w2, conn'; split; [exact H1 | exact H2].
Defined.

(** A header that declares length 0. *)
Lemma invalid_length_rejected_witness :
  exists w' st',
    rtsp_crypto_read_block 1024 toy_decrypt
      (set_rx quiet_world [RxBytes 0 [0; 9; 9]]) (toy_conn 0) 64
    = Some (ExitBadLength, [], w', mkConn (Some (toy_session 0)) true st') /\
    trace w' = [] /\ rx_idle st'.
Proof.
  destruct (invalid_length_rejected 1024 toy_decrypt
              (set_rx quiet_world [RxBytes 0 [0; 9; 9]]) (toy_conn 0)
              (toy_session 0) 64
              (set_rx quiet_world [RxBytes 9 [9]]) (mkRx [0; 0] 2 0 None 0 0))
    as (w' & st' & Hrun & _ & _ & Htr & _ & Hidle & _);
    try reflexivity; try apply rx_zero_wf.
  { left; reflexivity. }
  exists w', st'; repeat split; try apply Hidle; [exact Hrun | exact Htr].
Defined.

(** The nonce made from counter 1. *)
Lemma aead_nonce_witness :
  make_nonce 1 = [0; 0; 0; 0; 1; 0; 0; 0; 0; 0; 0; 0].
Proof.
  destruct (aead_nonce_and_associated_data 1024 toy_encrypt toy_decrypt
                                           toy_block_max) as (H & _ & _).
  exact (proj1 (H 1)).
Defined.

(** "HELLO" under a ceiling of 2 bytes: three chunks, the counter at 3,
    and the length header of the first frame first on the wire. *)
Lemma write_frame_chunked_witness :
  chunks 2 hello = [[72; 69]; [76; 76]; [79]] /\
  exists w' conn',
    rtsp_crypto_write_frame 2 toy_encrypt quiet_world (toy_conn 0) hello
    = Some (0, w', conn') /\
    option_map encrypt_nonce (hap_session conn') = Some 3 /\
    wire w' = framed_run toy_encrypt toy_key 0 [[72; 69]; [76; 76]; [79]] /\
    firstn 2 (wire w') = [2; 0].
Proof.
  split; [reflexivity |].
  destruct (write_frame_chunked 2 toy_encrypt ltac:(lia) quiet_world (toy_conn 0)
              (toy_session 0) hello eq_refl eq_refl ltac:(reflexivity))
    as (_ & _ & _ & r & w' & sess' & k & part & Hrun & Hn & _ & Hres & Hok
        & Hwire & _).
  rewrite (Hok quiet_world_reliable toy_length_law) in *.
  destruct Hres as [(_ & Hk & Hp) | (Hbad & _)]; [| discriminate Hbad].
  rewrite Hk, Hp in *.
  exists w', (set_session (toy_conn 0) sess'); split; [exact Hrun |].
  split; [simpl; rewrite Hn; reflexivity |].
  split; rewrite Hwire; reflexivity.
Defined.

(** A whole frame read with the buffer size it was checked against. *)
Lemma decrypted_length_fits_witness :
  exists e out w' conn',
    rtsp_crypto_read_block 1024 toy_decrypt
      (set_rx quiet_world (arrives_whole (frame toy_encrypt toy_key 0 hello)))
      (toy_conn 0) 64
    = Some (e, out, w', conn') /\ e <> ExitTooLarge.
Proof.
  destruct (decrypted_length_fits 1024 toy_decrypt
              (set_rx quiet_world
                      (arrives_whole (frame toy_encrypt toy_key 0 hello)))
              (toy_conn 0) (toy_session 0) 64 toy_open_length_law eq_refl eq_refl
              (rx_zero_wf 1024 64))
    as (e & out & w' & conn' & evs & Hrun & _ & _ & Hne & _).
  exists e, out, w', conn'; split; [exact Hrun | exact Hne].
Defined.

(** A bare 200 response with CSeq 7 on a connection without state. *)
Lemma send_ok_plain_witness :
  exists w',
    rtsp_send_ok 1024 toy_encrypt quiet_world None 7 = Some (0, w', None) /\
    wire w'
    = bytes_of_string "RTSP/1.0 200 OK" ++ crlf
        ++ bytes_of_string "CSeq: 7" ++ crlf
        ++ bytes_of_string "Server: AirTunes/377.40.00" ++ crlf ++ crlf.
Proof.
  destruct (send_ok_plain 1024 toy_encrypt quiet_world None 7 I)
    as (r & w' & k & Hrun & _ & Hres & Hok).
  rewrite (Hok quiet_world_reliable) in *.
  destruct Hres as [(_ & Hw) | (Hbad & _)]; [| discriminate Hbad].
  exists w'; split; [exact Hrun | exact Hw].
Defined.

(** C4, the claim as worded.  In a frame written under outbound counter
    1 the AEAD call gets the nonce 00 00 00 00 01 00 00 00 00 00 00 00:
    the bytes at offsets 0 to 7 are not the bytes of the counter, in
    either byte order.  With counter 2^32 the bytes after offset 7 are
    not all zero. *)
Lemma nonce_low_bytes_counterexample :
  (exists w' conn' nonce,
      rtsp_crypto_write_frame 1024 toy_encrypt quiet_world (toy_conn 1) hello
      = Some (0, w', conn') /\
      In (EvEncrypt toy_key nonce [5; 0] hello) (trace w') /\
      nonce = [0; 0; 0; 0; 1; 0; 0; 0; 0; 0; 0; 0] /\
      firstn 8 nonce <> le_bytes 8 1 /\
      firstn 8 nonce <> rev (le_bytes 8 1)) /\
  skipn 8 (make_nonce 4294967296) <> [0; 0; 0; 0].
Proof.
  split.
  - eexists; eexists; eexists; split; [vm_compute; reflexivity |].
    split; [right; left; reflexivity |].
    split; [reflexivity | split; discriminate].
  - discriminate.
Qed.

(** C10, the claim as worded.  A frame whose header was accepted by a
    call that passed [buffer_size = 1024] and whose ciphertext arrives in
    a later call that passes [buffer_size = 4]: the AEAD accepts the
    frame, the plaintext has the declared 5 bytes, and the call takes the
    "decrypted length too large" return. *)
Lemma too_large_reachable :
  exists w1 c1 w2 c2,
    rtsp_crypto_read_block 1024 toy_decrypt
      (set_rx quiet_world
              (arrives_whole (firstn 2 (frame toy_encrypt toy_key 0 hello))))
      (toy_conn 0) 1024
    = Some (ExitEncAgain, [], w1, c1) /\
    rtsp_crypto_read_block 1024 toy_decrypt
      (set_rx w1 (arrives_whole (skipn 2 (frame toy_encrypt toy_key 0 hello))))
      c1 4
    = Some (ExitTooLarge, hello, w2, c2) /\
    ret_of ExitTooLarge = -1 /\
    toy_decrypt toy_key (make_nonce 0) [5; 0]
                (skipn 2 (frame toy_encrypt toy_key 0 hello))
    = Some hello.
Proof.
  eexists; eexists; eexists; eexists.
  split; [vm_compute; reflexivity |].
  split; [vm_compute; reflexivity |].
  split; reflexivity.
Qed.

(** C5 at the failing input.  An idle reader gets one byte of a length
    header and then the peer closes, or the socket fails: the call
    returns -1 and the state still counts one header byte received.  The
    two bytes of the next header are then not read as a header: a frame
    that an idle reader decrypts is rejected for its length. *)
Theorem header_error_keeps_partial_header :
  (exists w' conn',
      rtsp_crypto_read_block 1024 toy_decrypt
        (set_rx quiet_world [RxBytes 5 []; RxClosed]) (toy_conn 0) 64
      = Some (ExitLenClosed, [], w', conn') /\
      ret_of ExitLenClosed = -1 /\
      len_received (crypto_rx conn') = 1 /\
      (exists e out w'' conn'',
          rtsp_crypto_read_block 1024 toy_decrypt
            (set_rx w' (arrives_whole (frame toy_encrypt toy_key 0 hello)))
            conn' 64
          = Some (e, out, w'', conn'') /\ e = ExitBadLength)) /\
  (exists w' conn',
      rtsp_crypto_read_block 1024 toy_decrypt
        (set_rx quiet_world [RxBytes 5 []; RxFail ECONNRESET]) (toy_conn 0) 64
      = Some (ExitLenError, [], w', conn') /\
      ret_of ExitLenError = -1 /\
      len_received (crypto_rx conn') = 1) /\
  (exists w' conn',
      rtsp_crypto_read_block 1024 toy_decrypt
        (set_rx quiet_world (arrives_whole (frame toy_encrypt toy_key 0 hello)))
        (toy_conn 0) 64
      = Some (ExitOk 5, hello, w', conn')).
Proof.
  split; [| split].
  - eexists; eexists; split; [vm_compute; reflexivity |].
    split; [reflexivity | split; [reflexivity |]].
    eexists; eexists; eexists; eexists; split; vm_compute; reflexivity.
  - eexists; eexists; split; [vm_compute; reflexivity |].
    split; reflexivity.
  - eexists; eexists; vm_compute; reflexivity.
Qed.

(** * Further properties of the modelled code *)

(** ** rtsp_crypto.c: the socket writer, the reader and the writer *)

(** X1.  [send_all] copes with partial sends: whatever the socket does it
    returns, and it has put on the wire a prefix of the data, in order
    and nothing else: all of it when it returns 0, a proper prefix when
    it returns -1.  It returns 0 when no [send] fails, and it makes no
    call at all for empty data. *)
Theorem send_all_outcome (w : world) (data : list byte) :
  exists r w' k,
    send_all w data = Some (r, w') /\
    wire w' = wire w ++ firstn k data /\
    ((r = 0 /\ wire w' = wire w ++ data) \/
     (r = -1 /\ (k < length data)%nat)) /\
    rx w' = rx w /\ heap w' = heap w /\ trace w' = trace w /\
    (reliable w -> r = 0) /\
    (data = [] -> r = 0 /\ w' = w).
Proof.
  destruct (send_all_spec w data)
    as (r & w' & k & Hrun & Hrx & Hhp & Htr & Hw & Hres).
  exists r, w', k.
  split; [exact Hrun | split; [exact Hw |]].
  split.
  { destruct Hres as [(-> & -> & _) | (-> & Hk & _)].
    - left; split; [reflexivity |]. rewrite Hw, firstn_all; reflexivity.
    - right; split; [reflexivity | exact Hk]. }
  repeat (split; [assumption |]).
  split.
  - intros Hr. destruct Hres as [(-> & _) | (_ & _ & Hnr)];
      [reflexivity | contradiction].
  - intros ->. unfold send_all in Hrun; simpl in Hrun.
    inversion Hrun; subst; split; reflexivity.
Qed.

Section ReaderExtras.

Variable RTSP_ENCRYPTED_BLOCK_MAX : Z.
Variable aead_decrypt :
  list byte -> list byte -> list byte -> list byte -> option (list byte).

Local Abbreviation MAX := RTSP_ENCRYPTED_BLOCK_MAX (only parsing).
Local Abbreviation read_block :=
  (rtsp_crypto_read_block RTSP_ENCRYPTED_BLOCK_MAX aead_decrypt)
  (only parsing).

(** X2.  From a well-formed partial-read state a call of the reader returns,
    whatever the socket and the allocator do, and leaves a well-formed
    state; it sends nothing, and it touches neither the keys nor the
    outbound counter of the session. *)
Theorem reader_keeps_invariant
        (w : world) (conn : rtsp_conn_t) (sess : hap_session_t)
        (buffer_size : Z) :
  hap_session conn = Some sess ->
  encrypted_mode conn = true ->
  rx_wf MAX buffer_size (crypto_rx conn) ->
  exists e out w' conn' sess',
    read_block w conn buffer_size = Some (e, out, w', conn') /\
    rx_wf MAX buffer_size (crypto_rx conn') /\
    hap_session conn' = Some sess' /\ encrypted_mode conn' = true /\
    encrypt_key sess' = encrypt_key sess /\
    decrypt_key sess' = decrypt_key sess /\
    encrypt_nonce sess' = encrypt_nonce sess /\
    tx w' = tx w /\ wire w' = wire w.
Proof.
  intros Hs Hm Hwf.
  destruct (read_block_call MAX aead_decrypt w conn sess buffer_size Hs Hm Hwf)
    as (e & out & w' & sess' & st' & evs & Hrun & _ & Htx & Hwi & Hwf' & Hpost).
  exists e, out, w', (mkConn (Some sess') true st'), sess'.
  split; [exact Hrun | split; [exact Hwf' |]].
  split; [reflexivity | split; [reflexivity |]].
  assert (Hk : sess' = sess \/ sess' = bump_decrypt sess).
  { unfold call_post in Hpost; cbv zeta in Hpost.
    destruct e; try (left; apply Hpost).
    - destruct Hpost.
    - destruct Hpost as (ct & _ & _ & _ & E & _); left; exact E.
    - destruct Hpost as (ct & m & _ & _ & _ & _ & _ & E & _); right; exact E.
    - destruct Hpost as (ct & m & _ & _ & _ & _ & _ & _ & _ & E & _);
        right; exact E. }
  destruct Hk as [-> | ->]; repeat split; assumption.
Qed.

(** The guard of lines 28-31: without a session, or outside encrypted
    mode, the call returns at once and touches nothing. *)
Lemma read_block_guard (w : world) (conn : rtsp_conn_t) (buffer_size : Z) :
  hap_session conn = None \/ encrypted_mode conn = false ->
  read_block w conn buffer_size = Some (ExitGuard, [], w, conn).
Proof.
  unfold rtsp_crypto_read_block.
  intros [H | H]; rewrite H; [| destruct (hap_session conn)]; reflexivity.
Qed.

Lemma guard_or_session (conn : rtsp_conn_t) :
  (hap_session conn = None \/ encrypted_mode conn = false) \/
  (exists sess, hap_session conn = Some sess /\ encrypted_mode conn = true).
Proof.
  destruct (hap_session conn) as [sess |]; [| left; left; reflexivity].
  destruct (encrypted_mode conn); [right; exists sess; auto | left; right; auto].
Qed.

(** The allocations of one call on a connection in encrypted mode. *)
Lemma read_block_balance
      (w : world) (conn : rtsp_conn_t) (sess : hap_session_t)
      (buffer_size : Z) :
  hap_session conn = Some sess ->
  encrypted_mode conn = true ->
  rx_wf MAX buffer_size (crypto_rx conn) ->
  exists e out w' conn',
    read_block w conn buffer_size = Some (e, out, w', conn') /\
    e <> ExitGuard /\
    live_blocks (trace w') - held (crypto_rx conn')
    = live_blocks (trace w) - held (crypto_rx conn) /\
    (is_again e = false -> held (crypto_rx conn') = 0).
Proof.
  intros Hs Hm Hwf.
  destruct (read_block_call MAX aead_decrypt w conn sess buffer_size Hs Hm Hwf)
    as (e & out & w' & sess' & st' & evs & Hrun & Htr & _ & _ & _ & Hpost).
  exists e, out, w', (mkConn (Some sess') true st').
  split; [exact Hrun |].
  split; [intros ->; exact Hpost |].
  rewrite Htr, live_blocks_app; cbn [crypto_rx]; unfold held.
  unfold call_post in Hpost; cbv zeta in Hpost.
  assert (Hidle : rx_idle st' -> encrypted st' = None) by (intros H; apply H).
  destruct e.
  - destruct Hpost.
  - destruct Hpost as (-> & _ & _ & E & (_ & E' & _) & _).
    rewrite E', E; split; [simpl; lia | discriminate].
  - destruct Hpost as (-> & _ & _ & E & (_ & E' & _) & _).
    rewrite E', E; split; [simpl; lia | reflexivity].
  - destruct Hpost as (-> & _ & _ & E & (_ & E' & _) & _).
    rewrite E', E; split; [simpl; lia | reflexivity].
  - destruct Hpost as (-> & _ & _ & E & Hi & _).
    rewrite (Hidle Hi), E; split; [simpl; lia | reflexivity].
  - destruct Hpost as (-> & _ & _ & E & Hi).
    rewrite (Hidle Hi), E; split; [simpl; lia | reflexivity].
  - destruct Hpost as (-> & _ & _ & Hne).
    destruct (encrypted st'); [| congruence].
    split; [destruct (encrypted (crypto_rx conn)); simpl; lia | discriminate].
  - destruct Hpost as (-> & _ & _ & Hi). rewrite (Hidle Hi).
    split; [destruct (encrypted (crypto_rx conn)); simpl; lia | reflexivity].
  - destruct Hpost as (-> & _ & _ & Hi). rewrite (Hidle Hi).
    split; [destruct (encrypted (crypto_rx conn)); simpl; lia | reflexivity].
  - destruct Hpost as (ct & -> & _ & _ & _ & _ & Hi). rewrite (Hidle Hi).
    split; [destruct (encrypted (crypto_rx conn)); simpl; lia | reflexivity].
  - destruct Hpost as (ct & m & -> & _ & _ & _ & _ & _ & _ & Hi).
    rewrite (Hidle Hi).
    split; [destruct (encrypted (crypto_rx conn)); simpl; lia | reflexivity].
  - destruct Hpost as (ct & m & -> & _ & _ & _ & _ & _ & _ & _ & _ & Hi).
    rewrite (Hidle Hi).
    split; [destruct (encrypted (crypto_rx conn)); simpl; lia | reflexivity].
Qed.

(** X3.  The reader never leaks its buffer and never releases one
    twice, in any state of the connection: over any call the number of
    live blocks changes exactly as the partial-read state starts or
    stops holding a buffer.  The guard return of lines 28-31 (no
    session, or not in encrypted mode) is taken exactly in those states
    and changes nothing: a buffer held at that moment is neither
    released nor dropped and stays with the connection.  After every
    other return that is not a would-block return, no buffer is held. *)
Theorem reader_no_leak
        (w : world) (conn : rtsp_conn_t) (buffer_size : Z) :
  rx_wf MAX buffer_size (crypto_rx conn) ->
  exists e out w' conn',
    read_block w conn buffer_size = Some (e, out, w', conn') /\
    live_blocks (trace w') - held (crypto_rx conn')
    = live_blocks (trace w) - held (crypto_rx conn) /\
    (e = ExitGuard <->
     hap_session conn = None \/ encrypted_mode conn = false) /\
    (e = ExitGuard -> ret_of e = -1 /\ w' = w /\ conn' = conn) /\
    (e <> ExitGuard -> is_again e = false -> held (crypto_rx conn') = 0).
Proof.
  intros Hwf.
  destruct (guard_or_session conn) as [Hg | (sess & Hs & Hm)].
  - exists ExitGuard, [], w, conn.
    split; [apply read_block_guard; exact Hg |].
    split; [reflexivity |].
    split; [split; [intros _; exact Hg | reflexivity] |].
    split; [intros _; repeat split | congruence].
  - destruct (read_block_balance w conn sess buffer_size Hs Hm Hwf)
      as (e & out & w' & conn' & Hrun & Hne & Hbal & Hfree).
    exists e, out, w', conn'.
    split; [exact Hrun |]. split; [exact Hbal |].
    split.
    { split; [intros E; contradiction |].
      intros [H | H]; congruence. }
    split; [intros E; contradiction | intros _; exact Hfree].
Qed.

(** X4.  What the return value of the reader tells its caller, in any
    state of the connection, when a plaintext is 16 bytes shorter than
    its ciphertext and the partial-read state is well formed for the
    caller's [buffer_size].  0 is a would-block return and nothing else:
    the caller's buffer and the session are untouched.  A positive value
    is the number of plaintext bytes stored, at most [buffer_size], with
    the inbound counter advanced by one and the state idle.  The only
    other value is -1: the session is as it was and no plaintext is
    delivered; the caller's buffer is untouched, except after an
    authentication failure, where the AEAD call has put zeros in the
    place of the plaintext, as many as the frame declared. *)
Theorem reader_return_value
        (w : world) (conn : rtsp_conn_t) (buffer_size : Z) :
  aead_open_length_law aead_decrypt ->
  rx_wf MAX buffer_size (crypto_rx conn) ->
  exists e out w' conn',
    read_block w conn buffer_size = Some (e, out, w', conn') /\
    ((ret_of e = 0 /\ is_again e = true /\ out = [] /\
      hap_session conn' = hap_session conn) \/
     (0 < ret_of e /\ len out = ret_of e /\ ret_of e <= buffer_size /\
      (exists sess, hap_session conn = Some sess /\
                    hap_session conn' = Some (bump_decrypt sess)) /\
      rx_idle (crypto_rx conn')) \/
     (ret_of e = -1 /\ is_again e = false /\
      hap_session conn' = hap_session conn /\
      out = match e with
            | ExitDecryptFail =>
                repeat 0 (Z.to_nat (decode_len (len_buf (crypto_rx conn'))))
            | _ => []
            end)).
Proof.
  intros Hlaw Hwf.
  destruct (guard_or_session conn) as [Hg | (sess & Hs & Hm)].
  { exists ExitGuard, [], w, conn.
    split; [apply read_block_guard; exact Hg |].
    right; right; repeat split. }
  destruct (read_block_call MAX aead_decrypt w conn sess buffer_size Hs Hm Hwf)
    as (e & out & w' & sess' & st' & evs & Hrun & _ & _ & _ & _ & Hpost).
  exists e, out, w', (mkConn (Some sess') true st').
  split; [exact Hrun |].
  unfold call_post in Hpost; cbv zeta in Hpost; cbn [hap_session crypto_rx].
  rewrite Hs.
  destruct e;
    try (destruct Hpost as (_ & -> & -> & _);
         first [left; repeat split; reflexivity
               | right; right; repeat split; reflexivity]).
  - destruct Hpost.
  - destruct Hpost as (ct & _ & _ & _ & -> & -> & _).
    right; right; repeat split; reflexivity.
  - exfalso. destruct Hpost as (ct & m & _ & Hsome & Hct & Hn & Hbig & _).
    apply Hlaw in Hsome; lia.
  - destruct Hpost as (ct & m & _ & Hsome & Hct & Hn & Hn1 & -> & Hfit & ->
                       & -> & Hi).
    apply Hlaw in Hsome.
    pose proof (decode_len_range (len_buf st')) as Hr.
    right; left. cbn [ret_of]. rewrite to_int_small by lia.
    split; [lia |]. split; [lia |]. split; [lia |].
    split; [exists sess; split; reflexivity | exact Hi].
Qed.

End ReaderExtras.

Lemma live_blocks_trace_frames (key : list byte) (cs : list (list byte)) :
  forall n, live_blocks (trace_frames key n cs) = 0.
Proof.
  induction cs as [| c cs IH]; intros n; [reflexivity |].
  cbn [trace_frames]; rewrite live_blocks_app, IH; simpl; lia.
Qed.

Lemma len_concat_chunks (cs : list (list byte)) :
  len (concat cs) = fold_right (fun c acc => len c + acc) 0 cs.
Proof.
  induction cs as [| c cs IH]; [reflexivity |].
  cbn [concat fold_right]; rewrite len_app, IH; reflexivity.
Qed.

Section WriterExtras.

Variable RTSP_ENCRYPTED_BLOCK_MAX : Z.
Variable aead_encrypt :
  list byte -> list byte -> list byte -> list byte -> list byte.

Local Abbreviation MAX := RTSP_ENCRYPTED_BLOCK_MAX (only parsing).

Lemma wire_frames_length (key : list byte) (cs : list (list byte)) :
  aead_length_law aead_encrypt ->
  forall n,
    len (wire_frames aead_encrypt key n cs)
    = len (concat cs) + 18 * len cs.
Proof.
  intros Hlaw; induction cs as [| c cs IH]; intros n; [reflexivity |].
  cbn [wire_frames concat]; unfold frame.
  rewrite !len_app, IH, Hlaw, len_cons.
  change (len (encode_len (len c))) with 2; lia.
Qed.

(** X5.  The writer releases every buffer it allocates, on each of its
    returns and whatever the socket and the allocator do: a call leaves
    the number of live blocks as it found it.  It reads nothing from the
    socket and leaves the partial-read state, the keys and the inbound
    counter of the connection alone. *)
Theorem writer_releases_buffers
        (w : world) (conn : rtsp_conn_t) (sess : hap_session_t)
        (data : list byte) :
  0 < MAX <= 65535 ->
  hap_session conn = Some sess ->
  encrypted_mode conn = true ->
  exists r w' conn' sess',
    rtsp_crypto_write_frame MAX aead_encrypt w conn data
    = Some (r, w', conn') /\
    live_blocks (trace w') = live_blocks (trace w) /\
    rx w' = rx w /\
    crypto_rx conn' = crypto_rx conn /\
    encrypted_mode conn' = true /\
    hap_session conn' = Some sess' /\
    encrypt_key sess' = encrypt_key sess /\
    decrypt_key sess' = decrypt_key sess /\
    decrypt_nonce sess' = decrypt_nonce sess.
Proof.
  intros Hmax Hs Hm.
  destruct (write_frame_loop_spec MAX aead_encrypt Hmax (length data) w sess
              data 0)
    as (r & w' & sess' & k & part & tail & Hrun & Hrx & Hk & Hdk & Hdn & _ & _
        & Htr & Hres & _); [lia | unfold len; lia |].
  exists r, w', (set_session conn sess'), sess'.
  unfold rtsp_crypto_write_frame; rewrite Hs, Hm, Hrun.
  split; [reflexivity |].
  split.
  { rewrite Htr, !live_blocks_app, live_blocks_trace_frames.
    destruct Hres as [(_ & _ & _ & -> & _) | (_ & _ & _ & [-> | ->] & _)];
      simpl; lia. }
  split; [exact Hrx |].
  split; [reflexivity |].
  split; [exact Hm |].
  split; [reflexivity |].
  repeat split; assumption.
Qed.

(** X6.  What a payload costs on the wire.  When no send and no allocation
    fails and a ciphertext is 16 bytes longer than its plaintext, the
    writer returns 0 having sent L + 18 * ceil(L / MAX) bytes for a
    payload of L bytes (two length bytes and a 16-byte tag per frame),
    and the outbound counter has advanced ceil(L / MAX) times: an empty
    payload sends nothing and leaves the counter alone. *)
Theorem writer_wire_size
        (w : world) (conn : rtsp_conn_t) (sess : hap_session_t)
        (data : list byte) :
  0 < MAX <= 65535 ->
  aead_length_law aead_encrypt ->
  hap_session conn = Some sess ->
  encrypted_mode conn = true ->
  reliable w ->
  let frames := (len data + MAX - 1) / MAX in
  exists w' sess' sent,
    rtsp_crypto_write_frame MAX aead_encrypt w conn data
    = Some (0, w', set_session conn sess') /\
    wire w' = wire w ++ sent /\
    len sent = len data + 18 * frames /\
    encrypt_nonce sess'
    = Nat.iter (Z.to_nat frames) incr64 (encrypt_nonce sess) /\
    (data = [] -> sent = [] /\ sess' = sess).
Proof.
  intros Hmax Hlaw Hs Hm Hrel frames.
  destruct (write_frame_outcome MAX aead_encrypt Hmax w conn sess data Hs Hm)
    as (r & w' & sess' & k & part & Hrun & Hn & Hw & Hres & Hok).
  rewrite (Hok Hrel Hlaw) in *.
  destruct Hres as [(_ & -> & ->) | (Hbad & _)]; [| discriminate].
  rewrite firstn_all, app_nil_r in Hw.
  destruct (chunks_fuel_spec MAX (proj1 Hmax) (length data) data (le_n _))
    as (Hcat & _ & Hnum).
  fold (chunks MAX data) in Hcat, Hnum.
  exists w', sess', (wire_frames aead_encrypt (encrypt_key sess)
                                 (encrypt_nonce sess) (chunks MAX data)).
  split; [exact Hrun |].
  split; [exact Hw |].
  split.
  { rewrite (wire_frames_length _ _ Hlaw), Hcat.
    unfold frames; rewrite <- Hnum; reflexivity. }
  split.
  { rewrite Hn; unfold frames; rewrite <- Hnum, Nat2Z.id; reflexivity. }
  intros ->. split; [reflexivity |].
  unfold rtsp_crypto_write_frame in Hrun; rewrite Hs, Hm in Hrun.
  simpl in Hrun. inversion Hrun as [[Hw' Hsess]].
  destruct conn as [os md st], sess, sess'; simpl in *.
  unfold set_session in Hsess; simpl in Hsess. congruence.
Qed.

End WriterExtras.

Section StreamRoundTrip.

Variable RTSP_ENCRYPTED_BLOCK_MAX : Z.
Variable aead_encrypt :
  list byte -> list byte -> list byte -> list byte -> list byte.
Variable aead_decrypt :
  list byte -> list byte -> list byte -> list byte -> option (list byte).

Hypothesis block_max_range : 0 < RTSP_ENCRYPTED_BLOCK_MAX <= 65535.
Hypothesis encrypt_length : aead_length_law aead_encrypt.
Hypothesis decrypt_encrypt : aead_inverse_law aead_encrypt aead_decrypt.

Local Abbreviation MAX := RTSP_ENCRYPTED_BLOCK_MAX (only parsing).
Local Abbreviation read_block :=
  (rtsp_crypto_read_block RTSP_ENCRYPTED_BLOCK_MAX aead_decrypt)
  (only parsing).

Lemma arrives_whole_app (a more : list byte) (rest : list rx_event)
      (w : world) (n : Z) :
  a <> [] -> n = len a ->
  rx w = arrives_whole (a ++ more) ++ rest ->
  recv w n = (RecvOk a, set_rx w (arrives_whole more ++ rest)).
Proof.
  intros Ha -> Hrx. destruct a as [| x a']; [congruence |].
  unfold recv; rewrite Hrx; cbn [app arrives_whole].
  change (x :: a' ++ more) with ((x :: a') ++ more).
  unfold len; rewrite Nat2Z.id.
  rewrite firstn_app, firstn_all, Nat.sub_diag, firstn_O, app_nil_r.
  rewrite skipn_app, skipn_all, Nat.sub_diag, skipn_O; cbn [app].
  destruct more; reflexivity.
Qed.

(** One call of an idle reader on a socket that holds a frame of the
    writer followed by further bytes: it takes exactly the frame. *)
Lemma call_stream (w : world) (sess : hap_session_t) (lb c more : list byte)
      (rest : list rx_event) (buffer_size : Z) :
  length lb = 2%nat ->
  1 <= len c <= MAX -> len c <= buffer_size ->
  rx w = arrives_whole (frame aead_encrypt (decrypt_key sess)
                              (decrypt_nonce sess) c ++ more) ++ rest ->
  hd true (heap w) = true ->
  exists w',
    read_block w (mkConn (Some sess) true (mkRx lb 0 0 None 0 0)) buffer_size
    = Some (ExitOk (len c), c, w',
            mkConn (Some (bump_decrypt sess)) true
                   (mkRx (encode_len (len c)) 0 0 None 0 0)) /\
    rx w' = arrives_whole more ++ rest /\
    tx w' = tx w /\ wire w' = wire w /\ heap w' = tl (heap w).
Proof.
  intros Hlb Hc Hfit Hrx Hheap.
  set (key := decrypt_key sess) in *.
  set (n0 := decrypt_nonce sess) in *.
  set (hdr := encode_len (len c)) in *.
  set (ct := aead_encrypt key (make_nonce n0) hdr c).
  assert (Hdec : decode_len hdr = len c) by (apply decode_encode_len; lia).
  assert (Hct : len ct = len c + 16) by apply encrypt_length.
  assert (Hctne : ct <> []).
  { intros E; rewrite E in Hct; unfold len in Hct; simpl in Hct; lia. }
  unfold frame in Hrx; fold hdr in Hrx; fold ct in Hrx.
  rewrite <- app_assoc in Hrx.
  unfold rtsp_crypto_read_block; rx_simpl.
  (* the header *)
  rewrite (read_len_loop_whole w (mkRx lb 0 0 None 0 0)
             (u8 (Z.land (len c) 255)) (u8 (Z.land (Z.shiftr (len c) 8) 255))
             (ct ++ more) rest eq_refl Hlb Hrx).
  fold (encode_len (len c)); fold hdr.
  (* the length check and the allocation *)
  unfold begin_block; rx_simpl. rewrite Hdec.
  destruct (Z.eqb_spec (len c) 0); [lia |].
  destruct (Z.gtb_spec (len c) MAX); [lia |].
  destruct (Z.gtb_spec (len c) buffer_size); [lia |].
  cbn [orb].
  set (w0 := set_rx w (arrives_whole (ct ++ more) ++ rest)).
  destruct (malloc_ok w0 (len c + 16) Hheap)
    as (w2 & -> & Rx2 & Tx2 & Wi2 & Hp2 & Tr2).
  change (rx w0) with (arrives_whole (ct ++ more) ++ rest) in Rx2.
  change (tx w0) with (tx w) in Tx2.
  change (wire w0) with (wire w) in Wi2.
  change (heap w0) with (heap w) in Hp2.
  rx_simpl.
  (* the ciphertext *)
  replace (Z.to_nat (len c + 16 - 0)) with (S (Z.to_nat (len c + 15))) by lia.
  cbn [read_enc_loop]; rx_simpl.
  destruct (Z.ltb_spec 0 (len c + 16)); [| lia].
  rewrite (arrives_whole_app ct more rest w2 (len c + 16 - 0));
    [| exact Hctne | lia | exact Rx2].
  destruct ct as [| c0 ct'] eqn:Ect; [congruence |]. rewrite <- Ect in *.
  cbn [option_map].
  rewrite write_at_full by (rewrite repeat_length; unfold len in *; lia).
  replace (0 + len ct) with (len c + 16) by lia.
  assert (Hdone : forall fuel wx stx,
             encrypted_received stx = encrypted_len stx ->
             read_enc_loop fuel wx stx = Some (LoopDone wx stx)).
  { intros fuel wx stx E; destruct fuel; cbn [read_enc_loop];
      rewrite E, Z.ltb_irrefl; reflexivity. }
  rewrite Hdone by reflexivity.
  (* the decryption *)
  unfold decrypt_block; rx_simpl.
  rewrite (firstn_all2 ct) by (unfold len in *; lia).
  change (firstn 2 hdr) with hdr.
  fold key; fold n0. unfold ct at 1; rewrite decrypt_encrypt.
  destruct (Z.gtb_spec (len c) buffer_size); [lia |].
  rewrite to_int_small by lia.
  eexists; split; [reflexivity |].
  cbn [free_ptr free log set_rx rx tx wire heap].
  repeat split; assumption.
Qed.

(** A run of frames of the writer, one after the other in the socket,
    is taken frame by frame. *)
Lemma read_blocks_stream (cs : list (list byte)) :
  forall (w : world) (sess : hap_session_t) (lb : list byte)
         (rest : list rx_event) (buffer_size : Z),
    length lb = 2%nat ->
    Forall (fun c => 1 <= len c <= MAX /\ len c <= buffer_size) cs ->
    rx w = arrives_whole (wire_frames aead_encrypt (decrypt_key sess)
                                      (decrypt_nonce sess) cs) ++ rest ->
    Forall (fun b => b = true) (heap w) ->
    exists w' sess' st',
      read_blocks MAX aead_decrypt (length cs) w
                  (mkConn (Some sess) true (mkRx lb 0 0 None 0 0)) buffer_size
      = Some (cs, w', mkConn (Some sess') true st') /\
      rx w' = rest /\ tx w' = tx w /\ wire w' = wire w /\
      rx_idle st' /\ length (len_buf st') = 2%nat /\
      encrypt_key sess' = encrypt_key sess /\
      encrypt_nonce sess' = encrypt_nonce sess /\
      decrypt_key sess' = decrypt_key sess /\
      decrypt_nonce sess' = Nat.iter (length cs) incr64 (decrypt_nonce sess).
Proof.
  induction cs as [| c cs IH]; intros w sess lb rest buffer_size Hlb Hall Hrx Hh.
  - exists w, sess, (mkRx lb 0 0 None 0 0).
    split; [reflexivity |]. repeat split; auto.
  - inversion Hall as [| c' cs' (Hc & Hfit) Hall']; subst.
    cbn [wire_frames] in Hrx.
    assert (Hhd : hd true (heap w) = true).
    { destruct (heap w); [reflexivity | inversion Hh; assumption]. }
    destruct (call_stream w sess lb c _ rest buffer_size Hlb Hc Hfit Hrx Hhd)
      as (w1 & Hcall & R1 & T1 & W1 & H1).
    destruct (IH w1 (bump_decrypt sess) (encode_len (len c)) rest buffer_size
                 eq_refl Hall' R1)
      as (w' & sess' & st' & Hrun & R & T & W & Hi & Hl & K1 & K2 & K3 & K4).
    { rewrite H1; destruct (heap w); [constructor | inversion Hh; assumption]. }
    exists w', sess', st'.
    cbn [read_blocks length]; rewrite Hcall, Hrun.
    split; [reflexivity |].
    repeat (split; [first [assumption | congruence] |]).
    rewrite K4; cbn [bump_decrypt decrypt_nonce].
    rewrite <- iter_incr64_succ; reflexivity.
Qed.

(** X7.  Whatever the length of a payload, what the writer sends for it is
    read back as the payload.  The writer (no send and no allocation
    failing) sends ceil(L / MAX) frames; an idle reader with the same
    key and counter, whose socket holds those bytes as one stream and
    whose buffer takes a full block, delivers in that many calls the
    consecutive pieces of the payload, consumes the stream to its end
    and has its inbound counter where the writer left the outbound
    one. *)
Theorem stream_roundtrip
        (data : list byte) (ww wr : world) (ctx crx : rtsp_conn_t)
        (stx srx : hap_session_t) (buffer_size : Z) :
  hap_session ctx = Some stx -> encrypted_mode ctx = true ->
  hap_session crx = Some srx -> encrypted_mode crx = true ->
  decrypt_key srx = encrypt_key stx ->
  decrypt_nonce srx = encrypt_nonce stx ->
  rx_idle (crypto_rx crx) -> length (len_buf (crypto_rx crx)) = 2%nat ->
  MAX <= buffer_size ->
  reliable ww ->
  Forall (fun b => b = true) (heap wr) ->
  exists ww' stx' sent blocks wr' srx' st',
    rtsp_crypto_write_frame MAX aead_encrypt ww ctx data
    = Some (0, ww', set_session ctx stx') /\
    wire ww' = wire ww ++ sent /\
    read_blocks MAX aead_decrypt (Z.to_nat ((len data + MAX - 1) / MAX))
                (set_rx wr (arrives_whole sent)) crx buffer_size
    = Some (blocks, wr', mkConn (Some srx') true st') /\
    concat blocks = data /\
    rx wr' = [] /\ rx_idle st' /\
    decrypt_nonce srx' = encrypt_nonce stx'.
Proof.
  intros Hs Hm Hs' Hm' Hk Hn Hidle Hlb Hbuf Hrel Hheap.
  destruct (write_frame_outcome MAX aead_encrypt block_max_range ww ctx stx
              data Hs Hm)
    as (r & ww' & stx' & k & part & Hw & Hnonce & Hwire & Hres & Hok).
  rewrite (Hok Hrel encrypt_length) in *.
  destruct Hres as [(_ & -> & ->) | (Hbad & _)]; [| discriminate].
  rewrite firstn_all, app_nil_r in Hwire.
  destruct (chunks_fuel_spec MAX (proj1 block_max_range) (length data) data
              (le_n _)) as (Hcat & Hall & Hnum).
  fold (chunks MAX data) in Hcat, Hall, Hnum.
  destruct crx as [os md [lb lr bl enc el er]]; rx_simpl_all; subst.
  destruct Hidle as (I1 & I2 & I3 & I4 & I5); rx_simpl_all; subst.
  set (wr0 := set_rx wr (arrives_whole
                 (wire_frames aead_encrypt (encrypt_key stx)
                              (encrypt_nonce stx) (chunks MAX data)))).
  destruct (read_blocks_stream (chunks MAX data) wr0 srx lb [] buffer_size Hlb)
    as (wr' & srx' & st' & Hrun & R & _ & _ & Hi & _ & _ & _ & _ & K4).
  { eapply Forall_impl; [| exact Hall]. cbv beta; intros c Hc; lia. }
  { unfold wr0; cbn [rx set_rx]. rewrite Hk, Hn, app_nil_r; reflexivity. }
  { exact Hheap. }
  exists ww', stx', (wire_frames aead_encrypt (encrypt_key stx)
                                 (encrypt_nonce stx) (chunks MAX data)),
         (chunks MAX data), wr', srx', st'.
  split; [exact Hw |].
  split; [exact Hwire |].
  split; [rewrite <- Hnum, Nat2Z.id; exact Hrun |].
  split; [exact Hcat |].
  split; [exact R |].
  split; [exact Hi |].
  rewrite K4, Hnonce, Hn; reflexivity.
Qed.

End StreamRoundTrip.

(** ** Instances of the properties above, on the stand-in AEAD *)

(** One byte of a length header arrives and nothing more. *)
Lemma reader_keeps_invariant_witness :
  exists e out w' conn',
    rtsp_crypto_read_block 1024 toy_decrypt
      (set_rx quiet_world [RxBytes 5 []]) (toy_conn 0) 64
    = Some (e, out, w', conn') /\
    rx_wf 1024 64 (crypto_rx conn') /\ wire w' = [].
Proof.
  destruct (reader_keeps_invariant 1024 toy_decrypt
              (set_rx quiet_world [RxBytes 5 []]) (toy_conn 0) (toy_session 0)
              64 eq_refl eq_refl (rx_zero_wf 1024 64))
    as (e & out & w' & conn' & sess' & H & Hwf & _ & _ & _ & _ & _ & _ & Hw).
  exists e, out, w', conn'; repeat split; try assumption; apply Hwf.
Defined.

(** The header of a five-byte block arrives, then the peer closes; and a
    call on a connection whose session is gone while a block of one byte
    is half read: the guard returns and the buffer stays held. *)
Lemma reader_no_leak_witness :
  (exists e out w' conn',
      rtsp_crypto_read_block 1024 toy_decrypt
        (set_rx quiet_world [RxBytes 5 [0]; RxClosed]) (toy_conn 0) 64
      = Some (e, out, w', conn') /\
      live_blocks (trace w') - held (crypto_rx conn') = 0) /\
  (exists out w' conn',
      rtsp_crypto_read_block 1024 toy_decrypt quiet_world
        (mkConn None true (mkRx [1; 0] 2 1 (Some (repeat 0 17)) 17 3)) 64
      = Some (ExitGuard, out, w', conn') /\
      held (crypto_rx conn') = 1).
Proof.
  split.
  - destruct (reader_no_leak 1024 toy_decrypt
                (set_rx quiet_world [RxBytes 5 [0]; RxClosed]) (toy_conn 0)
                64 (rx_zero_wf 1024 64))
      as (e & out & w' & conn' & H & Hl & _).
    exists e, out, w', conn'; split; [exact H | exact Hl].
  - destruct (reader_no_leak 1024 toy_decrypt quiet_world
                (mkConn None true (mkRx [1; 0] 2 1 (Some (repeat 0 17)) 17 3))
                64)
      as (e & out & w' & conn' & H & _ & Hiff & Hg & _).
    + vm_compute; repeat split; try reflexivity; intros H; discriminate H.
    + assert (He : e = ExitGuard) by (apply Hiff; left; reflexivity).
      destruct (Hg He) as (_ & _ & Hc).
      exists out, w', conn'; split; [rewrite <- He; exact H |].
      rewrite Hc; reflexivity.
Defined.

(** The frame of "HELLO" arrives whole. *)
Lemma reader_return_value_witness :
  exists e out w' conn',
    rtsp_crypto_read_block 1024 toy_decrypt
      (set_rx quiet_world (arrives_whole (frame toy_encrypt toy_key 0 hello)))
      (toy_conn 0) 64
    = Some (e, out, w', conn') /\
    (ret_of e = 0 \/ 0 < ret_of e \/ ret_of e = -1).
Proof.
  destruct (reader_return_value 1024 toy_decrypt
              (set_rx quiet_world
                      (arrives_whole (frame toy_encrypt toy_key 0 hello)))
              (toy_conn 0) 64 toy_open_length_law (rx_zero_wf 1024 64))
    as (e & out & w' & conn' & H & Hres).
  exists e, out, w', conn'; split; [exact H |].
  destruct Hres as [(H0 & _) | [(H0 & _) | (H0 & _)]]; auto.
Defined.

(** "HELLO" in blocks of at most four bytes, the second allocation
    failing. *)
Lemma writer_releases_buffers_witness :
  exists r w' conn',
    rtsp_crypto_write_frame 4 toy_encrypt
      (mkWorld [] [] [] [true; false] None []) (toy_conn 0) hello
    = Some (r, w', conn') /\
    live_blocks (trace w') = 0.
Proof.
  destruct (writer_releases_buffers 4 toy_encrypt
              (mkWorld [] [] [] [true; false] None []) (toy_conn 0)
              (toy_session 0) hello)
    as (r & w' & conn' & sess' & H & Hl & _);
    [lia | reflexivity | reflexivity |].
  exists r, w', conn'; split; [exact H | exact Hl].
Defined.

(** "HELLO" in blocks of at most four bytes: 5 + 2 * 18 bytes. *)
Lemma writer_wire_size_witness :
  exists w' conn',
    rtsp_crypto_write_frame 4 toy_encrypt quiet_world (toy_conn 0) hello
    = Some (0, w', conn') /\
    len (wire w') = 41.
Proof.
  destruct (writer_wire_size 4 toy_encrypt quiet_world (toy_conn 0)
              (toy_session 0) hello)
    as (w' & sess' & sent & H & Hw & Hl & _);
    [lia | exact toy_length_law | reflexivity | reflexivity
     | exact quiet_world_reliable |].
  exists w', (set_session (toy_conn 0) sess'); split; [exact H |].
  rewrite Hw; change (len sent = 41); rewrite Hl; reflexivity.
Defined.

(** "HELLO" in blocks of at most four bytes, read back in two calls. *)
Lemma stream_roundtrip_witness :
  exists sent blocks wr' conn',
    option_map (fun r => wire (snd (fst r)))
      (rtsp_crypto_write_frame 4 toy_encrypt quiet_world (toy_conn 0) hello)
    = Some sent /\
    read_blocks 4 toy_decrypt 2 (set_rx quiet_world (arrives_whole sent))
                (toy_conn 0) 64
    = Some (blocks, wr', conn') /\
    concat blocks = hello.
Proof.
  destruct (stream_roundtrip 4 toy_encrypt toy_decrypt)
    with (data := hello) (ww := quiet_world) (wr := quiet_world)
         (ctx := toy_conn 0) (crx := toy_conn 0)
         (stx := toy_session 0) (srx := toy_session 0) (buffer_size := 64)
    as (ww' & stx' & sent & blocks & wr' & srx' & st' & Hw & Hwire & Hr & Hc & _);
    try reflexivity; try lia;
    try exact toy_length_law; try exact toy_inverse_law;
    try exact rx_zero_idle; try exact quiet_world_reliable;
    try (constructor).
  exists sent, blocks, wr', (mkConn (Some srx') true st').
  split; [rewrite Hw; cbn [option_map fst snd]; rewrite Hwire; reflexivity |].
  split; [exact Hr | exact Hc].
Defined.

Section ForgedFrame.

Variable RTSP_ENCRYPTED_BLOCK_MAX : Z.
Variable aead_encrypt :
  list byte -> list byte -> list byte -> list byte -> list byte.
Variable aead_decrypt :
  list byte -> list byte -> list byte -> list byte -> option (list byte).

Hypothesis block_max_range : 0 < RTSP_ENCRYPTED_BLOCK_MAX <= 65535.
Hypothesis encrypt_length : aead_length_law aead_encrypt.
Hypothesis decrypt_encrypt : aead_inverse_law aead_encrypt aead_decrypt.

Local Abbreviation MAX := RTSP_ENCRYPTED_BLOCK_MAX (only parsing).
Local Abbreviation read_block :=
  (rtsp_crypto_read_block RTSP_ENCRYPTED_BLOCK_MAX aead_decrypt)
  (only parsing).

(** One call of an idle reader on a socket that holds the bytes of a
    frame followed by further bytes: it takes the frame and comes to the
    decryption. *)
Lemma call_stream_any (w : world) (sess : hap_session_t) (lb : list byte)
      (h0 h1 : byte) (body more : list byte) (rest : list rx_event)
      (buffer_size : Z) :
  length lb = 2%nat ->
  frame_shaped MAX buffer_size (h0 :: h1 :: body) ->
  rx w = arrives_whole ((h0 :: h1 :: body) ++ more) ++ rest ->
  hd true (heap w) = true ->
  exists w1,
    read_block w (mkConn (Some sess) true (mkRx lb 0 0 None 0 0)) buffer_size
    = finish_block aead_decrypt w1 sess (rx_full [h0; h1] body) buffer_size /\
    rx w1 = arrives_whole more ++ rest /\ tx w1 = tx w /\ wire w1 = wire w /\
    heap w1 = tl (heap w) /\
    trace w1 = trace w ++ [EvMalloc (decode_len [h0; h1] + 16) true].
Proof.
  intros Hlb (Hn & Hb & Hlen) Hrx Hheap.
  cbn [firstn] in Hn, Hb, Hlen.
  set (n := decode_len [h0; h1]) in *.
  assert (Hbody : len body = n + 16).
  { unfold len in *; simpl length in Hlen; lia. }
  assert (Hne : body <> []).
  { intros E; rewrite E in Hbody; unfold len in Hbody; simpl in Hbody; lia. }
  unfold rtsp_crypto_read_block; rx_simpl.
  rewrite (read_len_loop_whole w (mkRx lb 0 0 None 0 0) h0 h1 (body ++ more)
             rest eq_refl Hlb Hrx).
  unfold begin_block; rx_simpl; fold n.
  destruct (Z.eqb_spec n 0); [lia |].
  destruct (Z.gtb_spec n MAX); [lia |].
  destruct (Z.gtb_spec n buffer_size); [lia |].
  cbn [orb].
  set (w0 := set_rx w (arrives_whole (body ++ more) ++ rest)).
  destruct (malloc_ok w0 (n + 16) Hheap)
    as (w2 & -> & Rx2 & Tx2 & Wi2 & Hp2 & Tr2).
  change (rx w0) with (arrives_whole (body ++ more) ++ rest) in Rx2.
  change (tx w0) with (tx w) in Tx2.
  change (wire w0) with (wire w) in Wi2.
  change (heap w0) with (heap w) in Hp2.
  change (trace w0) with (trace w) in Tr2.
  rx_simpl.
  replace (Z.to_nat (n + 16 - 0)) with (S (Z.to_nat (n + 15))) by lia.
  cbn [read_enc_loop]; rx_simpl.
  destruct (Z.ltb_spec 0 (n + 16)); [| lia].
  rewrite (arrives_whole_app body more rest w2 (n + 16 - 0));
    [| exact Hne | lia | exact Rx2].
  destruct body as [| b0 body'] eqn:Eb; [congruence |]. rewrite <- Eb in *.
  cbn [option_map].
  rewrite write_at_full by (rewrite repeat_length; unfold len in *; lia).
  replace (0 + len body) with (n + 16) by lia.
  assert (Hdone : forall fuel wx stx,
             encrypted_received stx = encrypted_len stx ->
             read_enc_loop fuel wx stx = Some (LoopDone wx stx)).
  { intros fuel wx stx E; destruct fuel; cbn [read_enc_loop];
      rewrite E, Z.ltb_irrefl; reflexivity. }
  rewrite Hdone by reflexivity.
  exists (set_rx w2 (arrives_whole more ++ rest)); split; [reflexivity |].
  repeat split; assumption.
Qed.

(** X8.  A frame that does not authenticate is dropped without harm to the
    connection: the reader returns -1 with [errno = EBADMSG], delivers
    no plaintext (the AEAD call leaves zeros in the caller's buffer, as
    many as the frame declared), releases its buffer, returns to the
    idle state and leaves the inbound counter where it was; it has
    consumed exactly that frame, so a frame of the writer under the same
    counter that follows it in the stream is delivered by the next
    call. *)
Theorem forged_frame_dropped
        (w : world) (sess : hap_session_t) (lb : list byte)
        (h0 h1 : byte) (body c : list byte) (rest : list rx_event)
        (buffer_size : Z) :
  length lb = 2%nat ->
  frame_shaped MAX buffer_size (h0 :: h1 :: body) ->
  aead_decrypt (decrypt_key sess) (make_nonce (decrypt_nonce sess))
               [h0; h1] body = None ->
  1 <= len c <= MAX -> len c <= buffer_size ->
  rx w = arrives_whole
           ((h0 :: h1 :: body)
              ++ frame aead_encrypt (decrypt_key sess) (decrypt_nonce sess) c)
           ++ rest ->
  Forall (fun b => b = true) (heap w) ->
  exists w1 conn1 w2 conn2,
    read_block w (mkConn (Some sess) true (mkRx lb 0 0 None 0 0)) buffer_size
    = Some (ExitDecryptFail,
            repeat 0 (Z.to_nat (decode_len [h0; h1])), w1, conn1) /\
    ret_of ExitDecryptFail = -1 /\
    errno w1 = Some EBADMSG /\
    hap_session conn1 = Some sess /\ rx_idle (crypto_rx conn1) /\
    live_blocks (trace w1) = live_blocks (trace w) /\
    read_block w1 conn1 buffer_size = Some (ExitOk (len c), c, w2, conn2) /\
    hap_session conn2 = Some (bump_decrypt sess) /\
    rx w2 = rest.
Proof.
  intros Hlb Hshape Hnone Hc Hfit Hrx Hheap.
  assert (Hhd : hd true (heap w) = true).
  { destruct (heap w); [reflexivity | inversion Hheap; assumption]. }
  destruct (call_stream_any w sess lb h0 h1 body _ rest buffer_size Hlb Hshape
              Hrx Hhd) as (w1 & Hcall & R1 & T1 & W1 & H1 & Tr1).
  unfold finish_block, decrypt_block, rx_full in Hcall; rx_simpl_in Hcall.
  destruct Hshape as (Hn & Hb & Hlen). cbn [firstn] in Hn, Hb, Hlen.
  rewrite (firstn_all2 body) in Hcall
    by (unfold len in *; simpl length in Hlen; lia).
  cbn [firstn] in Hcall.
  rewrite Hnone in Hcall.
  replace (decode_len [h0; h1] + 16 - 16) with (decode_len [h0; h1])
    in Hcall by lia.
  set (w1' := set_errno _ EBADMSG) in Hcall.
  destruct (call_stream RTSP_ENCRYPTED_BLOCK_MAX aead_encrypt aead_decrypt
              block_max_range encrypt_length decrypt_encrypt
              w1' sess [h0; h1] c [] rest buffer_size eq_refl Hc Hfit)
    as (w2 & Hcall2 & R2 & _).
  { unfold w1'; cbn [rx set_errno free_ptr free log].
    rewrite R1, app_nil_r; reflexivity. }
  { unfold w1'; cbn [heap set_errno free_ptr free log]; rewrite H1.
    destruct (heap w) as [| b [| b' hp]]; try reflexivity.
    inversion Hheap as [| ? ? _ Hh']; inversion Hh'; assumption. }
  exists w1', (mkConn (Some sess) true (rx_reset (mkRx [h0; h1] 2
                 (decode_len [h0; h1]) (Some body)
                 (decode_len [h0; h1] + 16) (decode_len [h0; h1] + 16)))).
  exists w2, (mkConn (Some (bump_decrypt sess)) true
                     (mkRx (encode_len (len c)) 0 0 None 0 0)).
  split; [exact Hcall |].
  split; [reflexivity |].
  split; [reflexivity |].
  split; [reflexivity |].
  split; [repeat split |].
  split.
  { unfold w1'; cbn [trace set_errno free_ptr free log].
    rewrite Tr1, !live_blocks_app; simpl; lia. }
  split; [exact Hcall2 |].
  split; [reflexivity | exact R2].
Qed.

End ForgedFrame.

(** A frame made under counter 1 reaches a reader whose counter is 0,
    followed by the frame made under counter 0. *)
Lemma forged_frame_dropped_witness :
  exists w1 conn1 w2 conn2,
    rtsp_crypto_read_block 1024 toy_decrypt
      (set_rx quiet_world
              (arrives_whole (frame toy_encrypt toy_key 1 hello
                                ++ frame toy_encrypt toy_key 0 hello)))
      (toy_conn 0) 64
    = Some (ExitDecryptFail, [0; 0; 0; 0; 0], w1, conn1) /\
    rtsp_crypto_read_block 1024 toy_decrypt w1 conn1 64
    = Some (ExitOk 5, hello, w2, conn2).
Proof.
  destruct (forged_frame_dropped 1024 toy_encrypt toy_decrypt toy_block_max
              toy_length_law toy_inverse_law
              (set_rx quiet_world
                 (arrives_whole (frame toy_encrypt toy_key 1 hello
                                   ++ frame toy_encrypt toy_key 0 hello)))
              (toy_session 0) [0; 0] 5 0
              (toy_encrypt toy_key (make_nonce 1) [5; 0] hello) hello [] 64)
    as (w1 & conn1 & w2 & conn2 & H1 & _ & _ & _ & _ & _ & H2 & _).
  - reflexivity.
  - vm_compute; repeat split; try reflexivity; intros H; discriminate H.
  - vm_compute; reflexivity.
  - vm_compute; split; intros H; discriminate H.
  - vm_compute; intros H; discriminate H.
  - vm_compute; reflexivity.
  - constructor.
  - exists w1, conn1, w2, conn2; split; [exact H1 | exact H2].
Defined.

(** ** rtsp_message.c: the end of the header and the body *)

Lemma starts_with_firstn (pat : list byte) :
  forall s, starts_with pat s = true <-> firstn (length pat) s = pat.
Proof.
  induction pat as [| p pat IH]; intros s; [simpl; tauto |].
  destruct s as [| c s]; [simpl; split; discriminate |].
  cbn [starts_with length firstn].
  rewrite andb_true_iff, IH, Z.eqb_eq.
  split; [intros (-> & ->); reflexivity | intros H; inversion H; subst].
  rewrite H2; auto.
Qed.

Lemma find_header_end_from_spec (data : list byte) :
  forall i,
    match find_header_end_from i data with
    | Some j =>
        (i <= j)%nat /\ (j - i + 4 <= length data)%nat /\
        starts_with (crlf ++ crlf) (skipn (j - i) data) = true /\
        forall k, (k < j - i)%nat ->
                  starts_with (crlf ++ crlf) (skipn k data) = false
    | None => forall k, starts_with (crlf ++ crlf) (skipn k data) = false
    end.
Proof.
  induction data as [| c data IH]; intros i.
  - cbn [find_header_end_from]; intros k; destruct k; reflexivity.
  - cbn [find_header_end_from].
    change [CR; LF; CR; LF] with (crlf ++ crlf).
    destruct (starts_with (crlf ++ crlf) (c :: data)) eqn:E.
    + rewrite Nat.sub_diag; split; [lia |]. split; [| split; [exact E |]].
      * apply starts_with_firstn in E.
        apply (f_equal (@length byte)) in E.
        rewrite length_firstn in E.
        change (length (crlf ++ crlf)) with 4%nat in E. lia.
      * intros k Hk; lia.
    + specialize (IH (S i)).
      destruct (find_header_end_from (S i) data) as [j |].
      * destruct IH as (Hij & Hlen & Hat & Hbefore).
        replace (j - i)%nat with (S (j - S i)) by lia.
        split; [lia |]. split; [simpl; lia |]. split; [exact Hat |].
        intros k Hk; destruct k as [| k]; [exact E |].
        apply Hbefore; lia.
      * intros k; destruct k as [| k]; [exact E | apply IH].
Qed.

(** X10.  [rtsp_find_header_end] returns the first place where the four bytes
    CR LF CR LF stand, all four inside the given length; it returns NULL
    exactly when they stand nowhere (so for every input of fewer than
    four bytes). *)
Theorem find_header_end_first (data : list byte) :
  match rtsp_find_header_end data with
  | Some i =>
      (i + 4 <= length data)%nat /\
      firstn 4 (skipn i data) = [CR; LF; CR; LF] /\
      forall j, (j < i)%nat -> firstn 4 (skipn j data) <> [CR; LF; CR; LF]
  | None => forall j, firstn 4 (skipn j data) <> [CR; LF; CR; LF]
  end.
Proof.
  unfold rtsp_find_header_end.
  pose proof (find_header_end_from_spec data 0) as H.
  destruct (find_header_end_from 0 data) as [i |].
  - destruct H as (_ & Hlen & Hat & Hbefore).
    rewrite Nat.sub_0_r in *.
    split; [exact Hlen |]. split.
    + apply (starts_with_firstn (crlf ++ crlf)); exact Hat.
    + intros j Hj E. apply (starts_with_firstn (crlf ++ crlf)) in E.
      rewrite Hbefore in E by exact Hj; discriminate.
  - intros j E. apply (starts_with_firstn (crlf ++ crlf)) in E.
    rewrite H in E; discriminate.
Qed.

Lemma strstr_first (pat : list byte) :
  Forall (fun c => c <> 0) pat -> pat <> [] ->
  forall s,
    match strstr s pat with
    | Some k =>
        (k <= strlen s)%nat /\ starts_with pat (skipn k s) = true /\
        forall j, (j < k)%nat -> starts_with pat (skipn j s) = false
    | None =>
        forall j, (j <= strlen s)%nat -> starts_with pat (skipn j s) = false
    end.
Proof.
  intros Hz Hne; induction s as [| c s IH].
  - destruct pat as [| p pat]; [congruence |].
    cbn [strstr starts_with]. intros j _; destruct j; reflexivity.
  - cbn [strstr].
    destruct (starts_with pat (c :: s)) eqn:E.
    + split; [lia |]. split; [exact E |]. intros j Hj; lia.
    + cbn [strlen].
      destruct (Z.eqb_spec c 0) as [-> | Hc].
      * intros j Hj. assert (j = O) by lia; subst j. exact E.
      * destruct (strstr s pat) as [k |]; cbn [option_map].
        -- destruct IH as (Hk & Hat & Hbefore).
           split; [lia |]. split; [exact Hat |].
           intros j Hj; destruct j as [| j]; [exact E | apply Hbefore; lia].
        -- intros j Hj; destruct j as [| j]; [exact E | apply IH; lia].
Qed.

(** [strstr] for the header terminator against the index loop. *)
Lemma strstr_header_end (data : list byte) :
  strstr data (crlf ++ crlf)
  = match find_header_end_from 0 data with
    | Some i => if (i <=? strlen data)%nat then Some i else None
    | None => None
    end.
Proof.
  assert (Hz : Forall (fun c => c <> 0) (crlf ++ crlf))
    by (repeat constructor; discriminate).
  assert (Hne : crlf ++ crlf <> []) by discriminate.
  pose proof (strstr_first (crlf ++ crlf) Hz Hne data) as Hs.
  pose proof (find_header_end_from_spec data 0) as Hf.
  destruct (find_header_end_from 0 data) as [i |].
  - destruct Hf as (_ & _ & Hat & Hbefore). rewrite Nat.sub_0_r in *.
    destruct (strstr data (crlf ++ crlf)) as [k |].
    + destruct Hs as (Hk & Hat' & Hbefore').
      assert (k = i).
      { destruct (Nat.lt_trichotomy k i) as [Hlt | [-> | Hgt]];
          [| reflexivity |].
        - rewrite Hbefore in Hat' by exact Hlt; discriminate.
        - rewrite Hbefore' in Hat by exact Hgt; discriminate. }
      subst k. destruct (Nat.leb_spec i (strlen data)); [reflexivity | lia].
    + destruct (Nat.leb_spec i (strlen data)) as [Hle | Hgt]; [| reflexivity].
      rewrite Hs in Hat by exact Hle; discriminate.
  - destruct (strstr data (crlf ++ crlf)) as [k |]; [| reflexivity].
    destruct Hs as (_ & Hat & _). rewrite Hf in Hat; discriminate.
Qed.

Lemma header_end_at (data : list byte) (i : nat) :
  rtsp_find_header_end data = Some i ->
  (i + 4 <= length data)%nat /\
  firstn 4 (skipn i data) = [CR; LF; CR; LF].
Proof.
  unfold rtsp_find_header_end; intros E.
  pose proof (find_header_end_from_spec data 0) as H. rewrite E in H.
  destruct H as (_ & Hlen & Hat & _). rewrite Nat.sub_0_r in *.
  split; [exact Hlen |].
  apply (starts_with_firstn (crlf ++ crlf)); exact Hat.
Qed.

(** The difference of two [size_t] values is their difference modulo
    2^32. *)
Lemma size_sub_mod (a b : Z) :
  0 <= a < 4294967296 -> 0 <= b < 4294967296 ->
  size_sub a b = (a - b) mod 4294967296.
Proof.
  intros Ha Hb; unfold size_sub.
  destruct (Z.ltb_spec a b).
  - apply Z.mod_unique with (q := -1); lia.
  - symmetry; apply Z.mod_small; lia.
Qed.

(** X11.  [rtsp_get_body] and [rtsp_find_header_end] look for the same
    four bytes, the one with [strstr] and the other by index.  They
    agree on where the header ends (the body starting four bytes later)
    unless a zero byte stands before the terminator: then [strstr]
    stops there and [rtsp_get_body] reports NULL and a body length of 0
    although the header end was found.  The body length is
    [request_len] less the offset of the body, computed in [size_t]
    (32 bits), that is modulo 2^32: when [request_len] reaches the body
    it is the number of bytes from the body to [request_len]; when the
    caller's [request_len] is smaller than the offset of the body the
    difference wraps around to a length just below 2^32. *)
Theorem get_body_after_header_end (data : list byte) (request_len : Z) :
  0 <= request_len < 4294967296 ->
  len data < 4294967296 ->
  rtsp_get_body data request_len
  = match rtsp_find_header_end data with
    | Some i =>
        if (i <=? strlen data)%nat
        then (Some (i + 4)%nat,
              (request_len - Z.of_nat (i + 4)) mod 4294967296)
        else (None, 0)
    | None => (None, 0)
    end /\
  forall off bl,
    rtsp_get_body data request_len = (Some off, bl) ->
    (Z.of_nat off <= request_len -> bl = request_len - Z.of_nat off) /\
    (request_len < Z.of_nat off ->
     bl = request_len - Z.of_nat off + 4294967296).
Proof.
  intros Hr Hd.
  assert (Hbody : rtsp_get_body data request_len
                  = match rtsp_find_header_end data with
                    | Some i =>
                        if (i <=? strlen data)%nat
                        then (Some (i + 4)%nat,
                              size_sub request_len (Z.of_nat (i + 4)))
                        else (None, 0)
                    | None => (None, 0)
                    end).
  { unfold rtsp_get_body, rtsp_find_header_end.
    rewrite strstr_header_end.
    destruct (find_header_end_from 0 data) as [i |]; [| reflexivity].
    destruct (i <=? strlen data)%nat; reflexivity. }
  split.
  - rewrite Hbody; unfold rtsp_find_header_end.
    pose proof (find_header_end_from_spec data 0) as Hspec.
    destruct (find_header_end_from 0 data) as [i |]; [| reflexivity].
    destruct Hspec as (_ & Hin & _).
    destruct (i <=? strlen data)%nat; [| reflexivity].
    rewrite size_sub_mod by (unfold len in *; lia); reflexivity.
  - intros off bl; unfold rtsp_get_body, size_sub.
    destruct (strstr data (crlf ++ crlf)) as [k |]; [| discriminate].
    intros E; inversion E; subst off bl; clear E.
    destruct (Z.ltb_spec request_len (Z.of_nat (k + 4))); split; intros;
      lia.
Qed.

(** ** rtsp_message.c: the value copied out of a header line *)

Lemma copy_while_spec (cap : nat) :
  forall src,
    (length (copy_while cap src) <= cap)%nat /\
    Forall (fun c => c <> 0 /\ c <> CR /\ c <> LF) (copy_while cap src) /\
    exists t, src = copy_while cap src ++ t.
Proof.
  induction cap as [| cap IH]; intros src.
  - simpl; split; [lia |]. split; [constructor | exists src; reflexivity].
  - destruct src as [| c src].
    + simpl; split; [lia |]. split; [constructor | exists []; reflexivity].
    + cbn [copy_while].
      destruct (Z.eqb_spec c 0); [| destruct (Z.eqb_spec c CR);
                                    [| destruct (Z.eqb_spec c LF)]];
        cbn [orb];
        try (simpl; split; [lia |];
             split; [constructor | eexists; reflexivity]).
      destruct (IH src) as (Hl & Hall & t & Ht).
      split; [simpl; lia |]. split; [constructor; auto |].
      exists t; simpl; rewrite <- Ht; reflexivity.
Qed.

Lemma trim_right_spec (s : list byte) :
  (exists t, s = trim_right s ++ t /\
             Forall (fun c => c = 32 \/ c = 9) t) /\
  last (trim_right s) 0 <> 32 /\ last (trim_right s) 0 <> 9.
Proof.
  induction s as [| c s ((t & Ht & Hb) & Hl1 & Hl2)].
  - simpl; split; [exists []; split; [reflexivity | constructor] |].
    split; discriminate.
  - cbn [trim_right].
    destruct (trim_right s) as [| c' tr] eqn:E.
    + destruct (Z.eqb_spec c 32) as [-> | H32];
        [| destruct (Z.eqb_spec c 9) as [-> | H9]]; cbn [orb].
      * split; [| split; discriminate].
        exists (32 :: s); split; [reflexivity |].
        simpl in Ht; subst s; constructor; auto.
      * split; [| split; discriminate].
        exists (9 :: s); split; [reflexivity |].
        simpl in Ht; subst s; constructor; auto.
      * split; [| split; simpl; assumption].
        exists s; split; [reflexivity |]. simpl in Ht; subst s; exact Hb.
    + split.
      * exists t; split; [| exact Hb]. rewrite Ht at 1; reflexivity.
      * change (last (c :: c' :: tr) 0) with (last (c' :: tr) 0).
        split; assumption.
Qed.

Lemma copy_header_value_token_length (dst_cap : nat) (src : list byte) :
  (length (copy_header_value_token dst_cap src) <= dst_cap - 1)%nat.
Proof.
  unfold copy_header_value_token.
  destruct dst_cap as [| cap]; [simpl; lia |].
  destruct (copy_while_spec cap src) as (Hl & _).
  destruct (trim_right_spec (copy_while cap src)) as ((t & Ht & _) & _).
  apply (f_equal (@length byte)) in Ht. rewrite length_app in Ht.
  simpl; lia.
Qed.

(** X12.  [copy_header_value_token] leaves in [dst] a string that fits it
    with its terminating zero (the empty string when there is no room):
    a prefix of the value up to the end of the line, without CR, LF or
    zero byte, which does not end in a space or a tab. *)
Theorem copy_header_value_token_fits (dst_cap : nat) (src : list byte) :
  let dst := copy_header_value_token dst_cap src in
  (length dst <= dst_cap - 1)%nat /\
  Forall (fun c => c <> 0 /\ c <> CR /\ c <> LF) dst /\
  (exists t, src = dst ++ t) /\
  last dst 0 <> 32 /\ last dst 0 <> 9.
Proof.
  unfold copy_header_value_token.
  destruct dst_cap as [| cap].
  - simpl; split; [lia |]. split; [constructor |].
    split; [exists src; reflexivity | split; discriminate].
  - destruct (copy_while_spec cap src) as (Hl & Hall & t & Ht).
    destruct (trim_right_spec (copy_while cap src))
      as ((t' & Ht' & _) & Hl1 & Hl2).
    cbv zeta.
    assert (Hlen : (length (trim_right (copy_while cap src))
                    <= length (copy_while cap src))%nat).
    { rewrite Ht' at 2; rewrite length_app; lia. }
    split; [simpl; lia |]. split.
    + rewrite Ht' in Hall. apply Forall_app in Hall; apply Hall.
    + split; [| split; assumption].
      exists (t' ++ t). rewrite app_assoc, <- Ht'; exact Ht.
Qed.

(** ** rtsp_message.c: the request parser *)

Lemma skip_space_head (s : list byte) : isspace (hd 0 (skip_space s)) = false.
Proof.
  induction s as [| c s IH]; [reflexivity |].
  cbn [skip_space]. destruct (isspace c) eqn:E; [exact IH | exact E].
Qed.

Lemma scan_token_spec (width : nat) :
  forall s t r,
    scan_token width s = (t, r) ->
    (length t <= width)%nat /\ s = t ++ r /\
    Forall (fun c => c <> 0 /\ isspace c = false) t /\
    (t = [] -> width = O \/ hd 0 s = 0 \/ isspace (hd 0 s) = true).
Proof.
  induction width as [| width IH]; intros s t r H.
  - simpl in H; inversion H; subst.
    split; [simpl; lia |]. split; [reflexivity |]. split; [constructor | auto].
  - destruct s as [| c s].
    + simpl in H; inversion H; subst.
      split; [simpl; lia |]. split; [reflexivity |]. split; [constructor | auto].
    + cbn [scan_token] in H.
      destruct (Z.eqb_spec c 0) as [-> | Hc]; cbn [orb] in H.
      * inversion H; subst.
        split; [simpl; lia |]. split; [reflexivity |].
        split; [constructor | auto].
      * destruct (isspace c) eqn:Hsp.
        -- inversion H; subst.
           split; [simpl; lia |]. split; [reflexivity |].
           split; [constructor | auto].
        -- destruct (scan_token width s) as [t' r'] eqn:E.
           inversion H; subst.
           destruct (IH s t' r E) as (Hl & Hs & Hall & _).
           split; [simpl; lia |]. split; [simpl; congruence |].
           split; [constructor; auto | discriminate].
Qed.

(** What [sscanf] with "%31s %255s" returns: -1 when no token can be
    read, else the number of tokens read, the tokens being within their
    field widths. *)
Lemma sscanf_method_path_spec (s : list byte) :
  forall n m p,
    sscanf_method_path s = (n, m, p) ->
    (n = -1 /\ hd 0 (skip_space s) = 0) \/
    (1 <= n <= 2 /\ hd 0 (skip_space s) <> 0 /\
     (1 <= length m <= 31)%nat /\ (length p <= 255)%nat /\
     Forall (fun c => c <> 0 /\ isspace c = false) m /\
     Forall (fun c => c <> 0 /\ isspace c = false) p).
Proof.
  intros n m p H; unfold sscanf_method_path in H.
  pose proof (skip_space_head s) as Hhd.
  destruct (scan_token 31 (skip_space s)) as [t r] eqn:E1.
  destruct (scan_token_spec 31 _ _ _ E1) as (Hl & Hs & Hall & Hempty).
  destruct t as [| c t].
  - inversion H; subst. left; split; [reflexivity |].
    destruct (Hempty eq_refl) as [H0 | [H0 | H0]];
      [discriminate | exact H0 | congruence].
  - assert (Hne : hd 0 (skip_space s) <> 0).
    { rewrite Hs; simpl. inversion Hall; tauto. }
    destruct (scan_token 255 (skip_space r)) as [t2 r2] eqn:E2.
    destruct (scan_token_spec 255 _ _ _ E2) as (Hl2 & _ & Hall2 & _).
    right. destruct t2 as [| c2 t2]; inversion H; subst;
      (split; [lia |]); (split; [exact Hne |]);
      (split; [simpl in Hl |- *; lia |]);
      (split; [simpl in Hl2 |- *; lia |]); split; auto.
Qed.

Section RequestParser.

Variable CONTENT_TYPE_CAP : nat.

Local Abbreviation parse := (rtsp_request_parse CONTENT_TYPE_CAP)
  (only parsing).

Lemma request_parse_at_rejects (buffer : list byte) (data_len : Z) :
  exists r,
    rtsp_request_parse_at CONTENT_TYPE_CAP buffer data_len = Some r /\
    (r = None <->
     data_len = 0 \/
     rtsp_find_header_end (firstn (Z.to_nat data_len) buffer) = None \/
     hd 0 (skip_space buffer) = 0).
Proof.
  unfold rtsp_request_parse_at.
  destruct (Z.eqb_spec data_len 0) as [E | E].
  { exists None; split; [reflexivity |]. split; [auto | reflexivity]. }
  destruct (rtsp_find_header_end (firstn (Z.to_nat data_len) buffer))
    as [hb |].
  2:{ exists None; split; [reflexivity |]. split; [auto | reflexivity]. }
  destruct (sscanf_method_path buffer) as [[n m] p] eqn:Es.
  destruct (sscanf_method_path_spec buffer n m p Es)
    as [(-> & H0) | (Hn & Hne & _)].
  { exists None; split; [reflexivity |]. split; [auto | reflexivity]. }
  destruct (Z.ltb_spec n 1); [lia |].
  cbv zeta.
  set (hs := firstn (if (1024 <=? hb)%nat then 1023%nat else hb) buffer).
  destruct (find_header_ci_total hs (bytes_of_string "CSeq:")) as (r1 & ->).
  destruct (find_header_ci_total hs (bytes_of_string "Content-Length:"))
    as (r2 & ->).
  destruct (find_header_ci_total hs (bytes_of_string "Content-Type:"))
    as (r3 & ->).
  destruct (rtsp_get_body buffer data_len) as [b bl].
  eexists; split; [reflexivity |].
  split; [discriminate |].
  intros [H' | [H' | H']]; [contradiction | discriminate | contradiction].
Qed.

(** X13.  [rtsp_request_parse] returns for every buffer and every [len]
    of bytes the buffer holds, and it returns -1 in exactly three cases:
    [len] is 0; the first [len] bytes hold no CR LF CR LF; or no method
    can be read: after the leading white space the buffer ends or has a
    zero byte.  The
    search for the end of the header stays within [len], but the scan
    for the method (line 164) is not bounded by [len]: it reads the
    buffer up to its first zero byte, so that a request of CR LF CR LF
    alone is accepted when the buffer goes on with a method after it.
    For a request that fills its buffer (the zero byte follows its
    [len] bytes) the three cases are: the request is empty, holds no
    CR LF CR LF, or is white space up to its end or to a zero byte.  A
    missing path, a missing protocol and missing headers do not make
    the parser fail. *)
Theorem request_parse_rejects (buffer : list byte) (data_len : Z) :
  0 <= data_len <= len buffer ->
  (exists r,
      rtsp_request_parse_at CONTENT_TYPE_CAP buffer data_len = Some r /\
      (r = None <->
       data_len = 0 \/
       rtsp_find_header_end (firstn (Z.to_nat data_len) buffer) = None \/
       hd 0 (skip_space buffer) = 0)) /\
  (exists r,
      parse buffer = Some r /\
      (r = None <->
       buffer = [] \/ rtsp_find_header_end buffer = None \/
       hd 0 (skip_space buffer) = 0)).
Proof.
  intros _.
  split; [apply request_parse_at_rejects |].
  destruct (request_parse_at_rejects buffer (len buffer)) as (r & Hrun & Hiff).
  exists r; split; [exact Hrun |].
  replace (firstn (Z.to_nat (len buffer)) buffer) with buffer in Hiff
    by (unfold len; rewrite Nat2Z.id, firstn_all; reflexivity).
  rewrite Hiff; split.
  - intros [H | H]; [left; apply len_nil_iff; exact H | right; exact H].
  - intros [-> | H]; [left; reflexivity | right; exact H].
Qed.

(** X14.  What a successful parse leaves in the request: a method of 1 to 31
    bytes and a path of at most 255 bytes, neither with white space or a
    zero byte (so both fit their arrays with the terminating zero); a
    content type that fits its array; a content length within [size_t];
    and a body view that starts after the first CR LF CR LF and ends
    with the input, or no body view and length 0. *)
Theorem request_parse_fields_fit (data : list byte) (req : rtsp_request_t) :
  parse data = Some (Some req) ->
  (1 <= length (method req) <= 31)%nat /\
  (length (path req) <= 255)%nat /\
  Forall (fun c => c <> 0 /\ isspace c = false) (method req ++ path req) /\
  (length (content_type req) <= CONTENT_TYPE_CAP - 1)%nat /\
  0 <= content_length req < 4294967296 /\
  match body req with
  | Some off =>
      (4 <= off <= length data)%nat /\
      firstn 4 (skipn (off - 4) data) = [CR; LF; CR; LF] /\
      body_len req = len data - Z.of_nat off /\
      body_bytes data req = skipn off data
  | None => body_len req = 0
  end.
Proof.
  rewrite ?rtsp_request_parse_unfold.
  destruct (Z.eqb_spec (len data) 0) as [E | E]; [discriminate |].
  assert (Hbody : rtsp_get_body data (len data)
                  = match rtsp_find_header_end data with
                    | Some i =>
                        if (i <=? strlen data)%nat
                        then (Some (i + 4)%nat, len data - Z.of_nat (i + 4))
                        else (None, 0)
                    | None => (None, 0)
                    end).
  { unfold rtsp_get_body, rtsp_find_header_end, size_sub.
    rewrite strstr_header_end.
    pose proof (find_header_end_from_spec data 0) as Hspec.
    destruct (find_header_end_from 0 data) as [i |]; [| reflexivity].
    destruct Hspec as (_ & Hin & _).
    destruct (i <=? strlen data)%nat; [| reflexivity].
    destruct (Z.ltb_spec (len data) (Z.of_nat (i + 4))); [| reflexivity].
    unfold len in *; lia. }
  destruct (rtsp_find_header_end data) as [hb |] eqn:Eend; [| discriminate].
  destruct (header_end_at data hb Eend) as (Hlen & Hat).
  destruct (sscanf_method_path data) as [[n m] p] eqn:Es.
  destruct (sscanf_method_path_spec data n m p Es)
    as [(-> & H0) | (Hn & Hne & Hm & Hp & Hmall & Hpall)];
    [discriminate |].
  destruct (Z.ltb_spec n 1); [lia |].
  cbv zeta.
  set (hs := firstn (if (1024 <=? hb)%nat then 1023%nat else hb) data).
  destruct (find_header_ci hs (bytes_of_string "CSeq:")) as [r1 |];
    [| discriminate].
  destruct (find_header_ci hs (bytes_of_string "Content-Length:")) as [r2 |];
    [| discriminate].
  destruct (find_header_ci hs (bytes_of_string "Content-Type:")) as [r3 |];
    [| discriminate].
  destruct (rtsp_get_body data (len data)) as [b bl].
  intros Hreq; inversion Hreq; subst req; clear Hreq.
  cbn [method path content_type content_length body body_len].
  split; [exact Hm |]. split; [exact Hp |].
  split; [apply Forall_app; split; assumption |].
  split.
  { destruct r3 as [v |]; [| simpl; lia].
    apply copy_header_value_token_length. }
  split.
  { destruct r2 as [v |]; [apply Z.mod_pos_bound |]; lia. }
  destruct (Nat.leb_spec hb (strlen data)); inversion Hbody; subst.
  - split; [lia |]. split.
    { replace (hb + 4 - 4)%nat with hb by lia; exact Hat. }
    split; [reflexivity |].
    unfold body_bytes; cbn [body body_len].
    apply firstn_all2. rewrite length_skipn. unfold len; lia.
  - reflexivity.
Qed.

(** X15.  The header fields of a request come from the first bytes of the
    input only: the bytes before the first CR LF CR LF, and at most
    1023 of them.  Two inputs that agree there parse to the same CSeq,
    content length and content type, whatever their bodies hold, and
    whatever stands in their headers after byte 1023. *)
Theorem request_headers_from_head
        (d1 d2 : list byte) (h1 h2 : nat) (r1 r2 : rtsp_request_t) :
  rtsp_find_header_end d1 = Some h1 ->
  rtsp_find_header_end d2 = Some h2 ->
  firstn (Nat.min h1 1023) d1 = firstn (Nat.min h2 1023) d2 ->
  parse d1 = Some (Some r1) ->
  parse d2 = Some (Some r2) ->
  cseq r1 = cseq r2 /\
  content_length r1 = content_length r2 /\
  content_type r1 = content_type r2.
Proof.
  intros E1 E2 Hhead.
  rewrite !rtsp_request_parse_unfold; rewrite E1, E2.
  destruct (len d1 =? 0); [discriminate |].
  destruct (len d2 =? 0); [discriminate |].
  destruct (sscanf_method_path d1) as [[n1 m1] p1].
  destruct (sscanf_method_path d2) as [[n2 m2] p2].
  destruct (n1 <? 1); [discriminate |].
  destruct (n2 <? 1); [discriminate |].
  cbv zeta.
  assert (Hcopy : forall h, (if (1024 <=? h)%nat then 1023%nat else h)
                            = Nat.min h 1023).
  { intros h; destruct (Nat.leb_spec 1024 h); lia. }
  rewrite !Hcopy, Hhead.
  set (hs := firstn (Nat.min h2 1023) d2).
  destruct (find_header_ci hs (bytes_of_string "CSeq:")) as [c |];
    [| discriminate].
  destruct (find_header_ci hs (bytes_of_string "Content-Length:")) as [l |];
    [| discriminate].
  destruct (find_header_ci hs (bytes_of_string "Content-Type:")) as [t |];
    [| discriminate].
  destruct (rtsp_get_body d1 (len d1)) as [b1 bl1].
  destruct (rtsp_get_body d2 (len d2)) as [b2 bl2].
  intros H1 H2; inversion H1; inversion H2; subst.
  repeat split.
Qed.

End RequestParser.

(** ** rtsp_message.c: header lookup and letter case *)

(** Two bytes with the same lower-case form are equal or both letters. *)
Lemma tolower_eq_cases (c c' : byte) :
  tolower c = tolower c' ->
  c = c' \/
  ((65 <= c <= 90 \/ 97 <= c <= 122) /\ (65 <= c' <= 90 \/ 97 <= c' <= 122)).
Proof.
  unfold tolower.
  destruct (Z.leb_spec 65 c); destruct (Z.leb_spec c 90);
    destruct (Z.leb_spec 65 c'); destruct (Z.leb_spec c' 90);
    cbn [andb]; lia.
Qed.

Lemma fold_eqb (x c c' : byte) :
  tolower c = tolower c' -> (x < 65 \/ 122 < x \/ 90 < x < 97) ->
  (c =? x) = (c' =? x).
Proof.
  intros H Hx. destruct (tolower_eq_cases c c' H) as [-> | (Hc & Hc')];
    [reflexivity |].
  destruct (Z.eqb_spec c x); destruct (Z.eqb_spec c' x); lia.
Qed.

Lemma fold_isspace (c c' : byte) :
  tolower c = tolower c' -> isspace c = isspace c'.
Proof.
  intros H. destruct (tolower_eq_cases c c' H) as [-> | (Hc & Hc')];
    [reflexivity |].
  unfold isspace.
  destruct (Z.eqb_spec c 32); destruct (Z.eqb_spec c' 32);
    destruct (Z.leb_spec 9 c); destruct (Z.leb_spec c 13);
    destruct (Z.leb_spec 9 c'); destruct (Z.leb_spec c' 13);
    cbn [andb orb]; lia.
Qed.

Lemma fold_isdigit (c c' : byte) :
  tolower c = tolower c' -> isdigit c = isdigit c' /\
                            (isdigit c = true -> c = c').
Proof.
  intros H. destruct (tolower_eq_cases c c' H) as [-> | (Hc & Hc')];
    [auto |].
  unfold isdigit.
  destruct (Z.leb_spec 48 c); destruct (Z.leb_spec c 57);
    destruct (Z.leb_spec 48 c'); destruct (Z.leb_spec c' 57);
    cbn [andb]; split; try reflexivity; try discriminate; lia.
Qed.

Lemma fold_hd (p1 p2 : list byte) :
  map tolower p1 = map tolower p2 -> tolower (hd 0 p1) = tolower (hd 0 p2).
Proof.
  destruct p1, p2; cbn [map hd]; intros H; try discriminate;
    [reflexivity | inversion H; reflexivity].
Qed.

Lemma fold_skipn (n : nat) (p1 p2 : list byte) :
  map tolower p1 = map tolower p2 ->
  map tolower (skipn n p1) = map tolower (skipn n p2).
Proof. intros H; rewrite <- !skipn_map, H; reflexivity. Qed.

Lemma fold_nth (n : nat) (p1 p2 : list byte) :
  map tolower p1 = map tolower p2 ->
  tolower (nth n p1 0) = tolower (nth n p2 0).
Proof.
  intros H.
  rewrite <- (map_nth tolower p1), <- (map_nth tolower p2), H; reflexivity.
Qed.

Lemma fold_starts_with (pat : list byte) :
  Forall (fun x => x < 65 \/ 122 < x \/ 90 < x < 97) pat ->
  forall p1 p2, map tolower p1 = map tolower p2 ->
                starts_with pat p1 = starts_with pat p2.
Proof.
  induction 1 as [| x pat Hx Hpat IH]; intros p1 p2 H; [reflexivity |].
  destruct p1 as [| c1 p1], p2 as [| c2 p2]; try discriminate;
    [reflexivity |].
  simpl in H; inversion H as [[Hc Ht]].
  cbn [starts_with].
  rewrite (Z.eqb_sym x c1), (Z.eqb_sym x c2), (fold_eqb x c1 c2 Hc Hx).
  rewrite (IH p1 p2 Ht); reflexivity.
Qed.

Lemma fold_strstr (pat : list byte) :
  Forall (fun x => x < 65 \/ 122 < x \/ 90 < x < 97) pat ->
  forall p1 p2, map tolower p1 = map tolower p2 ->
                strstr p1 pat = strstr p2 pat.
Proof.
  intros Hpat; induction p1 as [| c1 p1 IH]; intros p2 H.
  - destruct p2; [reflexivity | discriminate].
  - destruct p2 as [| c2 p2]; [discriminate |].
    cbn [strstr].
    rewrite (fold_starts_with pat Hpat (c1 :: p1) (c2 :: p2) H).
    simpl in H; inversion H as [[Hc Ht]].
    rewrite (fold_eqb 0 c1 c2 Hc) by lia.
    rewrite (IH p2 Ht); reflexivity.
Qed.

Lemma fold_strncasecmp (n : nat) :
  forall p1 p2 key, map tolower p1 = map tolower p2 ->
                    strncasecmp_eq p1 key n = strncasecmp_eq p2 key n.
Proof.
  induction n as [| n IH]; intros p1 p2 key H; [reflexivity |].
  cbn [strncasecmp_eq].
  rewrite (fold_hd p1 p2 H).
  rewrite (fold_eqb 0 (hd 0 p1) (hd 0 p2) (fold_hd p1 p2 H)) by lia.
  rewrite (IH (tl p1) (tl p2) (tl key)); [reflexivity |].
  destruct p1, p2; cbn [map tl] in *; try discriminate; [reflexivity |].
  inversion H; reflexivity.
Qed.

Lemma fold_skip_blanks (p1 : list byte) :
  forall p2, map tolower p1 = map tolower p2 ->
             map tolower (skip_blanks p1) = map tolower (skip_blanks p2).
Proof.
  induction p1 as [| c1 p1 IH]; intros [| c2 p2] H; try discriminate;
    [reflexivity |].
  pose proof H as H'. simpl in H'; inversion H' as [[Hc Ht]].
  cbn [skip_blanks].
  rewrite (fold_eqb 32 c1 c2 Hc), (fold_eqb 9 c1 c2 Hc) by lia.
  destruct ((c2 =? 32) || (c2 =? 9)); [apply IH; exact Ht | exact H].
Qed.

Lemma fold_find_header_loop (key : list byte) (fuel : nat) :
  forall p1 p2,
    map tolower p1 = map tolower p2 ->
    match find_header_loop fuel p1 key, find_header_loop fuel p2 key with
    | Some (Some v1), Some (Some v2) => map tolower v1 = map tolower v2
    | Some None, Some None => True
    | None, None => True
    | _, _ => False
    end.
Proof.
  assert (Hcrlf : Forall (fun x => x < 65 \/ 122 < x \/ 90 < x < 97) crlf)
    by (repeat constructor; unfold CR, LF; lia).
  induction fuel as [| fuel IH]; intros p1 p2 H.
  - cbn [find_header_loop].
    rewrite (fold_eqb 0 (hd 0 p1) (hd 0 p2) (fold_hd p1 p2 H)) by lia.
    destruct (hd 0 p2 =? 0); exact I.
  - cbn [find_header_loop].
    rewrite (fold_eqb 0 (hd 0 p1) (hd 0 p2) (fold_hd p1 p2 H)) by lia.
    destruct (hd 0 p2 =? 0); [exact I |].
    rewrite (fold_strstr crlf Hcrlf p1 p2 H), (strlen_fold p1 p2 H).
    set (line_end := match strstr p2 crlf with
                     | Some k => k
                     | None => strlen p2
                     end).
    rewrite (fold_strncasecmp (strlen key) p1 p2 key H).
    destruct ((strlen key <=? line_end)%nat
              && strncasecmp_eq p2 key (strlen key)).
    + apply fold_skip_blanks, fold_skipn; exact H.
    + rewrite (fold_eqb 0 _ _ (fold_nth line_end p1 p2 H)) by lia.
      destruct (nth line_end p2 0 =? 0); [exact I |].
      apply IH, fold_skipn; exact H.
Qed.

Lemma fold_skip_space (p1 : list byte) :
  forall p2, map tolower p1 = map tolower p2 ->
             map tolower (skip_space p1) = map tolower (skip_space p2).
Proof.
  induction p1 as [| c1 p1 IH]; intros [| c2 p2] H; try discriminate;
    [reflexivity |].
  pose proof H as H'. simpl in H'; inversion H' as [[Hc Ht]].
  cbn [skip_space]. rewrite (fold_isspace c1 c2 Hc).
  destruct (isspace c2); [apply IH; exact Ht | exact H].
Qed.

Lemma fold_digits_value (p1 : list byte) :
  forall p2 acc, map tolower p1 = map tolower p2 ->
                 digits_value acc p1 = digits_value acc p2.
Proof.
  induction p1 as [| c1 p1 IH]; intros [| c2 p2] acc H; try discriminate;
    [reflexivity |].
  simpl in H; inversion H as [[Hc Ht]].
  cbn [digits_value].
  destruct (fold_isdigit c1 c2 Hc) as (Hd & Heq). rewrite <- Hd.
  destruct (isdigit c1); [| reflexivity].
  rewrite <- (Heq eq_refl). apply IH; exact Ht.
Qed.

Lemma fold_atoi (v1 v2 : list byte) :
  map tolower v1 = map tolower v2 -> atoi v1 = atoi v2.
Proof.
  intros H; unfold atoi.
  pose proof (fold_skip_space v1 v2 H) as Hs.
  destruct (skip_space v1) as [| c1 s1], (skip_space v2) as [| c2 s2];
    try discriminate; [reflexivity |].
  pose proof Hs as Hs'. simpl in Hs'; inversion Hs' as [[Hc Ht]].
  rewrite (fold_eqb 45 c1 c2 Hc), (fold_eqb 43 c1 c2 Hc) by lia.
  rewrite (fold_digits_value s1 s2 0 Ht).
  rewrite (fold_digits_value (c1 :: s1) (c2 :: s2) 0 Hs).
  reflexivity.
Qed.

(** X16.  The header lookup of the request parser does not look at letter
    case, neither in the key nor in the header text: for two header
    blocks and two keys that are equal up to the case of their letters
    the lookup finds a line in both or in neither, the values found are
    equal up to case, and [atoi] reads the same number from them. *)
Theorem header_lookup_ignores_case (h1 h2 k1 k2 : list byte) :
  map tolower h1 = map tolower h2 ->
  map tolower k1 = map tolower k2 ->
  exists r1 r2,
    find_header_ci h1 k1 = Some r1 /\
    find_header_ci h2 k2 = Some r2 /\
    match r1, r2 with
    | Some v1, Some v2 => map tolower v1 = map tolower v2 /\ atoi v1 = atoi v2
    | None, None => True
    | _, _ => False
    end.
Proof.
  intros Hh Hk.
  rewrite (find_header_ci_key_case h2 k2 k1) by (symmetry; exact Hk).
  destruct (find_header_ci_total h1 k1) as (r1 & E1).
  destruct (find_header_ci_total h2 k1) as (r2 & E2).
  exists r1, r2; split; [exact E1 | split; [exact E2 |]].
  unfold find_header_ci in E1, E2.
  destruct (strlen k1 =? 0)%nat.
  { inversion E1; inversion E2; exact I. }
  pose proof (fold_find_header_loop k1 (S (strlen h1)) h1 h2 Hh) as H.
  rewrite (strlen_fold h1 h2 Hh) in H, E1.
  rewrite E1, E2 in H.
  destruct r1 as [v1 |], r2 as [v2 |]; try exact H.
  split; [exact H | apply fold_atoi; exact H].
Qed.

(** ** [strstr] over a text made of pieces *)

Lemma zero_free_app (a b : list byte) :
  zero_free (a ++ b) = zero_free a && zero_free b.
Proof. apply forallb_app. Qed.

Lemma zero_free_strlen (a : list byte) :
  zero_free a = true -> strlen a = length a.
Proof.
  induction a as [| c a IH]; [reflexivity |].
  cbn [zero_free forallb strlen length].
  destruct (c =? 0); [discriminate |]. intros H; rewrite IH; auto.
Qed.

Lemma zero_free_firstn_strlen (s : list byte) :
  zero_free (firstn (strlen s) s) = true.
Proof.
  induction s as [| c s IH]; [reflexivity |].
  cbn [strlen]. destruct (c =? 0) eqn:E; [reflexivity |].
  cbn [firstn zero_free forallb]. rewrite E. exact IH.
Qed.

Lemma starts_with_app_l (pat : list byte) :
  forall s t, starts_with pat s = true -> starts_with pat (s ++ t) = true.
Proof.
  induction pat as [| p pat IH]; intros s t H; [reflexivity |].
  destruct s as [| c s]; [discriminate |].
  cbn [starts_with app] in *.
  apply andb_true_iff in H; destruct H as (-> & H).
  rewrite (IH s t H); reflexivity.
Qed.

(** A match that begins in [s] and runs into [b]: either it lies in
    [s], or the last byte of [s] is matched by a byte of the pattern and
    the first byte of [b] by a later one. *)
Lemma starts_with_straddle (pat : list byte) :
  forall s b,
    s <> [] ->
    starts_with pat (s ++ b) = true ->
    starts_with pat s = true \/
    (occurs (last s 0) pat = true /\ occurs (hd 0 b) (tl pat) = true).
Proof.
  induction pat as [| p pat IH]; intros s b Hs H; [left; reflexivity |].
  destruct s as [| c s]; [congruence |].
  cbn [app starts_with] in H.
  apply andb_true_iff in H; destruct H as (Hp & H).
  apply Z.eqb_eq in Hp; subst c.
  destruct s as [| c' s].
  - destruct pat as [| p' pat]; [left; simpl; rewrite Z.eqb_refl; reflexivity |].
    right. cbn [last occurs existsb tl]. rewrite Z.eqb_refl; cbn [orb].
    split; [reflexivity |].
    destruct b as [| b0 b]; [discriminate |].
    cbn [app starts_with] in H.
    apply andb_true_iff in H; destruct H as (Hb & _).
    apply Z.eqb_eq in Hb; subst b0.
    cbn [hd existsb]. rewrite Z.eqb_refl; reflexivity.
  - destruct (IH (c' :: s) b) as [Hin | (Hl & Hh)]; [discriminate | exact H | |].
    + left. cbn [starts_with]. rewrite Z.eqb_refl, Hin; reflexivity.
    + right. change (last (p :: c' :: s) 0) with (last (c' :: s) 0).
      split.
      * unfold occurs in *; cbn [existsb]; rewrite Hl; apply orb_true_r.
      * unfold occurs in *. destruct pat as [| p' pat]; [discriminate |].
        cbn [tl existsb] in *. rewrite Hh; apply orb_true_r.
Qed.

Lemma last_skipn (j : nat) :
  forall a : list byte, (j < length a)%nat -> last (skipn j a) 0 = last a 0.
Proof.
  induction j as [| j IH]; intros a H; [reflexivity |].
  destruct a as [| c a]; [simpl in H; lia |].
  cbn [skipn]. rewrite IH by (simpl in H; lia).
  destruct a; [simpl in H; lia | reflexivity].
Qed.

(** [strstr] steps over a piece in which the pattern neither occurs nor
    begins. *)
Lemma strstr_shift (pat a b : list byte) :
  zero_free pat = true -> pat <> [] ->
  zero_free a = true ->
  strstr a pat = None ->
  occurs (last a 0) pat = false \/ occurs (hd 0 b) (tl pat) = false ->
  strstr (a ++ b) pat = option_map (Nat.add (length a)) (strstr b pat).
Proof.
  intros Hpz Hne Haz Hnone Hbound.
  assert (Hpz' : Forall (fun c => c <> 0) pat).
  { apply Forall_forall; intros c Hc.
    unfold zero_free in Hpz; rewrite forallb_forall in Hpz.
    specialize (Hpz c Hc). destruct (Z.eqb_spec c 0); [discriminate | auto]. }
  pose proof (strstr_first pat Hpz' Hne a) as Hfirst.
  rewrite Hnone in Hfirst. rewrite (zero_free_strlen a Haz) in Hfirst.
  assert (Hno : forall j, (j < length a)%nat ->
                          starts_with pat (skipn j (a ++ b)) = false).
  { intros j Hj. rewrite skipn_app.
    replace (j - length a)%nat with O by lia. cbn [skipn].
    destruct (starts_with pat (skipn j a ++ b)) eqn:E; [| reflexivity].
    exfalso.
    destruct (starts_with_straddle pat (skipn j a) b) as [Hin | (Hl & Hh)].
    - intros E'. apply (f_equal (@length byte)) in E'.
      rewrite length_skipn in E'. simpl in E'; lia.
    - exact E.
    - rewrite Hfirst in Hin by lia; discriminate.
    - rewrite last_skipn in Hl by exact Hj.
      destruct Hbound; congruence. }
  clear Hfirst Hnone Hbound.
  induction a as [| c a IH];
    [cbn [app length]; destruct (strstr b pat); reflexivity |].
  cbn [app strstr].
  pose proof (Hno O ltac:(simpl; lia)) as H0. cbn [skipn app] in H0.
  rewrite H0.
  cbn [zero_free forallb] in Haz.
  destruct (c =? 0); [discriminate |]. cbn [negb andb] in Haz.
  rewrite IH; [destruct (strstr b pat); reflexivity | exact Haz |].
  intros j Hj. apply (Hno (S j)). simpl; lia.
Qed.

(** A text that has no byte of the pattern's first has no occurrence. *)
Lemma strstr_absent (p0 : byte) (pat a : list byte) :
  occurs p0 a = false -> strstr a (p0 :: pat) = None.
Proof.
  induction a as [| c a IH]; intros H; [reflexivity |].
  cbn [occurs existsb] in H. apply orb_false_iff in H; destruct H as (Hc & H).
  cbn [strstr starts_with]. rewrite Hc; cbn [andb].
  destruct (c =? 0); [reflexivity |].
  rewrite (IH H); reflexivity.
Qed.

Lemma strstr_here (pat s : list byte) :
  starts_with pat s = true -> strstr s pat = Some O.
Proof. intros H; destruct s; cbn [strstr]; rewrite H; reflexivity. Qed.

Lemma strstr_firstn_strlen (pat : list byte) :
  zero_free pat = true -> pat <> [] ->
  forall s, strstr (firstn (strlen s) s) pat = strstr s pat.
Proof.
  intros Hz Hne. destruct pat as [| p pat]; [congruence |].
  cbn [zero_free forallb] in Hz.
  apply andb_true_iff in Hz; destruct Hz as (Hp & Hz).
  assert (Hsw : forall s, starts_with (p :: pat) (firstn (strlen s) s)
                          = starts_with (p :: pat) s).
  { clear Hne. revert Hz Hp. generalize p; clear p.
    induction pat as [| p' pat IH]; intros p Hz Hp s.
    - destruct s as [| c s]; [reflexivity |].
      cbn [strlen]. destruct (Z.eqb_spec c 0) as [-> | Hc].
      + cbn [firstn starts_with]. destruct (Z.eqb_spec p 0) as [-> | _];
          [discriminate | reflexivity].
      + reflexivity.
    - destruct s as [| c s]; [reflexivity |].
      cbn [strlen]. destruct (Z.eqb_spec c 0) as [-> | Hc].
      + cbn [firstn starts_with]. destruct (Z.eqb_spec p 0) as [-> | _];
          [discriminate | reflexivity].
      + cbn [firstn]. cbn [starts_with] in *.
        cbn [zero_free forallb] in Hz.
        apply andb_true_iff in Hz; destruct Hz as (Hp' & Hz).
        f_equal. apply (IH p' Hz Hp'). }
  induction s as [| c s IH]; [reflexivity |].
  cbn [strstr]. rewrite <- (Hsw (c :: s)).
  cbn [strlen]. destruct (Z.eqb_spec c 0) as [-> | Hc].
  - cbn [firstn strstr starts_with]. reflexivity.
  - cbn [firstn strstr].
    destruct (starts_with (p :: pat) (c :: firstn (strlen s) s));
      [reflexivity |].
    destruct (Z.eqb_spec c 0); [contradiction |].
    rewrite IH; reflexivity.
Qed.

(** ** What [printf] prints and [atoi] reads *)

Lemma print_digits_chars (fuel : nat) :
  forall n, forallb isdigit (print_digits fuel n) = true.
Proof.
  induction fuel as [| fuel IH]; intros n; [reflexivity |].
  cbn [print_digits]. rewrite forallb_app.
  assert (Hd : isdigit (48 + n mod 10) = true).
  { unfold isdigit. pose proof (Z.mod_pos_bound n 10).
    destruct (Z.leb_spec 48 (48 + n mod 10));
      destruct (Z.leb_spec (48 + n mod 10) 57); cbn [andb]; lia. }
  cbn [forallb]. rewrite Hd.
  destruct (n <? 10); [reflexivity | rewrite IH; reflexivity].
Qed.

Lemma print_int_chars (z : Z) :
  forallb (fun c => (c =? 45) || isdigit c) (print_int z) = true.
Proof.
  assert (H : forall l, forallb isdigit l = true ->
                        forallb (fun c => (c =? 45) || isdigit c) l = true).
  { intros l Hl. rewrite forallb_forall in *.
    intros c Hc; rewrite (Hl c Hc); apply orb_true_r. }
  unfold print_int. destruct (z <? 0).
  - cbn [forallb]. rewrite (H _ (print_digits_chars 10 (- z))); reflexivity.
  - apply H, print_digits_chars.
Qed.

(** A printed number holds no byte outside "-0123456789". *)
Lemma print_int_occurs (x : byte) (z : Z) :
  (x =? 45) || isdigit x = false -> occurs x (print_int z) = false.
Proof.
  intros Hx. pose proof (print_int_chars z) as H.
  unfold occurs. induction (print_int z) as [| c l IH]; [reflexivity |].
  cbn [forallb existsb] in *.
  apply andb_true_iff in H; destruct H as (Hc & H).
  rewrite (IH H), orb_false_r.
  destruct (Z.eqb_spec x c); [subst; congruence | reflexivity].
Qed.

Lemma print_int_zero_free (z : Z) : zero_free (print_int z) = true.
Proof.
  pose proof (print_int_chars z) as H. unfold zero_free.
  rewrite forallb_forall in *. intros c Hc. specialize (H c Hc).
  destruct (Z.eqb_spec c 0) as [-> | _]; [discriminate | reflexivity].
Qed.

(** [atoi] reads back what [%d] printed, when anything but a digit
    follows. *)
Lemma atoi_print_int (z : Z) (rest : list byte) :
  - 10 ^ 10 < z < 10 ^ 10 ->
  isdigit (hd 0 rest) = false ->
  atoi (print_int z ++ rest) = z.
Proof.
  intros Hz Hrest.
  assert (Hstop : forall acc, digits_value acc rest = acc).
  { intros acc; destruct rest as [| c rest]; [reflexivity |].
    cbn [digits_value]; cbn [hd] in Hrest; rewrite Hrest; reflexivity. }
  unfold atoi, print_int.
  destruct (Z.ltb_spec z 0) as [Hneg | Hpos].
  - cbn [app skip_space]. change (isspace 45) with false; cbv iota.
    change (45 =? 45) with true; cbv iota.
    destruct (print_digits_value 10 (- z)) as (Hd & Hv); [lia |].
    rewrite digits_value_app, Hv, Hstop by exact Hd. lia.
  - destruct (print_digits_value 10 z) as (Hd & Hv); [lia |].
    pose proof (print_int_nonempty z) as Hne.
    unfold print_int in Hne. destruct (Z.ltb_spec z 0); [lia |].
    destruct (print_digits 10 z) as [| c ds] eqn:E; [simpl in Hne; lia |].
    cbn [app skip_space].
    cbn [forallb] in Hd. apply andb_true_iff in Hd; destruct Hd as (Hc & Hds).
    assert (Hnsp : isspace c = false /\ (c =? 45) = false /\ (c =? 43) = false).
    { unfold isdigit in Hc. apply andb_true_iff in Hc; destruct Hc as (H1 & H2).
      apply Z.leb_le in H1, H2. unfold isspace.
      destruct (Z.eqb_spec c 32); destruct (Z.leb_spec 9 c);
        destruct (Z.leb_spec c 13); destruct (Z.eqb_spec c 45);
        destruct (Z.eqb_spec c 43); cbn [andb orb]; repeat split; lia. }
    destruct Hnsp as (-> & -> & ->).
    change (c :: ds ++ rest) with ((c :: ds) ++ rest).
    rewrite digits_value_app, Hv, Hstop; [reflexivity |].
    cbn [forallb]; rewrite Hc, Hds; reflexivity.
Qed.

(** ** rtsp_message.c: the parsers on what the response builder prints *)

Ltac shift_piece :=
  rewrite strstr_shift;
  [ | reflexivity | discriminate
    | first [reflexivity | apply print_int_zero_free
            | apply zero_free_firstn_strlen]
    | first [ reflexivity
            | apply strstr_absent, print_int_occurs; reflexivity
            | rewrite strstr_firstn_strlen by (reflexivity || discriminate);
              assumption ]
    | first [left; reflexivity | right; reflexivity] ].

(** X18.  [rtsp_parse_cseq] reads from a response of [rtsp_send_response] the
    sequence number it was built with, for every [int] value, whatever
    the status code, the extra headers and the content length are,
    provided the status text does not itself contain "CSeq:" (the parser
    takes the first occurrence in the text). *)
Theorem response_cseq_read_back
        (status_code : Z) (status_text : list byte) (n : Z)
        (extra_headers : option (list byte)) (content_length : option Z) :
  -2147483648 <= n <= 2147483647 ->
  strstr status_text (bytes_of_string "CSeq:") = None ->
  rtsp_parse_cseq
    (response_head status_code status_text n extra_headers content_length)
  = n.
Proof.
  intros Hn Htext.
  unfold rtsp_parse_cseq, response_head.
  set (tail := SERVER_LINE ++ _).
  set (pat := bytes_of_string "CSeq:").
  shift_piece. shift_piece. shift_piece. shift_piece.
  change crlf with ([CR] ++ [LF]) at 1. rewrite <- !app_assoc.
  shift_piece. shift_piece.
  rewrite (strstr_here pat) by reflexivity.
  cbn [option_map]. rewrite !Nat.add_0_r, !Nat.add_assoc.
  rewrite <- !length_app.
  match goal with
  | |- atoi (skipn (length ?a + 5) ?s) = _ =>
      replace s with (a ++ bytes_of_string "CSeq:"
                        ++ [32] ++ print_int n ++ crlf ++ tail)
        by (rewrite <- !app_assoc; reflexivity);
      replace (length a + 5)%nat
        with (length (a ++ bytes_of_string "CSeq:"))
        by (rewrite length_app; reflexivity);
      rewrite app_assoc, skipn_app, skipn_all, Nat.sub_diag
  end.
  cbn [skipn app]. unfold atoi; cbn [skip_space].
  change (isspace 32) with true; cbv iota.
  apply (atoi_print_int n (crlf ++ tail)); [lia | reflexivity].
Qed.

(** X19.  [rtsp_parse_content_length] reads from a response that carries a
    body the length it was built with, provided neither the status text
    nor the extra headers contain "Content-Length:" themselves. *)
Theorem response_content_length_read_back
        (status_code : Z) (status_text : list byte) (cseq n : Z)
        (extra_headers : option (list byte)) :
  0 <= n <= 2147483647 ->
  strstr status_text (bytes_of_string "Content-Length:") = None ->
  match extra_headers with
  | Some h => strstr h (bytes_of_string "Content-Length:") = None
  | None => True
  end ->
  rtsp_parse_content_length
    (response_head status_code status_text cseq extra_headers (Some n))
  = n.
Proof.
  intros Hn Htext Hextra.
  unfold rtsp_parse_content_length, response_head.
  set (pat := bytes_of_string "Content-Length:").
  assert (Hfound :
    exists a,
      bytes_of_string "RTSP/1.0 " ++ print_int status_code ++ [32]
        ++ firstn (strlen status_text) status_text ++ crlf
        ++ bytes_of_string "CSeq: " ++ print_int cseq ++ crlf
        ++ SERVER_LINE
        ++ match extra_headers with
           | Some h => firstn (strlen h) h
           | None => []
           end
        ++ (bytes_of_string "Content-Length: " ++ print_int n ++ crlf)
        ++ crlf
      = a ++ pat ++ [32] ++ print_int n ++ crlf ++ crlf /\
      strstr (a ++ pat ++ [32] ++ print_int n ++ crlf ++ crlf) pat
      = Some (length a)).
  { exists (bytes_of_string "RTSP/1.0 " ++ print_int status_code ++ [32]
              ++ firstn (strlen status_text) status_text ++ crlf
              ++ bytes_of_string "CSeq: " ++ print_int cseq ++ crlf
              ++ SERVER_LINE
              ++ match extra_headers with
                 | Some h => firstn (strlen h) h
                 | None => []
                 end).
    split; [rewrite <- !app_assoc; reflexivity |].
    rewrite <- !app_assoc.
    shift_piece. shift_piece. shift_piece. shift_piece. shift_piece.
    shift_piece. shift_piece. shift_piece. shift_piece.
    destruct extra_headers as [h |].
    - shift_piece.
      rewrite (strstr_here pat) by reflexivity.
      cbn [option_map]. rewrite !length_app. f_equal; lia.
    - cbn [app]. rewrite (strstr_here pat) by reflexivity.
      cbn [option_map].
      repeat (rewrite length_app || (progress cbn [length])). f_equal; lia. }
  destruct Hfound as (a & -> & ->).
  replace (length a + 15)%nat with (length (a ++ pat))
    by (rewrite length_app; reflexivity).
  rewrite app_assoc, skipn_app, skipn_all, Nat.sub_diag.
  cbn [skipn app]. unfold atoi; cbn [skip_space].
  change (isspace 32) with true; cbv iota.
  apply (atoi_print_int n (crlf ++ crlf)); [lia | reflexivity].
Qed.

(** ** rtsp_message.c: the ports of the Transport header *)

Lemma print_int_hd_clear (z : Z) (rest pat : list byte) :
  forallb (fun p => negb ((p =? 45) || isdigit p)) pat = true ->
  occurs (hd 0 (print_int z ++ rest)) pat = false.
Proof.
  intros Hpat.
  pose proof (print_int_nonempty z) as Hne.
  pose proof (print_int_chars z) as Hch.
  destruct (print_int z) as [| c ds]; [simpl in Hne; lia |].
  cbn [app hd forallb] in *.
  apply andb_true_iff in Hch; destruct Hch as (Hc & _).
  unfold occurs. induction pat as [| p pat IH]; [reflexivity |].
  cbn [forallb existsb] in *.
  apply andb_true_iff in Hpat; destruct Hpat as (Hp & Hpat).
  rewrite (IH Hpat), orb_false_r.
  destruct (Z.eqb_spec c p); [subst; rewrite Hc in Hp; discriminate |].
  reflexivity.
Qed.

Ltac shift_line :=
  rewrite strstr_shift;
  [ | reflexivity | discriminate
    | first [reflexivity | apply print_int_zero_free | assumption]
    | first [ reflexivity
            | apply strstr_absent, print_int_occurs; reflexivity
            | assumption ]
    | first [ left; reflexivity | right; reflexivity
            | right; apply print_int_hd_clear; reflexivity ] ].

(** X20.  The Transport line of the AirPlay 1 SETUP request, as the source
    documents it: "Transport:", any parameters, then ";control_port="
    and ";timing_port=" with their numbers, and the end of the line.
    [rtsp_parse_transport] returns the two port numbers, whatever
    precedes the header (as long as "Transport:" does not occur there)
    and whatever follows the line. *)
Theorem transport_ports_parsed
        (pre params post : list byte) (control timing : Z) :
  0 <= control <= 65535 -> 0 <= timing <= 65535 ->
  zero_free pre = true ->
  strstr pre (bytes_of_string "Transport:") = None ->
  zero_free params = true ->
  strstr params crlf = None ->
  strstr params (bytes_of_string "control_port=") = None ->
  strstr params (bytes_of_string "timing_port=") = None ->
  rtsp_parse_transport
    (pre ++ bytes_of_string "Transport:" ++ params
         ++ bytes_of_string ";control_port=" ++ print_int control
         ++ bytes_of_string ";timing_port=" ++ print_int timing
         ++ crlf ++ post)
  = (control, timing).
Proof.
  intros Hc Ht Hpre Hpre' Hpz Hp1 Hp2 Hp3.
  unfold rtsp_parse_transport.
  set (dc := print_int control). set (dt := print_int timing).
  set (TR := bytes_of_string "Transport:").
  set (KC := bytes_of_string "control_port=").
  set (KT := bytes_of_string "timing_port=").
  change (bytes_of_string ";control_port=") with ([59] ++ KC).
  change (bytes_of_string ";timing_port=") with ([59] ++ KT).
  rewrite <- !app_assoc.
  (* the header *)
  rewrite (strstr_shift TR pre); [| reflexivity | discriminate | assumption
                                  | assumption | right; reflexivity].
  rewrite (strstr_here TR) by reflexivity.
  cbn [option_map]. rewrite Nat.add_0_r, skipn_app, skipn_all, Nat.sub_diag.
  cbn [skipn]. rewrite app_nil_l.
  set (transport := TR ++ params ++ [59] ++ KC ++ dc ++ [59] ++ KT ++ dt
                       ++ crlf ++ post).
  (* the end of the line *)
  assert (Hend : strstr transport crlf
                 = Some (length (TR ++ params ++ [59] ++ KC ++ dc ++ [59]
                                    ++ KT ++ dt))).
  { unfold transport, dc, dt.
    shift_line. shift_line. shift_line. shift_line. shift_line. shift_line.
    shift_line. shift_line.
    rewrite (strstr_here crlf) by reflexivity. cbn [option_map].
    f_equal. repeat (rewrite length_app || (progress cbn [length])). lia. }
  (* the two keys *)
  assert (Hcp : strstr transport KC = Some (length (TR ++ params ++ [59]))).
  { unfold transport.
    shift_line. shift_line. shift_line.
    rewrite (strstr_here KC) by reflexivity. cbn [option_map].
    f_equal. repeat (rewrite length_app || (progress cbn [length])). lia. }
  assert (Htp : strstr transport KT
                = Some (length (TR ++ params ++ [59] ++ KC ++ dc ++ [59]))).
  { unfold transport, dc.
    shift_line. shift_line. shift_line. shift_line. shift_line. shift_line.
    rewrite (strstr_here KT) by reflexivity. cbn [option_map].
    f_equal. repeat (rewrite length_app || (progress cbn [length])). lia. }
  rewrite Hend, Hcp, Htp.
  assert (HKC : length KC = 13%nat) by reflexivity.
  assert (HKT : length KT = 12%nat) by reflexivity.
  assert (L1 : (length (TR ++ params ++ [59%Z])
                <? length (TR ++ params ++ [59%Z] ++ KC ++ dc ++ [59%Z] ++ KT ++ dt)
               )%nat = true).
  { apply Nat.ltb_lt.
    repeat (rewrite length_app || (progress cbn [length])). lia. }
  assert (L2 : (length (TR ++ params ++ [59%Z] ++ KC ++ dc ++ [59%Z])
                <? length (TR ++ params ++ [59%Z] ++ KC ++ dc ++ [59%Z] ++ KT ++ dt)
               )%nat = true).
  { apply Nat.ltb_lt.
    repeat (rewrite length_app || (progress cbn [length])). lia. }
  rewrite L1, L2.
  (* the numbers *)
  assert (S1 : skipn (length (TR ++ params ++ [59%Z]) + 13) transport
               = dc ++ [59%Z] ++ KT ++ dt ++ crlf ++ post).
  { replace (length (TR ++ params ++ [59%Z]) + 13)%nat
      with (length (TR ++ params ++ [59%Z] ++ KC))
      by (repeat (rewrite length_app || (progress cbn [length])); lia).
    unfold transport.
    replace (TR ++ params ++ [59%Z] ++ KC ++ dc ++ [59%Z] ++ KT ++ dt
                ++ crlf ++ post)
      with ((TR ++ params ++ [59%Z] ++ KC)
              ++ dc ++ [59%Z] ++ KT ++ dt ++ crlf ++ post)
      by (rewrite <- !app_assoc; reflexivity).
    rewrite skipn_app, skipn_all, Nat.sub_diag; reflexivity. }
  assert (S2 : skipn (length (TR ++ params ++ [59%Z] ++ KC ++ dc ++ [59%Z]) + 12)
                     transport
               = dt ++ crlf ++ post).
  { replace (length (TR ++ params ++ [59%Z] ++ KC ++ dc ++ [59%Z]) + 12)%nat
      with (length (TR ++ params ++ [59%Z] ++ KC ++ dc ++ [59%Z] ++ KT))
      by (repeat (rewrite length_app || (progress cbn [length])); lia).
    unfold transport.
    replace (TR ++ params ++ [59%Z] ++ KC ++ dc ++ [59%Z] ++ KT ++ dt
                ++ crlf ++ post)
      with ((TR ++ params ++ [59%Z] ++ KC ++ dc ++ [59%Z] ++ KT)
              ++ dt ++ crlf ++ post)
      by (rewrite <- !app_assoc; reflexivity).
    rewrite skipn_app, skipn_all, Nat.sub_diag; reflexivity. }
  rewrite S1, S2. unfold dc, dt.
  rewrite !atoi_print_int by (lia || reflexivity).
  rewrite !u16_small by lia. reflexivity.
Qed.

(** X21.  A key counts only on the Transport line.  When the line itself
    holds neither "control_port=" nor "timing_port=", both ports are 0,
    whatever follows the line: an occurrence of a key in a later header
    or in the body is not taken. *)
Theorem transport_keys_outside_line
        (pre params post : list byte) :
  zero_free pre = true ->
  strstr pre (bytes_of_string "Transport:") = None ->
  zero_free params = true ->
  strstr params crlf = None ->
  strstr params (bytes_of_string "control_port=") = None ->
  strstr params (bytes_of_string "timing_port=") = None ->
  rtsp_parse_transport
    (pre ++ bytes_of_string "Transport:" ++ params ++ crlf ++ post)
  = (0, 0).
Proof.
  intros Hpre Hpre' Hpz Hp1 Hp2 Hp3.
  unfold rtsp_parse_transport.
  set (TR := bytes_of_string "Transport:").
  set (KC := bytes_of_string "control_port=").
  set (KT := bytes_of_string "timing_port=").
  rewrite (strstr_shift TR pre); [| reflexivity | discriminate | assumption
                                  | assumption | right; reflexivity].
  rewrite (strstr_here TR) by reflexivity.
  cbn [option_map]. rewrite Nat.add_0_r, skipn_app, skipn_all, Nat.sub_diag.
  cbn [skipn]. rewrite app_nil_l.
  set (transport := TR ++ params ++ crlf ++ post).
  assert (Hend : strstr transport crlf = Some (length TR + length params)%nat).
  { unfold transport. shift_line. shift_line.
    rewrite (strstr_here crlf) by reflexivity. cbn [option_map].
    f_equal; lia. }
  assert (Hcp : strstr transport KC
                = option_map (Nat.add (length TR + length params))
                             (strstr (crlf ++ post) KC)).
  { unfold transport. shift_line. shift_line.
    destruct (strstr (crlf ++ post) KC); cbn [option_map]; f_equal; lia. }
  assert (Htp : strstr transport KT
                = option_map (Nat.add (length TR + length params))
                             (strstr (crlf ++ post) KT)).
  { unfold transport. shift_line. shift_line.
    destruct (strstr (crlf ++ post) KT); cbn [option_map]; f_equal; lia. }
  rewrite Hend, Hcp, Htp.
  destruct (strstr (crlf ++ post) KC) as [k1 |];
    destruct (strstr (crlf ++ post) KT) as [k2 |]; cbn [option_map];
    repeat match goal with
           | |- context [(?a + ?k <? ?a)%nat] =>
               destruct (Nat.ltb_spec (a + k) a); [lia |]
           end; reflexivity.
Qed.

(** ** rtsp_message.c: the two response builders *)

Section ResponseExtras.

Variable RTSP_ENCRYPTED_BLOCK_MAX : Z.
Variable aead_encrypt :
  list byte -> list byte -> list byte -> list byte -> list byte.

Local Abbreviation MAX := RTSP_ENCRYPTED_BLOCK_MAX (only parsing).

(** The writer on a connection in encrypted mode: the frames on the
    wire, the counter and the allocator. *)
Lemma write_frame_summary
      (w : world) (c : rtsp_conn_t) (sess : hap_session_t)
      (data : list byte) :
  0 < MAX <= 65535 ->
  hap_session c = Some sess ->
  encrypted_mode c = true ->
  let cs := chunks MAX data in
  let key := encrypt_key sess in
  let n0 := encrypt_nonce sess in
  exists r w' sess' k part,
    rtsp_crypto_write_frame MAX aead_encrypt w c data
    = Some (r, w', set_session c sess') /\
    encrypt_nonce sess' = Nat.iter k incr64 n0 /\
    wire w' = wire w ++ wire_frames aead_encrypt key n0 (firstn k cs) ++ part /\
    (exists j, part = firstn j (frame aead_encrypt key (Nat.iter k incr64 n0)
                                      (nth k cs []))) /\
    ((r = 0 /\ k = length cs /\ part = []) \/ r = -1) /\
    (reliable w -> aead_length_law aead_encrypt -> r = 0) /\
    live_blocks (trace w') = live_blocks (trace w) /\
    rx w' = rx w.
Proof.
  intros Hmax Hs Hm cs key n0.
  destruct (write_frame_loop_spec MAX aead_encrypt Hmax (length data) w sess
              data 0)
    as (r & w' & sess' & k & part & tail & Hrun & Hrx & _ & _ & _ & Hn & Hw
        & Htr & Hres & _); [lia | unfold len; lia |].
  change (skipn (Z.to_nat 0) data) with data in *.
  fold (chunks MAX data) in *; fold cs in Hw, Htr, Hres.
  exists r, w', sess', k, part.
  unfold rtsp_crypto_write_frame; rewrite Hs, Hm, Hrun.
  split; [reflexivity |]. split; [exact Hn |]. split; [exact Hw |].
  split.
  { destruct Hres as [(_ & _ & -> & _) | (_ & _ & (j & _ & ->) & _)];
      [exists O; reflexivity | exists j; reflexivity]. }
  split.
  { destruct Hres as [(-> & -> & -> & _) | (-> & _)]; auto. }
  split.
  { intros Hr Hlaw.
    destruct Hres as [(-> & _) | (_ & _ & _ & _ & Hnr)];
      [reflexivity | exfalso; exact (Hnr Hr Hlaw)]. }
  split; [| exact Hrx].
  rewrite Htr, !live_blocks_app, live_blocks_trace_frames.
  destruct Hres as [(_ & _ & _ & -> & _) | (_ & _ & _ & [-> | ->] & _)];
    simpl; lia.
Qed.

(** Lines 274-286 and 319-331 on a connection in plain mode. *)
Lemma deliver_plain (w1 : world) (conn : option rtsp_conn_t)
      (response : list byte) :
  plain_mode conn ->
  exists r w2 k,
    match conn with
    | Some c =>
        if encrypted_mode c then
          match rtsp_crypto_write_frame MAX aead_encrypt w1 c response with
          | None => None
          | Some (r, w2, c') => Some (r, free w2, Some c')
          end
        else
          match send_all w1 response with
          | None => None
          | Some (r, w2) => Some ((if r <? 0 then -1 else 0), free w2, conn)
          end
    | None =>
        match send_all w1 response with
        | None => None
        | Some (r, w2) => Some ((if r <? 0 then -1 else 0), free w2, conn)
        end
    end = Some (r, free w2, conn) /\
    wire w2 = wire w1 ++ firstn k response /\
    trace w2 = trace w1 /\ rx w2 = rx w1 /\
    ((r = 0 /\ k = length response) \/
     (r = -1 /\ (k < length response)%nat)) /\
    (reliable w1 -> r = 0).
Proof.
  intros Hplain.
  destruct (send_all_spec w1 response)
    as (r & w2 & k & Hsend & Hrx & _ & Htr & Hwire & Hres).
  exists (if r <? 0 then -1 else 0), w2, k.
  split.
  { destruct conn as [c |]; [cbn in Hplain; rewrite Hplain |];
      rewrite Hsend; reflexivity. }
  split; [exact Hwire |]. split; [exact Htr |]. split; [exact Hrx |].
  destruct Hres as [(-> & -> & _) | (-> & Hk & Hnr)]; cbn.
  - split; [left; split; reflexivity | reflexivity].
  - split; [right; split; [reflexivity | exact Hk] |].
    intros Hr; exfalso; exact (Hnr Hr).
Qed.

(** X22.  [rtsp_send_response] on a connection in plain mode, for any status,
    extra headers and body, when the formatted head fits the 1024-byte
    array: the response is the head followed by the [body_len] bytes of
    the body, the head carrying a "Content-Length:" line exactly when
    the body is not empty.  The call never puts on the wire anything but
    a prefix of the response: all of it when it returns 0, which it does
    whenever no send and no allocation fails; a proper prefix when it
    returns -1.  The response buffer is released on every path. *)
Theorem send_response_plain
        (w : world) (conn : option rtsp_conn_t) (status_code : Z)
        (status_text : list byte) (cseq : Z)
        (extra_headers : option (list byte)) (body : option (list byte))
        (body_len : Z) :
  plain_mode conn ->
  0 <= body_len ->
  match body with Some b => body_len <= len b | None => body_len = 0 end ->
  let head := response_head status_code status_text cseq extra_headers
                            (if 0 <? body_len then Some body_len else None) in
  let response :=
    head ++ match body with
            | Some b => firstn (Z.to_nat body_len) b
            | None => []
            end in
  len head <= 1023 ->
  exists r w' k,
    rtsp_send_response MAX aead_encrypt w conn status_code status_text cseq
                       extra_headers body body_len
    = Some (r, w', conn) /\
    wire w' = wire w ++ firstn k response /\
    ((r = 0 /\ wire w' = wire w ++ response) \/
     (r = -1 /\ (k < length response)%nat)) /\
    (reliable w -> r = 0) /\
    live_blocks (trace w') = live_blocks (trace w) /\
    rx w' = rx w.
Proof.
  intros Hplain Hbl Hbody head response Hfit.
  unfold rtsp_send_response.
  assert (Hhas : match body with Some _ => 0 <? body_len | None => false end
                 = (0 <? body_len)).
  { destruct body; [reflexivity |]. subst body_len; reflexivity. }
  rewrite Hhas. fold head.
  destruct (Z.ltb_spec 1024 (len head)); [lia |].
  destruct (Z.eqb_spec (len head) 1024); [lia |].
  cbv zeta.
  destruct (malloc w (len head + body_len)) as [ok w1] eqn:Hm.
  destruct (malloc_spec _ _ _ _ Hm) as (Mrx & Mtx & Mwire & Mtr & Mrel & _).
  assert (Hresp : head ++ match body with
                          | Some b => if 0 <? body_len
                                      then firstn (Z.to_nat body_len) b else []
                          | None => repeat 0 (Z.to_nat body_len)
                          end = response).
  { unfold response; f_equal. destruct body as [b |].
    - destruct (Z.ltb_spec 0 body_len); [reflexivity |].
      replace body_len with 0 by lia; reflexivity.
    - subst body_len; reflexivity. }
  rewrite Hresp.
  destruct ok; cbn [negb].
  2:{ exists (-1), w1, O; split; [reflexivity |].
      split; [simpl; rewrite app_nil_r; exact Mwire |].
      split.
      { right; split; [reflexivity |].
        unfold response; rewrite length_app.
        assert (0 < len head).
        { unfold head, response_head. rewrite len_app.
          change (len (bytes_of_string "RTSP/1.0 ")) with 9.
          pose proof (len_nonneg
            (print_int status_code ++ [32]
               ++ firstn (strlen status_text) status_text ++ crlf
               ++ bytes_of_string "CSeq: " ++ print_int cseq ++ crlf
               ++ SERVER_LINE
               ++ match extra_headers with
                  | Some h => firstn (strlen h) h
                  | None => []
                  end
               ++ (if 0 <? body_len
                   then bytes_of_string "Content-Length: "
                          ++ print_int body_len ++ crlf
                   else []) ++ crlf)).
          destruct (0 <? body_len); lia. }
        unfold len in *; lia. }
      split; [intros Hr; destruct (Mrel Hr); discriminate |].
      split; [| exact Mrx].
      rewrite Mtr, live_blocks_app; simpl; lia. }
  destruct (deliver_plain w1 conn response Hplain)
    as (r & w2 & k & Hrun & Hwire & Htr & Hrx & Hres & Hrel).
  rewrite Hrun.
  exists r, (free w2), k.
  split; [reflexivity |].
  split; [cbn; rewrite Hwire, Mwire; reflexivity |].
  split.
  { destruct Hres as [(-> & Hk) | (-> & Hk)].
    - left; split; [reflexivity |].
      cbn; rewrite Hwire, Mwire, Hk, firstn_all; reflexivity.
    - right; split; [reflexivity | exact Hk]. }
  split; [intros Hr; apply Hrel, Mrel, Hr |].
  split; [| cbn; congruence].
  cbn [free log trace]. rewrite !live_blocks_app, Htr, Mtr, live_blocks_app.
  simpl; lia.
Qed.

(** X23.  [rtsp_send_response] on a connection in encrypted mode never sends
    the response in the clear, whatever the state of the session.  The
    response is the formatted head as the 1024-byte array holds it (at
    1024 characters the last one is replaced by the terminating zero;
    a longer head makes the copy read past the array and is not
    followed) and the body after it.

    With a session, what reaches the wire is the frames of the first
    [k] pieces of the response, each under the next value of the
    outbound counter, and after them at most a prefix of the next
    frame; with return value 0 it is the frames of all the pieces, and
    the call returns 0 whenever no send and no allocation fails and a
    ciphertext is 16 bytes longer than its plaintext.

    Without a session (the state during teardown) the call returns -1
    although nothing fails: the frame writer refuses at its guard,
    nothing reaches the wire and the connection is as it was.

    Both the response buffer and the frame buffers are released on
    every path. *)
Theorem send_response_encrypted
        (w : world) (c : rtsp_conn_t)
        (status_code : Z) (status_text : list byte) (cseq : Z)
        (extra_headers : option (list byte)) (body : option (list byte))
        (body_len : Z) :
  0 < MAX <= 65535 ->
  encrypted_mode c = true ->
  0 <= body_len ->
  match body with Some b => body_len <= len b | None => body_len = 0 end ->
  let head := response_head status_code status_text cseq extra_headers
                            (if 0 <? body_len then Some body_len else None) in
  let header := if len head =? 1024 then firstn 1023 head ++ [0] else head in
  let response :=
    header ++ match body with
              | Some b => firstn (Z.to_nat body_len) b
              | None => []
              end in
  let cs := chunks MAX response in
  len head <= 1024 ->
  match hap_session c with
  | Some sess =>
      let key := encrypt_key sess in
      let n0 := encrypt_nonce sess in
      exists r w' sess' k part,
        rtsp_send_response MAX aead_encrypt w (Some c) status_code status_text
                           cseq extra_headers body body_len
        = Some (r, w', Some (set_session c sess')) /\
        wire w'
        = wire w ++ wire_frames aead_encrypt key n0 (firstn k cs) ++ part /\
        (exists j,
            part = firstn j (frame aead_encrypt key (Nat.iter k incr64 n0)
                                   (nth k cs []))) /\
        encrypt_nonce sess' = Nat.iter k incr64 n0 /\
        ((r = 0 /\ k = length cs /\ part = []) \/ r = -1) /\
        (reliable w -> aead_length_law aead_encrypt -> r = 0) /\
        live_blocks (trace w') = live_blocks (trace w)
  | None =>
      exists w',
        rtsp_send_response MAX aead_encrypt w (Some c) status_code status_text
                           cseq extra_headers body body_len
        = Some (-1, w', Some c) /\
        wire w' = wire w /\ tx w' = tx w /\ rx w' = rx w /\
        live_blocks (trace w') = live_blocks (trace w)
  end.
Proof.
  intros Hmax Hmode Hbl Hbody head header response cs Hfit.
  unfold rtsp_send_response.
  assert (Hhas : match body with Some _ => 0 <? body_len | None => false end
                 = (0 <? body_len)).
  { destruct body; [reflexivity |]. subst body_len; reflexivity. }
  rewrite Hhas. fold head.
  destruct (Z.ltb_spec 1024 (len head)); [lia |].
  cbv zeta. fold header.
  destruct (malloc w (len head + body_len)) as [ok w1] eqn:Hm.
  destruct (malloc_spec _ _ _ _ Hm) as (Mrx & Mtx & Mwire & Mtr & Mrel & _).
  assert (Hresp : header ++ match body with
                            | Some b => if 0 <? body_len
                                        then firstn (Z.to_nat body_len) b
                                        else []
                            | None => repeat 0 (Z.to_nat body_len)
                            end = response).
  { unfold response; f_equal. destruct body as [b |].
    - destruct (Z.ltb_spec 0 body_len); [reflexivity |].
      replace body_len with 0 by lia; reflexivity.
    - subst body_len; reflexivity. }
  rewrite Hresp.
  destruct (hap_session c) as [sess |] eqn:Hs.
  - cbv zeta.
    assert (Hc : set_session c sess = c).
    { destruct c as [os md st]; cbn in Hs, Hmode |- *; subst; reflexivity. }
    destruct ok; cbn [negb].
    2:{ exists (-1), w1, sess, O, []; rewrite Hc.
        split; [reflexivity |].
        split; [cbn; rewrite !app_nil_r; exact Mwire |].
        split; [exists O; reflexivity |].
        split; [reflexivity |].
        split; [right; reflexivity |].
        split; [intros Hr _; destruct (Mrel Hr); discriminate |].
        rewrite Mtr, live_blocks_app; simpl; lia. }
    rewrite Hmode.
    destruct (write_frame_summary w1 c sess response Hmax Hs Hmode)
      as (r & w2 & sess' & k & part & Hrun & Hn & Hwire & Hpart & Hres & Hrel
          & Hlive & _).
    rewrite Hrun.
    exists r, (free w2), sess', k, part.
    split; [reflexivity |].
    split; [cbn; rewrite Hwire, Mwire; reflexivity |].
    split; [exact Hpart |].
    split; [exact Hn |].
    split; [exact Hres |].
    split; [intros Hr Hlaw; apply Hrel; [apply Mrel, Hr | exact Hlaw] |].
    cbn [free log trace]. rewrite live_blocks_app, Hlive, Mtr, live_blocks_app.
    simpl; lia.
  - destruct ok; cbn [negb].
    2:{ exists w1; split; [reflexivity |].
        split; [exact Mwire |]. split; [exact Mtx |]. split; [exact Mrx |].
        rewrite Mtr, live_blocks_app; simpl; lia. }
    rewrite Hmode.
    unfold rtsp_crypto_write_frame; rewrite Hs.
    exists (free w1); split; [reflexivity |].
    split; [exact Mwire |]. split; [exact Mtx |]. split; [exact Mrx |].
    cbn [free log trace]. rewrite live_blocks_app, Mtr, live_blocks_app.
    simpl; lia.
Qed.

(** X25.  [rtsp_send_http_response] on a connection in plain mode, when the
    formatted head fits the 512-byte array: the response is the head
    (status line, content type, the content length as given, the server
    line and the fixed "CSeq: 1") followed by the [body_len] bytes of
    the body.  Nothing but a prefix of it reaches the wire: all of it
    with return value 0, which is the return whenever no send and no
    allocation fails; a proper prefix with -1.  The buffer is released
    on every path. *)
Theorem send_http_response_plain
        (w : world) (conn : option rtsp_conn_t) (status_code : Z)
        (status_text content_type : list byte) (body : option (list byte))
        (body_len : Z) :
  plain_mode conn ->
  0 <= body_len ->
  match body with Some b => body_len <= len b | None => body_len = 0 end ->
  let head := http_response_head status_code status_text content_type
                                 body_len in
  let response :=
    head ++ match body with
            | Some b => firstn (Z.to_nat body_len) b
            | None => []
            end in
  len head <= 511 ->
  exists r w' k,
    rtsp_send_http_response MAX aead_encrypt w conn status_code status_text
                            content_type body body_len
    = Some (r, w', conn) /\
    wire w' = wire w ++ firstn k response /\
    ((r = 0 /\ wire w' = wire w ++ response) \/
     (r = -1 /\ (k < length response)%nat)) /\
    (reliable w -> r = 0) /\
    live_blocks (trace w') = live_blocks (trace w) /\
    rx w' = rx w.
Proof.
  intros Hplain Hbl Hbody head response Hfit.
  unfold rtsp_send_http_response. fold head.
  destruct (Z.ltb_spec 512 (len head)); [lia |].
  destruct (Z.eqb_spec (len head) 512); [lia |].
  cbv zeta.
  destruct (malloc w (len head + body_len)) as [ok w1] eqn:Hm.
  destruct (malloc_spec _ _ _ _ Hm) as (Mrx & Mtx & Mwire & Mtr & Mrel & _).
  assert (Hresp : head ++ match body with
                          | Some b => if 0 <? body_len
                                      then firstn (Z.to_nat body_len) b else []
                          | None => repeat 0 (Z.to_nat body_len)
                          end = response).
  { unfold response; f_equal. destruct body as [b |].
    - destruct (Z.ltb_spec 0 body_len); [reflexivity |].
      replace body_len with 0 by lia; reflexivity.
    - subst body_len; reflexivity. }
  rewrite Hresp.
  destruct ok; cbn [negb].
  2:{ exists (-1), w1, O; split; [reflexivity |].
      split; [simpl; rewrite app_nil_r; exact Mwire |].
      split.
      { right; split; [reflexivity |].
        unfold response; rewrite length_app.
        assert (0 < len head).
        { unfold head, http_response_head. rewrite len_app.
          change (len (bytes_of_string "HTTP/1.1 ")) with 9.
          pose proof (len_nonneg
            (print_int status_code ++ [32]
               ++ firstn (strlen status_text) status_text ++ crlf
               ++ bytes_of_string "Content-Type: "
               ++ firstn (strlen content_type) content_type ++ crlf
               ++ bytes_of_string "Content-Length: "
               ++ print_int body_len ++ crlf
               ++ SERVER_LINE ++ bytes_of_string "CSeq: 1" ++ crlf ++ crlf)).
          lia. }
        unfold len in *; lia. }
      split; [intros Hr; destruct (Mrel Hr); discriminate |].
      split; [| exact Mrx].
      rewrite Mtr, live_blocks_app; simpl; lia. }
  destruct (deliver_plain w1 conn response Hplain)
    as (r & w2 & k & Hrun & Hwire & Htr & Hrx & Hres & Hrel).
  rewrite Hrun.
  exists r, (free w2), k.
  split; [reflexivity |].
  split; [cbn; rewrite Hwire, Mwire; reflexivity |].
  split.
  { destruct Hres as [(-> & Hk) | (-> & Hk)].
    - left; split; [reflexivity |].
      cbn; rewrite Hwire, Mwire, Hk, firstn_all; reflexivity.
    - right; split; [reflexivity | exact Hk]. }
  split; [intros Hr; apply Hrel, Mrel, Hr |].
  split; [| cbn; congruence].
  cbn [free log trace]. rewrite !live_blocks_app, Htr, Mtr, live_blocks_app.
  simpl; lia.
Qed.

End ResponseExtras.

Section ResponseRoundTrip.

Variable RTSP_ENCRYPTED_BLOCK_MAX : Z.
Variable aead_encrypt :
  list byte -> list byte -> list byte -> list byte -> list byte.
Variable aead_decrypt :
  list byte -> list byte -> list byte -> list byte -> option (list byte).

Hypothesis block_max_range : 0 < RTSP_ENCRYPTED_BLOCK_MAX <= 65535.
Hypothesis encrypt_length : aead_length_law aead_encrypt.
Hypothesis decrypt_encrypt : aead_inverse_law aead_encrypt aead_decrypt.

Local Abbreviation MAX := RTSP_ENCRYPTED_BLOCK_MAX (only parsing).

(** X26.  An HTTP-style response sent on a connection in encrypted mode
    reaches a peer that runs the reader.  When no send and no allocation
    fails, [rtsp_send_http_response] returns 0, and an idle reader with
    the same key and counter, given the bytes that were sent and a
    buffer that takes a full block, delivers in ceil(L / MAX) calls the
    L bytes of the response (head, then body) and nothing else; its
    inbound counter ends where the sender's outbound counter ends. *)
Theorem http_response_read_back
        (ww wr : world) (ctx crx : rtsp_conn_t) (stx srx : hap_session_t)
        (status_code : Z) (status_text content_type : list byte)
        (body : option (list byte)) (body_len buffer_size : Z) :
  hap_session ctx = Some stx -> encrypted_mode ctx = true ->
  hap_session crx = Some srx -> encrypted_mode crx = true ->
  decrypt_key srx = encrypt_key stx ->
  decrypt_nonce srx = encrypt_nonce stx ->
  rx_idle (crypto_rx crx) -> length (len_buf (crypto_rx crx)) = 2%nat ->
  MAX <= buffer_size ->
  reliable ww ->
  Forall (fun b => b = true) (heap wr) ->
  0 <= body_len ->
  match body with Some b => body_len <= len b | None => body_len = 0 end ->
  let head := http_response_head status_code status_text content_type
                                 body_len in
  let response :=
    head ++ match body with
            | Some b => firstn (Z.to_nat body_len) b
            | None => []
            end in
  len head <= 511 ->
  exists ww' stx' sent blocks wr' srx' st',
    rtsp_send_http_response MAX aead_encrypt ww (Some ctx) status_code
                            status_text content_type body body_len
    = Some (0, ww', Some (set_session ctx stx')) /\
    wire ww' = wire ww ++ sent /\
    read_blocks MAX aead_decrypt (Z.to_nat ((len response + MAX - 1) / MAX))
                (set_rx wr (arrives_whole sent)) crx buffer_size
    = Some (blocks, wr', mkConn (Some srx') true st') /\
    concat blocks = response /\
    rx wr' = [] /\ rx_idle st' /\
    decrypt_nonce srx' = encrypt_nonce stx'.
Proof.
  intros Hs Hm Hs' Hm' Hk Hn Hidle Hlb Hbuf Hrel Hheap Hbl Hbody head response
         Hfit.
  unfold rtsp_send_http_response. fold head.
  destruct (Z.ltb_spec 512 (len head)); [lia |].
  destruct (Z.eqb_spec (len head) 512); [lia |].
  cbv zeta.
  destruct (malloc ww (len head + body_len)) as [ok w1] eqn:Hmal.
  destruct (malloc_spec _ _ _ _ Hmal) as (_ & _ & Mwire & _ & Mrel & _).
  destruct (Mrel Hrel) as (-> & Hrel1). cbn [negb].
  assert (Hresp : head ++ match body with
                          | Some b => if 0 <? body_len
                                      then firstn (Z.to_nat body_len) b else []
                          | None => repeat 0 (Z.to_nat body_len)
                          end = response).
  { unfold response; f_equal. destruct body as [b |].
    - destruct (Z.ltb_spec 0 body_len); [reflexivity |].
      replace body_len with 0 by lia; reflexivity.
    - subst body_len; reflexivity. }
  rewrite Hresp, Hm.
  destruct (write_frame_summary MAX aead_encrypt w1 ctx stx response
              block_max_range Hs Hm)
    as (r & w2 & stx' & k & part & Hrun & Hnonce & Hwire & _ & Hres & Hok & _).
  rewrite (Hok Hrel1 encrypt_length) in *.
  destruct Hres as [(_ & -> & ->) | Hbad]; [| discriminate].
  rewrite firstn_all, app_nil_r in Hwire.
  rewrite Hrun.
  destruct (chunks_fuel_spec MAX (proj1 block_max_range) (length response)
              response (le_n _)) as (Hcat & Hall & Hnum).
  fold (chunks MAX response) in Hcat, Hall, Hnum.
  destruct crx as [os md [lb lr bl enc el er]]; rx_simpl_all; subst.
  destruct Hidle as (I1 & I2 & I3 & I4 & I5); rx_simpl_all; subst.
  set (sent := wire_frames aead_encrypt (encrypt_key stx) (encrypt_nonce stx)
                           (chunks MAX response)) in *.
  destruct (read_blocks_stream MAX aead_encrypt aead_decrypt block_max_range
              encrypt_length decrypt_encrypt (chunks MAX response)
              (set_rx wr (arrives_whole sent)) srx lb [] buffer_size Hlb)
    as (wr' & srx' & st' & Hread & R & _ & _ & Hi & _ & _ & _ & _ & K4).
  { eapply Forall_impl; [| exact Hall]. cbv beta; intros c Hc; lia. }
  { cbn [rx set_rx]. rewrite Hk, Hn, app_nil_r; reflexivity. }
  { exact Hheap. }
  exists (free w2), stx', sent, (chunks MAX response), wr', srx', st'.
  split; [reflexivity |].
  split; [cbn; rewrite Hwire, Mwire; reflexivity |].
  split; [rewrite <- Hnum, Nat2Z.id; exact Hread |].
  split; [exact Hcat |].
  split; [exact R |].
  split; [exact Hi |].
  rewrite K4, Hnonce, Hn; reflexivity.
Qed.

End ResponseRoundTrip.

(** ** rtsp_crypto.c: the length header *)

Lemma decode_len_value (b0 b1 : byte) :
  0 <= b0 < 256 -> 0 <= b1 < 256 -> decode_len [b0; b1] = b0 + 256 * b1.
Proof.
  intros H0 H1; unfold decode_len; cbn [nth].
  rewrite (u16_small b0), (u16_small b1) by lia.
  rewrite Z.shiftl_mul_pow2 by lia; change (2 ^ 8) with 256.
  assert (Hd : Z.land b0 (b1 * 256) = 0).
  { apply Z.bits_inj'; intros i Hi.
    rewrite Z.land_spec, Z.bits_0.
    destruct (Z.ltb_spec i 8).
    - change 256 with (2 ^ 8).
      rewrite Z.mul_pow2_bits_low by lia; apply andb_false_r.
    - rewrite <- (Z.mod_small b0 256) by lia. change 256 with (2 ^ 8) at 1.
      rewrite Z.mod_pow2_bits_high by lia; reflexivity. }
  rewrite <- Z.lxor_lor, <- Z.add_nocarry_lxor by exact Hd.
  rewrite u16_small by lia. lia.
Qed.

(** X9.  The two length bytes of a frame are the block length in
    little-endian order, and the reader's decoding inverts the writer's
    encoding in both directions: every length up to 65535 survives
    encoding and decoding, and every pair of bytes is the encoding of
    the length it decodes to. *)
Theorem length_header_roundtrip (n : Z) (b0 b1 : byte) :
  0 <= n <= 65535 -> 0 <= b0 < 256 -> 0 <= b1 < 256 ->
  decode_len (encode_len n) = n /\
  encode_len n = [n mod 256; n / 256] /\
  decode_len [b0; b1] = b0 + 256 * b1 /\
  encode_len (decode_len [b0; b1]) = [b0; b1].
Proof.
  intros Hn H0 H1.
  split; [apply decode_encode_len; lia |].
  assert (Henc : forall m, 0 <= m <= 65535 ->
                           encode_len m = [m mod 256; m / 256]).
  { intros m Hm; unfold encode_len.
    rewrite !land_255, Z.shiftr_div_pow2 by lia. change (2 ^ 8) with 256.
    assert (0 <= m / 256 < 256)
      by (split; [apply Z.div_pos; lia | apply Z.div_lt_upper_bound; lia]).
    rewrite (Z.mod_small (m / 256) 256) by lia.
    pose proof (Z.mod_pos_bound m 256).
    rewrite !u8_small by lia. reflexivity. }
  split; [apply Henc; exact Hn |].
  split; [apply decode_len_value; assumption |].
  rewrite decode_len_value by assumption.
  rewrite Henc by lia.
  replace (b0 + 256 * b1) with (b0 + b1 * 256) by lia.
  rewrite Z.mod_add, Z.div_add by lia.
  rewrite Z.mod_small, Z.div_small by lia. reflexivity.
Qed.

(** ** rtsp_message.c: a head that fills the array *)

Section ResponseEdge.

Variable RTSP_ENCRYPTED_BLOCK_MAX : Z.
Variable aead_encrypt :
  list byte -> list byte -> list byte -> list byte -> list byte.

Local Abbreviation MAX := RTSP_ENCRYPTED_BLOCK_MAX (only parsing).

(** X24.  When the formatted head of a response has exactly 1024 bytes,
    [snprintf] stores its first 1023 bytes and a terminating zero in the
    1024-byte array and still returns 1024, and [rtsp_send_response]
    copies 1024 bytes from the array.  On a connection in plain mode
    with no send and no allocation failing the call returns 0, and what
    is on the wire is the head with its last byte, the LF of the closing
    blank line, replaced by a zero byte, followed by the body. *)
Theorem send_response_head_1024
        (w : world) (conn : option rtsp_conn_t) (status_code : Z)
        (status_text : list byte) (cseq : Z)
        (extra_headers : option (list byte)) (body : option (list byte))
        (body_len : Z) :
  plain_mode conn ->
  reliable w ->
  0 <= body_len ->
  match body with Some b => body_len <= len b | None => body_len = 0 end ->
  let head := response_head status_code status_text cseq extra_headers
                            (if 0 <? body_len then Some body_len else None) in
  let payload := match body with
                 | Some b => firstn (Z.to_nat body_len) b
                 | None => []
                 end in
  len head = 1024 ->
  exists w',
    rtsp_send_response MAX aead_encrypt w conn status_code status_text cseq
                       extra_headers body body_len
    = Some (0, w', conn) /\
    wire w' = wire w ++ firstn 1023 head ++ [0] ++ payload /\
    head = firstn 1023 head ++ [LF].
Proof.
  intros Hplain Hrel Hbl Hbody head payload Hlen.
  unfold rtsp_send_response.
  assert (Hhas : match body with Some _ => 0 <? body_len | None => false end
                 = (0 <? body_len)).
  { destruct body; [reflexivity |]. subst body_len; reflexivity. }
  rewrite Hhas. fold head. rewrite Hlen.
  change (1024 <? 1024) with false; change (1024 =? 1024) with true.
  cbv zeta iota.
  destruct (malloc w (1024 + body_len)) as [ok w1] eqn:Hm.
  destruct (malloc_spec _ _ _ _ Hm) as (_ & _ & Mwire & _ & Mrel & _).
  destruct (Mrel Hrel) as (-> & Hrel1). cbn [negb].
  assert (Hpay : match body with
                 | Some b => if 0 <? body_len
                             then firstn (Z.to_nat body_len) b else []
                 | None => repeat 0 (Z.to_nat body_len)
                 end = payload).
  { unfold payload. destruct body as [b |].
    - destruct (Z.ltb_spec 0 body_len); [reflexivity |].
      replace body_len with 0 by lia; reflexivity.
    - subst body_len; reflexivity. }
  rewrite Hpay.
  destruct (deliver_plain MAX aead_encrypt w1 conn
              ((firstn 1023 head ++ [0]) ++ payload) Hplain)
    as (r & w2 & k & Hrun & Hwire & _ & _ & Hres & Hok).
  rewrite Hrun, (Hok Hrel1) in *.
  destruct Hres as [(_ & ->) | (Hbad & _)]; [| discriminate].
  exists (free w2). split; [reflexivity |].
  split.
  { cbn [free log wire]. rewrite Hwire, Mwire, firstn_all, <- !app_assoc.
    reflexivity. }
  (* the head ends with the LF of the blank line *)
  assert (Hend : exists a, head = a ++ [LF]).
  { unfold head, response_head. rewrite !app_assoc.
    match goal with
    | |- exists a, ?x ++ crlf = _ =>
        exists (x ++ [CR]); rewrite <- (app_assoc x); reflexivity
    end. }
  destruct Hend as (a & Ha). rewrite Ha in Hlen |- *.
  rewrite len_app in Hlen. change (len [LF]) with 1 in Hlen.
  rewrite firstn_app.
  replace (1023 - length a)%nat with O by (unfold len in Hlen; lia).
  rewrite firstn_all2 by (unfold len in Hlen; lia).
  cbn [firstn]. rewrite app_nil_r. reflexivity.
Qed.

End ResponseEdge.

(** ** rtsp_message.c: the header lookup goes line by line *)

Lemma find_header_loop_fuel (key : list byte) (f1 : nat) :
  forall f2 p, (strlen p < f1)%nat -> (strlen p < f2)%nat ->
               find_header_loop f1 p key = find_header_loop f2 p key.
Proof.
  induction f1 as [| f1 IH]; intros f2 p H1 H2; [lia |].
  destruct f2 as [| f2]; [lia |].
  cbn [find_header_loop].
  destruct (hd 0 p =? 0); [reflexivity |].
  destruct (strstr p crlf) as [k |] eqn:Ek.
  - destruct ((strlen key <=? k)%nat && strncasecmp_eq p key (strlen key));
      [reflexivity |].
    destruct (nth k p 0 =? 0); [reflexivity |].
    assert (Hk : (k + 2 <= strlen p)%nat).
    { apply (strstr_bound crlf); [| exact Ek].
      repeat constructor; discriminate. }
    apply IH; rewrite strlen_skipn by lia; lia.
  - destruct ((strlen key <=? strlen p)%nat
              && strncasecmp_eq p key (strlen key)); [reflexivity |].
    rewrite nth_strlen; reflexivity.
Qed.

Lemma strlen_app (a b : list byte) :
  zero_free a = true -> strlen (a ++ b) = (length a + strlen b)%nat.
Proof.
  induction a as [| c a IH]; [reflexivity |].
  cbn [zero_free forallb app strlen length].
  destruct (c =? 0); [discriminate |]. intros H; rewrite IH; auto.
Qed.

Lemma strncasecmp_eq_app (n : nat) :
  forall line more key,
    (n <= length line)%nat ->
    strncasecmp_eq (line ++ more) key n = strncasecmp_eq line key n.
Proof.
  induction n as [| n IH]; intros line more key H; [reflexivity |].
  destruct line as [| c line]; [simpl in H; lia |].
  cbn [strncasecmp_eq app hd tl].
  rewrite IH by (simpl in H; lia). reflexivity.
Qed.

(** X17.  [find_header_ci] reads the header block line by line.  For a block
    that begins with a line (without zero byte, ended by the first
    CR LF) it answers from that line when the line starts with the key,
    letter case aside: the value is what follows the key, leading spaces
    and tabs skipped.  Otherwise it goes on with what follows the line.
    So of several lines that start with the key the first one wins, and
    the key is never taken from the middle of a line. *)
Theorem header_lookup_by_lines (line rest key : list byte) :
  strlen key <> O ->
  zero_free line = true ->
  strstr line crlf = None ->
  find_header_ci (line ++ crlf ++ rest) key
  = if (strlen key <=? length line)%nat
       && strncasecmp_eq line key (strlen key)
    then Some (Some (skip_blanks (skipn (strlen key) line ++ crlf ++ rest)))
    else find_header_ci rest key.
Proof.
  intros Hkey Hz Hnone.
  unfold find_header_ci.
  destruct (Nat.eqb_spec (strlen key) 0); [contradiction |].
  assert (Hlen : strlen (line ++ crlf ++ rest)
                 = (length line + (2 + strlen rest))%nat).
  { rewrite strlen_app by exact Hz. reflexivity. }
  rewrite Hlen.
  set (R := find_header_loop (S (strlen rest)) rest key).
  cbn [find_header_loop].
  assert (Hhd : (hd 0 (line ++ crlf ++ rest) =? 0) = false).
  { destruct line as [| c line]; [reflexivity |].
    cbn [zero_free forallb] in Hz. cbn [app hd].
    destruct (c =? 0); [discriminate | reflexivity]. }
  rewrite Hhd.
  assert (Hend : strstr (line ++ crlf ++ rest) crlf = Some (length line)).
  { rewrite strstr_shift;
      [| reflexivity | discriminate | exact Hz | exact Hnone
       | right; reflexivity].
    rewrite (strstr_here crlf) by reflexivity.
    cbn [option_map]; f_equal; lia. }
  rewrite Hend.
  destruct (Nat.leb_spec (strlen key) (length line)) as [Hle | Hgt];
    cbn [andb].
  - rewrite strncasecmp_eq_app by exact Hle.
    destruct (strncasecmp_eq line key (strlen key)).
    + rewrite skipn_app.
      replace (strlen key - length line)%nat with O by lia.
      reflexivity.
    + rewrite app_nth2, Nat.sub_diag by lia.
      change (nth 0 (crlf ++ rest) 0 =? 0) with false; cbv iota.
      replace (length line + 2)%nat with (length (line ++ crlf))
        by (rewrite length_app; reflexivity).
      rewrite app_assoc, skipn_app, skipn_all, Nat.sub_diag.
      cbn [skipn app].
      apply find_header_loop_fuel; lia.
  - rewrite app_nth2, Nat.sub_diag by lia.
    change (nth 0 (crlf ++ rest) 0 =? 0) with false; cbv iota.
    replace (length line + 2)%nat with (length (line ++ crlf))
      by (rewrite length_app; reflexivity).
    rewrite app_assoc, skipn_app, skipn_all, Nat.sub_diag.
    cbn [skipn app].
    apply find_header_loop_fuel; lia.
Qed.

(** ** Instances of the properties of the message functions *)

(** Five bytes on a socket that takes two bytes, then fails. *)
Lemma send_all_outcome_witness :
  exists r w',
    send_all (mkWorld [] [TxAccept 2; TxFail] [] [] None []) hello
    = Some (r, w') /\
    r = -1 /\ wire w' = [72; 69].
Proof.
  destruct (send_all_outcome (mkWorld [] [TxAccept 2; TxFail] [] [] None [])
                             hello)
    as (r & w' & k & Hrun & Hw & _).
  vm_compute in Hrun. inversion Hrun; subst.
  eexists _, _; split; [reflexivity | split; reflexivity].
Defined.

Lemma find_header_end_first_witness :
  rtsp_find_header_end setup_request = Some 50%nat /\
  firstn 4 (skipn 50 setup_request) = [CR; LF; CR; LF] /\
  firstn 4 (skipn 22 setup_request) <> [CR; LF; CR; LF].
Proof.
  pose proof (find_header_end_first setup_request) as H.
  change (rtsp_find_header_end setup_request) with (Some 50%nat) in H.
  destruct H as (_ & Hat & Hbefore).
  split; [reflexivity |]. split; [exact Hat |]. apply Hbefore; lia.
Defined.

(** A caller's length that ends before the body: the body length wraps
    around; a length that reaches past the body gives the bytes left. *)
Lemma get_body_after_header_end_witness :
  rtsp_get_body (bytes_of_string "ab" ++ crlf ++ crlf ++ bytes_of_string "XY") 3
  = (Some 6%nat, 4294967293) /\
  rtsp_get_body (bytes_of_string "ab" ++ crlf ++ crlf ++ bytes_of_string "XY") 8
  = (Some 6%nat, 2).
Proof.
  split.
  - destruct (get_body_after_header_end
                (bytes_of_string "ab" ++ crlf ++ crlf ++ bytes_of_string "XY")
                3) as (H & _); [lia | vm_compute; reflexivity |].
    rewrite H; reflexivity.
  - destruct (get_body_after_header_end
                (bytes_of_string "ab" ++ crlf ++ crlf ++ bytes_of_string "XY")
                8) as (H & _); [lia | vm_compute; reflexivity |].
    rewrite H; reflexivity.
Defined.

(** A request of white space only is rejected although it holds the
    end of a header; the same four bytes are accepted when the buffer
    goes on with a method after them. *)
Lemma request_parse_rejects_witness :
  rtsp_request_parse 64 (crlf ++ crlf) = Some None /\
  exists r,
    rtsp_request_parse_at 64 (crlf ++ crlf ++ bytes_of_string "GET /x") 4
    = Some r /\ r <> None.
Proof.
  split.
  - destruct (request_parse_rejects 64 (crlf ++ crlf) 4)
      as (_ & r & Hrun & Hiff);
      [vm_compute; split; intros H; discriminate H |].
    rewrite Hrun. f_equal. apply Hiff. right; right; reflexivity.
  - destruct (request_parse_rejects
                64 (crlf ++ crlf ++ bytes_of_string "GET /x") 4)
      as ((r & Hrun & Hiff) & _);
      [vm_compute; split; intros H; discriminate H |].
    exists r; split; [exact Hrun |].
    intros E; apply Hiff in E.
    destruct E as [E | [E | E]]; vm_compute in E; discriminate E.
Defined.

Lemma request_parse_fields_fit_witness :
  exists req,
    rtsp_request_parse 64 setup_request = Some (Some req) /\
    (length (method req) <= 31)%nat /\
    body_bytes setup_request req = skipn 54 setup_request.
Proof.
  destruct (rtsp_request_parse 64 setup_request) as [[req |] |] eqn:E;
    try (vm_compute in E; discriminate E).
  exists req. split; [reflexivity |].
  destruct (request_parse_fields_fit 64 setup_request req E)
    as (Hm & _ & _ & _ & _ & Hb).
  split; [lia |].
  assert (Hoff : body req = Some 54%nat).
  { vm_compute in E. inversion E; reflexivity. }
  rewrite Hoff in Hb. apply Hb.
Defined.

(** The same header with two different bodies. *)
Lemma request_headers_from_head_witness :
  exists r1 r2,
    rtsp_request_parse 64 setup_request = Some (Some r1) /\
    rtsp_request_parse 64 (setup_request ++ bytes_of_string "CSeq: 9")
    = Some (Some r2) /\
    cseq r1 = cseq r2.
Proof.
  destruct (rtsp_request_parse 64 setup_request) as [[r1 |] |] eqn:E1;
    try (vm_compute in E1; discriminate E1).
  destruct (rtsp_request_parse 64 (setup_request ++ bytes_of_string "CSeq: 9"))
    as [[r2 |] |] eqn:E2;
    try (vm_compute in E2; discriminate E2).
  exists r1, r2. split; [reflexivity |]. split; [reflexivity |].
  apply (request_headers_from_head 64 setup_request
           (setup_request ++ bytes_of_string "CSeq: 9") 50 50 r1 r2);
    first [reflexivity | assumption].
Defined.

Lemma header_lookup_ignores_case_witness :
  exists v1 v2,
    find_header_ci (request_with "CSeq: 7") (bytes_of_string "CSeq:")
    = Some (Some v1) /\
    find_header_ci (request_with "cseq: 7") (bytes_of_string "CSEQ:")
    = Some (Some v2) /\
    atoi v1 = atoi v2.
Proof.
  destruct (header_lookup_ignores_case
              (request_with "CSeq: 7") (request_with "cseq: 7")
              (bytes_of_string "CSeq:") (bytes_of_string "CSEQ:"))
    as (r1 & r2 & E1 & E2 & Hres); [reflexivity | reflexivity |].
  destruct r1 as [v1 |]; [| vm_compute in E1; discriminate E1].
  destruct r2 as [v2 |]; [| vm_compute in E2; discriminate E2].
  exists v1, v2. split; [exact E1 |]. split; [exact E2 | apply Hres].
Defined.

Lemma response_cseq_read_back_witness :
  rtsp_parse_cseq
    (response_head 200 (bytes_of_string "OK") (-7)
                   (Some (bytes_of_string "Public: SETUP" ++ crlf)) (Some 5))
  = -7.
Proof.
  apply response_cseq_read_back; [lia | reflexivity].
Defined.

Lemma response_content_length_read_back_witness :
  rtsp_parse_content_length
    (response_head 200 (bytes_of_string "OK") 3
                   (Some (bytes_of_string "Content-Type: text/parameters"
                            ++ crlf))
                   (Some 1234))
  = 1234.
Proof.
  apply response_content_length_read_back; [lia | reflexivity | reflexivity].
Defined.

Lemma transport_ports_parsed_witness :
  rtsp_parse_transport
    (bytes_of_string "SETUP rtsp://10.0.0.2/1 RTSP/1.0" ++ crlf
       ++ bytes_of_string "Transport:"
       ++ bytes_of_string " RTP/AVP/UDP;unicast;mode=record"
       ++ bytes_of_string ";control_port=" ++ print_int 6001
       ++ bytes_of_string ";timing_port=" ++ print_int 6002
       ++ crlf ++ crlf)
  = (6001, 6002).
Proof.
  rewrite app_assoc.
  apply (transport_ports_parsed
           (bytes_of_string "SETUP rtsp://10.0.0.2/1 RTSP/1.0" ++ crlf)
           (bytes_of_string " RTP/AVP/UDP;unicast;mode=record") crlf
           6001 6002); first [lia | reflexivity].
Defined.

(** The keys stand in the body, not on the Transport line. *)
Lemma transport_keys_outside_line_witness :
  rtsp_parse_transport
    (bytes_of_string "SETUP rtsp://10.0.0.2/1 RTSP/1.0" ++ crlf
       ++ bytes_of_string "Transport:"
       ++ bytes_of_string " RTP/AVP/UDP;unicast"
       ++ crlf
       ++ crlf ++ bytes_of_string "control_port=6001;timing_port=6002")
  = (0, 0).
Proof.
  rewrite app_assoc.
  apply (transport_keys_outside_line
           (bytes_of_string "SETUP rtsp://10.0.0.2/1 RTSP/1.0" ++ crlf)
           (bytes_of_string " RTP/AVP/UDP;unicast")
           (crlf ++ bytes_of_string "control_port=6001;timing_port=6002"));
    reflexivity.
Defined.

Lemma length_header_roundtrip_witness :
  decode_len (encode_len 1029) = 1029 /\
  encode_len 1029 = [5; 4] /\
  encode_len (decode_len [5; 4]) = [5; 4].
Proof.
  destruct (length_header_roundtrip 1029 5 4) as (H1 & H2 & _ & H4);
    try lia.
  split; [exact H1 |]. split; [exact H2 | exact H4].
Defined.

(** A first line that does not start with the key, then one that does. *)
Lemma header_lookup_by_lines_witness :
  find_header_ci (request_with "CSeq: 7") (bytes_of_string "CSeq:")
  = find_header_ci (bytes_of_string "CSeq: 7" ++ crlf ++ crlf)
                   (bytes_of_string "CSeq:").
Proof.
  exact (header_lookup_by_lines (bytes_of_string "OPTIONS * RTSP/1.0")
           (bytes_of_string "CSeq: 7" ++ crlf ++ crlf)
           (bytes_of_string "CSeq:")
           ltac:(discriminate) eq_refl eq_refl).
Defined.

(** A 200 response with one extra header and the body "HELLO", in the
    clear. *)
Lemma send_response_plain_witness :
  exists w',
    rtsp_send_response 1024 toy_encrypt quiet_world None 200
      (bytes_of_string "OK") 3
      (Some (bytes_of_string "Content-Type: text/parameters" ++ crlf))
      (Some hello) 5
    = Some (0, w', None) /\
    wire w'
    = bytes_of_string "RTSP/1.0 200 OK" ++ crlf
        ++ bytes_of_string "CSeq: 3" ++ crlf
        ++ bytes_of_string "Server: AirTunes/377.40.00" ++ crlf
        ++ bytes_of_string "Content-Type: text/parameters" ++ crlf
        ++ bytes_of_string "Content-Length: 5" ++ crlf
        ++ crlf ++ hello.
Proof.
  destruct (send_response_plain 1024 toy_encrypt quiet_world None 200
              (bytes_of_string "OK") 3
              (Some (bytes_of_string "Content-Type: text/parameters" ++ crlf))
              (Some hello) 5)
    as (r & w' & k & Hrun & _ & Hres & Hok & _).
  - exact I.
  - lia.
  - vm_compute; intros H; discriminate H.
  - vm_compute; intros H; discriminate H.
  - rewrite (Hok quiet_world_reliable) in *.
    destruct Hres as [(_ & Hw) | (Hbad & _)]; [| discriminate Hbad].
    exists w'; split; [exact Hrun | exact Hw].
Defined.

(** The same response on a connection in encrypted mode, in blocks of
    at most 64 bytes; and on a connection in encrypted mode whose
    session is gone. *)
Lemma send_response_encrypted_witness :
  (exists w' conn',
      rtsp_send_response 64 toy_encrypt quiet_world (Some (toy_conn 0)) 200
        (bytes_of_string "OK") 3
        (Some (bytes_of_string "Content-Type: text/parameters" ++ crlf))
        (Some hello) 5
      = Some (0, w', conn') /\
      option_map encrypt_nonce
                 (match conn' with Some c => hap_session c | None => None end)
      = Some 2) /\
  (exists w',
      rtsp_send_response 64 toy_encrypt quiet_world
        (Some (mkConn None true rx_zero)) 200 (bytes_of_string "OK") 3
        None None 0
      = Some (-1, w', Some (mkConn None true rx_zero)) /\
      wire w' = []).
Proof.
  split.
  2:{ destruct (send_response_encrypted 64 toy_encrypt quiet_world
                  (mkConn None true rx_zero) 200 (bytes_of_string "OK") 3
                  None None 0)
        as (w' & Hrun & Hw & _).
      - lia.
      - reflexivity.
      - lia.
      - reflexivity.
      - vm_compute; intros H; discriminate H.
      - exists w'; split; [exact Hrun | exact Hw]. }
  destruct (send_response_encrypted 64 toy_encrypt quiet_world (toy_conn 0)
              200 (bytes_of_string "OK") 3
              (Some (bytes_of_string "Content-Type: text/parameters" ++ crlf))
              (Some hello) 5)
    as (r & w' & sess' & k & part & Hrun & _ & _ & Hn & Hres & Hok & _).
  - lia.
  - reflexivity.
  - lia.
  - vm_compute; intros H; discriminate H.
  - vm_compute; intros H; discriminate H.
  - rewrite (Hok quiet_world_reliable toy_length_law) in *.
    destruct Hres as [(_ & Hk & _) | Hbad]; [| discriminate Hbad].
    exists w', (Some (set_session (toy_conn 0) sess')).
    split; [exact Hrun |].
    cbn [set_session hap_session option_map]. rewrite Hn, Hk. reflexivity.
Defined.

Lemma send_http_response_plain_witness :
  exists w',
    rtsp_send_http_response 1024 toy_encrypt quiet_world None 404
      (bytes_of_string "Not Found") (bytes_of_string "text/plain")
      None 0
    = Some (0, w', None) /\
    wire w'
    = bytes_of_string "HTTP/1.1 404 Not Found" ++ crlf
        ++ bytes_of_string "Content-Type: text/plain" ++ crlf
        ++ bytes_of_string "Content-Length: 0" ++ crlf
        ++ bytes_of_string "Server: AirTunes/377.40.00" ++ crlf
        ++ bytes_of_string "CSeq: 1" ++ crlf
        ++ crlf.
Proof.
  destruct (send_http_response_plain 1024 toy_encrypt quiet_world None 404
              (bytes_of_string "Not Found") (bytes_of_string "text/plain")
              None 0)
    as (r & w' & k & Hrun & _ & Hres & Hok & _).
  - exact I.
  - lia.
  - reflexivity.
  - vm_compute; intros H; discriminate H.
  - rewrite (Hok quiet_world_reliable) in *.
    destruct Hres as [(_ & Hw) | (Hbad & _)]; [| discriminate Hbad].
    exists w'; split; [exact Hrun | exact Hw].
Defined.

(** An HTTP-style response with the body "HELLO", sent encrypted in
    blocks of at most 64 bytes and read back. *)
Lemma http_response_read_back_witness :
  exists sent blocks wr' conn',
    option_map (fun r => wire (snd (fst r)))
      (rtsp_send_http_response 64 toy_encrypt quiet_world (Some (toy_conn 0))
         200 (bytes_of_string "OK") (bytes_of_string "text/plain")
         (Some hello) 5)
    = Some sent /\
    read_blocks 64 toy_decrypt 2 (set_rx quiet_world (arrives_whole sent))
                (toy_conn 0) 64
    = Some (blocks, wr', conn') /\
    concat blocks
    = http_response_head 200 (bytes_of_string "OK")
                         (bytes_of_string "text/plain") 5 ++ hello.
Proof.
  destruct (http_response_read_back 64 toy_encrypt toy_decrypt)
    with (ww := quiet_world) (wr := quiet_world)
         (ctx := toy_conn 0) (crx := toy_conn 0)
         (stx := toy_session 0) (srx := toy_session 0)
         (status_code := 200) (status_text := bytes_of_string "OK")
         (content_type := bytes_of_string "text/plain")
         (body := Some hello) (body_len := 5) (buffer_size := 64)
    as (ww' & stx' & sent & blocks & wr' & srx' & st' & Hw & Hwire & Hr & Hc
        & _).
  - lia.
  - exact toy_length_law.
  - exact toy_inverse_law.
  - reflexivity.
  - reflexivity.
  - reflexivity.
  - reflexivity.
  - reflexivity.
  - reflexivity.
  - exact rx_zero_idle.
  - reflexivity.
  - lia.
  - exact quiet_world_reliable.
  - constructor.
  - lia.
  - vm_compute; intros H; discriminate H.
  - vm_compute; intros H; discriminate H.
  - exists sent, blocks, wr', (mkConn (Some srx') true st').
    split; [rewrite Hw; cbn [option_map fst snd]; rewrite Hwire; reflexivity |].
    split; [exact Hr | exact Hc].
Defined.

(** Extra headers of 968 bytes make a head of exactly 1024 bytes. *)
Lemma send_response_head_1024_witness :
  exists w',
    rtsp_send_response 1024 toy_encrypt quiet_world None 200
      (bytes_of_string "OK") 1
      (Some (bytes_of_string "X: " ++ repeat 97 963 ++ crlf)) None 0
    = Some (0, w', None) /\
    len (wire w') = 1024 /\ last (wire w') 7 = 0.
Proof.
  destruct (send_response_head_1024 1024 toy_encrypt quiet_world None 200
              (bytes_of_string "OK") 1
              (Some (bytes_of_string "X: " ++ repeat 97 963 ++ crlf)) None 0)
    as (w' & Hrun & Hw & _).
  - exact I.
  - exact quiet_world_reliable.
  - lia.
  - reflexivity.
  - vm_compute; reflexivity.
  - exists w'. split; [exact Hrun |]. rewrite Hw.
    split; vm_compute; reflexivity.
Defined.

(** ** rtsp_crypto.c: a frame that arrives in pieces *)

Lemma read_len_loop_take_second (w : world) (st : crypto_rx_t) (h1 : byte)
      (q : list byte) (tail : list rx_event) :
  len_received st = 1 ->
  rx w = RxBytes h1 q :: tail ->
  read_len_loop 2 w st
  = Some (LoopDone (set_rx w (arrives_whole q ++ tail))
                   (set_len st (write_at (len_buf st) 1 [h1]) 2)).
Proof.
  intros Hlr Hrx.
  cbn [read_len_loop]; rewrite Hlr; cbn [Z.ltb Z.compare].
  unfold recv; rewrite Hrx.
  change (Z.to_nat (2 - 1)) with 1%nat; cbn [firstn skipn].
  rx_simpl.
  change (u8 (1 + u8 (len [h1]))) with 2; cbn [Z.ltb Z.compare].
  destruct q; reflexivity.
Qed.

Section Segments.

Variable RTSP_ENCRYPTED_BLOCK_MAX : Z.
Variable aead_decrypt :
  list byte -> list byte -> list byte -> list byte -> option (list byte).

Variable sess : hap_session_t.
Variable lb : list byte.
Variables h0 h1 : byte.
Variable body : list byte.
Variable buffer_size : Z.

Local Abbreviation MAX := RTSP_ENCRYPTED_BLOCK_MAX (only parsing).
Local Abbreviation read_block :=
  (rtsp_crypto_read_block RTSP_ENCRYPTED_BLOCK_MAX aead_decrypt)
  (only parsing).
Local Abbreviation finish := (finish_block aead_decrypt) (only parsing).
Local Abbreviation drive :=
  (read_until_done RTSP_ENCRYPTED_BLOCK_MAX aead_decrypt) (only parsing).
Local Abbreviation blen := (decode_len [h0; h1]) (only parsing).
Local Abbreviation zeros := (repeat 0 (Z.to_nat (blen + 16))) (only parsing).
Local Abbreviation f := (h0 :: h1 :: body) (only parsing).
Local Abbreviation conn_at st := (mkConn (Some sess) true st) (only parsing).
Local Abbreviation holding got :=
  (mkRx [h0; h1] 2 blen (Some (write_at zeros 0 got)) (blen + 16) (len got))
  (only parsing).

Hypothesis lb_length : length lb = 2%nat.
Hypothesis length_valid : 1 <= blen <= MAX.
Hypothesis length_fits : blen <= buffer_size.
Hypothesis body_length : len body = blen + 16.

(** The ciphertext loop takes a piece that does not complete the
    frame, and the call ends for want of more. *)
Lemma enc_loop_piece (fuel : nat) (w : world) (got q : list byte)
      (rest : list rx_event) :
  len got + len q < blen + 16 ->
  rx w = arrives_whole q ++ RxFail EAGAIN :: rest ->
  read_enc_loop (S (S fuel)) w (holding got)
  = Some (LoopExit ExitEncAgain (set_errno (set_rx w rest) EAGAIN)
                   (holding (got ++ q))).
Proof.
  intros Hlt Hrx.
  pose proof (len_nonneg got) as Hg.
  destruct q as [| b bs].
  - cbn [arrives_whole app] in Hrx.
    change (len (@nil Z)) with 0 in Hlt.
    rewrite (read_enc_loop_again _ w _ rest); [| rx_simpl; lia | exact Hrx].
    rewrite app_nil_r; reflexivity.
  - cbn [arrives_whole app] in Hrx.
    rewrite (read_enc_loop_partial _ w _ (write_at zeros 0 got) b bs rest);
      [| reflexivity | rx_simpl; lia | exact Hrx].
    rx_simpl.
    change (len got) with (0 + len got) at 1.
    rewrite write_at_write_at;
      [| lia | unfold len at 3; rewrite repeat_length; lia].
    rewrite <- len_app. reflexivity.
Qed.

(** The ciphertext loop takes the piece that completes the frame. *)
Lemma enc_loop_last (fuel : nat) (w : world) (got q : list byte)
      (rest : list rx_event) :
  q <> [] -> got ++ q = body ->
  rx w = arrives_whole q ++ rest ->
  read_enc_loop (S fuel) w (holding got)
  = Some (LoopDone (set_rx w rest) (rx_full [h0; h1] body)).
Proof.
  intros Hq Hall Hrx.
  pose proof (len_nonneg got) as Hg.
  assert (Hlen : len got + len q = blen + 16).
  { rewrite <- len_app, Hall; exact body_length. }
  destruct q as [| b bs]; [congruence |].
  cbn [arrives_whole app] in Hrx.
  rewrite (read_enc_loop_fill _ w _ (write_at zeros 0 got) b bs rest);
    [| reflexivity | rx_simpl; lia | exact Hrx].
  rx_simpl.
  change (len got) with (0 + len got) at 1.
  rewrite write_at_write_at;
    [| lia | unfold len at 3; rewrite repeat_length; lia].
  rewrite Hall, (write_at_full _ body)
    by (rewrite repeat_length; pose proof body_length as Hb;
        unfold len in Hb; lia).
  reflexivity.
Qed.

(** A call whose header loop completes the header: the length is
    accepted, the buffer allocated, and the ciphertext loop takes what
    is there. *)
Lemma call_after_header (w w' : world) (st0 : crypto_rx_t) (q : list byte)
      (rest : list rx_event) :
  read_len_loop 2 w st0 = Some (LoopDone w' (mkRx [h0; h1] 2 0 None 0 0)) ->
  hd true (heap w') = true ->
  (len q < blen + 16 ->
   rx w' = arrives_whole q ++ RxFail EAGAIN :: rest ->
   exists w1,
     read_block w (conn_at st0) buffer_size
     = Some (ExitEncAgain, [], w1, conn_at (holding q)) /\
     rx w1 = rest /\ tx w1 = tx w' /\ wire w1 = wire w' /\
     heap w1 = tl (heap w') /\
     trace w1 = trace w' ++ [EvMalloc (blen + 16) true]) /\
  (q = body ->
   rx w' = arrives_whole q ++ rest ->
   exists w1,
     read_block w (conn_at st0) buffer_size
     = finish w1 sess (rx_full [h0; h1] body) buffer_size /\
     rx w1 = rest /\ tx w1 = tx w' /\ wire w1 = wire w' /\
     heap w1 = tl (heap w') /\
     trace w1 = trace w' ++ [EvMalloc (blen + 16) true]).
Proof.
  intros Hloop Hheap.
  unfold rtsp_crypto_read_block; rx_simpl. rewrite Hloop.
  unfold begin_block; rx_simpl.
  destruct (Z.eqb_spec blen 0); [lia |].
  destruct (Z.gtb_spec blen MAX); [lia |].
  destruct (Z.gtb_spec blen buffer_size); [lia |].
  cbn [orb].
  destruct (malloc_ok w' (blen + 16) Hheap)
    as (w2 & -> & Rx2 & Tx2 & Wi2 & Hp2 & Tr2).
  rx_simpl.
  change (mkRx [h0; h1] 2 blen (Some zeros) (blen + 16) 0) with (holding (@nil Z)).
  split.
  - intros Hlt Hrx.
    replace (Z.to_nat (blen + 16 - 0)) with (S (S (Z.to_nat (blen + 14)))) by lia.
    rewrite (enc_loop_piece _ w2 (@nil Z) q rest);
      [| change (len (@nil Z)) with 0; lia | congruence].
    exists (set_errno (set_rx w2 rest) EAGAIN); split; [reflexivity |].
    repeat split; assumption.
  - intros Hq Hrx.
    replace (Z.to_nat (blen + 16 - 0)) with (S (Z.to_nat (blen + 15))) by lia.
    rewrite (enc_loop_last _ w2 (@nil Z) q rest);
      [| intros E; pose proof body_length as Hb; rewrite <- Hq, E in Hb;
         change (len (@nil Z)) with 0 in Hb; lia
       | exact Hq | congruence].
    exists (set_rx w2 rest); split; [reflexivity |].
    repeat split; assumption.
Qed.

Lemma holding_firstn (j m : nat) (p : list byte) :
  firstn m (skipn j body) = p ->
  firstn j body ++ p = firstn (j + m) body.
Proof. intros <-; apply firstn_add_skipn. Qed.

(** One call on a piece that does not complete the frame: the call
    takes exactly the piece and returns 0. *)
Lemma call_piece (k : nat) (p : list byte) (w : world)
      (rest : list rx_event) :
  p <> [] ->
  (k + length p < length f)%nat ->
  firstn (length p) (skipn k f) = p ->
  rx w = arrives_whole p ++ RxFail EAGAIN :: rest ->
  ((k < 2)%nat -> hd true (heap w) = true) ->
  let crossing := (k <? 2)%nat && (2 <=? k + length p)%nat in
  exists e w1,
    read_block w (conn_at (pending lb f k)) buffer_size
    = Some (e, [], w1, conn_at (pending lb f (k + length p))) /\
    is_again e = true /\
    rx w1 = rest /\ tx w1 = tx w /\ wire w1 = wire w /\
    heap w1 = (if crossing then tl (heap w) else heap w) /\
    trace w1
    = trace w ++ (if crossing then [EvMalloc (blen + 16) true] else []).
Proof.
  intros Hp Hlt Hfirst Hrx Hheap crossing.
  assert (Hbl : length body = Z.to_nat (blen + 16)).
  { pose proof body_length as Hb; unfold len in Hb; lia. }
  destruct k as [| [| j]].
  - (* nothing taken yet *)
    cbn [skipn] in Hfirst.
    destruct p as [| x [| y q]]; [congruence | |].
    + cbn [length firstn] in Hfirst. inversion Hfirst; subst x.
      exists ExitLenAgain, (set_errno (set_rx w rest) EAGAIN).
      split; [apply call_first_byte; exact Hrx |].
      subst crossing; cbn. rewrite app_nil_r. repeat split.
    + cbn [length firstn] in Hfirst. inversion Hfirst as [[Hx Hy Hq]].
      subst x y. rewrite Hq in *.
      destruct (call_after_header w
                  (set_rx w (arrives_whole q ++ RxFail EAGAIN :: rest))
                  (mkRx lb 0 0 None 0 0) q rest) as (Hpart & _).
      { rewrite (read_len_loop_whole w (mkRx lb 0 0 None 0 0) h0 h1 q
                   (RxFail EAGAIN :: rest) eq_refl lb_length);
          [reflexivity |].
        rewrite Hrx; reflexivity. }
      { apply Hheap; lia. }
      destruct Hpart as (w1 & Hcall & R & T & W & H & Tr);
        [| reflexivity |].
      { cbn [length] in Hlt. unfold len; lia. }
      exists ExitEncAgain, w1.
      split.
      { cbn [pending Nat.add length Nat.sub firstn skipn].
        rewrite Nat.sub_0_r, Hq. exact Hcall. }
      subst crossing; cbn [Nat.ltb Nat.leb Nat.add length andb].
      repeat split; assumption.
  - (* the first length byte taken *)
    cbn [skipn] in Hfirst.
    destruct p as [| y q]; [congruence |].
    cbn [length firstn] in Hfirst. inversion Hfirst as [[Hy Hq]].
    subst y. rewrite Hq in *.
    destruct (call_after_header w
                (set_rx w (arrives_whole q ++ RxFail EAGAIN :: rest))
                (mkRx (write_at lb 0 [h0]) 1 0 None 0 0) q rest)
      as (Hpart & _).
    { rewrite (read_len_loop_take_second w
                 (mkRx (write_at lb 0 [h0]) 1 0 None 0 0) h1 q
                 (RxFail EAGAIN :: rest) eq_refl);
        [| rewrite Hrx; reflexivity].
      rx_simpl.
      destruct (write_at_two lb h0 h1 lb_length) as (_ & ->). reflexivity. }
    { apply Hheap; lia. }
    destruct Hpart as (w1 & Hcall & R & T & W & H & Tr);
      [| reflexivity |].
    { cbn [length] in Hlt. unfold len; lia. }
    exists ExitEncAgain, w1.
    split.
    { cbn [pending Nat.add length Nat.sub firstn skipn].
      rewrite Nat.sub_0_r, Hq. exact Hcall. }
    subst crossing; cbn [Nat.ltb Nat.leb Nat.add length andb].
    repeat split; assumption.
  - (* in the ciphertext *)
    cbn [skipn] in Hfirst.
    assert (Hj : (j + length p < length body)%nat)
      by (cbn [length] in Hlt; lia).
    assert (Hgot : len (firstn j body) = Z.of_nat j).
    { unfold len; rewrite length_firstn; lia. }
    exists ExitEncAgain, (set_errno (set_rx w rest) EAGAIN).
    split.
    { replace (S (S j) + length p)%nat with (S (S (j + length p))) by lia.
      cbn [pending Nat.sub firstn skipn]. rewrite !Nat.sub_0_r.
      unfold rtsp_crypto_read_block; rx_simpl.
      rewrite read_len_loop_done by reflexivity.
      unfold begin_block; rx_simpl.
      replace (Z.to_nat (blen + 16 - len (firstn j body)))
        with (S (S (Z.to_nat (blen + 16 - len (firstn j body) - 2))))
        by (rewrite Hgot; destruct p; [congruence | cbn [length] in Hj; lia]).
      rewrite (enc_loop_piece _ w (firstn j body) p rest);
        [| rewrite Hgot; unfold len; lia | exact Hrx].
      rewrite (holding_firstn j (length p) p Hfirst). reflexivity. }
    subst crossing; cbn [Nat.ltb Nat.leb andb]. rewrite app_nil_r.
    repeat split.
Qed.

(** One call on the piece that completes the frame. *)
Lemma call_last_piece (k : nat) (w : world) (rest : list rx_event) :
  (k < length f)%nat ->
  rx w = arrives_whole (skipn k f) ++ rest ->
  ((k < 2)%nat -> hd true (heap w) = true) ->
  exists w1,
    read_block w (conn_at (pending lb f k)) buffer_size
    = finish w1 sess (rx_full [h0; h1] body) buffer_size /\
    rx w1 = rest /\ tx w1 = tx w /\ wire w1 = wire w /\
    heap w1 = (if (k <? 2)%nat then tl (heap w) else heap w) /\
    trace w1
    = trace w ++ (if (k <? 2)%nat then [EvMalloc (blen + 16) true] else []).
Proof.
  intros Hlt Hrx Hheap.
  destruct k as [| [| j]].
  - cbn [skipn] in Hrx.
    destruct (call_after_header w (set_rx w (arrives_whole body ++ rest))
                (mkRx lb 0 0 None 0 0) body rest) as (_ & Hlast).
    { rewrite (read_len_loop_whole w (mkRx lb 0 0 None 0 0) h0 h1 body
                 rest eq_refl lb_length); [reflexivity | exact Hrx]. }
    { apply Hheap; lia. }
    destruct (Hlast eq_refl eq_refl) as (w1 & Hcall & R & T & W & H & Tr).
    exists w1; split; [exact Hcall |].
    cbn [Nat.ltb Nat.leb]. repeat split; assumption.
  - cbn [skipn] in Hrx.
    destruct (call_after_header w (set_rx w (arrives_whole body ++ rest))
                (mkRx (write_at lb 0 [h0]) 1 0 None 0 0) body rest)
      as (_ & Hlast).
    { rewrite (read_len_loop_take_second w
                 (mkRx (write_at lb 0 [h0]) 1 0 None 0 0) h1 body rest
                 eq_refl); [| exact Hrx].
      rx_simpl.
      destruct (write_at_two lb h0 h1 lb_length) as (_ & ->). reflexivity. }
    { apply Hheap; lia. }
    destruct (Hlast eq_refl eq_refl) as (w1 & Hcall & R & T & W & H & Tr).
    exists w1; split; [exact Hcall |].
    cbn [Nat.ltb Nat.leb]. repeat split; assumption.
  - cbn [skipn] in Hrx. cbn [length] in Hlt.
    assert (Hgot : len (firstn j body) = Z.of_nat j).
    { unfold len; rewrite length_firstn; lia. }
    exists (set_rx w rest).
    split.
    { cbn [pending Nat.sub firstn skipn]. rewrite Nat.sub_0_r.
      unfold rtsp_crypto_read_block; rx_simpl.
      rewrite read_len_loop_done by reflexivity.
      unfold begin_block; rx_simpl.
      pose proof body_length as Hb. unfold len in Hb.
      replace (Z.to_nat (blen + 16 - len (firstn j body)))
        with (S (Z.to_nat (blen + 16 - len (firstn j body) - 1)))
        by (rewrite Hgot; lia).
      rewrite (enc_loop_last _ w (firstn j body) (skipn j body) rest);
        [reflexivity | | apply firstn_skipn | exact Hrx].
      intros E. apply (f_equal (@length byte)) in E.
      rewrite length_skipn in E. simpl in E; lia. }
    cbn [Nat.ltb Nat.leb]. rewrite app_nil_r. repeat split.
Qed.

(** As many calls as there are pieces. *)
Lemma drive_pieces (parts : list (list byte)) :
  forall (k : nat) (w : world),
    parts <> [] ->
    Forall (fun p => p <> []) parts ->
    skipn k f = concat parts ->
    (k < length f)%nat ->
    rx w = arrives_in parts ->
    ((k < 2)%nat -> hd true (heap w) = true) ->
    exists w1,
      drive (length parts) w (conn_at (pending lb f k)) buffer_size
      = finish w1 sess (rx_full [h0; h1] body) buffer_size /\
      rx w1 = [] /\ tx w1 = tx w /\ wire w1 = wire w /\
      heap w1 = (if (k <? 2)%nat then tl (heap w) else heap w) /\
      trace w1
      = trace w ++ (if (k <? 2)%nat then [EvMalloc (blen + 16) true] else []).
Proof.
  induction parts as [| p ps IH]; intros k w Hne Hall Hcat Hk Hrx Hheap;
    [congruence |].
  destruct ps as [| p2 ps].
  - cbn [concat] in Hcat. rewrite app_nil_r in Hcat.
    cbn [arrives_in] in Hrx.
    destruct (call_last_piece k w [] Hk) as (w1 & Hcall & Hrest);
      [rewrite Hcat, app_nil_r; exact Hrx | exact Hheap |].
    exists w1; split; [| exact Hrest].
    apply (read_until_done_finish RTSP_ENCRYPTED_BLOCK_MAX aead_decrypt).
    exact Hcall.
  - inversion Hall as [| ? ? Hp Hall']; subst.
    inversion Hall' as [| ? ? Hp2 _]; subst.
    change (arrives_in (p :: p2 :: ps))
      with (arrives_whole p ++ RxFail EAGAIN :: arrives_in (p2 :: ps)) in Hrx.
    cbn [concat] in Hcat.
    assert (Hlen : (length f - k = length p + length (concat (p2 :: ps)))%nat).
    { rewrite <- length_skipn, Hcat, length_app. reflexivity. }
    assert (Hp2len : (1 <= length (concat (p2 :: ps)))%nat).
    { cbn [concat]; rewrite length_app.
      destruct p2; [congruence | simpl; lia]. }
    destruct (call_piece k p w (arrives_in (p2 :: ps)) Hp)
      as (e & w1 & Hcall & He & R & T & W & H & Tr);
      [lia | rewrite Hcat, firstn_app, firstn_all, Nat.sub_diag, firstn_O,
                     app_nil_r; reflexivity
       | exact Hrx | exact Hheap |].
    destruct (IH (k + length p)%nat w1) as (w2 & Hrun & R2 & T2 & W2 & H2 & Tr2).
    + discriminate.
    + exact Hall'.
    + rewrite <- (skipn_add k (length p)), Hcat, skipn_app, skipn_all,
        Nat.sub_diag. reflexivity.
    + lia.
    + exact R.
    + intros Hk'. rewrite H.
      destruct (Nat.leb_spec 2 (k + length p)); [lia |].
      rewrite andb_false_r. apply Hheap; lia.
    + exists w2.
      split.
      { change (length (p :: p2 :: ps)) with (S (length (p2 :: ps))).
        rewrite (read_until_done_again RTSP_ENCRYPTED_BLOCK_MAX aead_decrypt
                   _ w w1 _ _ e [] buffer_size Hcall He).
        exact Hrun. }
      split; [exact R2 |].
      split; [congruence |].
      split; [congruence |].
      rewrite H2, Tr2, H, Tr.
      destruct (Nat.ltb_spec k 2); destruct (Nat.ltb_spec (k + length p) 2);
        destruct (Nat.leb_spec 2 (k + length p)); cbn [andb];
        try lia; rewrite ?app_nil_r, <- ?app_assoc; split; reflexivity.
Qed.

End Segments.

Section Segmentation.

Variable RTSP_ENCRYPTED_BLOCK_MAX : Z.
Variable aead_decrypt :
  list byte -> list byte -> list byte -> list byte -> option (list byte).

Local Abbreviation MAX := RTSP_ENCRYPTED_BLOCK_MAX (only parsing).

(** X27.  The outcome of reading a frame does not depend on how the socket
    cuts it.  Let the bytes of a frame the reader accepts reach an idle
    reader in any number of non-empty pieces, the socket having nothing
    more to give after each piece but the last (a piece may end inside
    the length header, between header and ciphertext, or anywhere in
    the ciphertext).  Calling the reader once per piece gives, in the
    last call, the same return, the same bytes in the caller's buffer,
    the same connection state and the same allocator and AEAD events as
    the single call that finds the whole frame: the plaintext with the
    inbound counter advanced by one, or the authentication failure with
    the counter unchanged (and zeros where the plaintext would have been
    stored).  (The allocation of the ciphertext buffer is taken to
    succeed.) *)
Theorem read_block_any_segmentation
        (w : world) (conn : rtsp_conn_t) (sess : hap_session_t)
        (buffer_size : Z) (f : list byte) (parts : list (list byte)) :
  hap_session conn = Some sess ->
  encrypted_mode conn = true ->
  rx_idle (crypto_rx conn) ->
  length (len_buf (crypto_rx conn)) = 2%nat ->
  frame_shaped MAX buffer_size f ->
  Forall (fun p => p <> []) parts ->
  concat parts = f ->
  hd true (heap w) = true ->
  exists e out w1 w2 conn',
    read_until_done MAX aead_decrypt (length parts)
                    (set_rx w (arrives_in parts)) conn buffer_size
    = Some (e, out, w1, conn') /\
    rtsp_crypto_read_block MAX aead_decrypt (set_rx w (arrives_whole f)) conn
                           buffer_size
    = Some (e, out, w2, conn') /\
    is_again e = false /\
    rx w1 = [] /\ rx w2 = [] /\
    trace w1 = trace w2 /\ heap w1 = heap w2 /\
    match aead_decrypt (decrypt_key sess) (make_nonce (decrypt_nonce sess))
                       (firstn 2 f) (skipn 2 f) with
    | Some m =>
        out = m /\
        e = (if len m >? buffer_size then ExitTooLarge
             else ExitOk (to_int (len m))) /\
        hap_session conn' = Some (bump_decrypt sess)
    | None =>
        out = repeat 0 (Z.to_nat (decode_len (firstn 2 f))) /\
        e = ExitDecryptFail /\ hap_session conn' = Some sess
    end.
Proof.
  intros Hs Hm (I1 & I2 & I3 & I4 & I5) Hlb Hshape Hparts Hcat Hheap.
  destruct conn as [os md [lb lr bl enc el er]]; rx_simpl_all; subst os md.
  subst lr bl enc el er.
  pose proof Hshape as (Hn & Hb & Hlen).
  destruct f as [| h0 [| h1 body]];
    try (unfold len in Hlen; cbn [length firstn] in Hlen, Hn; lia).
  cbn [firstn skipn] in *.
  assert (Hbody : len body = decode_len [h0; h1] + 16)
    by (rewrite !len_cons in Hlen; lia).
  assert (Hne : parts <> []) by (intros E; rewrite E in Hcat; discriminate).
  destruct (drive_pieces MAX aead_decrypt sess lb h0 h1 body buffer_size
              Hlb Hn Hb Hbody parts O (set_rx w (arrives_in parts)) Hne Hparts)
    as (wa & Hrun & Ra & Ta & Wa & Ha & Tra);
    [symmetry; exact Hcat | simpl; lia | reflexivity
     | intros _; exact Hheap |].
  destruct (call_last_piece MAX aead_decrypt sess lb h0 h1 body buffer_size
              Hlb Hn Hb Hbody O (set_rx w (arrives_whole (h0 :: h1 :: body)))
              [])
    as (wb & Hcall & Rb & Tb & Wb & Hb' & Trb);
    [simpl; lia | cbn [skipn rx set_rx]; rewrite app_nil_r; reflexivity
     | intros _; exact Hheap |].
  cbn [Nat.ltb Nat.leb heap trace tx wire set_rx]
    in Ha, Tra, Hb', Trb, Ta, Wa, Tb, Wb.
  cbn [pending] in Hrun, Hcall.
  destruct (finish_block_agree aead_decrypt wa wb sess [h0; h1] body
              buffer_size)
    as (e & out & wa' & wb' & conn' & F1 & F2 & (S1 & _ & _ & S4 & S5)
        & Hnot & Rwa & _ & Hres);
    [repeat split; congruence | reflexivity | exact Hbody |].
  exists e, out, wa', wb', conn'.
  split; [exact (eq_trans Hrun F1) |].
  split; [exact (eq_trans Hcall F2) |].
  split; [exact Hnot |].
  split; [congruence |].
  split; [congruence |].
  split; [congruence |].
  split; [congruence |].
  destruct (aead_decrypt _ _ _ _) as [m |].
  - destruct Hres as (-> & -> & ->). repeat split.
  - destruct Hres as (-> & -> & ->). repeat split.
Qed.

End Segmentation.

(** The frame of "HELLO" in three pieces: one length byte; the other
    length byte with two bytes of ciphertext; the rest. *)
Lemma read_block_any_segmentation_witness :
  exists w1 w2 conn',
    read_until_done 1024 toy_decrypt 3
      (set_rx quiet_world
         (arrives_in
            [firstn 1 (frame toy_encrypt toy_key 0 hello);
             firstn 3 (skipn 1 (frame toy_encrypt toy_key 0 hello));
             skipn 4 (frame toy_encrypt toy_key 0 hello)]))
      (toy_conn 0) 64
    = Some (ExitOk 5, hello, w1, conn') /\
    rtsp_crypto_read_block 1024 toy_decrypt
      (set_rx quiet_world (arrives_whole (frame toy_encrypt toy_key 0 hello)))
      (toy_conn 0) 64
    = Some (ExitOk 5, hello, w2, conn').
Proof.
  destruct (read_block_any_segmentation 1024 toy_decrypt quiet_world
              (toy_conn 0) (toy_session 0) 64
              (frame toy_encrypt toy_key 0 hello)
              [firstn 1 (frame toy_encrypt toy_key 0 hello);
               firstn 3 (skipn 1 (frame toy_encrypt toy_key 0 hello));
               skipn 4 (frame toy_encrypt toy_key 0 hello)])
    as (e & out & w1 & w2 & conn' & H1 & H2 & _ & _ & _ & _ & _ & Hres).
  - reflexivity.
  - reflexivity.
  - exact rx_zero_idle.
  - reflexivity.
  - vm_compute; repeat split; try reflexivity; intros H; discriminate H.
  - repeat constructor; discriminate.
  - vm_compute; reflexivity.
  - reflexivity.
  - vm_compute in Hres. destruct Hres as (-> & -> & _).
    exists w1, w2, conn'; split; [exact H1 | exact H2].
Defined.
